(* ===== verification/_CoqProject ===== *)
-Q . S2P
Prelude.v
PyInt.v
Primality.v
Words.v
Reduce.v
PrimeField.v
Comb.v
FeMul.v
ScalarInv.v
PyStr.v
Emitted.v
Regex.v
AsmParse.v
GcmCtr.v
Dataflow.v
Abi.v
RegPressure.v
Clobbers.v
Mutations.v
PyFloat.v
Json.v
JsonText.v
Reports.v
Vectors.v
Interop.v
Bench.v
Minimize.v
WidthGuard.v
SyscallAudit.v
Samples.v
RegexText.v
Directives.v
Differential.v
Soak.v
Llm.v
Tools.v
Disasm.v
Strategy.v
Optimizer.v
Cli.v
NoiseFloor.v
H2Client.v
H2Frames.v
Workload.v
Scenarios.v
ServerTests.v
Commands.v
Derive.v
