(* ===== verification/Prelude.v ===== *)
(** * The sarm tooling: a verification library

    sarm is an HTTPS server written in AArch64 assembly.  What surrounds it is
    a Python program of its own: scripts that derive the server's P-256
    arithmetic and hold the model the assembly is ported from, a parser and
    static checkers for the assembly, an optimiser that rewrites functions of
    it under tests and benchmarks, and the clients, fuzzers and profilers that
    drive the server.  This library models that program, file by file, and
    proves what makes each part correct.

    ** The parts and where they are modelled

    All paths are under [src/].  A definition has the name of the function,
    method or class it translates; a method takes the state of its object and
    returns the new one.

    Foundations.
    - [Prelude]: the exceptions, the error monad [result] in stdpp's notation
      ([x ← m; ..]), loops that may raise with their invariant rules, and
      stable sorting.
    - [PyInt], [PyStr], [PyFloat], [Regex]: the parts of Python the scripts
      use: [pow], bytes and integers, insertion-ordered dictionaries; [str]
      methods; binary64 arithmetic with conversion and formatting; the [re]
      module as a pattern parser and a backtracking matcher, so that every
      pattern in the model is the source's own text.  [RegexText] holds
      lemmas about the matches of a pattern in a literal text.
    - [Json], [JsonText]: [json.loads] and [json.dumps], and that the first
      reads back what the second prints.
    - [Primality], [PrimeField]: the field modulus and the group order are
      prime (Pocklington certificates), hence the field inverse.
    - [Dataflow]: the round-robin iteration of [scripts/abi.py], which the
      analyses share, and its exactness.

    The derivations of the P-256 and AES-GCM code.
    - [Words]: 64-bit limbs and the carry chain all the derivations contain.
    - [Reduce]: [scripts/p256_reduce_derivation.py].
    - [FeMul]: [scripts/p256_fe_mul_derivation.py], on top of [Reduce].
    - [ScalarInv]: [scripts/p256_scalar_inv_derivation.py].
    - [Comb]: [scripts/p256_comb_derivation.py].
    - [GcmCtr]: [scripts/gcm_ctr_sweep_derivation.py].
    - [Emitted]: the data files [gen_table] and [gen_chain] print for the
      server, a reference assembler for their directives, and the loop of
      [src/crypto/p256_scalar/inv.S] that interprets one of them.
    - [Vectors]: the C test files the derivations print, and a reader of the
      literals in them.  [Interop]: the comparisons with OpenSSL.
      [Derive]: the scripts' command lines, from a command to what they print
      and their exit status.

    The assembly parser and its clients.
    - [AsmParse]: [scripts/asmparse.py]: lines, operands, macros, platform
      conditionals, regions, the tree-wide index.
    - [Abi]: [scripts/abi.py]: instruction effects, the control-flow graph,
      the callee-saved analysis and the two flag analyses.
    - [RegPressure]: [scripts/regpressure.py]: liveness and clobber sets, over
      the graph of [Abi].
    - [Clobbers]: [scripts/validate_clobbers.py]: documented clobber sets,
      compared with those of [RegPressure].
    - [Reports], [Commands]: what the command lines of [RegPressure],
      [Clobbers], [Abi], [AsmParse] and [SyscallAudit] print, as text and as
      JSON, and the status they exit with.
    - [Directives]: [scripts/add_symbol_directives.py].
    - [WidthGuard]: [scripts/width_guard.py].
    - [SyscallAudit]: [scripts/syscall_audit.py].
    - [Samples]: [scripts/profile_samples.py] and [scripts/count_calls.py].

    The optimiser.
    - [Mutations]: [scripts/mutations/]: no-op removal, the list scheduler,
      the loop unrollers; and [scripts/_mutation_test.py], which prints them.
    - [Bench]: [scripts/common.py], [compiler.py], [benchmark.py].
    - [Llm]: [scripts/llm.py].  [Tools], [Disasm]: [scripts/mca.py],
      [perf.py], [disassembler.py].
    - [Strategy]: [scripts/strategy.py].
    - [Optimizer]: [scripts/optimizer.py], which calls all of these.
    - [Cli]: [scripts/arm-optimize.py], from arguments to a configuration.
    - [NoiseFloor]: [scripts/benchmarks/measure_noise_floor.py], whose file
      [Cli] reads.

    Testing and measurement.
    - [Minimize]: [scripts/fuzz_minimize.py].  [Soak]: [scripts/fuzz_soak.py],
      which runs it.
    - [Differential]: [scripts/differential.py].
    - [H2Client], [H2Frames]: the HTTP/2 client of [tests/h2_browser_sim.py]:
      the connection, and what is proved of it.
    - [Scenarios]: the scenarios of [tests/h2_browser_sim.py] and its [main].
    - [Workload]: [scripts/profile_workload.py], over that client.
    - [ServerTests]: [tests/trace_check.py], and the HTTP/1 client of
      [tests/multicore_checks.py] with its reference and its comparison.

    ** State, errors and the outside world

    Fallible code returns [result A]: a value or the exception it raises, with
    the message where the program inspects or returns it.  An assertion of the
    source is a raised [AssertionError], never an assumption, so that a
    theorem that a function returns says that no assertion of it fails.
    Stateful code passes its state explicitly, through small monads local to
    the component ([H2Client] threads the world and the connection; a request
    that raises keeps the state it had reached).  Loops that update a
    dictionary or an array in place are folds over the updated value, in the
    order of the source, since several analyses depend on it.

    What is outside the source is an interface or an argument: the spawning
    of processes ([Bench.Processes]), HTTP, temporary files and the files of
    an optimisation ([Llm], [Tools], [Optimizer], with the file laws the
    theorems use as a class of their own), the random generator and the two
    programs ([Differential]), the clock and the suites ([Soak], with the law
    that each round takes time), sockets, with a timed socket where
    waiting has to end ([H2Client], [Workload], [Scenarios], [ServerTests]),
    the profiler's host, the replay of a fuzz suite and the files of its
    corpus ([Minimize]), the AES block cipher and OpenSSL ([GcmCtr]),
    disassembler output, [nm] and [sample] output (arguments), path
    resolution ([Cli]), and the sum of floats, in which interpreters differ.
    Every law is a documented behaviour, and the witnesses instantiate each
    interface with a concrete one.

    ** What the theorems show

    - Arithmetic: [reduce_full] raises nothing and computes the residue mod
      [P] on all inputs, with an exact carry bound; [fe_mul_hw] and
      [mont_mul_hw] compute their products; [scalar_inv_hw] inverts;
      [scalar_mul_hw], [madd] and [comb_mul_base] refine the affine group
      operations; the two counter sequences agree.  The printed comb table
      assembles to the table, and the printed inversion program, interpreted
      as the server does, inverts.  The vectors of the generated C tests are
      what the models compute, and whatever the scripts draw at random, none
      of their own checks fails.
    - Parsing: parsed instructions are well formed; splitting operands loses
      nothing; selecting a platform while parsing equals preprocessing first;
      [scan_regions] yields disjoint regions, and all of them.
    - Analyses: liveness, reaching flag definitions, register liveness and
      clobber sets are exactly the facts that some path carries, in both
      directions; [check_function] accepts no function whose return can be
      reached with a callee-saved register changed; no
      undocumented clobber is missing from the validator's report.
    - Audits: the syscall audit passes exactly when what it scans is as
      declared; the annotator brackets each symbol it plans
      and changes nothing else; the cost report conserves samples.
    - The optimiser: a schedule is a permutation that respects dependencies;
      what the loop leaves on disk is the original or a candidate that passed
      every gate; the best measurement only descends; a strategy or command
      line that cannot be honoured is refused; a calibration written by one
      script is the noise floor read by the other.
    - Testing: the minimiser terminates and its result is a one-minimal
      finding; a differential run that passes has compared every
      case; the soak ends after its deadline; what the client sends decodes to
      the request under RFC 7541, its state does not depend on how the socket
      cuts the stream, and it gives back exactly the credit it consumed; the
      simulator's exit status is the verdict on the bytes the server sent; a
      streaming workload accounts for each request, and ends; the HTTP/1
      client reads each response back exactly, in order, and takes none that
      is cut short.

    ** Fuel

    Recursion that is not structural runs on fuel, and the fuel is shown
    enough or given by a bound the code itself has.  Scans of a text ([split],
    [finditer], the star of a regular expression, the label loop of a line,
    JSON) consume a character per turn, and take the length of the text plus
    one.  [Dataflow.solve] has the source's own bound of [n + 2] sweeps, and
    its exactness theorem shows that they reach the fixpoint.  Inverses take
    the bit length of the modulus; bisection takes the length of the list;
    the scheduler's heap loop takes the number of instructions.  The shrink
    loops of [Minimize] satisfy the equations of the source's loops.  The
    buffer loop of [H2Client] takes the length of the buffer, an HPACK integer
    the logarithm of its value.  Where only the clock ends a loop ([Soak],
    [Workload], [Scenarios]) running out is the exception [OutOfFuel], which is no
    exception of the program, and a liveness theorem shows that with enough
    fuel the loop returns.  A read of [ServerTests] ends with what arrives: as
    many turns as characters delivered are enough.

    ** Not modelled

    - The server itself ([src/src]): it is assembly; the derivations are the
      model its arithmetic is ported from, the checkers the model of what is
      verified of it.
    - The printed reports of the optimiser and the profilers, but for the
      report of a workload's summary; prose of prompts; argument parsers.
    - The other tests of the server: the threads and random mixtures of
      [tests/multicore_checks.py], and the Python, shell and C programs that
      run the server and state one expected answer after another.
    - Strings are sequences of 8-bit characters and character classes the
      ASCII ones; on ASCII text this is Python's behaviour.  Texts
      beyond ASCII are their UTF-8 bytes, which JSON escapes and reads back. *)

From Stdlib Require Export ZArith Lia.
From stdpp Require Export base tactics list gmap sets strings option.
From stdpp Require Import sorting.

#[global] Open Scope Z_scope.

(** ** Exceptions and the error monad *)

(** The exceptions the modelled code raises.  Messages are kept only where
    the code inspects or returns them.  [OutOfFuel] is no exception of the
    program: a loop that only its clock bounds was given too little fuel. *)
Inductive exn : Type :=
| AssertionError (msg : string)
| ValueError (msg : string)
| RuntimeError (msg : string)
| CandidateError (msg : string)
| StrategyTargetError (msg : string)
| IndexError
| KeyError
| TypeError
| AttributeError
| ZeroDivisionError
| OverflowError
| OSError
| StructError
| UnboundLocalError
| SystemExit (msg : string)
| Unusable (msg : string)
| OutOfFuel.

Inductive result (A : Type) : Type :=
| Ret (a : A)
| Raise (e : exn).
Arguments Ret {A} a.
Arguments Raise {A} e.

#[global] Instance result_ret : MRet result := @Ret.
#[global] Instance result_bind : MBind result := fun A B f m =>
  match m with Ret a => f a | Raise e => Raise e end.
#[global] Instance result_fmap : FMap result := fun A B f m =>
  match m with Ret a => Ret (f a) | Raise e => Raise e end.

(** [assert b, msg] *)
Definition py_assert (b : bool) (msg : string) : result unit :=
  if b then Ret () else Raise (AssertionError msg).

Definition is_ret {A} (m : result A) : bool :=
  match m with Ret _ => true | Raise _ => false end.

Lemma py_assert_true b msg : b = true -> py_assert b msg = Ret ().
Proof. by intros ->. Qed.

Lemma bind_Ret {X Y} (f : X -> result Y) (x : X) : (Ret x ≫= f) = f x.
Proof. reflexivity. Qed.

Lemma bind_Raise {X Y} (f : X -> result Y) e : (Raise e ≫= f) = Raise e.
Proof. reflexivity. Qed.

Lemma bind_Ret_inv {X Y} (f : X -> result Y) (m : result X) (y : Y) :
  (m ≫= f) = Ret y -> exists x, m = Ret x /\ f x = Ret y.
Proof. destruct m; [eauto|done]. Qed.

(** ** Loops *)

(** [for x in l: body] over a loop state. *)
Definition for_each {A S} (l : list A) (s : S) (body : S -> A -> S) : S :=
  foldl body s l.

(** [for x in l: body] when the body may raise. *)
Fixpoint for_result {A S} (l : list A) (s : S) (body : S -> A -> result S)
  : result S :=
  match l with
  | [] => Ret s
  | x :: l => s' ← body s x; for_result l s' body
  end.

(** ** Sorting

    [sorted(l, key=..)]: a stable insertion sort; [lt x y] says that [x] goes
    before an earlier [y]. *)
Section sort.
Context {A : Type} (lt : A -> A -> bool).

Fixpoint insert_by (x : A) (l : list A) : list A :=
  match l with [] => [x] | y :: l' => if lt x y then x :: l else y :: insert_by x l' end.
Definition sort_by (l : list A) : list A := for_each l [] (fun acc x => insert_by x acc).
End sort.

(** [for _ in range(n): changed = False; body; if not changed: break] *)
Fixpoint iter_changed {S} (n : nat) (body : S -> S * bool) (s : S) : S :=
  match n with
  | O => s
  | S n => let '(s', changed) := body s in
           if changed then iter_changed n body s' else s'
  end.

Lemma for_each_app {A S} (l1 l2 : list A) (s : S) body :
  for_each (l1 ++ l2) s body = for_each l2 (for_each l1 s body) body.
Proof. apply foldl_app. Qed.

(** The invariant rule of [for_each]: the property is indexed by the part of
    the list already visited. *)
Lemma for_each_ind {A S} (P : list A -> S -> Prop) (body : S -> A -> S) l s :
  P [] s ->
  (forall pre x post s, l = pre ++ x :: post -> P pre s -> P (pre ++ [x]) (body s x)) ->
  P l (for_each l s body).
Proof.
  intros H0 Hstep.
  assert (forall post pre s, l = pre ++ post -> P pre s ->
            P l (for_each post s body)) as Hgen.
  { induction post as [|x post IH]; intros pre s' Hl HP; simpl.
    - rewrite app_nil_r in Hl. by subst.
    - apply (IH (pre ++ [x])); [by rewrite <- app_assoc|].
      by eapply Hstep. }
  by apply (Hgen l []).
Qed.

(** A plain invariant, for loops whose property does not mention progress. *)
Lemma for_each_inv {A S} (P : S -> Prop) (body : S -> A -> S) l s :
  P s -> (forall s x, x ∈ l -> P s -> P (body s x)) -> P (for_each l s body).
Proof.
  intros H0 Hstep. apply (for_each_ind (fun _ s => P s)); [done|].
  intros pre x post s' -> HP. apply Hstep; [set_solver|done].
Qed.

(** Invariant rule for raising loops that never raise under the invariant. *)
Lemma for_result_ind {A S} (P : list A -> S -> Prop) body (l : list A) (s : S) :
  P [] s ->
  (forall pre x post s, l = pre ++ x :: post -> P pre s ->
     exists s', body s x = Ret s' /\ P (pre ++ [x]) s') ->
  exists s', for_result l s body = Ret s' /\ P l s'.
Proof.
  intros H0 Hstep.
  assert (forall post pre s, l = pre ++ post -> P pre s ->
            exists s', for_result post s body = Ret s' /\ P l s') as Hgen.
  { induction post as [|x post IH]; intros pre s' Hl HP; simpl.
    - rewrite app_nil_r in Hl. subst. eauto.
    - destruct (Hstep pre x post s' Hl HP) as (s'' & Hb & HP').
      rewrite Hb. simpl. apply (IH (pre ++ [x])); [by rewrite <- app_assoc|done]. }
  by apply (Hgen l []).
Qed.

Lemma for_result_app {A S} (l1 l2 : list A) (s : S) body :
  for_result (l1 ++ l2) s body = (s' ← for_result l1 s body; for_result l2 s' body).
Proof.
  revert s. induction l1 as [|x l1 IH]; intros s; [done|]. cbn [app for_result].
  destruct (body s x); [apply IH|done].
Qed.

(** Run the loop of the goal under an invariant. *)
Tactic Notation "loop_invariant" constr(P) "as" simple_intropattern(pat) :=
  match goal with |- context [for_result ?l ?s ?body] =>
    assert (exists s', for_result l s body = Ret s' /\ P l s') as pat; [apply (for_result_ind P)|]
  end.

(** ** Lemmas: sorting *)

Section sort_lemmas.
Context {A : Type} (lt : A -> A -> bool).

Lemma insert_by_perm x l : insert_by lt x l ≡ₚ x :: l.
Proof.
  induction l as [|y l IH]; [done|]. cbn [insert_by]. destruct (lt x y); [done|]. rewrite IH. apply perm_swap.
Qed.

Lemma sort_by_perm l : sort_by lt l ≡ₚ l.
Proof.
  unfold sort_by. assert (forall acc, for_each l acc (fun acc x => insert_by lt x acc) ≡ₚ acc ++ l) as H; [|by rewrite (H [])].
  induction l as [|y l IH]; intros acc; [by rewrite app_nil_r|].
  change (for_each l (insert_by lt y acc) (fun acc x => insert_by lt x acc) ≡ₚ acc ++ y :: l).
  rewrite IH, insert_by_perm. by rewrite <- Permutation_middle.
Qed.

(** An order the comparison decides on the elements that satisfy [P]. *)
Context (P : A -> Prop) (R : relation A).
Hypothesis R_trans : forall x y z, P x -> P y -> P z -> R x y -> R y z -> R x z.
Hypothesis lt_before : forall x y, P x -> P y -> lt x y = true -> R x y.
Hypothesis lt_after : forall x y, P x -> P y -> lt x y = false -> R y x.

Lemma insert_by_sorted x l : P x -> Forall P l -> StronglySorted R l -> StronglySorted R (insert_by lt x l).
Proof.
  intros Hx Hl. induction Hl as [|y l Hy Hl IH]; intros Hs; [by repeat constructor|]. cbn [insert_by].
  apply StronglySorted_inv in Hs as [Hs Hyl]. destruct (lt x y) eqn:E.
  - apply lt_before in E; [|done..]. constructor; [by constructor|]. constructor; [done|].
    rewrite list.Forall_forall in *. intros z Hz. eapply (R_trans x y z); auto.
  - apply lt_after in E; [|done..]. constructor; [by apply IH|]. rewrite insert_by_perm. by constructor.
Qed.

Lemma sort_by_sorted l : Forall P l -> StronglySorted R (sort_by lt l).
Proof.
  intros Hl. rewrite list.Forall_forall in Hl.
  apply (for_each_inv (fun acc => Forall P acc /\ StronglySorted R acc)); [by repeat constructor|].
  intros acc x Hx [Ha Hs]. specialize (Hl x Hx). split; [rewrite insert_by_perm; by constructor|by apply insert_by_sorted].
Qed.
End sort_lemmas.

Lemma elem_of_sort_by {A} (lt : A -> A -> bool) l x : x ∈ sort_by lt l <-> x ∈ l.
Proof. by rewrite sort_by_perm. Qed.

Lemma iter_changed_inv {S} (P : S -> Prop) n (body : S -> S * bool) s :
  P s -> (forall s, P s -> P (body s).1) -> P (iter_changed n body s).
Proof.
  revert s. induction n as [|n IH]; intros s H0 Hstep; simpl; [done|].
  specialize (Hstep s H0) as H1. destruct (body s) as [s' []]; auto.
Qed.

(** When an unchanged round is a no-op, the early exit does not matter. *)
Lemma iter_changed_iter {S} n (body : S -> S * bool) s :
  (forall s s', body s = (s', false) -> s' = s) ->
  iter_changed n body s = Nat.iter n (fun s => (body s).1) s.
Proof.
  intros Hstop. revert s. induction n as [|n IH]; intros s; [done|].
  cbn [iter_changed]. rewrite Nat.iter_succ_r. destruct (body s) as [s' []] eqn:E; [apply IH|].
  pose proof (Hstop _ _ E) as ->. cbn [fst]. clear IH. induction n as [|n IH]; [done|].
  cbn [Nat.iter nat_rect]. unfold Nat.iter in IH. rewrite <- IH, E. done.
Qed.

(** A property of all elements holds of the one read by [l[i]]. *)
Lemma Forall_total {A} `{Inhabited A} (P : A -> Prop) (l : list A) (i : nat) :
  Forall P l -> (i < length l)%nat -> P (l !!! i).
Proof.
  intros HF Hi. eapply (Forall_lookup_1 P l i); [done|].
  by apply list_lookup_lookup_total_lt.
Qed.

(** A property of finitely many indices, checked one by one. *)
Lemma forall_range (P : nat -> Prop) (a n : nat) :
  Forall P (seq a n) -> forall i, (a <= i < a + n)%nat -> P i.
Proof.
  intros HF i Hi. rewrite List.Forall_forall in HF. apply HF. apply in_seq. lia.
Qed.

(** A loop over a list adds nothing exactly when no turn adds anything. *)
Lemma bind_nil {A B} (f : A -> list B) l : l ≫= f = [] <-> forall x, x ∈ l -> f x = [].
Proof.
  induction l as [|y l IH]; cbn [mbind list_bind].
  - split; [intros _ x Hx; by apply elem_of_nil in Hx|done].
  - split.
    + intros [Hy Hl]%app_eq_nil x [->|Hx]%elem_of_cons; [done|]. by apply IH.
    + intros H. rewrite (H y) by left. apply IH. intros x Hx. apply H. by right.
Qed.

(** ** Small arithmetic lemmas *)

Lemma Z_land_ones_mod x n : 0 <= n -> Z.land x (2 ^ n - 1) = x mod 2 ^ n.
Proof. intros. rewrite <- Z.land_ones by done. f_equal. rewrite Z.ones_equiv. lia. Qed.

Lemma Z_split_mod x m : 0 < m -> x = m * (x / m) + x mod m.
Proof. intros. apply Z.div_mod. lia. Qed.

(** Disjoint bit fields: [x | (y << n)] is [x + 2^n * y]. *)
Lemma lor_shiftl_add x y n : 0 <= n -> 0 <= x < 2 ^ n ->
  Z.lor x (Z.shiftl y n) = x + 2 ^ n * y.
Proof.
  intros Hn Hx. rewrite Z.shiftl_mul_pow2 by done.
  assert (Z.land x (y * 2 ^ n) = 0) as Hland.
  { apply Z.bits_inj'. intros k Hk. rewrite Z.land_spec, Z.bits_0.
    destruct (Z_lt_ge_dec k n).
    - rewrite Z.mul_pow2_bits_low by lia. by rewrite andb_false_r.
    - replace x with (x mod 2 ^ n) by (by apply Z.mod_small).
      by rewrite Z.mod_pow2_bits_high by lia. }
  rewrite <- Z.lxor_lor by done. rewrite <- Z.add_nocarry_lxor by done. lia.
Qed.

(** ** Tactics *)

(** Split a conjunction of arithmetic facts and close each with [lia]. *)
Ltac lia_all := repeat match goal with |- _ /\ _ => split end; try lia.

(** Case analysis on every [if]/[match] scrutinee of boolean type. *)
Ltac bool_cases :=
  repeat match goal with
  | |- context [if ?b then _ else _] => destruct b eqn:?
  | H : context [if ?b then _ else _] |- _ => destruct b eqn:?
  end.

(** Split a [Forall] over a literal list into its elements. *)
Ltac forall_elems tac := repeat (apply List.Forall_cons; [tac|]); apply List.Forall_nil.

Create HintDb sarm.

(** ** Filters *)

Lemma filter_none {A} (P : A -> Prop) `{HP : forall x, Decision (P x)} l : filter P l = [] <-> forall x, x ∈ l -> ~ P x.
Proof.
  split.
  - intros E x Hx HPx. apply (not_elem_of_nil x). rewrite <- E. by rewrite list_elem_of_filter.
  - intros H. destruct (filter P l) as [|x k] eqn:E; [done|]. exfalso.
    assert (x ∈ filter P l) as [HPx Hx]%list_elem_of_filter by (rewrite E; left). by apply (H x).
Qed.
