(* ===== verification/PyInt.v ===== *)
(** * Python integer and dictionary builtins

    The parts of the Python language the modelled scripts rely on: three
    argument [pow] (exponentiation and modular inverse), big-endian byte
    conversion, binary digits, and insertion-ordered dictionaries. *)

From S2P Require Import Prelude.
From Stdlib Require Import Zpow_facts Znumtheory.

(** ** [pow(b, e, m)] *)

Definition py_pow_mod (b e m : Z) : Z := Zpow_mod b e m.

Lemma py_pow_mod_spec b e m : 1 < m -> py_pow_mod b e m = b ^ e mod m.
Proof. intros. unfold py_pow_mod. apply Zpow_mod_correct. lia. Qed.

(** ** [pow(a, -1, m)]

    The extended Euclidean algorithm, keeping only the cofactor of [a]. *)
Fixpoint inv_loop (fuel : nat) (r0 s0 r1 s1 : Z) : Z * Z :=
  match fuel with
  | O => (r0, s0)
  | S fuel =>
      if r1 =? 0 then (r0, s0)
      else inv_loop fuel r1 s1 (r0 mod r1) (s0 - (r0 / r1) * s1)
  end.

Definition py_inv_mod (a m : Z) : result Z :=
  let '(g, s) := inv_loop (Z.to_nat (2 * Z.log2_up m + 2)) m 0 (a mod m) 1 in
  if g =? 1 then Ret (s mod m)
  else Raise (ValueError "base is not invertible for the given modulus").

Lemma inv_loop_cong a m fuel r0 s0 r1 s1 :
  (m | s0 * a - r0) -> (m | s1 * a - r1) ->
  (m | (inv_loop fuel r0 s0 r1 s1).2 * a - (inv_loop fuel r0 s0 r1 s1).1).
Proof.
  revert r0 s0 r1 s1. induction fuel as [|fuel IH]; intros r0 s0 r1 s1 H0 H1; simpl; [done|].
  destruct (Z.eqb_spec r1 0) as [->|Hr]; [done|]. apply IH; [done|].
  replace ((s0 - r0 / r1 * s1) * a - r0 mod r1)
    with ((s0 * a - r0) - r0 / r1 * (s1 * a - r1)).
  - apply Z.divide_sub_r; [done|]. by apply Z.divide_mul_r.
  - pose proof (Z.div_mod r0 r1 Hr). rewrite (Z.mod_eq r0 r1) by done. ring.
Qed.

(** Whenever [pow(a, -1, m)] returns, it returns the inverse, reduced. *)
Lemma py_inv_mod_sound a m x :
  1 < m -> py_inv_mod a m = Ret x -> 0 <= x < m /\ (x * a) mod m = 1.
Proof.
  intros Hm. unfold py_inv_mod.
  pose proof (inv_loop_cong a m (Z.to_nat (2 * Z.log2_up m + 2)) m 0 (a mod m) 1) as Hc.
  destruct (inv_loop _ _ _ _ _) as [g s]. simpl in Hc.
  destruct (Z.eqb_spec g 1) as [->|]; [|done]. intros [= <-].
  split; [apply Z.mod_pos_bound; lia|].
  destruct Hc as [k Hk].
  { rewrite Z.mul_0_l. exists (-1). lia. }
  { exists (a / m). rewrite (Z.mod_eq a m) by lia. ring. }
  rewrite Zmult_mod_idemp_l. replace (s * a) with (1 + k * m) by lia.
  rewrite Z_mod_plus_full. apply Z.mod_small. lia.
Qed.

(** The inverse, when it exists, is the only residue with that property. *)
Lemma inverse_unique a m x y :
  1 < m -> 0 <= x < m -> 0 <= y < m ->
  (x * a) mod m = 1 -> (y * a) mod m = 1 -> x = y.
Proof.
  intros Hm Hx Hy H1 H2.
  assert (x mod m = y mod m) as Heq.
  { rewrite <- (Z.mul_1_r x), <- (Z.mul_1_r y).
    rewrite <- H2 at 1. rewrite Zmult_mod_idemp_r.
    rewrite <- H1. rewrite Zmult_mod_idemp_r. f_equal. ring. }
  rewrite !Z.mod_small in Heq by lia. done.
Qed.

(** ** [x.to_bytes(n, "big")] and [int.from_bytes(b, "big")] *)

Fixpoint to_bytes_le (n : nat) (x : Z) : list Z :=
  match n with O => [] | S n => x mod 256 :: to_bytes_le n (x / 256) end.
Definition to_bytes_be (n : nat) (x : Z) : list Z := rev (to_bytes_le n x).

Fixpoint from_bytes_le (l : list Z) : Z :=
  match l with [] => 0 | b :: l => b + 256 * from_bytes_le l end.
Definition from_bytes_be (l : list Z) : Z := from_bytes_le (rev l).

Lemma to_bytes_le_length n x : length (to_bytes_le n x) = n.
Proof. revert x. induction n; simpl; auto. Qed.
Lemma to_bytes_be_length n x : length (to_bytes_be n x) = n.
Proof. unfold to_bytes_be. by rewrite length_rev, to_bytes_le_length. Qed.

Lemma from_to_bytes_le n x : from_bytes_le (to_bytes_le n x) = x mod 256 ^ Z.of_nat n.
Proof.
  revert x. induction n as [|n IH]; intros x; [by rewrite Z.mod_1_r|].
  cbn [to_bytes_le from_bytes_le]. rewrite IH.
  rewrite Nat2Z.inj_succ, Z.pow_succ_r by lia.
  rewrite Z.rem_mul_r; [done|lia|]. apply Z.pow_pos_nonneg; lia.
Qed.

Lemma from_to_bytes_be n x : from_bytes_be (to_bytes_be n x) = x mod 256 ^ Z.of_nat n.
Proof. unfold from_bytes_be, to_bytes_be. by rewrite rev_involutive, from_to_bytes_le. Qed.

(** ** [bin(x)[2:]], most significant digit first *)

Fixpoint pos_bits (p : positive) (acc : list bool) : list bool :=
  match p with
  | xH => true :: acc
  | xO p => pos_bits p (false :: acc)
  | xI p => pos_bits p (true :: acc)
  end.
Definition py_bin (x : Z) : list bool :=
  match x with Zpos p => pos_bits p [] | _ => [false] end.

Definition bits_value (l : list bool) : Z :=
  foldl (fun acc (b : bool) => 2 * acc + Z.b2z b) 0 l.

Lemma pos_bits_value p acc :
  bits_value (pos_bits p acc)
  = Zpos p * 2 ^ Z.of_nat (length acc) + bits_value acc.
Proof.
  assert (forall l a, foldl (fun acc (b : bool) => 2 * acc + Z.b2z b) a l
            = a * 2 ^ Z.of_nat (length l) + bits_value l) as Hfold.
  { unfold bits_value. induction l as [|b l IH]; intros a; cbn [foldl length]; [simpl; lia|].
    rewrite IH, (IH (2 * 0 + Z.b2z b)).
    rewrite Nat2Z.inj_succ, Z.pow_succ_r by lia. ring. }
  assert (forall b l, bits_value (b :: l)
            = Z.b2z b * 2 ^ Z.of_nat (length l) + bits_value l) as Hcons.
  { intros b l. unfold bits_value at 1. cbn [foldl]. rewrite Hfold. ring. }
  revert acc. induction p as [p IH|p IH|]; intros acc; cbn [pos_bits].
  - rewrite IH, Hcons. cbn [length Z.b2z].
    rewrite Nat2Z.inj_succ, Z.pow_succ_r, (Pos2Z.inj_xI p) by lia. ring.
  - rewrite IH, Hcons. cbn [length Z.b2z].
    rewrite Nat2Z.inj_succ, Z.pow_succ_r, (Pos2Z.inj_xO p) by lia. ring.
  - rewrite Hcons. done.
Qed.

Lemma py_bin_value x : 0 < x -> bits_value (py_bin x) = x.
Proof.
  destruct x as [|p|p]; try lia. intros _. unfold py_bin.
  rewrite pos_bits_value. change (bits_value []) with 0. simpl length. lia.
Qed.

(** ** Insertion-ordered dictionaries *)

Section dict.
Context {K A : Type} `{EqDecision K}.
Implicit Types d : list (K * A).

Fixpoint dict_get d (k : K) : option A :=
  match d with
  | [] => None
  | (k', v) :: d => if decide (k = k') then Some v else dict_get d k
  end.

(** [d[k] = v]: an existing key keeps its position. *)
Fixpoint dict_set d (k : K) (v : A) : list (K * A) :=
  match d with
  | [] => [(k, v)]
  | (k', v') :: d =>
      if decide (k = k') then (k', v) :: d else (k', v') :: dict_set d k v
  end.

(** [d.pop(k)] and [del d[k]] *)
Fixpoint dict_del d (k : K) : list (K * A) :=
  match d with
  | [] => []
  | (k', v') :: d => if decide (k = k') then d else (k', v') :: dict_del d k
  end.

(** [d.setdefault(k, v)] as a statement *)
Definition dict_setdefault d (k : K) (v : A) : list (K * A) :=
  match dict_get d k with Some _ => d | None => dict_set d k v end.

Definition dict_keys d : list K := fst <$> d.

Lemma dict_set_fresh d k v : k ∉ dict_keys d -> dict_set d k v = d ++ [(k, v)].
Proof.
  unfold dict_keys. intros Hk. induction d as [|[k' v'] d IH]; [done|]. cbn [dict_set].
  destruct (decide (k = k')) as [->|Hn]; [exfalso; apply Hk; left|].
  rewrite IH; [done|]. intros E. apply Hk. by right.
Qed.

Lemma dict_get_set d k v k' :
  dict_get (dict_set d k v) k' = if decide (k' = k) then Some v else dict_get d k'.
Proof.
  induction d as [|[k1 v1] d IH]; simpl; [done|].
  repeat (case_decide; simpl); subst; try congruence; done.
Qed.

Lemma dict_get_setdefault d k v k' :
  dict_get (dict_setdefault d k v) k'
  = match dict_get d k' with
    | Some x => Some x
    | None => if decide (k' = k) then Some v else None
    end.
Proof.
  unfold dict_setdefault. destruct (dict_get d k) eqn:E.
  - destruct (dict_get d k') eqn:E'; [done|]. case_decide; congruence.
  - rewrite dict_get_set. case_decide; [subst; by rewrite E|].
    by destruct (dict_get d k').
Qed.

Lemma dict_set_keys d k v k' : k' ∈ dict_keys (dict_set d k v) <-> k' = k \/ k' ∈ dict_keys d.
Proof.
  unfold dict_keys. induction d as [|[k1 v1] d IH]; simpl.
  - rewrite list_elem_of_singleton. split; [by left|].
    intros [->|Hin]; [done|by apply elem_of_nil in Hin].
  - case_decide; subst; simpl; rewrite !elem_of_cons, ?IH; naive_solver.
Qed.

Lemma dict_get_keys d k : is_Some (dict_get d k) <-> k ∈ dict_keys d.
Proof.
  unfold dict_keys. induction d as [|[k1 v1] d IH]; simpl.
  - split; [intros [? ?]; done|intros Hin; by apply elem_of_nil in Hin].
  - rewrite elem_of_cons. case_decide; subst; [split; [by left|eauto]|].
    rewrite IH. naive_solver.
Qed.
End dict.
