(* ===== verification/Primality.v ===== *)
(** * Primality of the P-256 moduli

    The scripts invert by Fermat's little theorem ([pow(z, P - 2, P)]), which
    is right because the field modulus and the group order are prime.  Both
    facts are proved here from Pocklington certificates. *)

From S2P Require Import Prelude PyInt.
From Stdlib Require Import Znumtheory Zpow_facts.

(** ** Fermat's little theorem *)

Definition prod (l : list Z) : Z := foldr Z.mul 1 l.

Lemma prod_perm l l' : l ≡ₚ l' -> prod l = prod l'.
Proof. unfold prod. induction 1; cbn [foldr]; lia. Qed.

Lemma prod_not_divide p l : prime p -> Forall (fun x => ~ (p | x)) l -> ~ (p | prod l).
Proof.
  intros Hp Hl. induction Hl as [|x l Hx _ IH]; cbn.
  - intros H%Z.divide_1_r_nonneg; [|destruct Hp; lia]. subst. by apply not_prime_1.
  - intros [?|?]%prime_mult; done.
Qed.

Lemma prod_scale p b l : prod ((fun i => (b * i) mod p) <$> l) mod p = (b ^ Z.of_nat (length l) * prod l) mod p.
Proof.
  induction l as [|x l IH]; [done|]. cbn [fmap list_fmap length prod foldr]. fold (prod l).
  fold (prod ((fun i => (b * i) mod p) <$> l)).
  rewrite Zmult_mod_idemp_l, <- Zmult_mod_idemp_r, IH, Zmult_mod_idemp_r.
  rewrite Nat2Z.inj_succ, Z.pow_succ_r by lia. f_equal. ring.
Qed.

Lemma fermat_little p b : prime p -> ~ (p | b) -> b ^ (p - 1) mod p = 1.
Proof.
  intros Hp Hb. pose proof (prime_ge_2 p Hp). set (l := seqZ 1 (p - 1)).
  assert (forall x, x ∈ l -> ~ (p | x)) as Hl.
  { intros x Hx%elem_of_seqZ Hd%Z.divide_pos_le; lia. }
  set (f := fun i => (b * i) mod p).
  assert (forall i j, i ∈ l -> j ∈ l -> f i = f j -> i = j) as Hinj.
  { intros i j Hi%elem_of_seqZ Hj%elem_of_seqZ Hf.
    assert (p | b * (i - j)) as Hd.
    { apply Z.mod_divide; [lia|]. rewrite Z.mul_sub_distr_l, Zminus_mod. unfold f in Hf. rewrite Hf.
      by rewrite Z.sub_diag. }
    apply prime_mult in Hd as [?|[k Hk]]; [done| |done].
    destruct (Z.lt_trichotomy k 0) as [?|[?|?]]; nia. }
  assert (f <$> l ≡ₚ l) as Hperm.
  { apply submseteq_length_Permutation; [|by rewrite length_fmap].
    apply NoDup_submseteq.
    - assert (NoDup l) as Hnd by apply NoDup_seqZ. revert Hinj Hnd. clear. induction l as [|x l IH]; intros Hinj Hnd.
      { constructor. }
      apply list.NoDup_cons in Hnd as [Hx Hnd]. cbn. apply list.NoDup_cons. split.
      + intros (y & Hy & Hin)%list_elem_of_fmap. apply Hinj in Hy; [by subst|by left|by right].
      + apply IH; [|done]. intros i j Hi Hj. apply Hinj; by right.
    - intros y (x & -> & Hx)%list_elem_of_fmap. apply elem_of_seqZ. unfold f.
      assert ((b * x) mod p <> 0). { intros [?|?]%Z.mod_divide%prime_mult; [done|by eapply Hl|done|lia]. }
      pose proof (Z.mod_pos_bound (b * x) p). lia. }
  pose proof (prod_scale p b l) as E. fold f in E. rewrite (prod_perm _ _ Hperm) in E.
  assert (Z.of_nat (length l) = p - 1) as El by (unfold l; rewrite length_seqZ; lia). rewrite El in E.
  assert (p | prod l * (b ^ (p - 1) - 1)) as Hd.
  { apply Z.mod_divide; [lia|]. rewrite Z.mul_sub_distr_l, Zminus_mod, (Z.mul_comm (prod l)), <- E, Z.mul_1_r.
    by rewrite Z.sub_diag. }
  apply prime_mult in Hd as [Hd|Hd]; [| |done].
  - exfalso. revert Hd. apply prod_not_divide; [done|]. apply List.Forall_forall.
    intros x Hx%list_elem_of_In. by apply Hl.
  - destruct Hd as [k Hk]. replace (b ^ (p - 1)) with (1 + k * p) by lia.
    rewrite Z_mod_plus_full. apply Z.mod_small. lia.
Qed.

(** ** Certificates *)

(** Trial division up to the square root. *)
Fixpoint no_divisor (fuel : nat) (d n : Z) : bool :=
  match fuel with
  | O => false
  | S fuel => if n <? d * d then true else if n mod d =? 0 then false else no_divisor fuel (d + 1) n
  end.
Definition small_prime (n : Z) : bool := (2 <=? n) && no_divisor (Z.to_nat (Z.sqrt n)) 2 n.

Lemma no_divisor_spec fuel d n : 2 <= d -> (forall k, 2 <= k < d -> ~ (k | n)) -> no_divisor fuel d n = true ->
  forall k, 2 <= k -> k * k <= n -> ~ (k | n).
Proof.
  revert d. induction fuel as [|fuel IH]; intros d Hd Hk; cbn [no_divisor]; [done|].
  destruct (Z.ltb_spec n (d * d)) as [Hlt|_].
  - intros _ k H2 Hkn. apply Hk. nia.
  - destruct (Z.eqb_spec (n mod d) 0) as [|Hm]; [done|]. apply IH; [lia|]. intros k Hr.
    destruct (decide (k = d)) as [->|]; [|apply Hk; lia]. intros Hdiv. apply Hm. by apply Z.mod_divide; [lia|].
Qed.

(** A number without a divisor up to its square root is prime. *)
Lemma prime_sqrt n : 2 <= n -> (forall p, prime p -> p * p <= n -> ~ (p | n)) -> prime n.
Proof.
  intros Hn Hp. destruct (prime_dec n) as [|Hnp]; [done|]. exfalso.
  destruct (not_prime_divide n) as (k & Hk & Hd); [lia|done|]. destruct Hd as [j Hj].
  assert (forall m, 1 < m -> m * m <= n -> (m | n) -> False) as Hno.
  { intros m. induction m as [m IH] using (well_founded_induction (Z.lt_wf 0)). intros Hm Hmn Hmd.
    destruct (prime_dec m) as [Hpm|Hnpm]; [by eapply Hp|].
    destruct (not_prime_divide m) as (q & Hq & Hqd); [lia|done|].
    apply (IH q); [lia|lia|nia|]. by transitivity m. }
  destruct (Z.le_gt_cases (k * k) n).
  - apply (Hno k); [lia|done|]. by exists j.
  - apply (Hno j); [nia|nia|]. exists k. lia.
Qed.

Lemma small_prime_prime n : small_prime n = true -> prime n.
Proof.
  unfold small_prime. intros [H2%Z.leb_le Hd]%andb_true_iff. apply prime_sqrt; [done|].
  intros p Hp Hpn. eapply no_divisor_spec; [|..|exact Hd|by apply prime_ge_2|done]; [lia|]. intros; lia.
Qed.

(** Pocklington's condition on [n], for the base [a] and one prime [q] of
    [n - 1]. *)
Definition pock_step (n a q : Z) : bool :=
  ((n - 1) mod q =? 0) && (Z.gcd (Zpow_mod a ((n - 1) / q) n - 1) n =? 1).
Definition pock (n a : Z) (qs : list Z) : bool :=
  (2 <=? n) && (Zpow_mod a (n - 1) n =? 1) && forallb (pock_step n a) qs && (n <? prod qs * prod qs).

Lemma mod_one_pow x k p : 1 < p -> 0 <= k -> x mod p = 1 -> x ^ k mod p = 1.
Proof. intros Hp Hk Hx. rewrite Zpower_mod by lia. rewrite Hx, Z.pow_1_l by lia. apply Z.mod_small. lia. Qed.

(** Two coprime exponents that both give one. *)
Lemma coprime_exponents p q b : prime p -> prime q -> ~ (q | p - 1) ->
  b ^ q mod p = 1 -> b ^ (p - 1) mod p = 1 -> b mod p = 1.
Proof.
  intros Hp Hq Hnd H1 H2. pose proof (prime_ge_2 p Hp). pose proof (prime_ge_2 q Hq).
  destruct (decide (p = 2)) as [->|Hp2]; [by rewrite Z.pow_1_r in H2|].
  pose proof (prime_rel_prime q Hq (p - 1) Hnd) as Hrel.
  destruct (rel_prime_bezout _ _ Hrel) as [u v Huv]. set (U := u mod (p - 1)).
  assert (0 <= U < p - 1) by (apply Z.mod_pos_bound; lia).
  assert (exists w, U * q = 1 + w * (p - 1)) as [w Hw].
  { exists (- v - (u / (p - 1)) * q). unfold U. rewrite Z.mod_eq by lia.
    rewrite Z.mul_sub_distr_r. replace (u * q) with (1 - v * (p - 1)) by (symmetry; apply Z.add_move_r; exact Huv). ring. }
  assert (0 <= w) by nia.
  assert (b ^ (U * q) mod p = 1) as E.
  { rewrite Z.mul_comm, Z.pow_mul_r by lia. apply mod_one_pow; [lia|lia|done]. }
  assert (0 <= w * (p - 1)) by nia. rewrite Hw, Z.pow_add_r, Z.pow_1_r in E by assumption || lia.
  rewrite (Z.mul_comm w), Z.pow_mul_r in E by assumption || lia.
  rewrite <- Zmult_mod_idemp_r, (mod_one_pow (b ^ (p - 1))) in E by (done || lia). by rewrite Z.mul_1_r in E.
Qed.

(** [q] divides [p - 1] for every prime divisor [p] of [n]. *)
Lemma pock_step_divides n a q p : 2 <= n -> Zpow_mod a (n - 1) n = 1 -> prime q -> pock_step n a q = true ->
  prime p -> (p | n) -> (q | p - 1).
Proof.
  intros Hn Ha Hq [Hqn%Z.eqb_eq Hg%Z.eqb_eq]%andb_true_iff Hp Hpn.
  pose proof (prime_ge_2 p Hp). pose proof (prime_ge_2 q Hq).
  rewrite Zpow_mod_correct in Ha, Hg by lia.
  assert (forall x, x mod p = (x mod n) mod p) as Hmm by (intros x; apply Zmod_div_mod; [lia|lia|done]).
  set (b := a ^ ((n - 1) / q)) in *.
  assert (b ^ q mod p = 1) as Hbq.
  { unfold b. assert (0 <= (n - 1) / q) by (apply Z.div_pos; lia). rewrite <- Z.pow_mul_r by lia.
    replace ((n - 1) / q * q) with (n - 1) by (pose proof (Z.div_mod (n - 1) q); lia).
    rewrite Hmm, Ha. apply Z.mod_small. lia. }
  assert (~ (p | b)) as Hpb.
  { intros Hd%Z.mod_divide; [|lia]. rewrite Zpower_mod, Hd, Z.pow_0_l, Z.mod_0_l in Hbq by lia. lia. }
  destruct (Zdivide_dec q (p - 1)) as [|Hnd]; [done|]. exfalso.
  pose proof (coprime_exponents p q b Hp Hq Hnd Hbq (fermat_little p b Hp Hpb)) as Hb1.
  assert (p | Z.gcd (b mod n - 1) n) as Hd.
  { apply Z.gcd_greatest; [|done]. apply Z.mod_divide; [lia|]. rewrite Zminus_mod, <- Hmm, Hb1.
    rewrite (Z.mod_small 1 p) by lia. done. }
  rewrite Hg in Hd. apply Z.divide_1_r_nonneg in Hd; lia.
Qed.

Lemma prod_divide m qs : NoDup qs -> Forall prime qs -> Forall (fun q => (q | m)) qs -> (prod qs | m).
Proof.
  intros Hnd Hp Hd. revert Hp Hd. induction Hnd as [|q qs Hq _ IH]; intros Hp Hd; [apply Z.divide_1_l|].
  apply Forall_cons_iff in Hp as [Hpq Hp]. apply Forall_cons_iff in Hd as [Hdq Hd].
  destruct (IH Hp Hd) as [k Hk]. cbn. fold (prod qs). rewrite Hk in Hdq.
  apply prime_mult in Hdq as [[j ->]|Hin]; [exists j; lia| |done]. exfalso. revert Hin.
  apply prod_not_divide; [done|]. apply List.Forall_forall. intros x Hx Hqx.
  rewrite List.Forall_forall in Hp. pose proof (Hp x Hx) as Hpx.
  apply (prime_div_prime q x) in Hqx; [|done|done]. subst. apply Hq. by apply list_elem_of_In.
Qed.

(** Pocklington: the certificate proves [n] prime. *)
Lemma pocklington n a qs : NoDup qs -> Forall prime qs -> pock n a qs = true -> prime n.
Proof.
  intros Hnd Hqs. unfold pock. rewrite !andb_true_iff, Z.leb_le, Z.eqb_eq, Z.ltb_lt, forallb_forall.
  intros [[[Hn Ha] Hs] Hlt]. apply prime_sqrt; [done|]. intros p Hp Hpn Hpd. pose proof (prime_ge_2 p Hp).
  assert (prod qs | p - 1) as Hprod.
  { apply prod_divide; [done|done|]. apply List.Forall_forall. intros q Hq.
    rewrite List.Forall_forall in Hqs.
    exact (pock_step_divides n a q p Hn Ha (Hqs q Hq) (Hs q Hq) Hp Hpd). }
  apply Z.divide_pos_le in Hprod; [|lia].
  assert (0 < prod qs); [|nia]. clear - Hqs. induction Hqs as [|q qs Hq _ IH]; cbn; [lia|]. fold (prod qs).
  pose proof (prime_ge_2 q Hq). nia.
Qed.

(** One step of a chain of certificates; the primes below are found by
    [assumption] or by trial division. *)
Ltac pock_prime a qs :=
  apply (pocklington _ a qs);
  [apply (bool_decide_unpack _); vm_compute; exact I
  |repeat (apply List.Forall_cons; [first [assumption | apply small_prime_prime; vm_compute; reflexivity]|]);
   apply List.Forall_nil
  |vm_compute; reflexivity].

(** The field modulus and the group order of P-256. *)
Lemma prime_p256 : prime (2 ^ 256 - 2 ^ 224 + 2 ^ 192 + 2 ^ 96 - 1).
Proof.
  assert (prime 66417393611) by pock_prime 2 [3677; 197].
  assert (prime 11290956913871) by pock_prime 2 [66417393611].
  assert (prime 46076956964474543) by pock_prime 2 [704251; 78283].
  assert (prime 774023187263532362759620327192479577272145303)
    by pock_prime 2 [46076956964474543; 11290956913871].
  assert (prime 835945042244614951780389953367877943453916927241)
    by pock_prime 2 [774023187263532362759620327192479577272145303].
  pock_prime 2 [835945042244614951780389953367877943453916927241].
Qed.

Lemma prime_n256 : prime 0xFFFFFFFF00000000FFFFFFFFFFFFFFFFBCE6FAADA7179E84F3B9CAC2FC632551.
Proof.
  assert (prime 1002328039319) by pock_prime 2 [3969899].
  assert (prime 208150935158385979) by pock_prime 2 [191039911; 3023].
  assert (prime 2624747550333869278416773953) by pock_prime 2 [208150935158385979].
  pock_prime 2 [2624747550333869278416773953; 1002328039319].
Qed.
