(* ===== verification/Words.v ===== *)
(** * 64-bit limbs and carry chains

    The limb representation shared by the P-256 derivation scripts: [words]
    and [value] (the two helpers every script defines), and the one loop they
    all contain, a chain of 64-bit additions with carry. *)

From S2P Require Import Prelude.

(** [MASK = (1 << 64) - 1] *)
Definition MASK : Z := Z.shiftl 1 64 - 1.

(** [def words(v): return [(v >> (64 * i)) & MASK for i in range(4)]] *)
Definition words (v : Z) : list Z :=
  (fun i : nat => Z.land (Z.shiftr v (64 * Z.of_nat i)) MASK) <$> seq 0 4.

(** [def value(w): return sum(x << (64 * i) for i, x in enumerate(w))] *)
Definition value (w : list Z) : Z :=
  foldr Z.add 0 (imap (fun i x => Z.shiftl x (64 * Z.of_nat i)) w).

(** [range(a, b)] *)
Definition range (a b : nat) : list nat := seq a (b - a).

(** The loop
<<
    for j in range(n):
        s = t[off + j] + xs[j] + c
        t[off + j] = s & MASK
        c = s >> 64
>> *)
Definition add_chain (n off : nat) (xs : list Z) (tc : list Z * Z) : list Z * Z :=
  for_each (range 0 n) tc (fun '(t, c) j =>
    let s := t !!! (off + j)%nat + xs !!! j + c in
    (<[(off + j)%nat := Z.land s MASK]> t, Z.shiftr s 64)).

(** One row of limb products, [lo] and [hi] halves:
<<
    lo = [(aw[j] * b) & MASK for j in range(4)]
    hi = [(aw[j] * b) >> 64 for j in range(4)]
>> *)
Definition mul_lo (aw : list Z) (b : Z) : list Z :=
  (fun j => Z.land (aw !!! j * b) MASK) <$> range 0 4.
Definition mul_hi (aw : list Z) (b : Z) : list Z :=
  (fun j => Z.shiftr (aw !!! j * b) 64) <$> range 0 4.

(** The four-limb subtraction with borrow
<<
    borrow, d = 0, [0] * 4
    for k in range(4):
        s = x[k] - y[k] - borrow
        borrow = 1 if s < 0 else 0
        d[k] = s & MASK
>> *)
Definition sub_chain (x y : list Z) : Z * list Z :=
  for_each (range 0 4) (0, replicate 4 0) (fun '(borrow, d) k =>
    let s := x !!! k - y !!! k - borrow in
    (if s <? 0 then 1 else 0, <[k := Z.land s MASK]> d)).

(** ** Mathematical view *)


Definition word (x : Z) : Prop := 0 <= x < 2 ^ 64.

(** [V w] is [value w] in Horner form, the form the proofs use. *)
Fixpoint V (w : list Z) : Z :=
  match w with [] => 0 | x :: w => x + 2 ^ 64 * V w end.

Lemma B64_pow i : (2 ^ 64) ^ Z.of_nat i = 2 ^ (64 * Z.of_nat i).
Proof. rewrite <- Z.pow_mul_r by lia. done. Qed.

Lemma value_imap_V k w :
  foldr Z.add 0 (imap (fun i x => Z.shiftl x (64 * Z.of_nat (k + i))) w)
  = 2 ^ (64 * Z.of_nat k) * V w.
Proof.
  revert k. induction w as [|x w IH]; intros k; simpl; [lia|].
  rewrite Z.shiftl_mul_pow2 by lia. rewrite Nat.add_0_r.
  rewrite (imap_ext _ (fun i x => Z.shiftl x (64 * Z.of_nat (S k + i))) w).
  2: { intros i y _. simpl. do 3 f_equal. lia. }
  rewrite IH. replace (64 * Z.of_nat (S k)) with (64 * Z.of_nat k + 64) by lia.
  rewrite Z.pow_add_r by lia. ring.
Qed.

Lemma value_V w : value w = V w.
Proof. unfold value. rewrite (value_imap_V 0). simpl. lia. Qed.

Lemma MASK_eq : MASK = 2 ^ 64 - 1.
Proof. done. Qed.

Lemma land_MASK x : Z.land x MASK = x mod 2 ^ 64.
Proof. rewrite MASK_eq. by apply Z_land_ones_mod. Qed.

Lemma shiftr_64 x : Z.shiftr x 64 = x / 2 ^ 64.
Proof. by rewrite Z.shiftr_div_pow2. Qed.

Lemma word_land x : word (Z.land x MASK).
Proof. rewrite land_MASK. apply Z.mod_pos_bound. lia. Qed.

Lemma V_nonneg w : Forall word w -> 0 <= V w.
Proof. induction 1 as [|x w Hx _ IH]; simpl; unfold word in *; lia. Qed.

Lemma V_bound w : Forall word w -> V w < 2 ^ (64 * Z.of_nat (length w)).
Proof.
  induction 1 as [|x w Hx _ IH]; simpl length; [simpl; lia|].
  replace (64 * Z.of_nat (S (length w))) with (64 + 64 * Z.of_nat (length w)) by lia.
  rewrite Z.pow_add_r by lia. simpl V. unfold word in *.
  assert (V w + 1 <= 2 ^ (64 * Z.of_nat (length w))) by lia. nia.
Qed.

Lemma V_app w1 w2 : V (w1 ++ w2) = V w1 + 2 ^ (64 * Z.of_nat (length w1)) * V w2.
Proof.
  induction w1 as [|x w1 IH]; simpl length; [simpl; lia|].
  replace (64 * Z.of_nat (S (length w1))) with (64 + 64 * Z.of_nat (length w1)) by lia.
  rewrite Z.pow_add_r by lia. simpl. rewrite IH. ring.
Qed.

Lemma V_insert w i x :
  (i < length w)%nat ->
  V (<[i := x]> w) = V w + 2 ^ (64 * Z.of_nat i) * (x - w !!! i).
Proof.
  revert i. induction w as [|y w IH]; intros i Hi; simpl in Hi; [lia|].
  destruct i as [|i]; simpl; [lia|].
  rewrite IH by lia. replace (64 * Z.of_nat (S i)) with (64 + 64 * Z.of_nat i) by lia.
  rewrite Z.pow_add_r by lia. ring.
Qed.

Lemma V_replicate0 n : V (replicate n 0) = 0.
Proof. induction n; simpl; lia. Qed.

Lemma words_length v : length (words v) = 4%nat.
Proof. done. Qed.

Lemma words_word v : Forall word (words v).
Proof. unfold words. apply Forall_fmap, Forall_true. intros i. apply word_land. Qed.

(** Limb split and combine are inverse below [2^256]. *)
Lemma V_words v : V (words v) = v mod 2 ^ 256.
Proof.
  unfold words. change (seq 0 4) with [0%nat; 1%nat; 2%nat; 3%nat]. cbn [fmap list_fmap].
  rewrite !land_MASK. change (64 * Z.of_nat 0) with 0. change (64 * Z.of_nat 1) with 64.
  change (64 * Z.of_nat 2) with 128. change (64 * Z.of_nat 3) with 192.
  rewrite !Z.shiftr_div_pow2 by lia. simpl V.
  change (2 ^ 0) with 1. rewrite Z.div_1_r.
  replace (v / 2 ^ 128) with (v / 2 ^ 64 / 2 ^ 64) by (rewrite Z.div_div by lia; done).
  replace (v / 2 ^ 192) with (v / 2 ^ 64 / 2 ^ 64 / 2 ^ 64) by (rewrite !Z.div_div by lia; done).
  set (a := v / 2 ^ 64). set (b := a / 2 ^ 64). set (c := b / 2 ^ 64).
  change (2 ^ 256) with (2 ^ 64 * (2 ^ 64 * (2 ^ 64 * 2 ^ 64))).
  rewrite (Z.rem_mul_r v) by lia. fold a.
  rewrite (Z.rem_mul_r a) by lia. fold b.
  rewrite (Z.rem_mul_r b) by lia. fold c. lia.
Qed.

Lemma value_words v : 0 <= v < 2 ^ 256 -> value (words v) = v.
Proof. intros. rewrite value_V, V_words. by apply Z.mod_small. Qed.

(** The prefix of length [n] read as a number. *)
Lemma V_take_S n xs :
  (n < length xs)%nat ->
  V (take (S n) xs) = V (take n xs) + 2 ^ (64 * Z.of_nat n) * xs !!! n.
Proof.
  intros Hn. rewrite (take_S_r xs n (xs !!! n)) by (by apply list_lookup_lookup_total_lt).
  rewrite V_app, length_take_le by lia. simpl. ring.
Qed.

(** ** The carry-chain lemma *)

Lemma range_S a b : (a <= b)%nat -> range a (S b) = range a b ++ [b].
Proof.
  intros. unfold range. replace (S b - a)%nat with (S (b - a)) by lia.
  rewrite seq_S. do 2 f_equal. lia.
Qed.

Lemma add_chain_S n off xs tc :
  add_chain (S n) off xs tc =
    let '(t, c) := add_chain n off xs tc in
    let s := t !!! (off + n)%nat + xs !!! n + c in
    (<[(off + n)%nat := Z.land s MASK]> t, Z.shiftr s 64).
Proof.
  unfold add_chain. rewrite range_S by lia. rewrite for_each_app.
  destruct (for_each (range 0 n) _ _) as [t c]. done.
Qed.

(** What a carry chain of [n] limbs at offset [off] does: it adds
    [2^(64 off) * (xs + c)] to the accumulator, up to the carry-out it
    returns; limbs outside the window are untouched; the carry is a bit. *)
Record chain_post (n off : nat) (xs : list Z) (t : list Z) (c : Z) (t' : list Z) (c' : Z)
  : Prop := {
  cp_len : length t' = length t;
  cp_word : Forall word t';
  cp_carry : 0 <= c' <= 1;
  cp_frame : forall k, (k < off \/ off + n <= k)%nat -> t' !!! k = t !!! k;
  cp_val : V t' + 2 ^ (64 * Z.of_nat (off + n)) * c'
           = V t + 2 ^ (64 * Z.of_nat off) * (V (take n xs) + c)
}.

Lemma add_chain_spec n off xs t c :
  (off + n <= length t)%nat -> (n <= length xs)%nat ->
  Forall word t -> Forall word xs -> 0 <= c <= 1 ->
  chain_post n off xs t c (add_chain n off xs (t, c)).1 (add_chain n off xs (t, c)).2.
Proof.
  intros Ht Hx Hwt Hwx Hc. induction n as [|n IH].
  { split; simpl; [done..|]. rewrite Nat.add_0_r. ring. }
  destruct IH as [Hlen Hw Hcar Hfr Hval]; [lia..|]. rewrite add_chain_S.
  destruct (add_chain n off xs (t, c)) as [t1 c1]. simpl in *.
  set (s := t1 !!! (off + n)%nat + xs !!! n + c1).
  pose proof (Forall_total _ _ (off + n)%nat Hw ltac:(lia)) as Hw1.
  pose proof (Forall_total _ _ n Hwx ltac:(lia)) as Hw2.
  unfold word in Hw1, Hw2.
  assert (0 <= s < 2 * 2 ^ 64) by lia.
  assert (s = 2 ^ 64 * (s / 2 ^ 64) + s mod 2 ^ 64) as Hs by (apply Z_split_mod; lia).
  rewrite shiftr_64, land_MASK. split.
  - by rewrite length_insert.
  - apply Forall_insert; [done|]. apply Z.mod_pos_bound. lia.
  - split; [apply Z.div_pos; lia|]. assert (s / 2 ^ 64 < 2); [|lia].
    apply Z.div_lt_upper_bound; lia.
  - intros k Hk. rewrite list_lookup_total_insert_ne by lia. apply Hfr. lia.
  - rewrite V_insert by lia. rewrite V_take_S by lia.
    replace (64 * Z.of_nat (off + S n)) with (64 * Z.of_nat (off + n) + 64) by lia.
    rewrite Z.pow_add_r by lia.
    replace (64 * Z.of_nat (off + n)) with (64 * Z.of_nat off + 64 * Z.of_nat n) in * by lia.
    rewrite Z.pow_add_r in * by lia. fold s in Hs.
    set (P := 2 ^ (64 * Z.of_nat off)) in *. set (Q := 2 ^ (64 * Z.of_nat n)) in *.
    assert (s mod 2 ^ 64 = s - 2 ^ 64 * (s / 2 ^ 64)) as -> by lia.
    transitivity (V t1 + P * Q * (s - t1 !!! (off + n)%nat)); [ring|].
    unfold s. transitivity ((V t1 + P * Q * c1) + P * Q * xs !!! n); [ring|].
    rewrite Hval. ring.
Qed.

(** A subtraction chain computes the difference modulo [2^256], and its
    borrow says whether the subtraction went below zero. *)
Record sub_post (x y : list Z) (borrow : Z) (d : list Z) : Prop := {
  sp_len : length d = 4%nat;
  sp_word : Forall word d;
  sp_borrow : 0 <= borrow <= 1;
  sp_val : V d = V x - V y + 2 ^ 256 * borrow
}.

Lemma sub_step s : - 2 ^ 64 <= s < 2 ^ 64 ->
  Z.land s MASK = s + 2 ^ 64 * (if s <? 0 then 1 else 0).
Proof.
  intros. rewrite land_MASK. destruct (Z.ltb_spec s 0) as [Hs|Hs].
  - symmetry. apply (Z.mod_unique_pos _ _ (-1)); lia.
  - rewrite Z.mod_small by lia. lia.
Qed.

Lemma list4 {A} (l : list A) : length l = 4%nat -> exists a b c d, l = [a; b; c; d].
Proof.
  destruct l as [|a [|b [|c [|d [|]]]]]; simpl; try lia. intros _. by exists a, b, c, d.
Qed.

Lemma sub_chain_spec x y :
  length x = 4%nat -> length y = 4%nat -> Forall word x -> Forall word y ->
  sub_post x y (sub_chain x y).1 (sub_chain x y).2.
Proof.
  intros (x0 & x1 & x2 & x3 & ->)%list4 (y0 & y1 & y2 & y3 & ->)%list4 Hx Hy.
  rewrite !Forall_cons_iff in Hx, Hy. unfold word in Hx, Hy.
  destruct Hx as (? & ? & ? & ? & _), Hy as (? & ? & ? & ? & _).
  unfold sub_chain. cbn [for_each range seq foldl Nat.sub lookup_total list_lookup_total
    replicate insert list_insert Nat.add].
  set (s0 := x0 - y0 - 0). set (b0 := if s0 <? 0 then 1 else 0).
  assert (0 <= b0 <= 1) by (unfold b0; case_match; lia).
  set (s1 := x1 - y1 - b0). set (b1 := if s1 <? 0 then 1 else 0).
  assert (0 <= b1 <= 1) by (unfold b1; case_match; lia).
  set (s2 := x2 - y2 - b1). set (b2 := if s2 <? 0 then 1 else 0).
  assert (0 <= b2 <= 1) by (unfold b2; case_match; lia).
  set (s3 := x3 - y3 - b2). set (b3 := if s3 <? 0 then 1 else 0).
  assert (0 <= b3 <= 1) by (unfold b3; case_match; lia).
  split; cbn [fst snd]; [done| |lia|].
  - repeat constructor; apply word_land.
  - cbn [V].
    rewrite (sub_step s0), (sub_step s1), (sub_step s2), (sub_step s3) by lia.
    fold b0 b1 b2 b3. subst s0 s1 s2 s3. lia.
Qed.

(** ** Limb products *)

Lemma mul_split x y : word x -> word y ->
  word (Z.shiftr (x * y) 64) /\ Z.shiftr (x * y) 64 <= 2 ^ 64 - 2 /\
  Z.land (x * y) MASK + 2 ^ 64 * Z.shiftr (x * y) 64 = x * y.
Proof.
  unfold word. intros Hx Hy. rewrite land_MASK, shiftr_64.
  pose proof (Z_split_mod (x * y) (2 ^ 64) ltac:(lia)).
  assert (0 <= x * y <= (2 ^ 64 - 1) * (2 ^ 64 - 1)) by nia.
  assert (0 <= x * y / 2 ^ 64) by (apply Z.div_pos; lia).
  assert (x * y / 2 ^ 64 < 2 ^ 64 - 1) by (apply Z.div_lt_upper_bound; lia). lia.
Qed.

Lemma mul_row aw b : length aw = 4%nat -> Forall word aw -> word b ->
  Forall word (mul_lo aw b) /\ Forall (fun x => 0 <= x <= 2 ^ 64 - 2) (mul_hi aw b) /\
  Forall word (mul_hi aw b) /\
  V (mul_lo aw b) + 2 ^ 64 * V (mul_hi aw b) = V aw * b.
Proof.
  intros (a0 & a1 & a2 & a3 & ->)%list4 Ha Hb. rewrite !Forall_cons_iff in Ha.
  destruct Ha as (H0 & H1 & H2 & H3 & _).
  destruct (mul_split a0 b H0 Hb) as (W0 & M0 & E0). destruct (mul_split a1 b H1 Hb) as (W1 & M1 & E1).
  destruct (mul_split a2 b H2 Hb) as (W2 & M2 & E2). destruct (mul_split a3 b H3 Hb) as (W3 & M3 & E3).
  unfold mul_lo, mul_hi, range.
  cbn [fmap list_fmap seq Nat.sub lookup_total list_lookup_total V]. split.
  { forall_elems ltac:(apply word_land). }
  split; [forall_elems ltac:(unfold word in *; lia)|].
  split; [forall_elems ltac:(assumption)|]. clear M0 M1 M2 M3. lia.
Qed.

Lemma mul_lo_length aw b : length (mul_lo aw b) = 4%nat.
Proof. done. Qed.
Lemma mul_hi_length aw b : length (mul_hi aw b) = 4%nat.
Proof. done. Qed.

(** A limb bounds the whole from below. *)
Lemma V_ge_limb w i : Forall word w -> (i < length w)%nat ->
  2 ^ (64 * Z.of_nat i) * w !!! i <= V w.
Proof.
  intros Hw. revert i. induction Hw as [|x w Hx Hw IH]; intros i Hi; simpl in Hi; [lia|].
  pose proof (V_nonneg _ Hw). unfold word in Hx. destruct i as [|i]; simpl V.
  - cbn [lookup_total list_lookup_total]. change (64 * Z.of_nat 0) with 0. lia.
  - change ((x :: w) !!! S i) with (w !!! i). specialize (IH i ltac:(lia)).
    replace (64 * Z.of_nat (S i)) with (64 + 64 * Z.of_nat i) by lia.
    rewrite Z.pow_add_r by lia. nia.
Qed.

(** ** Product accumulators

    Before row [i] of a schoolbook product the accumulator holds the partial
    product and nothing above limb [i + 3]. *)

Record acc_ok (i : nat) (val : Z) (t : list Z) : Prop := {
  ao_len : length t = 8%nat;
  ao_word : Forall word t;
  ao_high : forall k, (i + 4 <= k < 8)%nat -> t !!! k = 0;
  ao_val : V t = val
}.

(** The structural bound: a partial product of [i+1] rows fits in [i+5] limbs. *)
Lemma row_room a b i : 0 <= a < 2 ^ 256 -> 0 <= b < 2 ^ (64 * (Z.of_nat i + 1)) ->
  a * b < 2 ^ (64 * (Z.of_nat i + 5)).
Proof.
  intros Ha Hb. replace (64 * (Z.of_nat i + 5)) with (256 + 64 * (Z.of_nat i + 1)) by lia.
  rewrite Z.pow_add_r by lia. nia.
Qed.

(** The first limb a chain writes. *)
Lemma add_chain_first n off xs t c :
  (off < length t)%nat ->
  (add_chain (S n) off xs (t, c)).1 !!! off = Z.land (t !!! off + xs !!! 0%nat + c) MASK.
Proof.
  intros Hoff. induction n as [|n IH].
  - unfold add_chain. cbn [range seq Nat.sub for_each foldl fst].
    rewrite Nat.add_0_r. by rewrite list_lookup_total_insert_eq.
  - rewrite add_chain_S. destruct (add_chain (S n) off xs (t, c)) as [t1 c1]. cbn [fst] in *.
    rewrite list_lookup_total_insert_ne by lia. exact IH.
Qed.

#[export] Hint Resolve word_land words_word : sarm.
