(* ===== verification/Reduce.v ===== *)
(** * P-256 folding reduction (scripts/p256_reduce_derivation.py)

    The fold table derived from the Solinas identity, the exact carry bound,
    and the register-faithful reduction [reduce_hw] / [canonicalize] /
    [reduce_full] the assembly's [p256_reduce] is ported from.  The main
    theorem: on any eight 64-bit limbs [reduce_full] raises no assertion and
    returns the canonical residue mod [P]. *)

From S2P Require Import Prelude PyInt Words.

(** [P = 2**256 - 2**224 + 2**192 + 2**96 - 1] *)
Definition P : Z := 2^256 - 2^224 + 2^192 + 2^96 - 1.
Definition MASK64 : Z := Z.shiftl 1 64 - 1.

(** ** 1. The fold table *)

(** One pass of the [while True] loop of [rewrite_high_word]: [None] when no
    exponent is left at or above 256. *)
Definition rewrite_step (terms : list (Z * Z)) : option (list (Z * Z)) :=
  match filter (fun e => 256 <= e) (dict_keys terms) with
  | [] => None
  | e :: _ =>
      let c := default 0 (dict_get terms e) in
      let terms := dict_del terms e in
      Some (for_each [(-32, 1); (-64, -1); (-160, -1); (-256, 1)] terms
        (fun terms '(delta, sign) =>
          let ne := e + delta in
          let terms := dict_set terms ne (default 0 (dict_get terms ne) + sign * c) in
          if bool_decide (dict_get terms ne = Some 0) then dict_del terms ne else terms))
  end.

Fixpoint rewrite_loop (fuel : nat) (terms : list (Z * Z)) : option (list (Z * Z)) :=
  match fuel with
  | O => None
  | S fuel => match rewrite_step terms with
              | None => Some terms
              | Some terms => rewrite_loop fuel terms
              end
  end.

(** [def rewrite_high_word(i)]; [None] only when the fuel runs out. *)
Definition rewrite_high_word (fuel : nat) (i : Z) : option (list (nat * Z)) :=
  terms ← rewrite_loop fuel [(32 * i, 1)];
  Some (for_each terms [] (fun d '(e, c) => dict_set d (Z.to_nat (e / 32)) c)).

(** [TABLE[i]]; 20 rewrites suffice for every [i] in [range(8, 16)]
    (lemma [TABLE_fuel]). *)
Definition TABLE (i : nat) : list (nat * Z) :=
  default [] (rewrite_high_word 20 (Z.of_nat i)).

(** [WORD_CONTRIBS[j]] *)
Definition WORD_CONTRIBS : list (list (nat * Z)) :=
  for_each (range 8 16) ((fun j => [(j, 1)]) <$> range 0 8) (fun wc i =>
    for_each (TABLE i) wc (fun wc '(j, c) => <[j := wc !!! j ++ [(i, c)]]> wc)).

(** [sum(c * (2 ** (32 * j)) for j, c in TABLE[i].items())] *)
Definition table_value (cs : list (nat * Z)) : Z :=
  foldr Z.add 0 ((fun '(j, c) => c * 2 ^ (32 * Z.of_nat j)) <$> cs).

(** [def cmd_derive()]: the assertion it makes for each [i]. *)
Definition cmd_derive : result unit :=
  for_result (range 8 16) () (fun _ i =>
    py_assert (table_value (TABLE i) mod P =? py_pow_mod 2 (32 * Z.of_nat i) P) "derive").

(** ** 2. The exact carry bound *)

(** [def cmd_bound()]: the pair it prints, after its assertion. *)
Definition cmd_bound : result (Z * Z) :=
  let R := (fun i => table_value (TABLE i)) <$> range 8 16 in
  let min_high := foldr Z.add 0 ((fun r => if r <? 0 then (2^32 - 1) * r else 0) <$> R) in
  let max_high := foldr Z.add 0 ((fun r => if 0 <? r then (2^32 - 1) * r else 0) <$> R) in
  let S_min := 0 + min_high in
  let S_max := (2^256 - 1) + max_high in
  let carry_min := Z.shiftr S_min 256 in
  let carry_max := Z.shiftr S_max 256 in
  _ ← py_assert (bool_decide ((carry_min, carry_max) = (-4, 4))) "bound";
  Ret (carry_min, carry_max).

(** ** 3. The register-faithful reduction *)

Definition s64 (x : Z) : Z :=
  let x := Z.land x MASK64 in
  if Z.shiftl 1 63 <=? x then x - Z.shiftl 1 64 else x.

Definition lo32 (x : Z) : Z := Z.land x 4294967295.
Definition hi32 (x : Z) : Z := Z.land (Z.shiftr x 32) 4294967295.

(** [propagate(vals)]: digits and the carry out of the last one. *)
Definition propagate (vals : list Z) : list Z * Z :=
  for_each (range 0 8) (replicate 8 0, 0) (fun '(digit, carry) j =>
    let s := s64 (vals !!! j + carry) in
    (<[j := Z.land s 4294967295]> digit, Z.shiftr s 32)).

(** [for j, coeff in cs: acc[j] = s64(acc[j] + coeff * v)] *)
Definition fold_in (cs : list (nat * Z)) (v : Z) (acc : list Z) : list Z :=
  for_each cs acc (fun acc '(j, coeff) => <[j := s64 (acc !!! j + coeff * v)]> acc).

(** The eight low 32-bit words, [acc] before the fold. *)
Definition low_words (T : list Z) : list Z :=
  [lo32 (T !!! 0%nat); hi32 (T !!! 0%nat); lo32 (T !!! 1%nat); hi32 (T !!! 1%nat);
   lo32 (T !!! 2%nat); hi32 (T !!! 2%nat); lo32 (T !!! 3%nat); hi32 (T !!! 3%nat)].

(** [values], indexed from 8. *)
Definition high_words (T : list Z) : list Z :=
  [lo32 (T !!! 4%nat); hi32 (T !!! 4%nat); lo32 (T !!! 5%nat); hi32 (T !!! 5%nat);
   lo32 (T !!! 6%nat); hi32 (T !!! 6%nat); lo32 (T !!! 7%nat); hi32 (T !!! 7%nat)].

(** [acc] after the fold loop over [range(8, 16)]. *)
Definition fold_high (T : list Z) : list Z :=
  for_each (range 8 16) (low_words T) (fun acc i =>
    fold_in (TABLE i) (high_words T !!! (i - 8)%nat) acc).

Definition reduce_hw (T : list Z) : list Z * Z :=
  let '(digit, carry_final) := propagate (fold_high T) in
  let digit := fold_in (TABLE 8) carry_final digit in
  let '(digitp, ext) := propagate digit in
  ((fun k => Z.lor (digitp !!! (2 * k)%nat) (Z.shiftl (digitp !!! (2 * k + 1)%nat) 32))
     <$> range 0 4, ext).

Definition pl : list Z :=
  [18446744073709551615; 4294967295; 0; 18446744069414584321].

(** The body of [for _ in range(2)] in [canonicalize]: the 4-limb subtraction
    chain, its borrow, and the 5-limb test against [ext]. *)
Definition canon_round (r_ext : list Z * Z) : list Z * Z :=
  let '(r, ext) := r_ext in
  let '(borrow, cand) := sub_chain r pl in
  let cand_ext := ext - borrow in
  if 0 <=? cand_ext then (cand, cand_ext) else (r, ext).

Definition canonicalize (r : list Z) (ext : Z) : list Z * Z :=
  let '(r, ext) :=
    if ext <? 0 then
      let '(r, carry) :=
        for_each (range 0 4) (r, 0) (fun '(r, carry) k =>
          let s := r !!! k + pl !!! k + carry in
          (<[k := Z.land s MASK64]> r, Z.shiftr s 64)) in
      (r, ext + carry)
    else (r, ext) in
  for_each (range 0 2) (r, ext) (fun re _ => canon_round re).

Definition reduce_full (T : list Z) : result Z :=
  let '(out, ext) := reduce_hw T in
  let '(r, ext) := canonicalize out ext in
  _ ← py_assert (ext =? 0) "ext not zero after correction";
  let val := foldr Z.add 0
    ((fun k : nat => Z.shiftl (r !!! k) (64 * Z.of_nat k)) <$> range 0 4) in
  _ ← py_assert ((0 <=? val) && (val <? P)) "val";
  Ret val.

(** [def edge_cases()] *)
Definition edge_cases : list Z :=
  let edge := [0; 1; 2^512 - 1; (P - 1) * (P - 1); (P - 1) * (P - 1) + 1;
               P * P; 2^256; 2^256 - 1; 2^511; 2^480; 2^224; 2^192;
               2^96; P; P - 1; P + 1; 2 * P; 2 * P - 1] in
  let edge := for_each (range 0 8) edge (fun edge k =>
    let shift := 64 * Z.of_nat k in
    edge ++ [Z.shiftl (2^64 - 1) shift; Z.shiftl 1 shift]) in
  let edge := for_each (range 1 9) edge (fun edge nz =>
    edge ++ [(2 ^ (4 * 16 * Z.of_nat nz) - 1) / 15]) in
  let edge := edge ++
    [Z.land ((2^256 - 1) * (Z.shiftl (2^64 - 1) 192 + (2^64 - 1))) (2^512 - 1)] in
  (fun x => Z.land x (2^512 - 1)) <$> edge.

(** ** The base-[2^32] view *)

Fixpoint V32 (w : list Z) : Z :=
  match w with [] => 0 | x :: w => x + 2 ^ 32 * V32 w end.

Definition dig32 (x : Z) : Prop := 0 <= x < 2 ^ 32.

Lemma V32_insert w i x :
  (i < length w)%nat ->
  V32 (<[i := x]> w) = V32 w + 2 ^ (32 * Z.of_nat i) * (x - w !!! i).
Proof.
  revert i. induction w as [|y w IH]; intros i Hi; simpl in Hi; [lia|].
  destruct i as [|i]; simpl; [lia|].
  rewrite IH by lia. replace (32 * Z.of_nat (S i)) with (32 + 32 * Z.of_nat i) by lia.
  rewrite Z.pow_add_r by lia. ring.
Qed.

Lemma V32_app w1 w2 : V32 (w1 ++ w2) = V32 w1 + 2 ^ (32 * Z.of_nat (length w1)) * V32 w2.
Proof.
  induction w1 as [|x w1 IH]; simpl length; [simpl; lia|].
  replace (32 * Z.of_nat (S (length w1))) with (32 + 32 * Z.of_nat (length w1)) by lia.
  rewrite Z.pow_add_r by lia. simpl. rewrite IH. ring.
Qed.

Lemma V32_bound w : Forall dig32 w -> 0 <= V32 w < 2 ^ (32 * Z.of_nat (length w)).
Proof.
  induction 1 as [|x w Hx _ IH]; simpl length; [simpl; lia|].
  replace (32 * Z.of_nat (S (length w))) with (32 + 32 * Z.of_nat (length w)) by lia.
  rewrite Z.pow_add_r by lia. simpl V32. unfold dig32 in *. nia.
Qed.

(** ** No 64-bit register ever wraps *)

Lemma s64_small x : - 2 ^ 63 <= x < 2 ^ 63 -> s64 x = x.
Proof.
  intros Hx. unfold s64. change MASK64 with MASK. rewrite land_MASK.
  change (Z.shiftl 1 63) with (2 ^ 63). change (Z.shiftl 1 64) with (2 ^ 64).
  destruct (Z_lt_ge_dec x 0).
  - assert (x mod 2 ^ 64 = x + 2 ^ 64) as ->.
    { symmetry. apply (Z.mod_unique_pos _ _ (-1)); lia. }
    case_match; lia.
  - rewrite Z.mod_small by lia. case_match; lia.
Qed.

Definition small_term (K v : Z) (jc : nat * Z) : Prop :=
  (jc.1 < 8)%nat /\ Z.abs (jc.2 * v) <= K.

Lemma fold_in_spec cs v acc B K :
  length acc = 8%nat -> Forall (fun x => Z.abs x <= B) acc ->
  Forall (small_term K v) cs -> 0 <= K ->
  B + Z.of_nat (length cs) * K < 2 ^ 63 ->
  length (fold_in cs v acc) = 8%nat /\
  Forall (fun x => Z.abs x <= B + Z.of_nat (length cs) * K) (fold_in cs v acc) /\
  V32 (fold_in cs v acc) = V32 acc + v * table_value cs.
Proof.
  intros Hlen HB Hcs HK Hroom. unfold fold_in.
  apply (for_each_ind (fun pre acc' => length acc' = 8%nat /\
    Forall (fun x => Z.abs x <= B + Z.of_nat (length pre) * K) acc' /\
    V32 acc' = V32 acc + v * table_value pre)).
  { split; [done|]. split; [|unfold table_value; simpl; lia].
    eapply Forall_impl; [|exact HB]. simpl. intros; lia. }
  intros pre [j c] post acc' -> (Hl & Hb & Hv).
  rewrite Forall_app, Forall_cons_iff in Hcs. destruct Hcs as (_ & [Hj Hc] & _). simpl in Hj, Hc.
  pose proof (Forall_total _ _ j Hb ltac:(lia)) as Hx. simpl in Hx.
  rewrite length_app in Hroom. simpl length in Hroom.
  assert (Z.abs (acc' !!! j + c * v) <= B + Z.of_nat (length (pre ++ [(j, c)])) * K) as Hx'.
  { rewrite length_app. simpl length. lia. }
  rewrite s64_small.
  2: { rewrite length_app in Hx'. simpl length in Hx'. nia. }
  split; [by rewrite length_insert|]. split.
  - apply Forall_insert; [|done]. eapply Forall_impl; [|exact Hb].
    rewrite length_app. simpl. intros. nia.
  - rewrite V32_insert by lia. rewrite Hv. unfold table_value.
    rewrite fmap_app, foldr_app. simpl.
    assert (forall l a, foldr Z.add a l = foldr Z.add 0 l + a) as Hfold.
    { induction l as [|z l IH]; intros a; simpl; [lia|]. rewrite IH. lia. }
    rewrite (Hfold _ (_ + 0)). ring.
Qed.

Lemma propagate_spec vals :
  length vals = 8%nat -> Forall (fun x => Z.abs x <= 2 ^ 62) vals ->
  length (propagate vals).1 = 8%nat /\ Forall dig32 (propagate vals).1 /\
  V32 (propagate vals).1 + 2 ^ 256 * (propagate vals).2 = V32 vals.
Proof.
  intros Hlen HB. unfold propagate.
  set (Q := fun (pre : list nat) (dc : list Z * Z) =>
    length dc.1 = 8%nat /\ Forall dig32 dc.1 /\ Z.abs dc.2 <= 2 ^ 31 /\
    V32 (take (length pre) dc.1) + 2 ^ (32 * Z.of_nat (length pre)) * dc.2 = V32 (take (length pre) vals)).
  match goal with |- context [for_each ?l ?s ?b] =>
    assert (Q l (for_each l s b)) as HQ end.
  { apply for_each_ind.
    - unfold Q. simpl. split_and!; [done| |lia|lia].
      repeat constructor; lia.
    - intros pre j post [d c] Hr (Hl & Hd & Hc & Hv). simpl in Hl, Hd, Hc, Hv.
      assert (j = length pre /\ (j < 8)%nat) as [Hj Hj8].
      { assert (range 0 8 !! length pre = Some j) as Hlk.
        { rewrite Hr, lookup_app_r, Nat.sub_diag by lia. done. }
        unfold range in Hlk. apply lookup_seq in Hlk. lia. }
      pose proof (Forall_total _ _ j HB ltac:(lia)) as Hvj. cbn beta in Hvj.
      rewrite s64_small by lia.
      set (s := vals !!! j + c).
      change 4294967295 with (2 ^ 32 - 1). rewrite Z_land_ones_mod by lia.
      rewrite Z.shiftr_div_pow2 by lia.
      pose proof (Z_split_mod s (2 ^ 32) ltac:(lia)) as Hs.
      pose proof (Z.mod_pos_bound s (2 ^ 32) ltac:(lia)) as Hm.
      unfold Q. cbn [fst snd]. rewrite length_app, length_insert. cbn [length].
      replace (length pre + 1)%nat with (S j) by lia. split; [done|]. split.
      { apply Forall_insert; [done|exact Hm]. }
      split; [unfold s in *; lia|].
      rewrite (take_S_r _ j (s mod 2 ^ 32)) by (apply list_lookup_insert_eq; lia).
      rewrite take_insert_ge by lia.
      rewrite (take_S_r vals j (vals !!! j)) by (apply list_lookup_lookup_total_lt; lia).
      rewrite !V32_app, !length_take_le by lia. rewrite <- Hj in Hv.
      replace (32 * Z.of_nat (S j)) with (32 * Z.of_nat j + 32) by lia.
      rewrite Z.pow_add_r by lia. simpl V32.
      set (p := 2 ^ (32 * Z.of_nat j)). unfold s in Hs.
      fold p in Hv. fold s in Hs.
      transitivity (V32 (take j d) + p * (2 ^ 32 * (s / 2 ^ 32) + s mod 2 ^ 32)); [ring|].
      rewrite <- Hs. unfold s. rewrite <- Hv. ring. }
  destruct HQ as (Hl & Hd & _ & Hv).
  change (length (range 0 8)) with 8%nat in Hv. rewrite !take_ge in Hv by lia. auto.
Qed.

(** ** The fold preserves the value mod [P] *)

(** The weights the eight high words are folded in with. *)
Definition weight (i : nat) : Z := Eval vm_compute in
  nth i (map (fun i => table_value (TABLE i)) (seq 8 8)) 0.

(** 20 rewrites are enough for every word, the coefficients are at most 3 and
    each row has at most 8 terms. *)
Lemma TABLE_shape i : (8 <= i < 16)%nat ->
  is_Some (rewrite_high_word 20 (Z.of_nat i)) /\ (length (TABLE i) <= 8)%nat /\
  Forall (fun jc => (jc.1 < 8)%nat /\ Z.abs jc.2 <= 3) (TABLE i).
Proof.
  revert i. apply (forall_range _ 8 8). cbn [seq].
  forall_elems ltac:(split_and!;
    [vm_compute; by eexists | vm_compute; lia | vm_compute; repeat constructor; discriminate]).
Qed.

Lemma TABLE_small i v : (8 <= i < 16)%nat -> dig32 v ->
  Forall (small_term (3 * 2 ^ 32) v) (TABLE i).
Proof.
  intros Hi Hv. destruct (TABLE_shape i Hi) as (_ & _ & HF).
  eapply Forall_impl; [|exact HF]. intros [j c] [Hj Hc]. simpl in *.
  split; [done|]. simpl. unfold dig32 in Hv. nia.
Qed.

Lemma lo32_dig x : dig32 (lo32 x).
Proof. unfold lo32, dig32. change 4294967295 with (2^32-1). rewrite Z_land_ones_mod by lia.
  apply Z.mod_pos_bound. lia. Qed.
Lemma hi32_dig x : dig32 (hi32 x).
Proof. apply lo32_dig. Qed.

Lemma lo_hi_word x : word x -> lo32 x + 2 ^ 32 * hi32 x = x.
Proof.
  intros Hx. unfold lo32, hi32, word in *. change 4294967295 with (2^32-1).
  rewrite !Z_land_ones_mod, Z.shiftr_div_pow2 by lia.
  rewrite (Z.mod_small (x / 2 ^ 32)).
  - pose proof (Z_split_mod x (2 ^ 32)). lia.
  - split; [apply Z.div_pos; lia|]. apply Z.div_lt_upper_bound; lia.
Qed.

Lemma high_words_dig T k : (k < 8)%nat -> dig32 (high_words T !!! k).
Proof.
  intros Hk. apply Forall_total; [|done].
  repeat constructor; (apply lo32_dig || apply hi32_dig).
Qed.

(** The exact value of the folded accumulator. *)
Definition folded_value (T : list Z) (n : nat) : Z :=
  foldl (fun acc i => acc + high_words T !!! (i - 8)%nat * table_value (TABLE i))
    (V32 (low_words T)) (seq 8 n).

Lemma fold_high_spec T :
  length (fold_high T) = 8%nat /\ Forall (fun x => Z.abs x <= 2 ^ 62) (fold_high T) /\
  V32 (fold_high T) = folded_value T 8.
Proof.
  unfold fold_high.
  set (Q := fun (pre : list nat) (acc : list Z) =>
    length acc = 8%nat /\
    Forall (fun x => Z.abs x <= 2 ^ 32 + Z.of_nat (length pre) * (8 * (3 * 2 ^ 32))) acc /\
    V32 acc = folded_value T (length pre)).
  match goal with |- context [for_each ?l ?s ?b] =>
    assert (Q l (for_each l s b)) as (Hl & Hb & Hv) end.
  { apply for_each_ind.
    - unfold Q. cbn [length]. split_and!; [done| |done].
      assert (forall x, dig32 x -> Z.abs x <= 2 ^ 32 + Z.of_nat 0 * (8 * (3 * 2 ^ 32)))
        by (unfold dig32; lia).
      repeat constructor; auto using lo32_dig, hi32_dig.
    - intros pre i post acc Hr (Hl & Hb & Hv).
      assert (range 8 16 !! length pre = Some i) as Hlk
        by (by rewrite Hr, lookup_app_r, Nat.sub_diag by lia).
      unfold range in Hlk. apply lookup_seq in Hlk as [Hi Hlt].
      destruct (TABLE_shape i ltac:(lia)) as (_ & Hlen & _).
      destruct (fold_in_spec (TABLE i) (high_words T !!! (i - 8)%nat) acc
        (2 ^ 32 + Z.of_nat (length pre) * (8 * (3 * 2 ^ 32))) (3 * 2 ^ 32))
        as (Hl' & Hb' & Hv'); [done|done| |lia|nia|].
      { apply TABLE_small; [lia|]. apply high_words_dig. lia. }
      unfold Q. rewrite length_app. cbn [length]. split_and!; [done| |].
      + eapply Forall_impl; [|exact Hb']. cbn beta. intros x Hx. nia.
      + rewrite Hv', Hv. replace (length pre + 1)%nat with (S (length pre)) by lia.
        unfold folded_value. rewrite seq_S, foldl_app. cbn [foldl].
        by replace (8 + length pre)%nat with i by lia. }
  split_and!; [done| |done]. eapply Forall_impl; [|exact Hb].
  change (length (range 8 16)) with 8%nat. cbn beta. intros x Hx. lia.
Qed.

(** The eight folded words written out, the weights evaluated. *)
Lemma folded_value_eq T :
  folded_value T 8 =
    V32 (low_words T)
    + high_words T !!! 0%nat * weight 0 + high_words T !!! 1%nat * weight 1
    + high_words T !!! 2%nat * weight 2 + high_words T !!! 3%nat * weight 3
    + high_words T !!! 4%nat * weight 4 + high_words T !!! 5%nat * weight 5
    + high_words T !!! 6%nat * weight 6 + high_words T !!! 7%nat * weight 7.
Proof.
  unfold folded_value. cbn [seq foldl Nat.sub].
  assert (forall i, (8 <= i < 16)%nat -> table_value (TABLE i) = weight (i - 8)) as Hw.
  { apply (forall_range _ 8 8). cbn [seq]. forall_elems ltac:(vm_compute; reflexivity). }
  rewrite !Hw by lia. reflexivity.
Qed.

Lemma weight_cong k : (0 <= k < 8)%nat ->
  (P | weight k - 2 ^ (32 * Z.of_nat (8 + k))).
Proof.
  revert k. apply (forall_range _ 0 8). cbn [seq].
  forall_elems ltac:(apply Z.mod_divide; [done|vm_compute; reflexivity]).
Qed.

Lemma list8 {A} (l : list A) : length l = 8%nat ->
  exists a b c d e f g h, l = [a; b; c; d; e; f; g; h].
Proof.
  destruct l as [|a [|b [|c [|d [|e [|f [|g [|h [|]]]]]]]]]; simpl; try lia.
  intros _. by exists a, b, c, d, e, f, g, h.
Qed.

Lemma fold_high_cong T : length T = 8%nat -> Forall word T ->
  (P | V32 (fold_high T) - V T).
Proof.
  intros HT Hw. destruct (fold_high_spec T) as (_ & _ & ->). rewrite folded_value_eq.
  destruct (list8 T HT) as (a & b & c & d & e & f & g & h & ->).
  rewrite !Forall_cons_iff in Hw. destruct Hw as (Ha & Hb & Hc & Hd & He & Hf & Hg & Hh & _).
  assert (V [a; b; c; d; e; f; g; h] =
    V32 (low_words [a; b; c; d; e; f; g; h]) +
    2 ^ 256 * V32 (high_words [a; b; c; d; e; f; g; h])) as ->.
  { unfold low_words, high_words. cbn [lookup_total list_lookup_total V V32].
    rewrite <- (lo_hi_word a) at 1 by done. rewrite <- (lo_hi_word b) at 1 by done.
    rewrite <- (lo_hi_word c) at 1 by done. rewrite <- (lo_hi_word d) at 1 by done.
    rewrite <- (lo_hi_word e) at 1 by done. rewrite <- (lo_hi_word f) at 1 by done.
    rewrite <- (lo_hi_word g) at 1 by done. rewrite <- (lo_hi_word h) at 1 by done. lia. }
  set (T := [a; b; c; d; e; f; g; h]).
  pose proof weight_cong as WC.
  assert (forall k, (k < 8)%nat ->
    (P | high_words T !!! k * (weight k - 2 ^ (32 * Z.of_nat (8 + k))))) as Hk
    by (intros k Hk; apply Z.divide_mul_r, WC; lia).
  pose proof (Hk 0%nat ltac:(lia)) as H0. pose proof (Hk 1%nat ltac:(lia)) as H1.
  pose proof (Hk 2%nat ltac:(lia)) as H2. pose proof (Hk 3%nat ltac:(lia)) as H3.
  pose proof (Hk 4%nat ltac:(lia)) as H4. pose proof (Hk 5%nat ltac:(lia)) as H5.
  pose proof (Hk 6%nat ltac:(lia)) as H6. pose proof (Hk 7%nat ltac:(lia)) as H7.
  pose proof (Z.divide_add_r _ _ _ H0 (Z.divide_add_r _ _ _ H1 (Z.divide_add_r _ _ _ H2
    (Z.divide_add_r _ _ _ H3 (Z.divide_add_r _ _ _ H4 (Z.divide_add_r _ _ _ H5
    (Z.divide_add_r _ _ _ H6 H7))))))) as Hsum.
  clear - Hsum. match type of Hsum with (_ | ?x) => replace (_ - _) with x; [done|] end.
  unfold high_words. cbn [lookup_total list_lookup_total V32 Nat.add].
  change (32 * Z.of_nat 8) with 256. change (32 * Z.of_nat 9) with 288.
  change (32 * Z.of_nat 10) with 320. change (32 * Z.of_nat 11) with 352.
  change (32 * Z.of_nat 12) with 384. change (32 * Z.of_nat 13) with 416.
  change (32 * Z.of_nat 14) with 448. change (32 * Z.of_nat 15) with 480.
  generalize (weight 0), (weight 1), (weight 2), (weight 3), (weight 4), (weight 5),
    (weight 6), (weight 7). intros. lia.
Qed.

(** ** Ranges: the first carry, and the value entering the correction *)

Lemma low_words_bound T : 0 <= V32 (low_words T) < 2 ^ 256.
Proof.
  apply (V32_bound (low_words T)).
  repeat constructor; (apply lo32_dig || apply hi32_dig).
Qed.

Lemma folded_range T : - 4 * 2 ^ 256 <= V32 (fold_high T) < 5 * 2 ^ 256.
Proof.
  destruct (fold_high_spec T) as (_ & _ & ->). rewrite folded_value_eq.
  pose proof (low_words_bound T) as Hlow.
  pose proof (high_words_dig T 0 ltac:(lia)) as H0. pose proof (high_words_dig T 1 ltac:(lia)) as H1.
  pose proof (high_words_dig T 2 ltac:(lia)) as H2. pose proof (high_words_dig T 3 ltac:(lia)) as H3.
  pose proof (high_words_dig T 4 ltac:(lia)) as H4. pose proof (high_words_dig T 5 ltac:(lia)) as H5.
  pose proof (high_words_dig T 6 ltac:(lia)) as H6. pose proof (high_words_dig T 7 ltac:(lia)) as H7.
  unfold dig32 in *. unfold weight. lia.
Qed.

(** The carry out of the first propagation, [carry_final]. *)
Definition carry_final (T : list Z) : Z := (propagate (fold_high T)).2.

Lemma carry_final_floor T : carry_final T = V32 (fold_high T) / 2 ^ 256.
Proof.
  unfold carry_final. destruct (fold_high_spec T) as (Hl & Hb & _).
  destruct (propagate_spec _ Hl Hb) as (Hl1 & Hd1 & Hv).
  pose proof (V32_bound _ Hd1) as Hr. rewrite Hl1 in Hr.
  change (32 * Z.of_nat 8) with 256 in Hr.
  apply (Z.div_unique_pos _ _ _ (V32 (propagate (fold_high T)).1)); lia.
Qed.

Lemma carry_final_range T : -4 <= carry_final T <= 4.
Proof.
  rewrite carry_final_floor. pose proof (folded_range T). split.
  - apply Z.div_le_lower_bound; lia.
  - apply Z.lt_succ_r. apply Z.div_lt_upper_bound; lia.
Qed.

Lemma table8_value : table_value (TABLE 8) = 2 ^ 256 - P.
Proof. vm_compute. reflexivity. Qed.

Lemma table8_length : length (TABLE 8) = 4%nat.
Proof. vm_compute. reflexivity. Qed.

#[local] Opaque TABLE fold_high propagate fold_in low_words high_words.

(** Folding the carry back in: [cf * 2^256] is replaced by [cf * (2^256 - p)]. *)
Lemma fold_cong_step p b D F VT cf O ext :
  O + b * ext = D + cf * (b - p) -> D + b * cf = F -> (p | F - VT) ->
  (p | O + b * ext - VT).
Proof.
  intros HO HD [k Hk]. exists (k - cf). rewrite HO.
  replace VT with (F - k * p) by lia. rewrite <- HD. ring.
Qed.

Lemma limbs_of_digits a b c d e f g h :
  V [a + 2 ^ 32 * b; c + 2 ^ 32 * d; e + 2 ^ 32 * f; g + 2 ^ 32 * h]
  = V32 [a; b; c; d; e; f; g; h].
Proof. cbn [V V32]. lia. Qed.

Lemma entry_range D cf : 0 <= D < 2 ^ 256 -> -4 <= cf <= 4 ->
  - P < D + cf * (2 ^ 256 - P) < 3 * P.
Proof. intros. unfold P. lia. Qed.

(** What leaves [reduce_hw]: four limbs and a signed extension whose joint
    value is congruent to the input and lies strictly between [-P] and [3P]. *)
Lemma reduce_hw_spec T : length T = 8%nat -> Forall word T ->
  let '(out, ext) := reduce_hw T in
  length out = 4%nat /\ Forall word out /\
  (P | V out + 2 ^ 256 * ext - V T) /\
  - P < V out + 2 ^ 256 * ext < 3 * P.
Proof.
  intros HT Hw. unfold reduce_hw.
  pose proof (carry_final_range T) as Hcf. unfold carry_final in Hcf.
  destruct (fold_high_spec T) as (Hl & Hb & _).
  destruct (propagate_spec _ Hl Hb) as (Hl1 & Hd1 & Hv1).
  destruct (propagate (fold_high T)) as [digit cf]. cbn [fst snd] in *.
  pose proof (V32_bound _ Hd1) as Hr1. rewrite Hl1 in Hr1.
  change (32 * Z.of_nat 8) with 256 in Hr1.
  destruct (fold_in_spec (TABLE 8) cf digit (2 ^ 32) 12) as (Hl2 & Hb2 & Hv2); [exact Hl1| | |lia|rewrite table8_length; lia|].
  { eapply Forall_impl; [|exact Hd1]. unfold dig32. intros x Hx. lia. }
  { destruct (TABLE_shape 8 ltac:(lia)) as (_ & _ & HF). eapply Forall_impl; [|exact HF].
    intros [j c] [Hj Hc]. cbn [fst snd] in Hj, Hc. split; [exact Hj|]. cbn [fst snd]. nia. }
  destruct (propagate_spec (fold_in (TABLE 8) cf digit)) as (Hl3 & Hd3 & Hv3); [exact Hl2| |].
  { eapply Forall_impl; [|exact Hb2]. cbn beta. intros x Hx.
    rewrite table8_length in Hx. lia. }
  clear Hb2 Hl2.
  destruct (propagate _) as [digitp ext]. cbn [fst snd] in *.
  rewrite Hv2, table8_value in Hv3.
  destruct (list8 digitp Hl3) as (a & b & c & d & e & f & g & h & ->).
  rewrite !Forall_cons_iff in Hd3. destruct Hd3 as (Ha & Hb' & Hc & Hd & He & Hf & Hg & Hh & _).
  assert (forall x y, dig32 x -> dig32 y ->
    Z.lor x (Z.shiftl y 32) = x + 2 ^ 32 * y) as Hlor.
  { intros x y Hx _. apply lor_shiftl_add; [lia|exact Hx]. }
  cbn [range seq Nat.sub fmap list_fmap Nat.mul Nat.add lookup_total list_lookup_total].
  cbn [fmap list_fmap Nat.mul Nat.add lookup_total list_lookup_total].
  rewrite !Hlor by done. unfold dig32 in *.
  split; [done|]. split; [forall_elems ltac:(unfold word; lia)|]. split.
  - rewrite limbs_of_digits. eapply fold_cong_step; [exact Hv3|exact Hv1|].
    apply fold_high_cong; assumption.
  - rewrite limbs_of_digits, Hv3. apply entry_range; assumption.
Qed.

(** ** The conditional corrections *)

Lemma P_range : 2 ^ 255 < P /\ P < 2 ^ 256.
Proof. unfold P. lia. Qed.
#[local] Opaque P.

Definition ext_value (re : list Z * Z) : Z := V re.1 + 2 ^ 256 * re.2.

Lemma pl_value : V pl = P.
Proof. reflexivity. Qed.
Lemma pl_word : Forall word pl.
Proof. repeat constructor; discriminate. Qed.

Lemma canon_round_spec r ext : length r = 4%nat -> Forall word r ->
  let re := canon_round (r, ext) in
  length re.1 = 4%nat /\ Forall word re.1 /\
  ext_value re = (if P <=? ext_value (r, ext) then ext_value (r, ext) - P
                  else ext_value (r, ext)).
Proof.
  intros Hl Hw. unfold canon_round.
  destruct (sub_chain_spec r pl Hl eq_refl Hw pl_word) as [Hdl Hdw Hb Hdv].
  destruct (sub_chain r pl) as [borrow cand]. cbn [fst snd] in *.
  pose proof (V_nonneg _ Hdw) as Hv0. pose proof (V_bound _ Hdw) as Hv1. rewrite Hdl in Hv1.
  change (64 * Z.of_nat 4) with 256 in Hv1. rewrite pl_value in Hdv. unfold ext_value.
  destruct (Z.leb_spec 0 (ext - borrow)); cbn [fst snd].
  - split_and!; [done|done|]. pose proof P_range.
    destruct (Z.leb_spec P (V r + 2 ^ 256 * ext)); lia.
  - split_and!; [done|done|]. pose proof P_range.
    destruct (Z.leb_spec P (V r + 2 ^ 256 * ext)); lia.
Qed.

Lemma canonicalize_spec r ext : length r = 4%nat -> Forall word r ->
  - P < ext_value (r, ext) < 3 * P ->
  let re := canonicalize r ext in
  length re.1 = 4%nat /\ Forall word re.1 /\ re.2 = 0 /\
  V re.1 = ext_value (r, ext) mod P.
Proof.
  intros Hl Hw HX. unfold canonicalize.
  set (start := if ext <? 0 then _ else (r, ext)).
  assert (length start.1 = 4%nat /\ Forall word start.1 /\
          ext_value start = (if ext <? 0 then ext_value (r, ext) + P else ext_value (r, ext)))
    as (Hsl & Hsw & Hsv).
  { unfold start. destruct (Z.ltb_spec ext 0); [|done].
    change (for_each _ _ _) with (add_chain 4 0 pl (r, 0)).
    destruct (add_chain_spec 4 0 pl r 0) as [Hal Haw Hac _ Hav];
      [lia|done|done|apply pl_word|lia|].
    destruct (add_chain 4 0 pl (r, 0)) as [r' c]. cbn [fst snd] in *.
    split_and!; [lia|done|]. unfold ext_value. cbn [fst snd].
    change (take 4 pl) with pl in Hav. change (0 + 4)%nat with 4%nat in Hav. rewrite pl_value in Hav.
    change (64 * Z.of_nat 4) with 256 in Hav. change (64 * Z.of_nat 0) with 0 in Hav. lia. }
  assert (0 <= ext_value start < 3 * P) as HS.
  { rewrite Hsv. pose proof (V_nonneg _ Hw) as H0. pose proof (V_bound _ Hw) as H1.
    rewrite Hl in H1. change (64 * Z.of_nat 4) with 256 in H1.
    unfold ext_value in HX |- *. cbn [fst snd] in HX |- *. pose proof P_range.
    clear Hsv Hsw Hsl. destruct (Z.ltb_spec ext 0); lia. }
  assert (ext_value start mod P = ext_value (r, ext) mod P) as <-.
  { rewrite Hsv. case_match; [|done].
    rewrite <- (Z_mod_plus_full (ext_value (r, ext)) 1 P), Z.mul_1_l. reflexivity. }
  destruct start as [r0 e0]. cbn [fst snd] in *.
  cbn [range seq Nat.sub for_each foldl].
  destruct (canon_round_spec r0 e0 Hsl Hsw) as (Hl1 & Hw1 & Hv1).
  destruct (canon_round (r0, e0)) as [r1 e1]. cbn [fst snd] in *.
  destruct (canon_round_spec r1 e1 Hl1 Hw1) as (Hl2 & Hw2 & Hv2).
  destruct (canon_round (r1, e1)) as [r2 e2]. cbn [fst snd] in *.
  rewrite Hv1 in Hv2.
  assert (0 <= ext_value (r2, e2) < P) as Hfin.
  { rewrite Hv2. repeat case_match; lia. }
  pose proof (V_nonneg _ Hw2) as H0. pose proof (V_bound _ Hw2) as H1. rewrite Hl2 in H1.
  change (64 * Z.of_nat 4) with 256 in H1.
  assert (e2 = 0) as ->. { unfold ext_value in Hfin. cbn [fst snd] in Hfin. pose proof P_range; lia. }
  split_and!; [done|done|done|].
  assert (V r2 = ext_value (r2, 0)) as -> by (unfold ext_value; cbn [fst snd]; lia).
  rewrite Hv2. set (X := ext_value (r0, e0)) in *.
  destruct (Z.leb_spec P X); destruct (Z.leb_spec P (X - P)) in *;
    repeat match goal with |- context [if ?b then _ else _] => destruct b eqn:? end;
    try lia; [apply (Z.mod_unique_pos _ _ 2)|apply (Z.mod_unique_pos _ _ 1)|
              apply (Z.mod_unique_pos _ _ 0)]; lia.
Qed.

(** ** The reduction is correct *)

Lemma reduce_full_mod T : length T = 8%nat -> Forall word T ->
  reduce_full T = Ret (V T mod P).
Proof.
  intros HT Hw. unfold reduce_full.
  pose proof (reduce_hw_spec T HT Hw) as Hhw.
  destruct (reduce_hw T) as [out ext]. destruct Hhw as (Hl & Hw' & Hcong & HX).
  pose proof (canonicalize_spec out ext Hl Hw' HX) as (Hl2 & Hw2 & He & Hv).
  destruct (canonicalize out ext) as [r e]. cbn [fst snd] in *. subst e.
  cbn [py_assert Z.eqb mbind result_bind].
  assert (foldr Z.add 0 ((fun k : nat => Z.shiftl (r !!! k) (64 * Z.of_nat k)) <$> range 0 4)
          = V r) as ->.
  { destruct (list4 r Hl2) as (a & b & c & d & ->).
    cbn [range seq Nat.sub fmap list_fmap foldr lookup_total list_lookup_total V].
    rewrite !Z.shiftl_mul_pow2 by lia. change (64 * Z.of_nat 0) with 0.
    change (64 * Z.of_nat 1) with 64. change (64 * Z.of_nat 2) with 128.
    change (64 * Z.of_nat 3) with 192. lia. }
  assert (V r = V T mod P) as ->.
  { rewrite Hv. destruct Hcong as [k Hk].
    replace (ext_value (out, ext)) with (V T + k * P)
      by (unfold ext_value; cbn [fst snd]; lia).
    apply Z_mod_plus_full. }
  pose proof (Z.mod_pos_bound (V T) P ltac:(pose proof P_range; lia)) as Hr.
  rewrite py_assert_true; [done|]. apply andb_true_intro. split; lia.
Qed.

(** ** Properties *)

(** C1: [reduce_full] never trips an assertion, and on every eight 64-bit
    limbs returns the canonical residue of the 512-bit value mod [P]: the
    32-bit folds, the wrap-around of [s64] and the conditional corrections
    together compute [x % P]. *)
Theorem reduce_full_correct T : length T = 8%nat -> Forall word T ->
  reduce_full T = Ret (value T mod P).
Proof. rewrite value_V. apply reduce_full_mod. Qed.

Lemma reduce_full_correct_witness :
  reduce_full (replicate 8 MASK) = Ret (value (replicate 8 MASK) mod P).
Proof. apply reduce_full_correct; [reflexivity|]. repeat constructor; discriminate. Defined.

(** C2: the carry bound printed by [cmd_bound] is exact: it is what the
    function computes, every 512-bit input stays within it, and both ends are
    attained. *)
Theorem carry_bound_exact :
  cmd_bound = Ret (-4, 4) /\
  (forall T, -4 <= carry_final T <= 4) /\
  (exists T, Forall word T /\ length T = 8%nat /\ carry_final T = -4) /\
  (exists T, Forall word T /\ length T = 8%nat /\ carry_final T = 4).
Proof.
  assert (forall l, forallb (fun x => (0 <=? x) && (x <? 2 ^ 64)) l = true -> Forall word l) as Hw.
  { induction l as [|x l IH]; simpl; [constructor|]. intros [Hx Hl]%andb_prop.
    constructor; [unfold word; lia|auto]. }
  split; [vm_compute; reflexivity|]. split; [apply carry_final_range|]. split.
  - exists [0; 0; 0; 0; MASK - 4294967295; MASK; MASK; 0].
    split; [apply Hw; vm_compute; reflexivity|]. split; [reflexivity|vm_compute; reflexivity].
  - exists [MASK; MASK; MASK; MASK; 4294967295; 0; 0; MASK].
    split; [apply Hw; vm_compute; reflexivity|]. split; [reflexivity|vm_compute; reflexivity].
Qed.
