(* ===== verification/PrimeField.v ===== *)
(** * The field of P-256

    Integers modulo [P] as a setoid field, with the inverse the scripts
    compute by Fermat's little theorem, and the completeness of the modular
    inverse [pow(a, -1, m)]. *)

From S2P Require Import Prelude PyInt Primality Words Reduce.
From Stdlib Require Import Znumtheory Zpow_facts Field.

(** ** [pow(a, -1, m)] returns *)

(** Two steps of Euclid's algorithm halve the remainder. *)
Lemma inv_loop_gcd k fuel r0 s0 r1 s1 : 0 <= r1 -> 0 <= r0 -> r1 < 2 ^ Z.of_nat k -> (2 * k + 1 <= fuel)%nat ->
  (inv_loop fuel r0 s0 r1 s1).1 = Z.gcd r0 r1.
Proof.
  revert fuel r0 s0 r1 s1. induction k as [|k IH]; intros fuel r0 s0 r1 s1 H1 H0 Hlt Hf.
  - cbn in Hlt. destruct fuel as [|fuel]; [lia|]. cbn [inv_loop]. rewrite (proj2 (Z.eqb_eq r1 0)) by lia.
    cbn [fst]. replace r1 with 0 by lia. rewrite Z.gcd_0_r. lia.
  - destruct fuel as [|[|fuel]]; [lia|lia|]. cbn [inv_loop].
    destruct (Z.eqb_spec r1 0) as [->|Hr1]; [cbn [fst]; rewrite Z.gcd_0_r; lia|].
    assert (Z.gcd r0 r1 = Z.gcd r1 (r0 mod r1)) as -> by (rewrite (Z.gcd_comm r1), Z.gcd_mod, Z.gcd_comm; done).
    pose proof (Z.mod_pos_bound r0 r1 ltac:(lia)). destruct (Z.eqb_spec (r0 mod r1) 0) as [->|Hr2].
    { cbn [fst]. rewrite Z.gcd_0_r. lia. }
    set (r2 := r0 mod r1) in *. pose proof (Z.mod_pos_bound r1 r2 ltac:(lia)).
    rewrite IH; [|lia|lia| |lia].
    + by rewrite (Z.gcd_comm r2), Z.gcd_mod, Z.gcd_comm by lia.
    + rewrite Nat2Z.inj_succ, Z.pow_succ_r in Hlt by lia.
      pose proof (Z.div_mod r1 r2 ltac:(lia)). assert (1 <= r1 / r2) by (apply Z.div_le_lower_bound; lia). nia.
Qed.

Lemma py_inv_mod_complete a m : 1 < m -> Z.gcd a m = 1 -> exists x, py_inv_mod a m = Ret x.
Proof.
  intros Hm Hg. unfold py_inv_mod.
  pose proof (Z.mod_pos_bound a m ltac:(lia)) as Hb.
  pose proof (inv_loop_gcd (Z.to_nat (Z.log2_up m)) (Z.to_nat (2 * Z.log2_up m + 2)) m 0 (a mod m) 1) as H.
  pose proof (Z.log2_up_spec m Hm) as [_ Hl]. pose proof (Z.log2_up_nonneg m).
  rewrite Z2Nat.id in H by lia.
  destruct (inv_loop _ _ _ _ _) as [g s]. cbn [fst] in H. rewrite H by lia.
  rewrite Z.gcd_comm, Z.gcd_mod, Z.gcd_comm, Hg by lia. by eexists.
Qed.

(** ** The field *)

Lemma prime_P : prime P.
Proof. exact prime_p256. Qed.

(** Equal modulo [P]. *)
Definition eqP (x y : Z) : Prop := x mod P = y mod P.
Notation "x ≡P y" := (eqP x y) (at level 70).

(** [pow(x, P - 2, P)] *)
Definition invP (x : Z) : Z := py_pow_mod x (P - 2) P.
Definition divP (x y : Z) : Z := x * invP y.

#[export] Instance eqP_dec x y : Decision (eqP x y) := decide (x mod P = y mod P).
#[export] Instance eqP_equiv : Equivalence eqP.
Proof. split; unfold eqP; congruence. Qed.
#[export] Instance add_proper : Proper (eqP ==> eqP ==> eqP) Z.add.
Proof. intros x y H x' y' H'. unfold eqP in *. by rewrite Zplus_mod, H, H', <- Zplus_mod. Qed.
#[export] Instance sub_proper : Proper (eqP ==> eqP ==> eqP) Z.sub.
Proof. intros x y H x' y' H'. unfold eqP in *. by rewrite Zminus_mod, H, H', <- Zminus_mod. Qed.
#[export] Instance mul_proper : Proper (eqP ==> eqP ==> eqP) Z.mul.
Proof. intros x y H x' y' H'. unfold eqP in *. by rewrite Zmult_mod, H, H', <- Zmult_mod. Qed.
#[export] Instance opp_proper : Proper (eqP ==> eqP) Z.opp.
Proof. intros x y H. rewrite <- !Z.sub_0_l. by rewrite H. Qed.

Lemma P_big : 2 < P.
Proof. pose proof P_range. lia. Qed.

#[export] Instance inv_proper : Proper (eqP ==> eqP) invP.
Proof.
  intros x y H. unfold invP, eqP in *. pose proof P_big. rewrite !py_pow_mod_spec by lia.
  rewrite Zpower_mod, H, <- Zpower_mod by lia. done.
Qed.
#[export] Instance div_proper : Proper (eqP ==> eqP ==> eqP) divP.
Proof. intros x y H x' y' H'. unfold divP. by rewrite H, H'. Qed.

Lemma eqP_mod x : x mod P ≡P x.
Proof. unfold eqP. pose proof P_big. apply Z.mod_mod. lia. Qed.

Lemma eqP_zero x : x ≡P 0 <-> (P | x).
Proof. unfold eqP. pose proof P_big. rewrite Z.mod_0_l by lia. apply Z.mod_divide. lia. Qed.

Lemma eqP_sub x y : x ≡P y <-> x - y ≡P 0.
Proof.
  split; intros H; [rewrite H; by rewrite Z.sub_diag|].
  replace x with (y + (x - y)) by lia. rewrite H. by rewrite Z.add_0_r.
Qed.

(** Fermat's inverse is an inverse. *)
Lemma invP_mul x : ~ x ≡P 0 -> invP x * x ≡P 1.
Proof.
  intros Hx. rewrite eqP_zero in Hx. pose proof P_big. unfold invP, eqP.
  rewrite py_pow_mod_spec by lia. rewrite Zmult_mod_idemp_l, Z.mul_comm, <- Z.pow_succ_r by lia.
  replace (Z.succ (P - 2)) with (P - 1) by lia. rewrite fermat_little by (apply prime_P || done).
  symmetry. apply Z.mod_small. lia.
Qed.

Lemma ring_P : ring_theory 0 1 Z.add Z.mul Z.sub Z.opp eqP.
Proof. split; intros; unfold eqP; f_equal; ring. Qed.

Lemma field_P : field_theory 0 1 Z.add Z.mul Z.sub Z.opp divP invP eqP.
Proof.
  split; [apply ring_P| |done|apply invP_mul].
  intros H%eqP_zero%Z.divide_1_r_nonneg; pose proof P_big; lia.
Qed.

Lemma ring_P_ext : ring_eq_ext Z.add Z.mul Z.opp eqP.
Proof. split; [apply add_proper|apply mul_proper|apply opp_proper]. Qed.

(** No zero divisors. *)
Lemma mul_nonzero x y : ~ x ≡P 0 -> ~ y ≡P 0 -> ~ x * y ≡P 0.
Proof. rewrite !eqP_zero. intros Hx Hy [?|?]%prime_mult; [done|done|apply prime_P]. Qed.

(** The inverse [pow(x, -1, P)] exists and is Fermat's. *)
Lemma py_inv_P x : ~ x ≡P 0 -> exists y, py_inv_mod x P = Ret y /\ y ≡P invP x.
Proof.
  intros Hx. pose proof P_big. rewrite eqP_zero in Hx.
  destruct (py_inv_mod_complete x P) as [y Hy]; [lia| |].
  - rewrite Z.gcd_comm. apply Zgcd_1_rel_prime. by apply prime_rel_prime; [apply prime_P|].
  - exists y. split; [done|]. apply py_inv_mod_sound in Hy as [Hr Hy]; [|lia].
    pose proof (invP_mul x) as Hi. rewrite eqP_zero in Hi. specialize (Hi Hx). unfold eqP in *.
    rewrite (Z.mod_small 1) in Hi by lia.
    rewrite (Z.mod_small y) by lia. apply (inverse_unique x P); [lia|lia| |done|].
    + apply Z.mod_pos_bound. lia.
    + by rewrite Zmult_mod_idemp_l.
Qed.

Lemma reduced_eq x y : 0 <= x < P -> 0 <= y < P -> x ≡P y -> x = y.
Proof. unfold eqP. intros. by rewrite <- (Z.mod_small x P), <- (Z.mod_small y P) by done. Qed.

Lemma eqP_iff x y : x ≡P y <-> x mod P = y mod P.
Proof. done. Qed.

#[global] Opaque eqP.
