(* ===== verification/Comb.v ===== *)
(** * Fixed-base comb (scripts/p256_comb_derivation.py)

    The affine oracle, the comb table, the mixed Jacobian addition, the comb
    loop with its masks, and the script's two structural proofs.  The text
    of the table is in [Emitted], the C tests in [Vectors], the comparison with
    OpenSSL in [Interop]. *)

From S2P Require Import Prelude PyInt Words Reduce PrimeField.
From Stdlib Require Import Field.

Definition N : Z := 0xFFFFFFFF00000000FFFFFFFFFFFFFFFFBCE6FAADA7179E84F3B9CAC2FC632551.
Definition A : Z := (-3) mod P.
Definition B : Z := 0x5AC635D8AA3A93E7B3EBBD55769886BC651D06B0CC53B0F63BCE3C3E27D2604B.
Definition GX : Z := 0x6B17D1F2E12C4247F8BCE6E563A440F277037D812DEB33A0F4A13945D898C296.
Definition GY : Z := 0x4FE342E2FE1A7F9B8EE7EB4A7C0F9E162BCE33576B315ECECBB6406837BF51F5.
Definition W : Z := 4.
Definition BLOCKS : nat := 64.
Definition ENTRIES : nat := 15.

(** ** The affine oracle *)

(** [None] is infinity. *)
Definition point : Type := option (Z * Z).

Definition aff_add (p1 p2 : point) : result point :=
  match p1, p2 with
  | None, _ => Ret p2
  | _, None => Ret p1
  | Some (x1, y1), Some (x2, y2) =>
      let finish lam :=
        let x3 := (lam * lam - x1 - x2) mod P in
        Ret (Some (x3, (lam * (x1 - x3) - y1) mod P)) in
      if x1 =? x2 then
        if (y1 + y2) mod P =? 0 then Ret None else
        i ← py_inv_mod (2 * y1) P; finish (((3 * x1 * x1 + A) * i) mod P)
      else i ← py_inv_mod (x2 - x1) P; finish (((y2 - y1) * i) mod P)
  end.

(** [k.bit_length()] *)
Definition bit_length (k : Z) : nat := if k =? 0 then 0 else Z.to_nat (Z.log2 (Z.abs k) + 1).

Definition aff_mul (k : Z) (p : point) : result point :=
  for_result (rev (seq 0 (bit_length k))) None (fun r i =>
    r ← aff_add r r;
    if Z.testbit k (Z.of_nat i) then aff_add r p else Ret r).

Definition on_curve (p : point) : bool :=
  match p with
  | None => true
  | Some (x, y) => (y * y - (x * x * x + A * x + B)) mod P =? 0
  end.

Definition G : point := Some (GX, GY).

(** ** The table *)

Definition table_row (base : point) : result (list point) :=
  s ← for_result (seq 0 ENTRIES) (None, []) (fun '(acc, row) _ =>
        acc ← aff_add acc base; Ret (acc, row ++ [acc]));
  Ret s.2.

Definition build_table : result (list (list point)) :=
  s ← for_result (seq 0 BLOCKS) (G, []) (fun '(base, table) _ =>
        row ← table_row base;
        base ← for_result (seq 0 (Z.to_nat W)) base (fun base _ => aff_add base base);
        Ret (base, table ++ [row]));
  Ret s.2.

(** [table[i][j - 1]] *)
Definition entry (table : list (list point)) (i j : nat) : result point :=
  match table !! i ≫= (.!! (j - 1)%nat) with Some p => Ret p | None => Raise IndexError end.

Definition verify_table (table : list (list point)) : result nat :=
  _ ← for_result (seq 0 BLOCKS) () (fun _ i =>
        for_result (seq 1 ENTRIES) () (fun _ j =>
          want ← aff_mul (Z.shiftl (Z.of_nat j) (W * Z.of_nat i)) G;
          got ← entry table i j;
          _ ← py_assert (bool_decide (got = want)) "mismatch";
          py_assert (on_curve got) "off curve"));
  Ret (BLOCKS * ENTRIES)%nat.

(** ** The hardware-faithful reference *)

Definition jac : Type := Z * Z * Z.

Definition madd (p1 : jac) (x2 y2 : Z) : jac :=
  let '(x1, y1, z1) := p1 in
  let z1z1 := (z1 * z1) mod P in
  let u2 := (x2 * z1z1) mod P in
  let z1cubed := (z1 * z1z1) mod P in
  let s2 := (y2 * z1cubed) mod P in
  let h := (u2 - x1) mod P in
  let r := (s2 - y1) mod P in
  let hh := (h * h) mod P in
  let hhh := (h * hh) mod P in
  let v := (x1 * hh) mod P in
  let x3 := (r * r - hhh - 2 * v) mod P in
  let y3 := (r * ((v - x3) mod P) - y1 * hhh) mod P in
  let z3 := (h * z1) mod P in
  (x3, y3, z3).

Definition to_affine (p : jac) : Z * Z :=
  let '(x, y, z) := p in
  if z mod P =? 0 then (0, 0) else
  let zinv := py_pow_mod z (P - 2) P in
  let zinv2 := (zinv * zinv) mod P in
  ((x * zinv2) mod P, (((y * zinv2) mod P) * zinv) mod P).

(** The constant-time select of row [i], digit [d]: every entry is read and
    masked. *)
Definition select (table : list (list point)) (i : nat) (d : Z) : result (Z * Z) :=
  for_result (seq 1 ENTRIES) (0, 0) (fun '(ax, ay) j =>
    let mask := if Z.of_nat j =? d then -1 else 0 in
    e ← entry table i j;
    match e with
    | None => Raise TypeError
    | Some (x, y) => Ret (Z.lor ax (Z.land x mask), Z.lor ay (Z.land y mask))
    end).

Definition digit (k : Z) (i : nat) : Z := Z.land (Z.shiftr k (W * Z.of_nat i)) 15.

(** The loop; the mixed addition is a global the script's proof rebinds to an
    instrumented one, so it is a parameter here and carries a log. *)
Section comb.
Context {L : Type} (madd_fn : L -> jac -> Z -> Z -> L * jac).

Definition comb_step (k : Z) (table : list (list point)) (s : L * jac) (i : nat) : result (L * jac) :=
  let '(log, (rx, ry, rz)) := s in
  let d := digit k i in
  '(ax, ay) ← select table i d;
  let '(log, cand) := madd_fn log (rx, ry, rz) ax ay in
  let r_is_inf := if rz =? 0 then 1 else 0 in
  let d_is_zero := if d =? 0 then 1 else 0 in
  let n := cand in
  let n := if r_is_inf =? 0 then n else (ax, ay, 1) in
  let n := if d_is_zero =? 0 then n else (rx, ry, rz) in
  Ret (log, n).

Definition comb_loop (k : Z) (table : list (list point)) (log : L) : result (L * jac) :=
  for_result (seq 0 BLOCKS) (log, (0, 0, 0)) (comb_step k table).
End comb.

Definition plain_madd (log : unit) (p1 : jac) (x2 y2 : Z) : unit * jac := (log, madd p1 x2 y2).

Definition comb_mul_base (k : Z) (table : list (list point)) : result (Z * Z) :=
  s ← comb_loop plain_madd k table (); Ret (to_affine s.2).

(** ** The script's proofs *)

(** [calls] and [violations] *)
Definition call_log : Type := nat * list (Z * Z).

Definition checked_madd (log : call_log) (p1 : jac) (x2 y2 : Z) : call_log * jac :=
  let '(calls, violations) := log in
  let '(x1, y1, z1) := p1 in
  let log := if negb (z1 =? 0) && negb (bool_decide ((x2, y2) = (0, 0)))
             then (S calls, if (x2 * z1 * z1 - x1) mod P =? 0 then violations ++ [(x2, y2)] else violations)
             else (calls, violations) in
  (log, madd p1 x2 y2).

(** [min(...)] of a list of naturals *)
Definition py_min_nat (l : list nat) : result nat :=
  match l with [] => Raise (ValueError "min() arg is an empty sequence") | x :: l => Ret (foldl Nat.min x l) end.

Definition prove_structure : result unit :=
  let max_addend := Z.shiftl (Z.of_nat ENTRIES) (W * (Z.of_nat BLOCKS - 1)) in
  _ ← py_assert (max_addend <? N) "top-block addend must stay below n";
  smallest ← py_min_nat (List.filter (fun i => N <? Z.shiftl 1 (W * (Z.of_nat i + 1))) (seq 0 BLOCKS));
  py_assert (smallest =? BLOCKS - 1)%nat "".

Definition ADVERSARIAL : list Z :=
  [1; 2; 15; 16; 17; N - 1; N; N + 1; 2^256 - 1;
   0x0F0F0F0F0F0F0F0F0F0F0F0F0F0F0F0F0F0F0F0F0F0F0F0F0F0F0F0F0F0F0F0F;
   0xF0F0F0F0F0F0F0F0F0F0F0F0F0F0F0F0F0F0F0F0F0F0F0F0F0F0F0F0F0F0F0F0].

(** [prove], the 200 random scalars being an argument. *)
Definition prove (rnd : list Z) : result bool :=
  _ ← prove_structure;
  table ← build_table;
  s ← for_result (ADVERSARIAL ++ rnd) (0%nat, []) (fun '(calls, bad) k =>
        r ← comb_loop checked_madd k table (calls, []);
        let '(calls, violations, acc) := r in
        let got := to_affine acc in
        let bad := if negb (bool_decide (violations = []))
                   then if negb (k mod N =? 0) || negb (bool_decide (got = (0, 0))) then bad ++ [k] else bad
                   else bad in
        Ret (calls, bad));
  _ ← py_assert (bool_decide (s.2 = [])) "unexpected H == 0";
  Ret true.

Definition EDGE_SCALARS : list Z :=
  [0; 1; 2; 3; 15; 16; 17; 255; 256; N - 1; N; N + 1; N - 2;
   2^255; 2^255 - 1; 2^256 - 1; 2^256 - 2;
   0x0F0F0F0F0F0F0F0F0F0F0F0F0F0F0F0F0F0F0F0F0F0F0F0F0F0F0F0F0F0F0F0F;
   0xF0F0F0F0F0F0F0F0F0F0F0F0F0F0F0F0F0F0F0F0F0F0F0F0F0F0F0F0F0F0F0F0;
   0xFFFFFFFF00000000FFFFFFFFFFFFFFFF0000000000000000000000000000000F;
   Z.shiftl 1 252 * 15].

Definition oracle_mul_base (k : Z) : result (Z * Z) :=
  if k mod N =? 0 then Ret (0, 0) else
  r ← aff_mul (k mod N) G;
  Ret (default (0, 0) r).

(** [check], the random scalars being an argument. *)
Definition check (rnd : list Z) : result bool :=
  table ← build_table;
  _ ← verify_table table;
  bad ← for_result (EDGE_SCALARS ++ rnd) 0%nat (fun bad k =>
    got ← comb_mul_base k table;
    want ← oracle_mul_base k;
    Ret (if bool_decide (got = want) then bad else S bad));
  Ret (bad =? 0)%nat.

(** [limbs] *)
Definition limbs (v : Z) : list Z :=
  (fun i => Z.land (Z.shiftr v (64 * Z.of_nat i)) 0xFFFFFFFFFFFFFFFF) <$> seq 0 4.

(** ** Lemmas: the curve equations *)

Add Field P_field : field_P (setoid eqP_equiv ring_P_ext).

#[local] Opaque P.

Section identities.
Context (a b x2 y2 z A B : Z).

Lemma chord_x : ~ x2 - a ≡P 0 -> ~ z ≡P 0 ->
  let lam := divP (y2 - b) (x2 - a) in
  let h := x2 * (z * z) - a * (z * z) in
  let r := y2 * (z * (z * z)) - b * (z * (z * z)) in
  r * r - h * (h * h) - (1 + 1) * (a * (z * z) * (h * h)) ≡P (lam * lam - a - x2) * ((h * z) * (h * z)).
Proof. intros Hx Hz. cbn zeta. field. done. Qed.

Lemma chord_y : ~ x2 - a ≡P 0 -> ~ z ≡P 0 ->
  let lam := divP (y2 - b) (x2 - a) in
  let h := x2 * (z * z) - a * (z * z) in
  let r := y2 * (z * (z * z)) - b * (z * (z * z)) in
  let x3 := lam * lam - a - x2 in
  r * (a * (z * z) * (h * h) - x3 * ((h * z) * (h * z))) - b * (z * (z * z)) * (h * (h * h))
  ≡P (lam * (a - x3) - b) * ((h * z) * ((h * z) * (h * z))).
Proof. intros Hx Hz. cbn zeta. field. done. Qed.

Lemma chord_on_curve : ~ x2 - a ≡P 0 -> b * b ≡P a * a * a + A * a + B -> y2 * y2 ≡P x2 * x2 * x2 + A * x2 + B ->
  let lam := divP (y2 - b) (x2 - a) in
  let x3 := lam * lam - a - x2 in
  let y3 := lam * (a - x3) - b in
  y3 * y3 ≡P x3 * x3 * x3 + A * x3 + B.
Proof. intros Hx H1 H2. cbn zeta. field [H1 H2]. done. Qed.

Lemma tangent_on_curve : ~ b ≡P 0 -> ~ 1 + 1 ≡P 0 -> b * b ≡P a * a * a + A * a + B ->
  let lam := divP ((1 + 1 + 1) * a * a + A) ((1 + 1) * b) in
  let x3 := lam * lam - a - a in
  let y3 := lam * (a - x3) - b in
  y3 * y3 ≡P x3 * x3 * x3 + A * x3 + B.
Proof. intros Hb H2 H1. cbn zeta. field [H1]. done. Qed.
End identities.

(** ** Lemmas: points *)

Definition reduced (p : point) : Prop :=
  match p with None => True | Some (x, y) => 0 <= x < P /\ 0 <= y < P end.

(** A well-formed point: infinity, or reduced coordinates on the curve. *)
Definition valid (p : point) : Prop := reduced p /\ on_curve p = true.

Lemma on_curve_eq x y : on_curve (Some (x, y)) = true <-> y * y ≡P x * x * x + A * x + B.
Proof. cbn [on_curve]. rewrite Z.eqb_eq, eqP_sub, eqP_iff. by rewrite (Z.mod_0_l P) by (pose proof P_big; lia). Qed.

Lemma mod_reduced x : 0 <= x mod P < P.
Proof. apply Z.mod_pos_bound. pose proof P_big. lia. Qed.

Lemma eqP_small x : 0 <= x < P -> x ≡P 0 -> x = 0.
Proof. intros Hx H. apply reduced_eq; [done| |done]. pose proof P_big. lia. Qed.

Lemma two_nonzero : ~ 1 + 1 ≡P 0.
Proof. intros H%eqP_small; [done|]. pose proof P_big. lia. Qed.

(** The sum of two points with different abscissae, as the chord formula. *)
Lemma aff_add_chord x1 y1 x2 y2 : 0 <= x1 < P -> 0 <= x2 < P -> x1 <> x2 ->
  ~ x2 - x1 ≡P 0 /\ exists x3 y3, aff_add (Some (x1, y1)) (Some (x2, y2)) = Ret (Some (x3, y3)) /\
    reduced (Some (x3, y3)) /\
    let lam := divP (y2 - y1) (x2 - x1) in
    x3 ≡P lam * lam - x1 - x2 /\ y3 ≡P lam * (x1 - x3) - y1.
Proof.
  intros H1 H2 Hne. assert (~ x2 - x1 ≡P 0) as Hx.
  { rewrite <- eqP_sub. intros H%reduced_eq; [|done|done]. by apply Hne. }
  split; [done|]. destruct (py_inv_P _ Hx) as (i & Ei & Hi).
  unfold aff_add. rewrite (proj2 (Z.eqb_neq x1 x2)) by done. rewrite Ei, bind_Ret.
  eexists _, _. split; [reflexivity|]. split; [split; apply mod_reduced|]. cbn zeta. unfold divP.
  set (l := ((y2 - y1) * i) mod P). assert (l ≡P (y2 - y1) * invP (x2 - x1)) as Hl.
  { unfold l. rewrite eqP_mod. by rewrite Hi. }
  clearbody l. set (x3 := (l * l - x1 - x2) mod P).
  assert (x3 ≡P l * l - x1 - x2) as E3 by apply eqP_mod. clearbody x3.
  split; [by rewrite E3, Hl|]. etransitivity; [apply eqP_mod|]. by rewrite Hl.
Qed.

(** The points of the curve are closed under [aff_add], and it never raises. *)
Lemma aff_add_valid p1 p2 : valid p1 -> valid p2 -> exists p3, aff_add p1 p2 = Ret p3 /\ valid p3.
Proof.
  intros H1 H2. destruct p1 as [[x1 y1]|]; [|by exists p2; split].
  destruct p2 as [[x2 y2]|]; [|by exists (Some (x1, y1)); split].
  destruct H1 as [[Hx1 Hy1] C1%on_curve_eq], H2 as [[Hx2 Hy2] C2%on_curve_eq].
  destruct (decide (x1 = x2)) as [<-|Hne].
  - cbn [aff_add]. rewrite Z.eqb_refl. destruct (Z.eqb_spec ((y1 + y2) mod P) 0) as [|Hs]; [by exists None|].
    assert (~ y1 + y2 ≡P 0) as Hs'.
    { intros H%eqP_iff. apply Hs. by rewrite (Z.mod_0_l P) in H by (pose proof P_big; lia). }
    assert (y1 = y2) as <-.
    { apply reduced_eq; [done|done|]. destruct (decide (y1 - y2 ≡P 0)) as [H|H]; [by apply eqP_sub|].
      exfalso. apply (mul_nonzero _ _ Hs' H). replace ((y1 + y2) * (y1 - y2)) with (y1 * y1 - y2 * y2) by lia.
      rewrite C1, C2. by rewrite Z.sub_diag. }
    assert (~ y1 ≡P 0) as Hy by (intros H; apply Hs'; rewrite H; done).
    assert (~ 2 * y1 ≡P 0) as H2y by (apply mul_nonzero; [exact two_nonzero|done]).
    destruct (py_inv_P _ H2y) as (i & Ei & Hi). rewrite Ei, bind_Ret.
    eexists. split; [reflexivity|]. split; [split; apply mod_reduced|]. apply on_curve_eq.
    set (l := ((3 * x1 * x1 + A) * i) mod P). assert (l ≡P divP ((1 + 1 + 1) * x1 * x1 + A) ((1 + 1) * y1)) as Hl.
    { unfold l. etransitivity; [apply eqP_mod|]. by rewrite Hi. }
    clearbody l. set (x3 := (l * l - x1 - x1) mod P).
    assert (x3 ≡P l * l - x1 - x1) as E3 by apply eqP_mod. clearbody x3.
    set (y3 := (l * (x1 - x3) - y1) mod P). assert (y3 ≡P l * (x1 - x3) - y1) as E4 by apply eqP_mod. clearbody y3.
    rewrite E4, E3, Hl. exact (tangent_on_curve x1 y1 A B Hy two_nonzero C1).
  - destruct (aff_add_chord x1 y1 x2 y2 Hx1 Hx2 Hne) as (Hx & x3 & y3 & E & Hr & E3 & E4).
    exists (Some (x3, y3)). split; [exact E|]. split; [exact Hr|]. apply on_curve_eq.
    rewrite E4, E3. exact (chord_on_curve x1 y1 x2 y2 A B Hx C1 C2).
Qed.

(** ** Lemmas: the mixed addition *)

(** A Jacobian triple stands for an affine point. *)
Definition rep (p : jac) (a : point) : Prop :=
  let '(x, y, z) := p in 0 <= z < P /\
  match a with
  | None => z = 0
  | Some (a, b) => ~ z ≡P 0 /\ x ≡P a * (z * z) /\ y ≡P b * (z * (z * z))
  end.

Lemma to_affine_rep p x y : rep p (Some (x, y)) -> reduced (Some (x, y)) -> to_affine p = (x, y).
Proof.
  destruct p as [[X Y] Z]. intros (Hr & Hz & HX & HY) [Hx Hy]. unfold to_affine.
  rewrite (proj2 (Z.eqb_neq _ _)).
  2: { intros H. apply Hz, eqP_iff. rewrite H, Z.mod_0_l; [done|]. pose proof P_big. lia. }
  fold (invP Z). set (i2 := (invP Z * invP Z) mod P).
  assert (i2 ≡P invP Z * invP Z) as Hi by apply eqP_mod. clearbody i2.
  set (yi := (Y * i2) mod P). assert (yi ≡P Y * i2) as Hyi by apply eqP_mod. clearbody yi.
  f_equal; (apply reduced_eq; [apply mod_reduced|done|]); (etransitivity; [apply eqP_mod|]).
  - rewrite HX, Hi. field. done.
  - rewrite Hyi, HY, Hi. field. done.
Qed.

Lemma to_affine_inf p : rep p None -> to_affine p = (0, 0).
Proof. destruct p as [[X Y] Z]. intros [_ ->]. reflexivity. Qed.

(** The intermediate values of [madd], modulo [P]. *)
Lemma madd_values x1 y1 z1 x2 y2 : exists x3 y3 z3, madd (x1, y1, z1) x2 y2 = (x3, y3, z3) /\ 0 <= z3 < P /\
  let h := x2 * (z1 * z1) - x1 in
  let r := y2 * (z1 * (z1 * z1)) - y1 in
  x3 ≡P r * r - h * (h * h) - 2 * (x1 * (h * h)) /\
  y3 ≡P r * (x1 * (h * h) - x3) - y1 * (h * (h * h)) /\
  z3 ≡P h * z1.
Proof.
  unfold madd. eexists _, _, _. split; [reflexivity|]. split; [apply mod_reduced|]. cbn zeta.
  set (zz := (z1 * z1) mod P). assert (zz ≡P z1 * z1) as E1 by apply eqP_mod. clearbody zz.
  set (u2 := (x2 * zz) mod P). assert (u2 ≡P x2 * zz) as E2 by apply eqP_mod. clearbody u2.
  set (z3 := (z1 * zz) mod P). assert (z3 ≡P z1 * zz) as E3 by apply eqP_mod. clearbody z3.
  set (s2 := (y2 * z3) mod P). assert (s2 ≡P y2 * z3) as E4 by apply eqP_mod. clearbody s2.
  set (h := (u2 - x1) mod P). assert (h ≡P u2 - x1) as E5 by apply eqP_mod. clearbody h.
  set (r := (s2 - y1) mod P). assert (r ≡P s2 - y1) as E6 by apply eqP_mod. clearbody r.
  set (hh := (h * h) mod P). assert (hh ≡P h * h) as E7 by apply eqP_mod. clearbody hh.
  set (hhh := (h * hh) mod P). assert (hhh ≡P h * hh) as E8 by apply eqP_mod. clearbody hhh.
  set (v := (x1 * hh) mod P). assert (v ≡P x1 * hh) as E9 by apply eqP_mod. clearbody v.
  set (x3 := (r * r - hhh - 2 * v) mod P). assert (x3 ≡P r * r - hhh - 2 * v) as Ex by apply eqP_mod. clearbody x3.
  set (w := (v - x3) mod P). assert (w ≡P v - x3) as Ew by apply eqP_mod. clearbody w.
  split_and!.
  - rewrite Ex, E9, E8, E7, E6, E5, E4, E3, E2, E1. done.
  - etransitivity; [apply eqP_mod|]. rewrite Ew, E9, E8, E7, E6, E5, E4, E3, E2, E1. done.
  - etransitivity; [apply eqP_mod|]. rewrite E5, E2, E1. done.
Qed.

(** With different abscissae, [madd] is the affine addition. *)
Lemma madd_chord p x1 y1 x2 y2 : rep p (Some (x1, y1)) -> 0 <= x1 < P -> 0 <= x2 < P -> x1 <> x2 ->
  exists q, aff_add (Some (x1, y1)) (Some (x2, y2)) = Ret (Some q) /\ reduced (Some q) /\
    rep (madd p x2 y2) (Some q).
Proof.
  destruct p as [[X Y] Z]. intros (Hr & Hz & HX & HY) H1 H2 Hne.
  destruct (aff_add_chord x1 y1 x2 y2 H1 H2 Hne) as (Hx & x3 & y3 & E & Hq & E3 & E4).
  exists (x3, y3). split; [exact E|]. split; [exact Hq|].
  destruct (madd_values X Y Z x2 y2) as (X3 & Y3 & Z3 & -> & HZ & EX & EY & EZ).
  rewrite HX in EX, EY, EZ. rewrite HY in EX, EY. change 2 with (1 + 1) in EX.
  assert (Z3 ≡P (x2 * (Z * Z) - x1 * (Z * Z)) * Z) as EZ' by exact EZ. clear EZ.
  split; [exact HZ|]. assert (X3 ≡P x3 * (Z3 * Z3)) as HX3.
  { rewrite EX, E3, EZ'. exact (chord_x x1 y1 x2 y2 Z Hx Hz). }
  split; [|split; [exact HX3|]].
  - rewrite EZ'. replace ((x2 * (Z * Z) - x1 * (Z * Z)) * Z) with ((x2 - x1) * (Z * (Z * Z))) by lia.
    repeat apply mul_nonzero; done.
  - rewrite EY, HX3, E4, E3, EZ'. exact (chord_y x1 y1 x2 y2 Z Hx Hz).
Qed.

(** With the same abscissa, [madd] gives the point at infinity. *)
Lemma madd_same p x1 y1 y2 : rep p (Some (x1, y1)) -> rep (madd p x1 y2) None.
Proof.
  destruct p as [[X Y] Z]. intros (Hr & Hz & HX & HY).
  destruct (madd_values X Y Z x1 y2) as (X3 & Y3 & Z3 & -> & HZ & EX & EY & EZ). split; [done|].
  apply eqP_small; [done|]. rewrite EZ, HX. replace ((x1 * (Z * Z) - x1 * (Z * Z)) * Z) with 0 by lia. done.
Qed.

(** ** Lemmas: the select and the loop *)

(** A table of finite points of the curve. *)
Definition table_ok (table : list (list point)) : Prop :=
  length table = BLOCKS /\
  Forall (fun row => length row = ENTRIES /\ Forall (fun p => is_Some p /\ valid p) row) table.

Lemma entry_ok table i j : table_ok table -> (i < BLOCKS)%nat -> (1 <= j <= ENTRIES)%nat ->
  exists q, entry table i j = Ret (Some q) /\ valid (Some q).
Proof.
  intros [Hl Ht] Hi Hj. unfold entry. destruct (table !! i) as [row|] eqn:E; [|apply lookup_ge_None in E; lia].
  rewrite Forall_lookup in Ht. destruct (Ht i row E) as [Hrow Hp]. cbn [mbind option_bind].
  destruct (row !! (j - 1)%nat) as [p|] eqn:Ej; [|apply lookup_ge_None in Ej; unfold point in *; lia].
  rewrite Forall_lookup in Hp. destruct (Hp _ _ Ej) as [[q ->] Hv]. by exists q.
Qed.

Lemma seq_split a n pre x post : seq a n = pre ++ x :: post -> x ∉ pre /\ (a <= x < a + n)%nat.
Proof.
  intros E. assert (x ∈ seq a n) as Hx by (rewrite E; set_solver).
  apply elem_of_seq in Hx. split; [|done]. pose proof (NoDup_seq a n) as Hnd. rewrite E in Hnd.
  apply list.NoDup_app in Hnd as (_ & Hd & _). intros Hp. apply (Hd x Hp). by left.
Qed.

(** The masks pick exactly the entry of the digit. *)
Lemma select_spec table i d : table_ok table -> (i < BLOCKS)%nat -> (d <= ENTRIES)%nat ->
  exists x y, select table i (Z.of_nat d) = Ret (x, y) /\
    (if decide (d = 0%nat) then (x, y) = (0, 0)
     else entry table i d = Ret (Some (x, y)) /\ valid (Some (x, y))).
Proof.
  intros Ht Hi Hd. unfold select.
  destruct (for_result_ind (fun pre (s : Z * Z) =>
    if decide (d ∈ pre) then entry table i d = Ret (Some s) /\ valid (Some s) else s = (0, 0))
    (fun '(ax, ay) j =>
      let mask := if Z.of_nat j =? Z.of_nat d then -1 else 0 in
      e ← entry table i j;
      match e with
      | None => Raise TypeError
      | Some (x, y) => Ret (Z.lor ax (Z.land x mask), Z.lor ay (Z.land y mask))
      end) (seq 1 ENTRIES) (0, 0)) as ([x y] & E & HP).
  - rewrite decide_False; [done|]. by intros ?%elem_of_nil.
  - intros pre j post [ax ay] Hs HI. apply seq_split in Hs as [Hj Hr].
    destruct (entry_ok table i j Ht Hi ltac:(lia)) as ([x y] & Ee & Hv). rewrite Ee, bind_Ret. cbn zeta.
    eexists. split; [reflexivity|]. destruct (Z.eqb_spec (Z.of_nat j) (Z.of_nat d)) as [Hjd|Hjd].
    + apply Nat2Z.inj in Hjd as ->. rewrite decide_False in HI by done. injection HI as -> ->.
      rewrite decide_True by set_solver. rewrite !Z.land_m1_r. by cbn [Z.lor].
    + rewrite !Z.land_0_r, !Z.lor_0_r.
      destruct (decide (d ∈ pre)); [rewrite decide_True by set_solver; done|].
      rewrite decide_False; [done|]. rewrite elem_of_app, list_elem_of_singleton. intros [?| ->]; done.
  - exists x, y. split; [exact E|]. destruct (decide (d = 0%nat)) as [->|Hd0].
    + rewrite decide_False in HP; [done|]. rewrite elem_of_seq. lia.
    + rewrite decide_True in HP; [done|]. rewrite elem_of_seq. lia.
Qed.

Lemma digit_range k i : 0 <= digit k i <= 15.
Proof.
  assert (digit k i = Z.shiftr k (W * Z.of_nat i) mod 2 ^ 4) as -> by (exact (Z.land_ones _ 4 ltac:(lia))).
  pose proof (Z.mod_pos_bound (Z.shiftr k (W * Z.of_nat i)) (2 ^ 4) ltac:(lia)). lia.
Qed.

(** The comb over affine points: block [i] adds the entry of its digit.  Equal
    points are refused: the mixed addition does not cover a doubling. *)
Definition affine_step (k : Z) (table : list (list point)) (acc : point) (i : nat) : result point :=
  if digit k i =? 0 then Ret acc else
  e ← entry table i (Z.to_nat (digit k i));
  _ ← py_assert (negb (bool_decide (acc = e))) "doubling";
  aff_add acc e.

Definition comb_affine (k : Z) (table : list (list point)) : result point :=
  for_result (seq 0 BLOCKS) None (affine_step k table).

Lemma comb_step_affine k table p a i a' : table_ok table -> (i < BLOCKS)%nat -> rep p a -> valid a ->
  affine_step k table a i = Ret a' ->
  exists p', comb_step plain_madd k table ((), p) i = Ret ((), p') /\ rep p' a' /\ valid a'.
Proof.
  intros Ht Hi Hp Ha. destruct p as [[X Y] Z]. unfold affine_step, comb_step.
  pose proof (digit_range k i) as Hd.
  destruct (select_spec table i (Z.to_nat (digit k i)) Ht Hi) as (x & y & Es & Hxy); [unfold ENTRIES; lia|].
  rewrite Z2Nat.id in Es by lia. rewrite Es, bind_Ret. cbn beta iota zeta.
  change (plain_madd () (X, Y, Z) x y) with ((), madd (X, Y, Z) x y). cbn beta iota zeta.
  destruct (Z.eqb_spec (digit k i) 0) as [Hd0|Hd0].
  { intros [= <-]. eexists. split; [reflexivity|]. done. }
  rewrite decide_False in Hxy by lia. destruct Hxy as [-> Hv]. rewrite bind_Ret.
  destruct (decide (a = Some (x, y))) as [|Hne]; [by rewrite bool_decide_true|].
  rewrite bool_decide_false by done. cbn [negb]. rewrite py_assert_true, bind_Ret by done.
  change (0 =? 0) with true. cbn iota.
  destruct a as [[a b]|].
  - pose proof Hp as (Hr & Hz & _ & _). rewrite (proj2 (Z.eqb_neq Z 0)) by (intros ->; by apply Hz).
    change (0 =? 0) with true. cbn iota. intros Hadd. eexists. split; [reflexivity|].
    destruct (aff_add_valid _ _ Ha Hv) as (a3 & E & Hv3). rewrite E in Hadd. injection Hadd as <-.
    split; [|done]. destruct Ha as [[Hxa Hya] Ca%on_curve_eq], Hv as [[Hx Hy] C%on_curve_eq].
    destruct (decide (a = x)) as [->|Hax].
    + assert (a3 = None) as ->; [|by eapply madd_same]. revert E. cbn [aff_add]. rewrite Z.eqb_refl.
      destruct (Z.eqb_spec ((b + y) mod P) 0) as [|Hs]; [by intros [= <-]|]. exfalso.
      apply (mul_nonzero (b + y) (b - y)).
      * intros H%eqP_iff. apply Hs. by rewrite (Z.mod_0_l P) in H by (pose proof P_big; lia).
      * rewrite <- eqP_sub. intros H%reduced_eq; [|done|done]. by subst.
      * replace ((b + y) * (b - y)) with (b * b - y * y) by lia. rewrite Ca, C. by rewrite Z.sub_diag.
    + destruct (madd_chord (X, Y, Z) a b x y Hp Hxa Hx Hax) as (q & Eq & _ & Hrep).
      rewrite Eq in E. by injection E as <-.
  - destruct Hp as [_ ->]. cbn [Z.eqb]. intros [= <-]. eexists. split; [reflexivity|]. split; [|done].
    pose proof P_big. split; [lia|]. split.
    + intros H0%eqP_small; lia.
    + split; apply eqP_iff; f_equal; lia.
Qed.

Lemma comb_loop_affine k table l p a a' : table_ok table -> Forall (fun i => (i < BLOCKS)%nat) l ->
  rep p a -> valid a -> for_result l a (affine_step k table) = Ret a' ->
  exists p', for_result l ((), p) (comb_step plain_madd k table) = Ret ((), p') /\ rep p' a' /\ valid a'.
Proof.
  intros Ht Hl. revert p a. induction Hl as [|i l Hi _ IH]; intros p a Hp Ha; cbn [for_result].
  { intros [= <-]. by exists p. }
  intros (a1 & E1 & E)%bind_Ret_inv.
  destruct (comb_step_affine k table p a i a1 Ht Hi Hp Ha E1) as (p1 & -> & Hp1 & Ha1).
  rewrite bind_Ret. by apply (IH p1 a1).
Qed.

(** ** Lemmas: the table *)

Lemma table_row_valid base : valid base -> exists row, table_row base = Ret row /\
  length row = ENTRIES /\ Forall valid row.
Proof.
  intros Hb. unfold table_row.
  loop_invariant (fun (pre : list nat) (s : point * list point) =>
      valid s.1 /\ length s.2 = length pre /\ Forall valid s.2) as ([acc row] & -> & _ & Hl & Hf).
  - by split.
  - intros pre x post [acc row] _ (Ha & Hl & Hf). destruct (aff_add_valid acc base Ha Hb) as (a & E & Hv).
    cbn [fst snd] in *. rewrite E, bind_Ret. eexists. split; [reflexivity|]. cbn [fst snd].
    rewrite !length_app, Hl. split; [done|]. split; [done|]. apply Forall_app. split; [done|]. by constructor.
  - exists row. rewrite length_seq in Hl. done.
Qed.

Lemma doubled_valid n base : valid base ->
  exists b, for_result (seq 0 n) base (fun base _ => aff_add base base) = Ret b /\ valid b.
Proof.
  intros Hb. apply (for_result_ind (fun _ b => valid b)); [done|]. intros _ _ _ b _ Hv.
  by apply aff_add_valid.
Qed.

Lemma G_valid : valid G.
Proof.
  split; [|vm_compute; reflexivity]. cbn [G reduced]. pose proof P_range. unfold GX, GY. lia.
Qed.

Lemma build_table_valid : exists table, build_table = Ret table /\ length table = BLOCKS /\
  Forall (fun row => length row = ENTRIES /\ Forall valid row) table.
Proof.
  unfold build_table.
  loop_invariant (fun (pre : list nat) (s : point * list (list point)) =>
      valid s.1 /\ length s.2 = length pre /\ Forall (fun row => length row = ENTRIES /\ Forall valid row) s.2)
    as ([b t] & -> & _ & Hl & Hf).
  - split; [exact G_valid|done].
  - intros pre x post [b t] _ (Hb & Hl & Hf). cbn [fst snd] in *.
    destruct (table_row_valid b Hb) as (row & -> & Hrow). rewrite bind_Ret.
    destruct (doubled_valid (Z.to_nat W) b Hb) as (b' & -> & Hb'). rewrite bind_Ret.
    eexists. split; [reflexivity|]. cbn [fst snd]. rewrite !length_app, Hl. split; [done|]. split; [done|].
    apply Forall_app. split; [done|]. by constructor.
  - exists t. rewrite length_seq in Hl. done.
Qed.

Lemma aff_mul_valid k p : valid p -> exists q, aff_mul k p = Ret q /\ valid q.
Proof.
  intros Hp. unfold aff_mul. apply (for_result_ind (fun _ q => valid q)); [done|]. intros pre i post q _ Hq.
  destruct (aff_add_valid q q Hq Hq) as (d & -> & Hd). rewrite bind_Ret.
  destruct (Z.testbit k (Z.of_nat i)); [by apply aff_add_valid|eauto].
Qed.

(** ** The properties *)

(** The mixed addition of the comb is the affine addition: when the
    accumulator stands for a point with another abscissa, [madd] stands for
    what [aff_add] returns; when the abscissae are equal, its [Z] is zero. *)
Theorem madd_affine p x1 y1 x2 y2 : rep p (Some (x1, y1)) -> reduced (Some (x1, y1)) -> reduced (Some (x2, y2)) ->
  if decide (x1 = x2) then rep (madd p x2 y2) None
  else exists q, aff_add (Some (x1, y1)) (Some (x2, y2)) = Ret (Some q) /\ rep (madd p x2 y2) (Some q) /\
    to_affine (madd p x2 y2) = q.
Proof.
  intros Hp [H1 _] [H2 _]. destruct (decide (x1 = x2)) as [<-|Hne]; [by eapply madd_same|].
  destruct (madd_chord p x1 y1 x2 y2 Hp H1 H2 Hne) as ([x3 y3] & E & Hr & Hrep).
  exists (x3, y3). split; [done|]. split; [done|]. by apply to_affine_rep.
Qed.

(** [2 * G] *)
Definition G2X : Z := 56515219790691171413109057904011688695424810155802929973526481321309856242040.
Definition G2Y : Z := 3377031843712258259223711451491452598088675519751548567112458094635497583569.

Lemma madd_affine_witness : exists q,
  aff_add (Some (GX, GY)) (Some (G2X, G2Y)) = Ret (Some q) /\ to_affine (madd (GX, GY, 1) G2X G2Y) = q.
Proof.
  assert (0 <= GX < P /\ 0 <= GY < P /\ 0 <= G2X < P /\ 0 <= G2Y < P) as (Hx & Hy & Hx2 & Hy2)
    by (pose proof P_range; unfold GX, GY, G2X, G2Y; lia).
  assert (rep (GX, GY, 1) (Some (GX, GY))) as Hrep.
  { split; [pose proof P_big; lia|]. split; [intros E%eqP_small; [discriminate E|pose proof P_big; lia]|].
    split; apply eqP_iff; f_equal; lia. }
  pose proof (madd_affine (GX, GY, 1) GX GY G2X G2Y Hrep (conj Hx Hy) (conj Hx2 Hy2)) as Hm.
  rewrite decide_False in Hm by (intros E; vm_compute in E; discriminate E). destruct Hm as (q & E & _ & Ht). exists q. exact (conj E Ht).
Defined.

(** C20: the constant-time comb computes the comb: on a table of finite curve
    points, whenever the block-by-block affine sum of the selected entries
    never has to add a point to itself, the masked Jacobian loop of
    [comb_mul_base] returns that sum, infinity as [(0, 0)]. *)
Theorem comb_refines_affine k table r : table_ok table -> comb_affine k table = Ret r ->
  comb_mul_base k table = Ret (default (0, 0) r).
Proof.
  intros Ht Hc. unfold comb_mul_base.
  destruct (comb_loop_affine k table (seq 0 BLOCKS) (0, 0, 0) None r Ht) as (p & E & Hp & [Hv _]).
  - apply List.Forall_forall. intros i Hi%in_seq. lia.
  - split; [pose proof P_big; lia|done].
  - done.
  - exact Hc.
  - assert (comb_loop plain_madd k table () = Ret ((), p)) as -> by exact E.
    rewrite bind_Ret. cbn [snd]. destruct r as [[x y]|]; [by rewrite (to_affine_rep p x y)|].
    by rewrite to_affine_inf.
Qed.

Definition demo_table : list (list point) :=
  replicate 15 G :: replicate 63 (replicate 15 (Some (G2X, G2Y))).

Lemma demo_table_ok : table_ok demo_table.
Proof.
  assert (is_Some G /\ valid G) as HG by (split; [by eexists|exact G_valid]).
  assert (valid (Some (G2X, G2Y))) as HG2.
  { split; [pose proof P_range; cbn [reduced]; unfold G2X, G2Y; lia|vm_compute; reflexivity]. }
  split; [reflexivity|]. constructor; [split; [reflexivity|by apply Forall_replicate]|].
  apply Forall_replicate. split; [reflexivity|]. apply Forall_replicate. by split; [eexists|].
Qed.

Lemma comb_refines_affine_witness : exists r, comb_affine 17 demo_table = Ret r /\ r <> None /\
  comb_mul_base 17 demo_table = Ret (default (0, 0) r).
Proof.
  destruct (comb_affine 17 demo_table) as [r|e] eqn:E; [|vm_compute in E; discriminate E].
  exists r. split; [reflexivity|]. split; [|exact (comb_refines_affine 17 demo_table r demo_table_ok E)].
  intros ->. vm_compute in E. discriminate E.
Defined.

(** The oracle and the table stay on the curve and nothing raises: the
    modular inverses [aff_add] takes always exist for curve points, so it and
    [aff_mul] return points of the curve, and [build_table] returns 64 rows
    of 15 of them. *)
Theorem curve_closed p1 p2 k : valid p1 -> valid p2 ->
  (exists p3, aff_add p1 p2 = Ret p3 /\ valid p3) /\
  (exists q, aff_mul k p1 = Ret q /\ valid q) /\
  exists table, build_table = Ret table /\ length table = BLOCKS /\
    Forall (fun row => length row = ENTRIES /\ Forall valid row) table.
Proof. intros H1 H2. split; [by apply aff_add_valid|]. split; [by apply aff_mul_valid|exact build_table_valid]. Qed.

Lemma curve_closed_witness :
  (exists p3, aff_add G G = Ret p3 /\ valid p3) /\ (exists q, aff_mul 3 G = Ret q /\ valid q) /\
  aff_add G G = Ret (Some (G2X, G2Y)).
Proof.
  destruct (curve_closed G G 3 G_valid G_valid) as (H1 & H2 & _). split; [exact H1|]. split; [exact H2|].
  vm_compute. reflexivity.
Defined.

(** The integer the nibbles below block [i] stand for, and the one the entry
    of block [i] stands for. *)
Definition low_part (k : Z) (i : nat) : Z := k mod 2 ^ (W * Z.of_nat i).
Definition addend (k : Z) (i : nat) : Z := Z.shiftl (digit k i) (W * Z.of_nat i).

Lemma low_part_step k i : low_part k i + addend k i = low_part k (S i).
Proof.
  unfold low_part, addend. rewrite Z.shiftl_mul_pow2 by (unfold W; lia).
  replace (W * Z.of_nat (S i)) with (W * Z.of_nat i + W) by (unfold W; lia).
  assert (0 < 2 ^ (W * Z.of_nat i)) by (apply Z.pow_pos_nonneg; unfold W; lia).
  rewrite Z.pow_add_r by (unfold W; lia). rewrite Z.rem_mul_r by (unfold W; lia).
  assert (digit k i = Z.shiftr k (W * Z.of_nat i) mod 2 ^ W) as -> by (exact (Z.land_ones _ 4 ltac:(lia))).
  rewrite Z.shiftr_div_pow2 by (unfold W; lia). lia.
Qed.

Lemma pow_block i : (i < BLOCKS)%nat -> 0 < 2 ^ (W * Z.of_nat i) <= 2 ^ 252.
Proof.
  intros Hi. unfold BLOCKS, W in *. split; [apply Z.pow_pos_nonneg; lia|]. apply Z.pow_le_mono_r; lia.
Qed.

(** The two structural claims of [prove].  At block [i], with the nibbles
    below it standing for [L] and its own non-zero nibble for [M], the
    multiple [L] is never congruent to [M] modulo the order, and [L + M] is
    congruent to 0 only in the last block and only for [k = N]; and the
    assertions on the constants hold. *)
Theorem comb_addends_distinct k i : 0 <= k < 2 ^ 256 -> (i < BLOCKS)%nat -> digit k i <> 0 ->
  (low_part k i - addend k i) mod N <> 0 /\
  ((low_part k i + addend k i) mod N = 0 <-> i = 63%nat /\ k = N) /\
  prove_structure = Ret ().
Proof.
  intros Hk Hi Hd. pose proof (pow_block i Hi) as Hp. pose proof (digit_range k i) as Hr.
  assert (2 * N > 2 ^ 256 /\ 15 * 2 ^ 252 < N) as [HN1 HN2] by (unfold N; lia).
  assert (0 <= low_part k i < 2 ^ (W * Z.of_nat i)) as HL by (apply Z.mod_pos_bound; lia).
  assert (addend k i = digit k i * 2 ^ (W * Z.of_nat i)) as HM
    by (unfold addend; rewrite Z.shiftl_mul_pow2; [done|unfold W; lia]).
  assert (2 ^ (W * Z.of_nat i) <= addend k i <= 15 * 2 ^ 252) as HMr by nia.
  split; [|split; [|vm_compute; reflexivity]].
  - intros H. apply Z.mod_divide in H as [c Hc]; [|lia]. assert (c = -1 \/ c < -1 \/ c >= 0) as [->|[?|?]] by lia; nia.
  - rewrite low_part_step. assert (low_part k (S i) <> 0) as Hn0 by (rewrite <- low_part_step; lia).
    destruct (decide (i = 63%nat)) as [->|Hi63].
    + assert (low_part k 64 = k) as -> by (apply Z.mod_small; done). assert (low_part k 64 = k) as E by (apply Z.mod_small; done).
      rewrite E in Hn0. split; [|intros [_ ->]; apply Z.mod_same; unfold N; lia]. intros H. split; [done|].
      apply Z.mod_divide in H as [c Hc]; [|unfold N; lia]. assert (c = 1 \/ c <= 0 \/ c >= 2) as [->|[?|?]] by lia; [lia|nia|nia].
    + split; [|tauto]. intros H. exfalso. pose proof (pow_block (S i) ltac:(unfold BLOCKS in *; lia)).
      assert (0 <= low_part k (S i) < 2 ^ (W * Z.of_nat (S i))) by (apply Z.mod_pos_bound; lia).
      rewrite Z.mod_small in H by lia. done.
Qed.

Lemma comb_addends_distinct_witness :
  (low_part N 63 + addend N 63) mod N = 0 /\ (low_part N 63 - addend N 63) mod N <> 0.
Proof.
  destruct (comb_addends_distinct N 63) as (H1 & H2 & _).
  - unfold N. lia.
  - unfold BLOCKS. lia.
  - vm_compute. discriminate.
  - split; [apply H2; split; reflexivity|exact H1].
Defined.
