(* ===== verification/FeMul.v ===== *)
(** * P-256 field multiplication (scripts/p256_fe_mul_derivation.py)

    The unrolled 4x4 limb product [mul4x4_hw], exactly the instruction
    sequence of [p256_fe_mul]; the field multiplication [fe_mul_hw] on top of
    [Reduce.reduce_full]; and the Jacobian scalar multiplication the [interop]
    command drives it with.  Assertions are kept as raised exceptions and the
    audit dictionary as explicit state. *)

From S2P Require Import Prelude PyInt Words Reduce.

(** [A], [GX], [GY] *)
Definition A : Z := (-3) mod P.
Definition GX : Z := 0x6B17D1F2E12C4247F8BCE6E563A440F277037D812DEB33A0F4A13945D898C296.
Definition GY : Z := 0x4FE342E2FE1A7F9B8EE7EB4A7C0F9E162BCE33576B315ECECBB6406837BF51F5.

(** The audit dictionary: ["row<i>_t4"] (here its row number) to the list of
    values appended under it. *)
Definition audit := list (nat * list Z).

(** [audit.setdefault("row%d_t4" % i, []).append(x)] when an audit is given *)
Definition audit_append (au : option audit) (i : nat) (x : Z) : option audit :=
  au ← au; Some (dict_set au i (default [] (dict_get au i) ++ [x])).

(** Row 0: [T] is set, not accumulated. *)
Definition mul_row0 (aw : list Z) (b : Z) : result (list Z) :=
  let t := replicate 8 0 in
  let lo := mul_lo aw b in
  let hi := mul_hi aw b in
  let t := <[0%nat := lo !!! 0%nat]> t in
  let s := hi !!! 0%nat + lo !!! 1%nat in
  let t := <[1%nat := Z.land s MASK]> t in
  let c := Z.shiftr s 64 in
  let s := hi !!! 1%nat + lo !!! 2%nat + c in
  let t := <[2%nat := Z.land s MASK]> t in
  let c := Z.shiftr s 64 in
  let s := hi !!! 2%nat + lo !!! 3%nat + c in
  let t := <[3%nat := Z.land s MASK]> t in
  let c := Z.shiftr s 64 in
  _ ← py_assert (hi !!! 3%nat <=? MASK - 1) "umulh of two 64-bit words exceeded 2^64-2";
  let t := <[4%nat := hi !!! 3%nat + c]> t in
  _ ← py_assert (t !!! 4%nat <=? MASK) "row 0 carried past t[4]";
  Ret t.

(** Rows 1..3: accumulate. *)
Definition mul_row_i (aw : list Z) (b : Z) (i : nat) (t : list Z) : result (list Z) :=
  let lo := mul_lo aw b in
  let hi := mul_hi aw b in
  let '(t, c) := add_chain 4 i lo (t, 0) in
  let t := <[(i + 4)%nat := c]> t in
  let '(t, c) := add_chain 3 (i + 1) hi (t, 0) in
  let s := t !!! (i + 4)%nat + hi !!! 3%nat + c in
  _ ← py_assert (s <=? MASK) "row carried past t[i+4]";
  Ret (<[(i + 4)%nat := s]> t).

Definition mul4x4_hw (aw bw : list Z) (au : option audit) : result (list Z * option audit) :=
  t ← mul_row0 aw (bw !!! 0%nat);
  let au := audit_append au 0 (t !!! 4%nat) in
  for_result (range 1 4) (t, au) (fun '(t, au) i =>
    t ← mul_row_i aw (bw !!! i) i t;
    Ret (t, audit_append au i (t !!! (i + 4)%nat))).

(** ** Computations that append to [AUDIT] and may raise *)

Definition audited (X : Type) : Type := audit -> result (X * audit).

#[global] Instance audited_ret : MRet audited := fun X x au => Ret (x, au).
#[global] Instance audited_bind : MBind audited := fun X Y f m au =>
  '(x, au) ← m au; f x au.

Definition fe_mul_hw (a b : Z) : audited Z := fun au =>
  '(t, au') ← mul4x4_hw (words a) (words b) (Some au);
  v ← reduce_full t;
  Ret (v, default au au').

(** [_mul] *)
Definition mul_ (a b : Z) : audited Z := fe_mul_hw a b.

Definition jac_dbl (pt : Z * Z * Z) : audited (Z * Z * Z) :=
  let '(x, y, z) := pt in
  if z =? 0 then mret (0, 0, 0) else
  delta ← mul_ z z;
  gamma ← mul_ y y;
  beta ← mul_ x gamma;
  let t := (x - delta) mod P in
  let u := (x + delta) mod P in
  tu ← mul_ t u;
  alpha ← mul_ (3 mod P) tu;
  aa ← mul_ alpha alpha;
  let x3 := (aa - 8 * beta) mod P in
  yz2 ← mul_ ((y + z) mod P) ((y + z) mod P);
  let z3 := (yz2 - gamma - delta) mod P in
  ab ← mul_ alpha ((4 * beta - x3) mod P);
  gg ← mul_ gamma gamma;
  let y3 := (ab - 8 * gg) mod P in
  mret (x3, y3, z3).

Definition jac_add_affine (pt : Z * Z * Z) (x2 y2 : Z) : audited (Z * Z * Z) :=
  let '(x1, y1, z1) := pt in
  if z1 =? 0 then mret (x2, y2, 1) else
  z1z1 ← mul_ z1 z1;
  u2 ← mul_ x2 z1z1;
  z1c ← mul_ z1 z1z1;
  s2 ← mul_ y2 z1c;
  let h := (u2 - x1) mod P in
  let r := (s2 - y1) mod P in
  if h =? 0 then (if r =? 0 then jac_dbl pt else mret (0, 0, 0)) else
  hh ← mul_ h h;
  hhh ← mul_ h hh;
  v ← mul_ x1 hh;
  rr ← mul_ r r;
  let x3 := (rr - hhh - 2 * v) mod P in
  rv ← mul_ r ((v - x3) mod P);
  yh ← mul_ y1 hhh;
  let y3 := (rv - yh) mod P in
  z3 ← mul_ h z1;
  mret (x3, y3, z3).

(** The loop [for i in reversed(range(k.bit_length()))], over the bits of [k]
    from the most significant. *)
Fixpoint ladder (bits : list bool) (acc : Z * Z * Z) : audited (Z * Z * Z) :=
  match bits with
  | [] => mret acc
  | b :: bits =>
      acc ← jac_dbl acc;
      acc ← (if b then jac_add_affine acc GX GY else mret acc);
      ladder bits acc
  end.

Definition scalar_mul_hw (k : Z) : audited (Z * Z) :=
  '(x, y, z) ← ladder (if k =? 0 then [] else py_bin k) (0, 0, 0);
  if z =? 0 then mret (0, 0) else
  let zinv := py_pow_mod z (P - 2) P in
  zinv2 ← mul_ zinv zinv;
  ax ← mul_ x zinv2;
  z3 ← mul_ zinv2 zinv;
  ay ← mul_ y z3;
  mret (ax, ay).

(** The row bound [prove] checks: [partial < room] for every row. *)
Definition prove_row_bound : result unit :=
  let amax := Z.shiftl 1 256 - 1 in
  for_result (range 0 4) () (fun _ i =>
    let bmax := Z.shiftl 1 (64 * (Z.of_nat i + 1)) - 1 in
    let partial := amax * bmax in
    let room := Z.shiftl 1 (64 * (Z.of_nat i + 5)) in
    py_assert (partial <? room) "row can overflow").

(** The extremes [prove] replays. *)
Definition prove_extremes : list (Z * Z) :=
  [(Z.shiftl 1 256 - 1, Z.shiftl 1 256 - 1); (Z.shiftl 1 256 - 1, 1);
   (1, Z.shiftl 1 256 - 1); (P - 1, P - 1); (0, Z.shiftl 1 256 - 1);
   (Z.shiftl 1 255, Z.shiftl 1 255); (Z.shiftl MASK 192, Z.shiftl MASK 192);
   (MASK, MASK)].

Definition prove : result unit :=
  _ ← prove_row_bound;
  _ ← py_assert (Z.shiftr (MASK * MASK) 64 =? MASK - 1) "umulh headroom";
  for_result prove_extremes () (fun _ '(a, b) =>
    '(t, _) ← mul4x4_hw (words a) (words b) None;
    py_assert (value t =? a * b) "product mismatch").

(** [def edge_values()] *)
Definition edge_values : list Z :=
  [0; 1; 2; MASK; MASK + 1; Z.shiftl 1 128 - 1; Z.shiftl 1 128;
   Z.shiftl 1 192 - 1; Z.shiftl 1 192; Z.shiftl 1 255; Z.shiftl 1 256 - 1;
   P - 1; P; P + 1; Z.shiftl MASK 192; Z.lor (Z.shiftl MASK 192) MASK;
   (0x5555555555555555 * 0x0001000100010001) mod Z.shiftl 1 256;
   0xAAAAAAAAAAAAAAAA].

(** The body of the loop of [check(count)], for one pair of operands. *)
Definition check_pair (ab : Z * Z) : result unit :=
  let '(a, b) := ab in
  '(t, _) ← mul4x4_hw (words a) (words b) None;
  let got := value t in
  let want := (a mod Z.shiftl 1 256) * (b mod Z.shiftl 1 256) in
  _ ← py_assert (got =? want) "product mismatch";
  r ← reduce_full t;
  py_assert (r =? want mod P) "fe_mul mismatch".

(** [check(count)] over the pairs it is given: the edge pairs and [rnd], the
    random operands it draws. *)
Definition check (rnd : list (Z * Z)) : result unit :=
  let pairs := (a ← edge_values; b ← edge_values; [(a, b)]) ++ rnd in
  for_result pairs () (fun _ ab => check_pair ab).

(** ** The row invariant

    The invariant is [Words.acc_ok]: before row [i] the accumulator holds
    [a * (b mod 2^(64 i))] and nothing
    above limb [i + 3]. *)

Lemma mul_row0_spec aw b : length aw = 4%nat -> Forall word aw -> word b ->
  exists t, mul_row0 aw b = Ret t /\ acc_ok 1 (V aw * b) t.
Proof.
  intros Hl Hw Hb. destruct (mul_row aw b Hl Hw Hb) as (Hlo & Hhi & _ & Hv).
  unfold mul_row0.
  destruct (list4 _ (mul_lo_length aw b)) as (l0 & l1 & l2 & l3 & El). rewrite El in *.
  destruct (list4 _ (mul_hi_length aw b)) as (h0 & h1 & h2 & h3 & Eh). rewrite Eh in *.
  rewrite !Forall_cons_iff in Hlo, Hhi. unfold word in Hlo.
  destruct Hlo as (? & ? & ? & ? & _), Hhi as (? & ? & ? & ? & _).
  cbn [lookup_total list_lookup_total replicate insert list_insert].
  rewrite !shiftr_64, !land_MASK.
  set (s1 := h0 + l1). pose proof (Z_split_mod s1 (2 ^ 64) ltac:(lia)) as E1.
  assert (0 <= s1 / 2 ^ 64 <= 1) by (split; [apply Z.div_pos; lia|];
    apply Z.lt_succ_r, Z.div_lt_upper_bound; lia).
  set (s2 := h1 + l2 + s1 / 2 ^ 64). pose proof (Z_split_mod s2 (2 ^ 64) ltac:(lia)) as E2.
  assert (0 <= s2 / 2 ^ 64 <= 1) by (split; [apply Z.div_pos; lia|];
    apply Z.lt_succ_r, Z.div_lt_upper_bound; lia).
  set (s3 := h2 + l3 + s2 / 2 ^ 64). pose proof (Z_split_mod s3 (2 ^ 64) ltac:(lia)) as E3.
  assert (0 <= s3 / 2 ^ 64 <= 1) by (split; [apply Z.div_pos; lia|];
    apply Z.lt_succ_r, Z.div_lt_upper_bound; lia).
  rewrite !py_assert_true by (rewrite MASK_eq; lia).
  eexists. split; [reflexivity|]. split.
  - reflexivity.
  - repeat (apply List.Forall_cons; [unfold word; first [lia|apply Z.mod_pos_bound; lia]|]).
    apply List.Forall_nil.
  - intros k Hk. assert (k = 5%nat \/ k = 6%nat \/ k = 7%nat) as [->|[->| ->]] by lia; done.
  - rewrite <- Hv. cbn [V]. subst s1 s2 s3. lia.
Qed.

Lemma mul_row_i_spec aw b i t val :
  length aw = 4%nat -> Forall word aw -> word b -> (1 <= i < 4)%nat ->
  acc_ok i val t -> val + 2 ^ (64 * Z.of_nat i) * (V aw * b) < 2 ^ (64 * (Z.of_nat i + 5)) ->
  exists t', mul_row_i aw b i t = Ret t' /\
    acc_ok (S i) (val + 2 ^ (64 * Z.of_nat i) * (V aw * b)) t'.
Proof.
  intros Hl Hw Hb Hi [Htl Htw Hth Htv] Hroom.
  destruct (mul_row aw b Hl Hw Hb) as (Hlo & _ & Hhi & Hv). unfold mul_row_i.
  destruct (add_chain_spec 4 i (mul_lo aw b) t 0) as [L1 W1 C1 F1 V1];
    [lia|simpl; lia|done|done|lia|].
  destruct (add_chain 4 i (mul_lo aw b) (t, 0)) as [t1 c1]. cbn [fst snd] in *.
  set (t1' := <[(i + 4)%nat := c1]> t1).
  assert (t1 !!! (i + 4)%nat = 0) as Hz by (rewrite F1 by lia; apply Hth; lia).
  assert (length t1' = 8%nat) as L1' by (unfold t1'; rewrite length_insert; lia).
  assert (Forall word t1') as W1' by (apply Forall_insert; [done|unfold word; lia]).
  assert (V t1' = V t1 + 2 ^ (64 * Z.of_nat (i + 4)) * c1) as V1'
    by (unfold t1'; rewrite V_insert by lia; rewrite Hz; ring).
  destruct (add_chain_spec 3 (i + 1) (mul_hi aw b) t1' 0) as [L2 W2 C2 F2 V2];
    [lia|simpl; lia|done|done|lia|].
  destruct (add_chain 3 (i + 1) (mul_hi aw b) (t1', 0)) as [t2 c2]. cbn [fst snd] in *.
  set (s := t2 !!! (i + 4)%nat + mul_hi aw b !!! 3%nat + c2).
  pose proof (Forall_total _ _ (i + 4)%nat W2 ltac:(lia)) as H24.
  pose proof (Forall_total _ _ 3%nat Hhi ltac:(simpl; lia)) as Hh3.
  unfold word in H24, Hh3.
  assert (V (<[(i + 4)%nat := s]> t2) = val + 2 ^ (64 * Z.of_nat i) * (V aw * b)) as Hval.
  { rewrite V_insert by lia. unfold s. rewrite <- Htv, <- Hv.
    assert (V (mul_hi aw b) = V (take 3 (mul_hi aw b)) + 2 ^ 192 * mul_hi aw b !!! 3%nat) as ->
      by (rewrite <- (V_take_S 3) by (rewrite mul_hi_length; lia); reflexivity).
    change (take 4 (mul_lo aw b)) with (mul_lo aw b) in V1.
    rewrite !Z.add_0_r in V1, V2. rewrite V1' in V2.
    replace (64 * Z.of_nat (i + 1)) with (64 * Z.of_nat i + 64) in * by lia.
    replace (64 * Z.of_nat (i + 1 + 3)) with (64 * Z.of_nat i + 256) in * by lia.
    replace (64 * Z.of_nat (i + 4)) with (64 * Z.of_nat i + 256) in * by lia.
    rewrite !Z.pow_add_r in * by lia.
    set (p := 2 ^ (64 * Z.of_nat i)) in *. clearbody p. lia. }
  assert (s <= MASK) as Hs.
  { rewrite MASK_eq. apply Z.lt_le_pred. destruct (Z_lt_ge_dec s (2 ^ 64)) as [|Hge]; [done|].
    exfalso. rewrite V_insert in Hval by lia.
    pose proof (V_ge_limb t2 (i + 4) W2 ltac:(lia)) as Hge2.
    replace (64 * (Z.of_nat i + 5)) with (64 * Z.of_nat (i + 4) + 64) in Hroom by lia.
    rewrite Z.pow_add_r in Hroom by lia.
    set (p := 2 ^ (64 * Z.of_nat (i + 4))) in *. assert (0 < p) by (apply Z.pow_pos_nonneg; lia).
    clearbody p. nia. }
  rewrite py_assert_true by lia. eexists. split; [reflexivity|]. split.
  - rewrite length_insert. lia.
  - apply Forall_insert; [done|]. rewrite MASK_eq in Hs. unfold word. lia.
  - intros k Hk. rewrite list_lookup_total_insert_ne by lia. rewrite F2 by lia.
    unfold t1'. rewrite list_lookup_total_insert_ne by lia. rewrite F1 by lia. apply Hth. lia.
  - exact Hval.
Qed.

Lemma mul4x4_exact aw bw au :
  length aw = 4%nat -> length bw = 4%nat -> Forall word aw -> Forall word bw ->
  exists t au', mul4x4_hw aw bw au = Ret (t, au') /\
    length t = 8%nat /\ Forall word t /\ V t = V aw * V bw.
Proof.
  intros Ha Hb Hwa Hwb. unfold mul4x4_hw.
  assert (0 <= V aw < 2 ^ 256) as HA.
  { pose proof (V_nonneg _ Hwa). pose proof (V_bound _ Hwa) as HB. rewrite Ha in HB.
    change (64 * Z.of_nat 4) with 256 in HB. lia. }
  destruct (mul_row0_spec aw (bw !!! 0%nat)) as (t0 & -> & Hok0); [done|done| |].
  { apply Forall_total; [done|lia]. }
  cbn [mbind result_bind].
  destruct (for_result_ind (fun pre (ta : list Z * option audit) =>
      acc_ok (S (length pre)) (V aw * V (take (S (length pre)) bw)) ta.1)
    (fun '(t, au) i => t ← mul_row_i aw (bw !!! i) i t;
                       Ret (t, audit_append au i (t !!! (i + 4)%nat)))
    (range 1 4) (t0, audit_append au 0 (t0 !!! 4%nat)))
    as ([t au'] & Heq & Hok).
  - cbn [length fst]. rewrite (V_take_S 0) by lia.
    change (V (take 0 bw)) with 0. change (2 ^ (64 * Z.of_nat 0)) with 1.
    by rewrite Z.add_0_l, Z.mul_1_l.
  - intros pre i post [t au'] Hr Hok. cbn [fst] in Hok.
    assert (i = S (length pre) /\ (i < 4)%nat) as [Hi Hi4].
    { assert (range 1 4 !! length pre = Some i) as Hlk
        by (by rewrite Hr, lookup_app_r, Nat.sub_diag by lia).
      unfold range in Hlk. apply lookup_seq in Hlk. lia. }
    pose proof (Forall_total _ _ i Hwb ltac:(lia)) as Hwi.
    assert (V aw * V (take i bw) + 2 ^ (64 * Z.of_nat i) * (V aw * bw !!! i)
            = V aw * V (take (S i) bw)) as Hstep by (rewrite V_take_S by lia; ring).
    destruct (mul_row_i_spec aw (bw !!! i) i t (V aw * V (take i bw)))
      as (t' & Hrow & Hok'); [done|done|done|lia|by rewrite Hi| |].
    { rewrite Hstep. apply row_room; [done|].
      assert (Forall word (take (S i) bw)) as Hwt by (by apply Forall_take).
      pose proof (V_nonneg _ Hwt). pose proof (V_bound _ Hwt) as HB.
      rewrite length_take_le in HB by lia.
      replace (64 * (Z.of_nat i + 1)) with (64 * Z.of_nat (S i)) by lia. lia. }
    rewrite Hrow. cbn [mbind result_bind]. eexists. split; [reflexivity|].
    cbn [fst]. rewrite length_app. cbn [length].
    replace (length pre + 1)%nat with i by lia. by rewrite Hstep in Hok'.
  - exists t, au'. split; [exact Heq|]. change (length (range 1 4)) with 3%nat in Hok.
    destruct Hok as [? ? _ Hv]. rewrite take_ge in Hv by (rewrite ?mul_lo_length, ?mul_hi_length; lia). done.
Qed.

(** ** The field multiplication *)

(** [m] returns [v], whatever the audit dictionary holds. *)
Definition returns {X} (m : audited X) (v : X) : Prop :=
  forall au, exists au', m au = Ret (v, au').

Lemma returns_ret {X} (v : X) : returns (mret v) v.
Proof. intros au. by exists au. Qed.

Lemma returns_bind {X Y} (m : audited X) (f : X -> audited Y) v w :
  returns m v -> returns (f v) w -> returns (mbind f m) w.
Proof.
  intros Hm Hf au. destruct (Hm au) as [au1 H1]. destruct (Hf au1) as [au2 H2].
  exists au2. unfold mbind, audited_bind. rewrite H1. cbn [mbind result_bind]. exact H2.
Qed.

Definition u256 (x : Z) : Prop := 0 <= x < 2 ^ 256.

Lemma V_words_u256 a : u256 a -> V (words a) = a.
Proof. intros. rewrite V_words. by apply Z.mod_small. Qed.

#[local] Opaque mul4x4_hw reduce_full words P.

Lemma mul_returns a b : u256 a -> u256 b -> returns (mul_ a b) ((a * b) mod P).
Proof.
  intros Ha Hb au. unfold mul_, fe_mul_hw.
  destruct (mul4x4_exact (words a) (words b) (Some au)) as (t & au' & Heq & Hl & Hw & Hv);
    [apply words_length|apply words_length|apply words_word|apply words_word|].
  exists (default au au'). rewrite Heq, bind_Ret. cbn iota beta.
  rewrite (reduce_full_mod t Hl Hw), bind_Ret, Hv.
  rewrite (V_words_u256 a Ha), (V_words_u256 b Hb). reflexivity.
Qed.

Lemma u256_mod x : u256 (x mod P).
Proof. unfold u256. pose proof P_range. pose proof (Z.mod_pos_bound x P ltac:(lia)). lia. Qed.

#[export] Hint Resolve returns_ret mul_returns u256_mod : sarm.

(** ** The Jacobian formulas over ideal arithmetic

    The same operation sequences with [mul_] replaced by multiplication
    mod [P]: what the hardware-faithful run has to agree with. *)

Definition fmul (a b : Z) : Z := (a * b) mod P.

Definition jac_dbl_spec (pt : Z * Z * Z) : Z * Z * Z :=
  let '(x, y, z) := pt in
  if z =? 0 then (0, 0, 0) else
  let delta := fmul z z in
  let gamma := fmul y y in
  let beta := fmul x gamma in
  let alpha := fmul (3 mod P) (fmul ((x - delta) mod P) ((x + delta) mod P)) in
  let x3 := (fmul alpha alpha - 8 * beta) mod P in
  let z3 := (fmul ((y + z) mod P) ((y + z) mod P) - gamma - delta) mod P in
  let y3 := (fmul alpha ((4 * beta - x3) mod P) - 8 * fmul gamma gamma) mod P in
  (x3, y3, z3).

Definition jac_add_affine_spec (pt : Z * Z * Z) (x2 y2 : Z) : Z * Z * Z :=
  let '(x1, y1, z1) := pt in
  if z1 =? 0 then (x2, y2, 1) else
  let z1z1 := fmul z1 z1 in
  let u2 := fmul x2 z1z1 in
  let s2 := fmul y2 (fmul z1 z1z1) in
  let h := (u2 - x1) mod P in
  let r := (s2 - y1) mod P in
  if h =? 0 then (if r =? 0 then jac_dbl_spec pt else (0, 0, 0)) else
  let hh := fmul h h in
  let hhh := fmul h hh in
  let v := fmul x1 hh in
  let x3 := (fmul r r - hhh - 2 * v) mod P in
  let y3 := (fmul r ((v - x3) mod P) - fmul y1 hhh) mod P in
  (x3, y3, fmul h z1).

Fixpoint ladder_spec (bits : list bool) (acc : Z * Z * Z) : Z * Z * Z :=
  match bits with
  | [] => acc
  | b :: bits =>
      let acc := jac_dbl_spec acc in
      ladder_spec bits (if b then jac_add_affine_spec acc GX GY else acc)
  end.

Definition scalar_mul_spec (k : Z) : Z * Z :=
  let '(x, y, z) := ladder_spec (if k =? 0 then [] else py_bin k) (0, 0, 0) in
  if z =? 0 then (0, 0) else
  let zinv := py_pow_mod z (P - 2) P in
  let zinv2 := fmul zinv zinv in
  (fmul x zinv2, fmul y (fmul zinv2 zinv)).

Definition point_ok (pt : Z * Z * Z) : Prop :=
  let '(x, y, z) := pt in u256 x /\ u256 y /\ u256 z.

(** Run a sequence of multiplications forward. *)
Ltac run_muls :=
  repeat (eapply returns_bind; [apply mul_returns; unfold fmul; eauto using u256_mod|]);
  try apply returns_ret.

Lemma jac_dbl_returns pt : point_ok pt ->
  returns (jac_dbl pt) (jac_dbl_spec pt) /\ point_ok (jac_dbl_spec pt).
Proof.
  destruct pt as [[x y] z]. intros (Hx & Hy & Hz). unfold jac_dbl, jac_dbl_spec.
  destruct (z =? 0).
  { split; [apply returns_ret|]. unfold point_ok, u256. lia. }
  split; [run_muls|]. split_and!; apply u256_mod.
Qed.

Lemma G_u256 : u256 GX /\ u256 GY.
Proof. unfold u256, GX, GY. lia. Qed.

Lemma jac_add_affine_returns pt x2 y2 : point_ok pt -> u256 x2 -> u256 y2 ->
  returns (jac_add_affine pt x2 y2) (jac_add_affine_spec pt x2 y2) /\
  point_ok (jac_add_affine_spec pt x2 y2).
Proof.
  destruct pt as [[x y] z]. intros (Hx & Hy & Hz) Hx2 Hy2.
  pose proof (jac_dbl_returns (x, y, z) (conj Hx (conj Hy Hz))) as [Hd1 Hd2].
  unfold jac_add_affine, jac_add_affine_spec.
  destruct (z =? 0).
  { split; [apply returns_ret|]. split_and!; [done|done|unfold u256; lia]. }
  fold (fmul z z). fold (fmul x2 (fmul z z)). fold (fmul z (fmul z z)).
  fold (fmul y2 (fmul z (fmul z z))).
  set (h := (fmul x2 (fmul z z) - x) mod P).
  set (r := (fmul y2 (fmul z (fmul z z)) - y) mod P).
  assert (point_ok (0, 0, 0)) by (unfold point_ok, u256; lia).
  split.
  - do 4 (eapply returns_bind; [apply mul_returns; unfold fmul; eauto using u256_mod|]).
    fold (fmul z z). fold (fmul x2 (fmul z z)). fold (fmul z (fmul z z)).
    fold (fmul y2 (fmul z (fmul z z))). fold h r.
    destruct (h =? 0); [destruct (r =? 0); [exact Hd1|apply returns_ret]|].
    assert (u256 h /\ u256 r) as [Hh Hr] by (split; apply u256_mod). run_muls.
  - destruct (h =? 0); [destruct (r =? 0); [exact Hd2|done]|]. split_and!; apply u256_mod.
Qed.

Lemma ladder_returns bits acc : point_ok acc ->
  returns (ladder bits acc) (ladder_spec bits acc) /\ point_ok (ladder_spec bits acc).
Proof.
  revert acc. induction bits as [|b bits IH]; intros acc Hok; cbn [ladder ladder_spec].
  { split; [apply returns_ret|done]. }
  destruct (jac_dbl_returns acc Hok) as [Hd Hok1].
  destruct G_u256 as [HGX HGY].
  destruct (jac_add_affine_returns (jac_dbl_spec acc) GX GY Hok1 HGX HGY) as [Ha Hok2].
  destruct b.
  - destruct (IH _ Hok2) as [HI Hok3]. split; [|done].
    eapply returns_bind; [exact Hd|]. eapply returns_bind; [exact Ha|exact HI].
  - destruct (IH _ Hok1) as [HI Hok3]. split; [|done].
    eapply returns_bind; [exact Hd|]. eapply returns_bind; [apply returns_ret|exact HI].
Qed.

Lemma scalar_mul_returns k : returns (scalar_mul_hw k) (scalar_mul_spec k).
Proof.
  unfold scalar_mul_hw, scalar_mul_spec.
  destruct (ladder_returns (if k =? 0 then [] else py_bin k) (0, 0, 0)) as [Hl Hok].
  { unfold point_ok, u256. lia. }
  eapply returns_bind; [exact Hl|].
  destruct (ladder_spec _ _) as [[x y] z]. destruct Hok as (Hx & Hy & Hz).
  destruct (z =? 0); [apply returns_ret|].
  assert (u256 (py_pow_mod z (P - 2) P)) as Hi.
  { pose proof P_range. rewrite py_pow_mod_spec by lia. apply u256_mod. }
  run_muls.
Qed.

(** ** Properties *)

(** The loop of [check] on any pair: the assertions hold for all integers. *)
Lemma check_pair_ok ab : check_pair ab = Ret ().
Proof.
  destruct ab as [a b]. unfold check_pair.
  destruct (mul4x4_exact (words a) (words b) None) as (t & au' & Heq & Hl & Hw & Hv);
    [apply words_length|apply words_length|apply words_word|apply words_word|].
  rewrite Heq, bind_Ret. cbn iota beta.
  rewrite value_V, Hv, !V_words. change (Z.shiftl 1 256) with (2 ^ 256).
  rewrite Z.eqb_refl, py_assert_true, bind_Ret by reflexivity.
  rewrite (reduce_full_mod t Hl Hw), bind_Ret, Hv, !V_words, Z.eqb_refl. reflexivity.
Qed.

Lemma prove_ok : prove = Ret ().
Proof.
  unfold prove. assert (prove_row_bound = Ret ()) as -> by (vm_compute; reflexivity).
  rewrite bind_Ret, py_assert_true, bind_Ret by (vm_compute; reflexivity).
  assert (Forall (fun ab => u256 ab.1 /\ u256 ab.2) prove_extremes) as HF.
  { unfold prove_extremes, u256.
    forall_elems ltac:(cbn [fst snd]; split; split; vm_compute; congruence). }
  induction HF as [|[a b] l [Ha Hb] _ IH]; [reflexivity|]. cbn [for_result].
  destruct (mul4x4_exact (words a) (words b) None) as (t & au' & Heq & Hl & Hw & Hv);
    [apply words_length|apply words_length|apply words_word|apply words_word|].
  rewrite Heq, bind_Ret. cbn iota beta. cbn [fst snd] in Ha, Hb.
  rewrite value_V, Hv, (V_words_u256 a Ha), (V_words_u256 b Hb), Z.eqb_refl.
  rewrite py_assert_true, bind_Ret by reflexivity. exact IH.
Qed.

(** The unrolled 4x4 product is exact.  For all limb vectors none of the
    assertions standing for un-instructioned bounds fires, the eight result
    limbs are 64-bit words, and their value is the full 512-bit product. *)
Theorem mul4x4_hw_exact aw bw au :
  length aw = 4%nat -> length bw = 4%nat -> Forall word aw -> Forall word bw ->
  exists t au', mul4x4_hw aw bw au = Ret (t, au') /\
    length t = 8%nat /\ Forall word t /\ value t = value aw * value bw.
Proof. rewrite !value_V. intros. setoid_rewrite value_V. by apply mul4x4_exact. Qed.

Lemma mul4x4_hw_exact_witness :
  exists t au', mul4x4_hw (words (2^256 - 1)) (words (2^256 - 1)) None = Ret (t, au') /\
    length t = 8%nat /\ Forall word t /\
    value t = value (words (2^256 - 1)) * value (words (2^256 - 1)).
Proof. apply mul4x4_hw_exact; [reflexivity|reflexivity|apply words_word|apply words_word]. Defined.

(** C3: [fe_mul_hw] is multiplication in the field: it never raises and
    returns [a * b % P], for every pair of 256-bit operands and whatever the
    audit dictionary holds. *)
Theorem fe_mul_hw_correct a b au : u256 a -> u256 b ->
  exists au', fe_mul_hw a b au = Ret ((a * b) mod P, au').
Proof. intros Ha Hb. exact (mul_returns a b Ha Hb au). Qed.

Lemma fe_mul_hw_correct_witness :
  exists au', fe_mul_hw (P - 1) (P - 1) [] = Ret (((P - 1) * (P - 1)) mod P, au').
Proof. apply fe_mul_hw_correct; split; vm_compute; congruence. Defined.

(** C4: the interop driver's scalar multiplication, with every field
    multiplication routed through the modelled carry chains and reduction,
    always returns, with the result the same Jacobian formulas give over
    ideal arithmetic mod [P]. *)
Theorem scalar_mul_hw_refines k au :
  exists au', scalar_mul_hw k au = Ret (scalar_mul_spec k, au').
Proof. exact (scalar_mul_returns k au). Qed.

(** the [check] and [prove] commands cannot fail: for every list of
    operands the random generator may draw, [check] reports success. *)
Theorem check_never_fails rnd : check rnd = Ret () /\ prove = Ret ().
Proof.
  split; [|exact prove_ok]. unfold check. generalize ((a ← edge_values; b ← edge_values; [(a, b)]) ++ rnd).
  induction l as [|ab l IH]; [reflexivity|]. cbn [for_result].
  rewrite check_pair_ok, bind_Ret. exact IH.
Qed.
