(* ===== verification/ScalarInv.v ===== *)
(** * P-256 scalar inversion (scripts/p256_scalar_inv_derivation.py)

    The register-faithful Montgomery multiplication [mont_mul_hw], the
    addition chain for [n - 2] built from the runs of its binary expansion,
    its interpreter [run_chain], and the inversion [scalar_inv_hw] on top. *)

From S2P Require Import Prelude PyInt Primality Words.
From Stdlib Require Import Znumtheory.

(** [N], [E], [R], [RR], [N0INV], [NW] *)
Definition N : Z := 0xFFFFFFFF00000000FFFFFFFFFFFFFFFFBCE6FAADA7179E84F3B9CAC2FC632551.
Definition E : Z := N - 2.
Definition R : Z := Z.shiftl 1 256.
Definition RR : Z := (R * R) mod N.
Definition N0INV : Z :=
  match py_inv_mod N (Z.shiftl 1 64) with
  | Ret x => (- x) mod Z.shiftl 1 64
  | Raise _ => 0
  end.
Definition NW : list Z :=
  (fun i : nat => Z.land (Z.shiftr N (64 * Z.of_nat i)) MASK) <$> range 0 4.

(** ** The Montgomery multiplication *)

(** One row of phase 1. *)
Definition product_row (aw : list Z) (bi : Z) (i : nat) (t : list Z) : result (list Z) :=
  let lo := mul_lo aw bi in
  let hi := mul_hi aw bi in
  let '(t, c) := add_chain 4 i lo (t, 0) in
  let t := <[(i + 4)%nat := c]> t in
  let '(t, c) := add_chain 4 (i + 1) hi (t, 0) in
  _ ← py_assert (c =? 0) "product row carried past t[i+4]";
  Ret t.

(** The deposit of the two-word carry [(c2:c1)] at [t[i+4]] and its
    propagation into [ext]. *)
Definition deposit (i : nat) (t : list Z) (ext c1 c2 : Z) : list Z * Z :=
  let s := t !!! (i + 4)%nat + c1 in
  let t := <[(i + 4)%nat := Z.land s MASK]> t in
  let c := Z.shiftr s 64 in
  let s := (if (i + 5 <=? 7)%nat then t !!! (i + 5)%nat else ext) + c2 + c in
  let '(t, ext) :=
    if (i + 5 <=? 7)%nat then (<[(i + 5)%nat := Z.land s MASK]> t, ext) else (t, s) in
  let c := Z.shiftr s 64 in
  let '(t, c) := for_each (range (i + 6) 8) (t, c) (fun '(t, c) k =>
    let s := t !!! k + c in
    (<[k := Z.land s MASK]> t, Z.shiftr s 64)) in
  (t, if (i + 6 <=? 8)%nat then ext + c else ext).

(** One round of phase 2. *)
Definition reduction_round (i : nat) (t : list Z) (ext : Z) : result (list Z * Z) :=
  let m := Z.land (t !!! i * N0INV) MASK in
  let lo := mul_lo NW m in
  let hi := mul_hi NW m in
  let '(t, c) := add_chain 4 i lo (t, 0) in
  _ ← py_assert (t !!! i =? 0) "round did not zero t[i]";
  let c1 := c in
  let '(t, c) := add_chain 3 (i + 1) hi (t, 0) in
  let s := c1 + hi !!! 3%nat + c in
  let c1 := Z.land s MASK in
  let c2 := Z.shiftr s 64 in
  _ ← py_assert (c2 <=? 1) "c2";
  let '(t, ext) := deposit i t ext c1 c2 in
  _ ← py_assert (ext <=? 1) "reduction overflowed the 5th result word";
  Ret (t, ext).

(** [audit["ext"]] and [audit["subtracted"]] *)
Record mont_audit : Type := { au_ext : Z; au_subtracted : bool }.

Definition mont_mul_hw (aw bw : list Z) : result (list Z * mont_audit) :=
  t ← for_result (range 0 4) (replicate 8 0) (fun t i => product_row aw (bw !!! i) i t);
  _ ← py_assert (value aw * value bw =? value t) "product";
  '(t, ext) ← for_result (range 0 4) (t, 0) (fun '(t, ext) i => reduction_round i t ext);
  let res := drop 4 t in
  let resv := value res + Z.shiftl ext 256 in
  _ ← py_assert (resv <? 2 * N) "Montgomery output not < 2n";
  let '(borrow, d) := sub_chain res NW in
  let borrow := if ext - borrow <? 0 then 1 else 0 in
  let out := if borrow =? 0 then d else res in
  let val := value out in
  _ ← py_assert (val <? N) "val";
  rinv ← py_inv_mod R N;
  _ ← py_assert (val =? (value aw * value bw * rinv) mod N) "val";
  Ret (out, {| au_ext := ext; au_subtracted := borrow =? 0 |}).

Definition mont_mul (a b : Z) : result Z :=
  '(out, _) ← mont_mul_hw (words a) (words b);
  Ret (value out).

(** ** The addition chain *)

(** [(dst, src, nsq, mul)]; the slot table [SLOT], [ACC], [NSLOTS], [NO_MUL] *)
Definition instr : Type := nat * nat * nat * nat.
Definition SLOT : list (nat * nat) :=
  [(1, 0); (2, 1); (3, 2); (4, 3); (5, 4); (6, 5); (8, 6); (16, 7); (32, 8)]%nat.
Definition ACC : nat := 9.
Definition NSLOTS : nat := 10.
Definition NO_MUL : nat := 255.

(** [SLOT[k]] *)
Definition slot (k : nat) : result nat :=
  match dict_get SLOT k with Some s => Ret s | None => Raise KeyError end.

(** The length of the leading run of ones, the inner [while]. *)
Fixpoint ones_run (l : list bool) : nat :=
  match l with true :: l => S (ones_run l) | _ => O end.

(** The [while i < len(low)] loop: skip a zero, or emit one instruction for a
    run of ones.  [fuel] bounds the iterations; [length low] suffices because
    each consumes at least one bit. *)
Fixpoint low_loop (fuel : nat) (low : list bool) (pending : nat) (prog : list instr)
  : result (list instr * nat) :=
  match low, fuel with
  | [], _ => Ret (prog, pending)
  | _, O => Raise (RuntimeError "fuel")
  | false :: low, S fuel => low_loop fuel low (pending + 1) prog
  | true :: _, S fuel =>
      let run := ones_run low in
      _ ← py_assert (bool_decide (is_Some (dict_get SLOT run))) "low half has a run not in the ladder";
      s ← slot run;
      low_loop fuel (drop run low) 0 (prog ++ [(ACC, ACC, (pending + run)%nat, s)])
  end.

Definition build_chain : result (list instr) :=
  prog ← for_result [2; 3; 4; 5; 6]%nat [] (fun prog k =>
    sk ← slot k; sk1 ← slot (k - 1); s1 ← slot 1;
    Ret (prog ++ [(sk, sk1, 1%nat, s1)]));
  prog ← for_result [8; 16; 32]%nat prog (fun prog k =>
    sk ← slot k; sh ← slot (k / 2);
    Ret (prog ++ [(sk, sh, (k / 2)%nat, sh)]));
  let bits := py_bin E in
  _ ← py_assert (length bits =? 256)%nat "bits";
  _ ← py_assert (bool_decide (take 32 bits = replicate 32 true)
                 && bool_decide (take 32 (drop 32 bits) = replicate 32 false)) "bits";
  _ ← py_assert (bool_decide (take 65 (drop 64 bits) = replicate 65 true)) "bits";
  s32 ← slot 32; s1 ← slot 1;
  let prog := prog ++ [(ACC, s32, 32%nat, NO_MUL); (ACC, ACC, 32%nat, s32);
                       (ACC, ACC, 32%nat, s32); (ACC, ACC, 1%nat, s1)] in
  let low := drop 129 bits in
  '(prog, pending) ← low_loop (length low) low 0 prog;
  _ ← py_assert (pending =? 0)%nat "n-2 ends in a zero bit";
  Ret prog.

(** [slots[i]] and [slots[i] = t]; a slot never written holds [None]. *)
Definition slot_get {X} (slots : list (option X)) (i : nat) : result (option X) :=
  match slots !! i with Some v => Ret v | None => Raise IndexError end.
Definition slot_set {X} (slots : list (option X)) (i : nat) (v : option X)
  : result (list (option X)) :=
  if (i <? length slots)%nat then Ret (<[i := v]> slots) else Raise IndexError.

Section run_chain.
Context {X : Type} (mul : X -> X -> result X).

(** [mul(t, u)]: multiplying [None] is a type error. *)
Definition omul (t u : option X) : result (option X) :=
  match t, u with
  | Some t, Some u => v ← mul t u; Ret (Some v)
  | _, _ => Raise TypeError
  end.

Definition run_instr (slots : list (option X)) (i : instr) : result (list (option X)) :=
  let '(dst, src, nsq, m) := i in
  t ← slot_get slots src;
  t ← for_result (range 0 nsq) t (fun t _ => omul t t);
  t ← (if (m =? NO_MUL)%nat then Ret t else u ← slot_get slots m; omul t u);
  slot_set slots dst t.

Definition run_chain (x : X) (prog : list instr) : result (option X) :=
  s1 ← slot 1;
  slots ← slot_set (replicate NSLOTS None) s1 (Some x);
  slots ← for_result prog slots run_instr;
  slot_get slots ACC.
End run_chain.

Definition chain_cost (prog : list instr) : nat * nat :=
  (foldr Nat.add 0%nat ((fun i : instr => i.1.2) <$> prog),
   length (filter (fun i : instr => i.2 <> NO_MUL) prog)).

(** ** The inversion *)

Definition scalar_inv_hw (a : Z) : result Z :=
  let x := a mod N in
  xm ← mont_mul x RR;
  prog ← build_chain;
  accm ← run_chain mont_mul xm prog;
  match accm with
  | Some accm => mont_mul accm 1
  | None => Raise TypeError
  end.

(** ** The proof commands *)

(** Steps 1 and 2 of [prove]: replay on integer exponents, every read is of a
    written slot, every ones slot holds [2^k - 1]. *)
Definition prove_chain (prog : list instr) : result unit :=
  e ← run_chain (fun a b => Ret (a + b)) 1 prog;
  _ ← py_assert (bool_decide (e = Some E)) "chain";
  s1 ← slot 1;
  _ ← for_result prog [s1] (fun written '(dst, src, nsq, m) =>
    _ ← py_assert (bool_decide (src ∈ written)) "instruction reads unwritten slot";
    _ ← py_assert ((m =? NO_MUL)%nat || bool_decide (m ∈ written)) "multiply by unwritten slot";
    _ ← py_assert (1 <=? nsq)%nat "instruction with no squaring needs a slot copy";
    Ret (dst :: written));
  slots ← slot_set (replicate NSLOTS None) s1 (Some 1);
  slots ← for_result prog slots (fun slots '(dst, src, nsq, m) =>
    t ← slot_get slots src;
    match t with
    | None => Raise TypeError
    | Some t =>
        let t := t * Z.shiftl 1 (Z.of_nat nsq) in
        t ← (if (m =? NO_MUL)%nat then Ret t
             else u ← slot_get slots m;
                  match u with Some u => Ret (t + u) | None => Raise TypeError end);
        slot_set slots dst (Some t)
    end);
  for_result SLOT () (fun _ '(k, s) =>
    v ← slot_get slots s;
    py_assert (bool_decide (v = Some (Z.shiftl 1 (Z.of_nat k) - 1))) "slot ones").

(** One iteration of step 3 of [prove]. *)
Definition prove_product (ab : Z * Z) : result mont_audit :=
  let '(a, b) := ab in
  '(w, au) ← mont_mul_hw (words a) (words b);
  let got := value w in
  rinv ← py_inv_mod R N;
  _ ← py_assert (got =? (a * b * rinv) mod N) "product";
  Ret au.

(** Step 3: [(nsub, maxext)] over the cases. *)
Definition prove_products (cases : list (Z * Z)) : result (nat * Z) :=
  for_result cases (0%nat, 0) (fun '(nsub, maxext) ab =>
    au ← prove_product ab;
    Ret ((if au_subtracted au then S nsub else nsub), Z.max maxext (au_ext au))).

(** The body of the loop of step 4 of [prove], and of [check]. *)
Definition check_inv (a : Z) : result unit :=
  let want := py_pow_mod (a mod N) (N - 2) N in
  got ← scalar_inv_hw a;
  py_assert (got =? want) "inverse".

Definition check (vals : list Z) : result unit :=
  for_result vals () (fun _ a => check_inv a).

(** ** Phase 1: the product *)

Lemma product_row_spec aw b i t val :
  length aw = 4%nat -> Forall word aw -> word b -> (i < 4)%nat ->
  acc_ok i val t -> val + 2 ^ (64 * Z.of_nat i) * (V aw * b) < 2 ^ (64 * (Z.of_nat i + 5)) ->
  exists t', product_row aw b i t = Ret t' /\
    acc_ok (S i) (val + 2 ^ (64 * Z.of_nat i) * (V aw * b)) t'.
Proof.
  intros Hl Hw Hb Hi [Htl Htw Hth Htv] Hroom.
  destruct (mul_row aw b Hl Hw Hb) as (Hlo & _ & Hhi & Hv). unfold product_row.
  destruct (add_chain_spec 4 i (mul_lo aw b) t 0) as [L1 W1 C1 F1 V1];
    [lia|simpl; lia|done|done|lia|].
  destruct (add_chain 4 i (mul_lo aw b) (t, 0)) as [t1 c1]. cbn [fst snd] in *.
  set (t1' := <[(i + 4)%nat := c1]> t1).
  assert (t1 !!! (i + 4)%nat = 0) as Hz by (rewrite F1 by lia; apply Hth; lia).
  assert (length t1' = 8%nat) as L1' by (unfold t1'; rewrite length_insert; lia).
  assert (Forall word t1') as W1' by (apply Forall_insert; [done|unfold word; lia]).
  assert (V t1' = V t1 + 2 ^ (64 * Z.of_nat (i + 4)) * c1) as V1'
    by (unfold t1'; rewrite V_insert by lia; rewrite Hz; ring).
  destruct (add_chain_spec 4 (i + 1) (mul_hi aw b) t1' 0) as [L2 W2 C2 F2 V2];
    [lia|simpl; lia|done|done|lia|].
  destruct (add_chain 4 (i + 1) (mul_hi aw b) (t1', 0)) as [t2 c2]. cbn [fst snd] in *.
  assert (V t2 + 2 ^ (64 * (Z.of_nat i + 5)) * c2 = val + 2 ^ (64 * Z.of_nat i) * (V aw * b)) as Hval.
  { rewrite <- Htv, <- Hv.
    change (take 4 (mul_lo aw b)) with (mul_lo aw b) in V1.
    change (take 4 (mul_hi aw b)) with (mul_hi aw b) in V2.
    rewrite !Z.add_0_r in V1, V2. rewrite V1' in V2.
    replace (64 * (Z.of_nat i + 5)) with (64 * Z.of_nat i + 320) in * by lia.
    replace (64 * Z.of_nat (i + 1)) with (64 * Z.of_nat i + 64) in * by lia.
    replace (64 * Z.of_nat (i + 1 + 4)) with (64 * Z.of_nat i + 320) in * by lia.
    replace (64 * Z.of_nat (i + 4)) with (64 * Z.of_nat i + 256) in * by lia.
    rewrite !Z.pow_add_r in * by lia.
    set (p := 2 ^ (64 * Z.of_nat i)) in *. clearbody p. lia. }
  assert (c2 = 0) as ->.
  { pose proof (V_nonneg _ W2). assert (0 < 2 ^ (64 * (Z.of_nat i + 5))) by (apply Z.pow_pos_nonneg; lia).
    set (p := 2 ^ (64 * (Z.of_nat i + 5))) in *. clearbody p. nia. }
  rewrite py_assert_true, bind_Ret by reflexivity. eexists. split; [reflexivity|]. split.
  - lia.
  - done.
  - intros k Hk. rewrite F2 by lia.
    unfold t1'. rewrite list_lookup_total_insert_ne by lia. rewrite F1 by lia. apply Hth. lia.
  - lia.
Qed.

Lemma product_rows aw bw :
  length aw = 4%nat -> length bw = 4%nat -> Forall word aw -> Forall word bw ->
  exists t, for_result (range 0 4) (replicate 8 0) (fun t i => product_row aw (bw !!! i) i t) = Ret t /\
    length t = 8%nat /\ Forall word t /\ V t = V aw * V bw.
Proof.
  intros Ha Hb Hwa Hwb.
  assert (0 <= V aw < 2 ^ 256) as HA.
  { pose proof (V_nonneg _ Hwa). pose proof (V_bound _ Hwa) as HB. rewrite Ha in HB.
    change (64 * Z.of_nat 4) with 256 in HB. lia. }
  destruct (for_result_ind (fun pre t => acc_ok (length pre) (V aw * V (take (length pre) bw)) t)
    (fun t i => product_row aw (bw !!! i) i t) (range 0 4) (replicate 8 0)) as (t & Heq & Hok).
  - change (V (take (length (@nil nat)) bw)) with 0. split.
    + done.
    + apply Forall_replicate. unfold word. lia.
    + intros k Hk. by rewrite lookup_total_replicate_2 by (cbn [length] in Hk; lia).
    + rewrite V_replicate0. ring.
  - intros pre i post t Hr Hok.
    assert (i = length pre /\ (i < 4)%nat) as [Hi Hi4].
    { assert (range 0 4 !! length pre = Some i) as Hlk
        by (by rewrite Hr, lookup_app_r, Nat.sub_diag by lia).
      unfold range in Hlk. apply lookup_seq in Hlk. lia. }
    pose proof (Forall_total _ _ i Hwb ltac:(lia)) as Hwi.
    assert (V aw * V (take i bw) + 2 ^ (64 * Z.of_nat i) * (V aw * bw !!! i)
            = V aw * V (take (S i) bw)) as Hstep by (rewrite V_take_S by lia; ring).
    destruct (product_row_spec aw (bw !!! i) i t (V aw * V (take i bw)))
      as (t' & Hrow & Hok'); [done|done|done|lia|by rewrite Hi| |].
    { rewrite Hstep. apply row_room; [done|].
      assert (Forall word (take (S i) bw)) as Hwt by (by apply Forall_take).
      pose proof (V_nonneg _ Hwt). pose proof (V_bound _ Hwt) as HB.
      rewrite length_take_le in HB by lia.
      replace (64 * (Z.of_nat i + 1)) with (64 * Z.of_nat (S i)) by lia. lia. }
    exists t'. split; [exact Hrow|]. rewrite length_app. cbn [length].
    replace (length pre + 1)%nat with (S i) by lia. by rewrite Hstep in Hok'.
  - exists t. split; [exact Heq|]. change (length (range 0 4)) with 4%nat in Hok.
    destruct Hok as [? ? _ Hv]. rewrite take_ge in Hv by lia. done.
Qed.

(** ** Phase 2: the reduction *)

(** A limb and its carry. *)
Lemma carry_split s : 0 <= s < 2 * 2 ^ 64 ->
  word (Z.land s MASK) /\ 0 <= Z.shiftr s 64 <= 1 /\ Z.land s MASK + 2 ^ 64 * Z.shiftr s 64 = s.
Proof.
  intros Hs. rewrite land_MASK, shiftr_64. pose proof (Z_split_mod s (2 ^ 64) ltac:(lia)).
  split; [apply Z.mod_pos_bound; lia|]. split; [|lia].
  split; [apply Z.div_pos; lia|]. apply Z.lt_succ_r, Z.div_lt_upper_bound; lia.
Qed.

Lemma list8' {A} (l : list A) : length l = 8%nat ->
  exists a b c d e f g h, l = [a; b; c; d; e; f; g; h].
Proof.
  destruct l as [|a [|b [|c [|d [|e [|f [|g [|h [|]]]]]]]]]; simpl; try lia.
  intros _. by exists a, b, c, d, e, f, g, h.
Qed.

Ltac name_carry s :=
  let W := fresh "W" in let C := fresh "C" in let E := fresh "E" in
  let x := fresh "x" in let c := fresh "c" in
  destruct (carry_split s) as (W & C & E); [lia|];
  set (x := Z.land s MASK) in *; set (c := Z.shiftr s 64) in *; clearbody x c.

Lemma deposit_spec i t ext c1 c2 :
  (i < 4)%nat -> length t = 8%nat -> Forall word t -> 0 <= ext ->
  word c1 -> 0 <= c2 <= 1 ->
  length (deposit i t ext c1 c2).1 = 8%nat /\ Forall word (deposit i t ext c1 c2).1 /\
  0 <= (deposit i t ext c1 c2).2 /\
  (forall k, (k < i + 4)%nat -> (deposit i t ext c1 c2).1 !!! k = t !!! k) /\
  V (deposit i t ext c1 c2).1 + 2 ^ 512 * (deposit i t ext c1 c2).2
    = V t + 2 ^ 512 * ext + 2 ^ (64 * Z.of_nat (i + 4)) * (c1 + 2 ^ 64 * c2).
Proof.
  intros Hi (t0 & t1 & t2 & t3 & t4 & t5 & t6 & t7 & ->)%list8' Hw He Hc1 Hc2.
  rewrite !Forall_cons_iff in Hw. unfold word in *.
  destruct Hw as (? & ? & ? & ? & ? & ? & ? & ? & _).
  assert (i = 0 \/ i = 1 \/ i = 2 \/ i = 3)%nat as [->|[->|[->| ->]]] by lia;
  unfold deposit; cbn [Nat.add Nat.leb for_each range seq foldl Nat.sub lookup_total
    list_lookup_total insert list_insert fst snd].
  - name_carry (t4 + c1). name_carry (t5 + c2 + c).
    name_carry (t6 + c0). name_carry (t7 + c3).
    split; [done|]. split; [forall_elems ltac:(unfold word in *; lia)|]. split; [lia|]. split.
    + intros k Hk. do 4 (destruct k as [|k]; [done|]). lia.
    + cbn [V]. change (64 * Z.of_nat 4) with 256. lia.
  - name_carry (t5 + c1). name_carry (t6 + c2 + c).
    name_carry (t7 + c0).
    split; [done|]. split; [forall_elems ltac:(unfold word in *; lia)|]. split; [lia|]. split.
    + intros k Hk. do 5 (destruct k as [|k]; [done|]). lia.
    + cbn [V]. change (64 * Z.of_nat 5) with 320. lia.
  - name_carry (t6 + c1). name_carry (t7 + c2 + c).
    split; [done|]. split; [forall_elems ltac:(unfold word in *; lia)|]. split; [lia|]. split.
    + intros k Hk. do 6 (destruct k as [|k]; [done|]). lia.
    + cbn [V]. change (64 * Z.of_nat 6) with 384. lia.
  - name_carry (t7 + c1).
    split; [done|]. split; [forall_elems ltac:(unfold word in *; lia)|]. split; [lia|]. split.
    + intros k Hk. do 7 (destruct k as [|k]; [done|]). lia.
    + cbn [V]. change (64 * Z.of_nat 7) with 448. lia.
Qed.

(** The state of phase 2 before round [i]: the low [i] limbs are zero and the
    nine-word accumulator holds [ab + M * N] with [M < 2^(64 i)]. *)
Record red_ok (ab : Z) (i : nat) (t : list Z) (ext : Z) : Prop := {
  ro_len : length t = 8%nat;
  ro_word : Forall word t;
  ro_low : forall k, (k < i)%nat -> t !!! k = 0;
  ro_ext : 0 <= ext;
  ro_val : exists M, 0 <= M < 2 ^ (64 * Z.of_nat i) /\ V t + 2 ^ 512 * ext = ab + M * N
}.

Lemma NW_facts : length NW = 4%nat /\ Forall word NW /\ V NW = N /\
  (N0INV * NW !!! 0%nat + 1) mod 2 ^ 64 = 0.
Proof.
  split; [done|]. split; [|by split; vm_compute].
  unfold NW. apply Forall_fmap, Forall_true. intros i. apply word_land.
Qed.

Lemma N_range : 2 ^ 255 < N < 2 ^ 256.
Proof. unfold N. lia. Qed.

#[local] Opaque N NW N0INV.

Lemma zeroing_limb x m :
  m = Z.land (x * N0INV) MASK ->
  Z.land (x + Z.land (NW !!! 0%nat * m) MASK + 0) MASK = 0.
Proof.
  intros ->. destruct NW_facts as (_ & _ & _ & Hn). rewrite !land_MASK, Z.add_0_r.
  set (n0 := NW !!! 0%nat) in *. clearbody n0. set (v := N0INV) in *. clearbody v.
  rewrite Zplus_mod_idemp_r, <- Zplus_mod_idemp_r, Zmult_mod_idemp_r, Zplus_mod_idemp_r.
  replace (x + n0 * (x * v)) with (x * (v * n0 + 1)) by ring.
  rewrite <- Zmult_mod_idemp_r, Hn, Z.mul_0_r. done.
Qed.

(** A round's multiplier makes room for itself, and the extension word stays
    below two. *)
Lemma round_room ab i M m t ext : 0 <= ab < R * N -> (i < 4)%nat -> 0 <= M < 2 ^ (64 * Z.of_nat i) -> word m ->
  Forall word t -> V t + 2 ^ 512 * ext = ab + (M + 2 ^ (64 * Z.of_nat i) * m) * N ->
  0 <= M + 2 ^ (64 * Z.of_nat i) * m < 2 ^ (64 * Z.of_nat (S i)) /\ ext <= 1.
Proof.
  intros Hab Hi HM Hm DW Hval. set (M' := M + 2 ^ (64 * Z.of_nat i) * m) in *.
  assert (0 <= M' < 2 ^ (64 * Z.of_nat (S i))) as HM'.
  { unfold M'. replace (64 * Z.of_nat (S i)) with (64 * Z.of_nat i + 64) by lia.
    rewrite Z.pow_add_r by lia. unfold word in Hm.
    set (p := 2 ^ (64 * Z.of_nat i)) in *. clearbody p. clear - HM Hm. nia. }
  split; [done|]. assert (2 ^ (64 * Z.of_nat (S i)) <= 2 ^ 256) by (apply Z.pow_le_mono_r; lia).
  pose proof (V_nonneg _ DW). pose proof N_range. change R with (2 ^ 256) in Hab.
  assert (M' * N < 2 ^ 256 * N) by nia.
  assert (2 ^ 512 * ext < 2 ^ 512 * 2); [|lia]. change (2 ^ 512) with (2 ^ 256 * 2 ^ 256) in *. nia.
Qed.

Lemma reduction_round_spec ab i t ext :
  0 <= ab < R * N -> (i < 4)%nat -> red_ok ab i t ext ->
  exists t' ext', reduction_round i t ext = Ret (t', ext') /\ ext' <= 1 /\ red_ok ab (S i) t' ext'.
Proof.
  intros Hab Hi [Hl Hw Hlow Hext (M & HM & HV)].
  destruct NW_facts as (HNl & HNw & HNV & _). unfold reduction_round.
  set (m := Z.land (t !!! i * N0INV) MASK).
  assert (word m) as Hm by apply word_land.
  destruct (mul_row NW m HNl HNw Hm) as (Hlo & Hhi2 & Hhi & Hv).
  assert ((add_chain 4 i (mul_lo NW m) (t, 0)).1 !!! i = 0) as Hz.
  { rewrite (add_chain_first 3) by lia. unfold mul_lo.
    cbn [range seq Nat.sub fmap list_fmap lookup_total list_lookup_total]. by apply zeroing_limb. }
  destruct (add_chain_spec 4 i (mul_lo NW m) t 0) as [L1 W1 C1 F1 V1];
    [lia|rewrite mul_lo_length; lia|done|done|lia|].
  destruct (add_chain 4 i (mul_lo NW m) (t, 0)) as [t1 c1]. cbn [fst snd] in *.
  rewrite (py_assert_true (t1 !!! i =? 0)), bind_Ret by (apply Z.eqb_eq; exact Hz).
  destruct (add_chain_spec 3 (i + 1) (mul_hi NW m) t1 0) as [L2 W2 C2 F2 V2];
    [lia|rewrite mul_hi_length; lia|done|done|lia|].
  destruct (add_chain 3 (i + 1) (mul_hi NW m) (t1, 0)) as [t2 c2]. cbn [fst snd] in *.
  set (h3 := mul_hi NW m !!! 3%nat) in *.
  pose proof (Forall_total _ _ 3%nat Hhi2 ltac:(rewrite mul_hi_length; lia)) as Hh3.
  fold h3 in Hh3. cbn beta in Hh3.
  destruct (carry_split (c1 + h3 + c2)) as (Ws & Cs & Es); [lia|].
  set (d1 := Z.land (c1 + h3 + c2) MASK) in *. set (d2 := Z.shiftr (c1 + h3 + c2) 64) in *.
  rewrite (py_assert_true (d2 <=? 1)), bind_Ret by (apply Z.leb_le; lia).
  destruct (deposit_spec i t2 ext d1 d2) as (DL & DW & DE & DF & DV); [done|lia|done|done|done|done|].
  destruct (deposit i t2 ext d1 d2) as [t3 ext3]. cbn [fst snd] in *.
  assert (V t3 + 2 ^ 512 * ext3 = ab + (M + 2 ^ (64 * Z.of_nat i) * m) * N) as Hval.
  { rewrite DV, Es. rewrite HNV in Hv.
    assert (V (mul_hi NW m) = V (take 3 (mul_hi NW m)) + 2 ^ 192 * h3) as Hh
      by (unfold h3; rewrite <- (V_take_S 3) by (rewrite mul_hi_length; lia); reflexivity).
    rewrite Hh in Hv. change (take 4 (mul_lo NW m)) with (mul_lo NW m) in V1.
    rewrite !Z.add_0_r in V1, V2.
    replace (64 * Z.of_nat (i + 1)) with (64 * Z.of_nat i + 64) in * by lia.
    replace (64 * Z.of_nat (i + 1 + 3)) with (64 * Z.of_nat i + 256) in * by lia.
    replace (64 * Z.of_nat (i + 4)) with (64 * Z.of_nat i + 256) in * by lia.
    rewrite !Z.pow_add_r in * by lia.
    set (p := 2 ^ (64 * Z.of_nat i)) in *. clearbody p.
    clear - HV V1 V2 Hv. set (H := V (take 3 (mul_hi NW m))) in *. clearbody H.
    replace (ab + (M + p * m) * N) with (ab + M * N + p * (N * m)) by ring. rewrite <- Hv. lia. }
  destruct (round_room ab i M m t3 ext3) as [HM' He3]; [done..|].
  rewrite (py_assert_true (ext3 <=? 1)), bind_Ret by (apply Z.leb_le; lia).
  exists t3, ext3. split; [reflexivity|]. split; [exact He3|]. split; [done|done| |done|eauto].
  intros k Hk. rewrite DF by lia. rewrite F2 by lia.
  destruct (decide (k = i)) as [->|]; [exact Hz|]. rewrite F1 by lia. apply Hlow. lia.
Qed.

(** After four rounds the result limbs hold [(ab + M * N) / 2^256 < 2 N]. *)
Lemma reduction_rounds ab t :
  0 <= ab < R * N -> length t = 8%nat -> Forall word t -> V t = ab ->
  exists t' ext, for_result (range 0 4) (t, 0) (fun '(t, ext) i => reduction_round i t ext) = Ret (t', ext) /\
    0 <= ext <= 1 /\ length (drop 4 t') = 4%nat /\ Forall word (drop 4 t') /\
    V (drop 4 t') + 2 ^ 256 * ext < 2 * N /\
    ((V (drop 4 t') + 2 ^ 256 * ext) * R) mod N = ab mod N.
Proof.
  intros Hab Hl Hw HV.
  destruct (for_result_ind (fun pre (te : list Z * Z) => te.2 <= 1 /\ red_ok ab (length pre) te.1 te.2)
    (fun '(t, ext) i => reduction_round i t ext) (range 0 4) (t, 0)) as ([t' ext] & Heq & He & Hok).
  - cbn [fst snd length]. split; [lia|]. split; [done|done|lia|lia|].
    exists 0. split; [done|]. lia.
  - intros pre i post [t' ext] Hr [He Hok]. cbn [fst snd] in *.
    assert (i = length pre /\ (i < 4)%nat) as [Hi Hi4].
    { assert (range 0 4 !! length pre = Some i) as Hlk
        by (by rewrite Hr, lookup_app_r, Nat.sub_diag by lia).
      unfold range in Hlk. apply lookup_seq in Hlk. lia. }
    rewrite <- Hi in Hok.
    destruct (reduction_round_spec ab i t' ext Hab Hi4 Hok) as (t2 & ext2 & Hs & He2 & Hok2).
    exists (t2, ext2). split; [exact Hs|]. rewrite length_app. cbn [fst snd length].
    by replace (length pre + 1)%nat with (S i) by lia.
  - exists t', ext. split; [exact Heq|]. change (length (range 0 4)) with 4%nat in Hok. cbn [fst snd] in *.
    destruct Hok as [Hl' Hw' Hlow Hext (M & HM & Hval)].
    split; [lia|]. split; [rewrite length_drop; lia|]. split; [by apply Forall_drop|].
    assert (V t' = 2 ^ 256 * V (drop 4 t')) as Hd.
    { destruct (list8' _ Hl') as (a & b & c & d & e & f & g & h & ->).
      pose proof (Hlow 0%nat ltac:(lia)) as E0. pose proof (Hlow 1%nat ltac:(lia)) as E1.
      pose proof (Hlow 2%nat ltac:(lia)) as E2. pose proof (Hlow 3%nat ltac:(lia)) as E3.
      cbn [lookup_total list_lookup_total] in *. subst. cbn [drop V]. lia. }
    rewrite Hd in Hval. change (2 ^ 512) with (2 ^ 256 * 2 ^ 256) in Hval.
    change (2 ^ (64 * Z.of_nat 4)) with (2 ^ 256) in HM. change R with (2 ^ 256) in *.
    pose proof N_range. set (W := V (drop 4 t')) in *. clearbody W.
    set (B := 2 ^ 256) in *. assert (0 < B) by (unfold B; lia). clearbody B.
    split; [nia|]. replace ((W + B * ext) * B) with (ab + M * N) by lia.
    rewrite Z_mod_plus_full. done.
Qed.

(** ** The Montgomery product *)

Definition RINV : Z := match py_inv_mod R N with Ret x => x | Raise _ => 0 end.

Lemma RINV_spec : py_inv_mod R N = Ret RINV /\ (R * RINV) mod N = 1.
Proof. split; vm_compute; reflexivity. Qed.

#[local] Opaque RINV product_row reduction_round py_inv_mod.

Lemma redc_value v ab : 0 <= v < N -> (v * R) mod N = ab mod N -> v = (ab * RINV) mod N.
Proof.
  intros Hv H. destruct RINV_spec as [_ HR].
  rewrite <- Zmult_mod_idemp_l, <- H, Zmult_mod_idemp_l, <- Z.mul_assoc, <- Zmult_mod_idemp_r, HR.
  rewrite Z.mul_1_r. symmetry. by apply Z.mod_small.
Qed.

Lemma mont_mul_exact aw bw :
  length aw = 4%nat -> length bw = 4%nat -> Forall word aw -> Forall word bw ->
  V aw * V bw < R * N ->
  exists out au, mont_mul_hw aw bw = Ret (out, au) /\ length out = 4%nat /\ Forall word out /\
    V out = (V aw * V bw * RINV) mod N /\ 0 <= au_ext au <= 1.
Proof.
  intros Ha Hb Hwa Hwb Hab. unfold mont_mul_hw.
  destruct (product_rows aw bw Ha Hb Hwa Hwb) as (t & Ht & Htl & Htw & HtV).
  rewrite Ht, bind_Ret. rewrite !value_V, HtV, Z.eqb_refl, py_assert_true, bind_Ret by reflexivity.
  pose proof (V_nonneg _ Hwa). pose proof (V_nonneg _ Hwb).
  assert (0 <= V aw * V bw) as Hpos by nia. set (ab := V aw * V bw) in *. clearbody ab.
  destruct (reduction_rounds ab t ltac:(lia) Htl Htw HtV) as (t' & ext & Hr & He & Hl & Hw & Hlt & Hmod).
  rewrite Hr, bind_Ret. cbn iota beta. clear Hr Ht.
  rewrite value_V, Z.shiftl_mul_pow2 by lia. rewrite (Z.mul_comm ext).
  rewrite (py_assert_true (V (drop 4 t') + 2 ^ 256 * ext <? 2 * N)), bind_Ret by (apply Z.ltb_lt; exact Hlt).
  destruct NW_facts as (HNl & HNw & HNV & _).
  destruct (sub_chain_spec (drop 4 t') NW Hl HNl Hw HNw) as [SL SW SB SV].
  destruct (sub_chain (drop 4 t') NW) as [borrow d]. cbn [fst snd] in *. rewrite HNV in SV.
  pose proof (V_bound _ SW) as HdB. rewrite SL in HdB. change (64 * Z.of_nat 4) with 256 in HdB.
  pose proof (V_nonneg _ SW). pose proof (V_nonneg _ Hw). pose proof N_range.
  set (res := drop 4 t') in *. clearbody res.
  set (bb := if ext - borrow <? 0 then 1 else 0).
  assert (exists o, (if bb =? 0 then d else res) = o /\ length o = 4%nat /\ Forall word o /\
      0 <= V o < N /\ (V o * R) mod N = ab mod N) as (o & -> & Ho1 & Ho2 & Ho3 & Ho4).
  { unfold bb. destruct (Z.ltb_spec (ext - borrow) 0) as [Hneg|Hge].
    - change (1 =? 0) with false. cbv iota. exists res. split; [done|]. split; [done|]. split; [done|].
      assert (ext = 0) as -> by lia. rewrite Z.mul_0_r, Z.add_0_r in Hmod. split; [lia|done].
    - change (0 =? 0) with true. cbv iota. exists d. split; [done|]. split; [done|]. split; [done|].
      assert (V d = V res + 2 ^ 256 * ext - N + 2 ^ 256 * (borrow - ext)) as Hd by lia.
      assert (borrow = ext) as -> by lia. rewrite Z.sub_diag, Z.mul_0_r, Z.add_0_r in Hd.
      split; [lia|]. rewrite Hd. replace ((V res + 2 ^ 256 * ext - N) * R)
        with ((V res + 2 ^ 256 * ext) * R + (- R) * N) by ring. by rewrite Z_mod_plus_full. }
  rewrite (value_V o), (py_assert_true (V o <? N)), bind_Ret by (apply Z.ltb_lt; lia).
  destruct RINV_spec as [HRI _]. rewrite HRI, bind_Ret.
  pose proof (redc_value (V o) ab Ho3 Ho4) as Hval. rewrite <- Hval, Z.eqb_refl, py_assert_true, bind_Ret by reflexivity.
  eexists _, _. split; [reflexivity|]. split; [exact Ho1|]. split; [exact Ho2|].
  split; [reflexivity|]. cbn [au_ext]. exact He.
Qed.

Lemma mont_mul_ok a b : 0 <= a < 2 ^ 256 -> 0 <= b < 2 ^ 256 -> a * b < R * N ->
  mont_mul a b = Ret ((a * b * RINV) mod N).
Proof.
  intros Ha Hb Hab. unfold mont_mul.
  assert (V (words a) = a /\ V (words b) = b) as [Ea Eb] by (rewrite !V_words; split; by apply Z.mod_small).
  destruct (mont_mul_exact (words a) (words b)) as (out & au & Heq & _ & _ & Hv & _);
    [apply words_length|apply words_length|apply words_word|apply words_word|by rewrite Ea, Eb|].
  rewrite Heq, bind_Ret. cbn iota beta. by rewrite value_V, Hv, Ea, Eb.
Qed.

(** ** The chain over an abstract multiplication

    If [mul] represents the addition of exponents through a relation [rep],
    the chain run with [mul] represents the exponent the chain computes. *)

Section chain.
Context {X : Type} (mul : X -> X -> result X) (rep : Z -> X -> Prop).
Hypothesis mul_rep : forall e f x y, rep e x -> rep f y ->
  exists z, mul x y = Ret z /\ rep (e + f) z.

Definition zadd (a b : Z) : result Z := Ret (a + b).

(** Corresponding slot contents. *)
Definition orep : option Z -> option X -> Prop := option_Forall2 rep.

Lemma omul_rep e f ef x y : orep e x -> orep f y -> omul zadd e f = Ret ef ->
  exists z, omul mul x y = Ret z /\ orep ef z.
Proof.
  intros Hx Hy. destruct Hx as [e x Hx|]; [|done]. destruct Hy as [f y Hy|]; [|done].
  cbn [omul]. unfold zadd at 1. rewrite bind_Ret. intros [= <-].
  destruct (mul_rep e f x y Hx Hy) as (z & -> & Hz). rewrite bind_Ret.
  eexists. split; [reflexivity|]. by constructor.
Qed.

Lemma squarings_rep l e e' x : orep e x ->
  for_result l e (fun t (_ : nat) => omul zadd t t) = Ret e' ->
  exists y, for_result l x (fun t _ => omul mul t t) = Ret y /\ orep e' y.
Proof.
  revert e x. induction l as [|n l IH]; intros e x Hx; cbn [for_result].
  - intros [= <-]. eauto.
  - intros (e1 & He1 & Hrest)%bind_Ret_inv.
    destruct (omul_rep e e e1 x x Hx Hx He1) as (z & -> & Hz). rewrite bind_Ret. eauto.
Qed.

Lemma slot_get_rep es xs i e : Forall2 orep es xs -> slot_get es i = Ret e ->
  exists x, slot_get xs i = Ret x /\ orep e x.
Proof.
  unfold slot_get. intros H He. destruct (es !! i) as [e'|] eqn:Hl; [|done]. injection He as ->.
  destruct (Forall2_lookup_l _ _ _ _ _ H Hl) as (x & -> & Hx). eauto.
Qed.

Lemma slot_set_rep es xs i e x es' : Forall2 orep es xs -> orep e x ->
  slot_set es i e = Ret es' -> exists xs', slot_set xs i x = Ret xs' /\ Forall2 orep es' xs'.
Proof.
  unfold slot_set. intros H Hx. rewrite (Forall2_length H).
  case_match; [|done]. intros [= <-]. eexists. split; [reflexivity|]. by apply Forall2_insert.
Qed.

Lemma run_instr_rep es xs i es' : Forall2 orep es xs -> run_instr zadd es i = Ret es' ->
  exists xs', run_instr mul xs i = Ret xs' /\ Forall2 orep es' xs'.
Proof.
  destruct i as [[[dst src] nsq] m]. unfold run_instr. intros H.
  intros (e0 & H0 & (e1 & H1 & (e2 & H2 & H3)%bind_Ret_inv)%bind_Ret_inv)%bind_Ret_inv.
  destruct (slot_get_rep _ _ _ _ H H0) as (x0 & -> & Hx0). rewrite bind_Ret.
  destruct (squarings_rep _ _ _ _ Hx0 H1) as (x1 & -> & Hx1). rewrite bind_Ret.
  assert (exists x2, (if (m =? NO_MUL)%nat then Ret x1
    else u ← slot_get xs m; omul mul x1 u) = Ret x2 /\ orep e2 x2) as (x2 & -> & Hx2).
  { destruct (m =? NO_MUL)%nat.
    - injection H2 as <-. eauto.
    - apply bind_Ret_inv in H2 as (u & Hu & H2).
      destruct (slot_get_rep _ _ _ _ H Hu) as (v & -> & Hv). rewrite bind_Ret.
      by eapply omul_rep. }
  rewrite bind_Ret. by eapply slot_set_rep.
Qed.

Lemma run_prog_rep prog es xs es' : Forall2 orep es xs ->
  for_result prog es (run_instr zadd) = Ret es' ->
  exists xs', for_result prog xs (run_instr mul) = Ret xs' /\ Forall2 orep es' xs'.
Proof.
  revert es xs. induction prog as [|i prog IH]; intros es xs H; cbn [for_result].
  - intros [= <-]. eauto.
  - intros (es1 & H1 & Hrest)%bind_Ret_inv.
    destruct (run_instr_rep _ _ _ _ H H1) as (xs1 & -> & Hxs1). rewrite bind_Ret. eauto.
Qed.

Lemma run_chain_rep prog x e : rep 1 x -> run_chain zadd 1 prog = Ret (Some e) ->
  exists y, run_chain mul x prog = Ret (Some y) /\ rep e y.
Proof.
  intros Hx. unfold run_chain.
  intros (s1 & -> & (es0 & H0 & (es & H1 & H2)%bind_Ret_inv)%bind_Ret_inv)%bind_Ret_inv.
  rewrite bind_Ret.
  destruct (slot_set_rep (replicate NSLOTS None) (replicate NSLOTS None) s1 (Some 1) (Some x) es0)
    as (xs0 & -> & Hxs0); [|by constructor|done|].
  { apply Forall2_replicate. constructor. }
  rewrite bind_Ret. destruct (run_prog_rep _ _ _ _ Hxs0 H1) as (xs & -> & Hxs). rewrite bind_Ret.
  destruct (slot_get_rep _ _ _ _ Hxs H2) as (y & -> & Hy).
  inversion Hy; subst. eauto.
Qed.
End chain.

(** The chain itself, evaluated once. *)
Definition CHAIN : list instr := Eval vm_compute in
  match build_chain with Ret p => p | Raise _ => [] end.

Lemma build_chain_CHAIN : build_chain = Ret CHAIN.
Proof. vm_compute. reflexivity. Qed.

Lemma CHAIN_exponent : run_chain zadd 1 CHAIN = Ret (Some E).
Proof. vm_compute. reflexivity. Qed.

(** ** The inversion *)

(** [v] is the Montgomery form of [x^e]. *)
Definition mont_rep (x e v : Z) : Prop := 0 <= e /\ v = (x ^ e * R) mod N.

Lemma prod_room a b : 0 <= a < N -> 0 <= b < N -> a * b < R * N.
Proof.
  intros Ha Hb. pose proof N_range. change R with (2 ^ 256).
  apply Z.le_lt_trans with (a * N); [apply Z.mul_le_mono_nonneg_l; lia|].
  apply Z.mul_lt_mono_pos_r; lia.
Qed.

Lemma mont_mul_rep x e f u v : mont_rep x e u -> mont_rep x f v ->
  exists w, mont_mul u v = Ret w /\ mont_rep x (e + f) w.
Proof.
  intros [He ->] [Hf ->]. pose proof N_range. destruct RINV_spec as [_ HR].
  pose proof (Z.mod_pos_bound (x ^ e * R) N ltac:(lia)) as B1.
  pose proof (Z.mod_pos_bound (x ^ f * R) N ltac:(lia)) as B2.
  eexists. split; [apply mont_mul_ok; [lia|lia|apply prod_room; first [assumption|lia]]|].
  split; [lia|]. rewrite Z.pow_add_r by lia.
  rewrite <- Z.mul_assoc, Zmult_mod_idemp_l.
  replace (x ^ e * R * ((x ^ f * R) mod N * RINV)) with ((x ^ f * R) mod N * (x ^ e * R * RINV)) by ring.
  rewrite Zmult_mod_idemp_l.
  replace (x ^ f * R * (x ^ e * R * RINV)) with (x ^ e * x ^ f * R * (R * RINV)) by ring.
  rewrite <- Zmult_mod_idemp_r, HR. by rewrite Z.mul_1_r.
Qed.

Lemma enter_mont x : 0 <= x < N -> mont_mul x RR = Ret ((x * R) mod N).
Proof.
  intros Hx. pose proof N_range. destruct RINV_spec as [_ HR].
  assert (0 <= RR < N) as HRR by (apply Z.mod_pos_bound; lia).
  rewrite mont_mul_ok; [|lia|lia|apply prod_room; first [assumption|lia]].
  f_equal. unfold RR. replace (x * ((R * R) mod N) * RINV) with ((R * R) mod N * (x * RINV)) by ring.
  rewrite Zmult_mod_idemp_l. replace (R * R * (x * RINV)) with (x * R * (R * RINV)) by ring.
  rewrite <- Zmult_mod_idemp_r, HR. by rewrite Z.mul_1_r.
Qed.

Lemma leave_mont y : mont_mul ((y * R) mod N) 1 = Ret (y mod N).
Proof.
  pose proof N_range. destruct RINV_spec as [_ HR].
  pose proof (Z.mod_pos_bound (y * R) N ltac:(lia)) as B.
  rewrite mont_mul_ok; [|lia|lia|apply prod_room; first [assumption|lia]].
  f_equal. rewrite Z.mul_1_r, Zmult_mod_idemp_l, <- Z.mul_assoc, <- Zmult_mod_idemp_r, HR.
  by rewrite Z.mul_1_r.
Qed.

#[local] Opaque mont_mul run_chain CHAIN E.

Lemma scalar_inv_exact a : scalar_inv_hw a = Ret ((a mod N) ^ (N - 2) mod N).
Proof.
  pose proof N_range. pose proof (Z.mod_pos_bound a N ltac:(lia)) as Ha. unfold scalar_inv_hw.
  rewrite (enter_mont (a mod N) Ha), bind_Ret, build_chain_CHAIN, bind_Ret.
  destruct (run_chain_rep mont_mul (mont_rep (a mod N)) (mont_mul_rep (a mod N)) CHAIN
    (a mod N * R mod N) E) as (y & Hy & [_ Hrep]).
  - split; [lia|]. by rewrite Z.pow_1_r.
  - apply CHAIN_exponent.
  - rewrite Hy, bind_Ret, Hrep. apply leave_mont.
Qed.

Lemma check_inv_ok a : check_inv a = Ret ().
Proof.
  unfold check_inv. pose proof N_range. rewrite scalar_inv_exact, bind_Ret.
  rewrite py_pow_mod_spec by lia. by rewrite Z.eqb_refl.
Qed.

Lemma prove_product_ok a b : 0 <= a < N -> 0 <= b < N ->
  exists au, prove_product (a, b) = Ret au /\ 0 <= au_ext au <= 1.
Proof.
  intros Ha Hb. pose proof N_range. unfold prove_product.
  assert (V (words a) = a /\ V (words b) = b) as [Ea Eb]
    by (rewrite !V_words; split; apply Z.mod_small; lia).
  destruct (mont_mul_exact (words a) (words b)) as (out & au & Heq & _ & _ & Hv & Hau);
    [apply words_length|apply words_length|apply words_word|apply words_word| |].
  { rewrite Ea, Eb. by apply prod_room. }
  exists au. rewrite Heq, bind_Ret. cbn iota beta. rewrite value_V, Hv, Ea, Eb.
  rewrite (proj1 RINV_spec), bind_Ret, Z.eqb_refl, py_assert_true, bind_Ret by reflexivity. done.
Qed.

(** ** Properties *)

(** C5: the Montgomery multiplication is exact wherever the product is below
    [R * n] (in particular for operands below [n]): none of the assertions
    that stand for instructions the assembly omits fires (row carries, the
    zeroed limb, [c2 <= 1], [ext <= 1], output below [2 n], one conditional
    subtraction), and the output is the canonical residue with
    [out * R = a * b] modulo [n]. *)
Theorem mont_mul_hw_correct aw bw :
  length aw = 4%nat -> length bw = 4%nat -> Forall word aw -> Forall word bw ->
  value aw * value bw < R * N ->
  exists out au, mont_mul_hw aw bw = Ret (out, au) /\
    length out = 4%nat /\ Forall word out /\ value out < N /\
    (value out * R) mod N = (value aw * value bw) mod N /\ au_ext au <= 1.
Proof.
  rewrite !value_V. intros Ha Hb Hwa Hwb Hab. pose proof N_range. destruct RINV_spec as [_ HR].
  destruct (mont_mul_exact aw bw Ha Hb Hwa Hwb Hab) as (out & au & Heq & Hl & Hw & Hv & Hau).
  exists out, au. rewrite value_V, Hv. split; [exact Heq|]. split; [exact Hl|]. split; [exact Hw|].
  split; [apply Z.mod_pos_bound; lia|]. split; [|lia].
  rewrite Zmult_mod_idemp_l, <- Z.mul_assoc, (Z.mul_comm RINV), <- Zmult_mod_idemp_r, HR.
  by rewrite Z.mul_1_r.
Qed.

Lemma mont_mul_hw_correct_witness :
  exists out au, mont_mul_hw (words (N - 1)) (words (N - 1)) = Ret (out, au) /\
    length out = 4%nat /\ Forall word out /\ value out < N /\
    (value out * R) mod N = (value (words (N - 1)) * value (words (N - 1))) mod N /\ au_ext au <= 1.
Proof.
  apply mont_mul_hw_correct;
    [reflexivity|reflexivity|apply words_word|apply words_word|vm_compute; reflexivity].
Defined.

(** The addition chain computes [n - 2] over any multiplication: when
    [mul] never raises on represented operands and adds the exponents they
    represent, interpreting the program [build_chain] emits never raises and
    ends with the representation of [n - 2] in the accumulator slot. *)
Theorem chain_computes_exponent {X} (mul : X -> X -> result X) (rep : Z -> X -> Prop) x :
  (forall e f x y, rep e x -> rep f y -> exists z, mul x y = Ret z /\ rep (e + f) z) ->
  rep 1 x ->
  exists prog y, build_chain = Ret prog /\ run_chain mul x prog = Ret (Some y) /\ rep (N - 2) y.
Proof.
  intros Hmul Hx. destruct (run_chain_rep mul rep Hmul CHAIN x E Hx CHAIN_exponent) as (y & Hy & Hr).
  exists CHAIN, y. split; [exact build_chain_CHAIN|]. split; [exact Hy|exact Hr].
Qed.

Lemma chain_computes_exponent_witness :
  exists prog y, build_chain = Ret prog /\
    run_chain (fun a b => Ret (a + b)) 3 prog = Ret (Some y) /\ y = 3 * (N - 2).
Proof.
  apply (chain_computes_exponent (fun a b => Ret (a + b)) (fun e v => v = 3 * e)).
  - intros e f x y -> ->. exists (3 * e + 3 * f). split; [reflexivity|ring].
  - reflexivity.
Defined.

(** Fermat's exponent inverts modulo the group order. *)
Lemma fermat_inverse a : let x := (a mod N) ^ (N - 2) mod N in
  if decide (a mod N = 0) then x = 0 else (x * a) mod N = 1.
Proof.
  assert (prime N) as Hp by exact prime_n256. assert (2 < N) as HN by (pose proof N_range; lia). cbn zeta.
  destruct (decide (a mod N = 0)) as [->|Ha].
  - rewrite Z.pow_0_l by lia. apply Z.mod_0_l. lia.
  - rewrite Zmult_mod_idemp_l, <- Zmult_mod_idemp_r, Z.mul_comm, <- Z.pow_succ_r by lia.
    replace (Z.succ (N - 2)) with (N - 1) by lia. apply fermat_little; [exact Hp|].
    intros Hd%Z.mod_divide; [|lia]. rewrite Z.mod_mod in Hd by lia. done.
Qed.

(** C6: the hardware-faithful inversion is modular inversion: for every
    integer [a] (including 0, [n] and values above [n]) it returns the Fermat
    power [(a mod n)^(n-2) mod n] with no assertion firing on the way, and
    that is the inverse of [a] modulo [n], or 0 when [n] divides [a]. *)
Theorem scalar_inv_hw_correct a : exists x, scalar_inv_hw a = Ret x /\
  x = (a mod N) ^ (N - 2) mod N /\ 0 <= x < N /\
  if decide (a mod N = 0) then x = 0 else (x * a) mod N = 1.
Proof.
  eexists. split; [exact (scalar_inv_exact a)|]. split; [reflexivity|].
  split; [apply Z.mod_pos_bound; pose proof N_range; lia|exact (fermat_inverse a)].
Qed.

(** the script's own checks cannot fail: [check] succeeds on every list
    of values; the replays of [prove] on the chain succeed; and its product
    replay succeeds on every list of reduced operand pairs, with the fifth
    result word never above 1. *)
Theorem inv_checks_never_fail vals cases :
  Forall (fun ab => 0 <= ab.1 < N /\ 0 <= ab.2 < N) cases ->
  check vals = Ret () /\
  (prog ← build_chain; prove_chain prog) = Ret () /\
  exists nsub maxext, prove_products cases = Ret (nsub, maxext) /\ (nsub <= length cases)%nat /\ maxext <= 1.
Proof.
  intros Hc. split; [|split].
  - unfold check. induction vals as [|a vals IH]; [reflexivity|]. cbn [for_result].
    rewrite check_inv_ok, bind_Ret. exact IH.
  - rewrite build_chain_CHAIN, bind_Ret. vm_compute. reflexivity.
  - unfold prove_products.
    destruct (for_result_ind (fun pre (s : nat * Z) => (s.1 <= length pre)%nat /\ s.2 <= 1)
      (fun '(nsub, maxext) ab => au ← prove_product ab;
        Ret ((if au_subtracted au then S nsub else nsub), Z.max maxext (au_ext au))) cases (0%nat, 0))
      as ([nsub maxext] & Heq & Hn & Hm); [cbn [fst snd length]; lia| |eauto].
    intros pre [a b] post [n0 m0] Hr [Hn Hm]. rewrite Hr in Hc. apply Forall_app in Hc as [_ Hc].
    apply Forall_cons_iff in Hc as [[Ha Hb] _]. cbn [fst snd] in *.
    destruct (prove_product_ok a b Ha Hb) as (au & -> & Hau). rewrite bind_Ret.
    eexists. split; [reflexivity|]. rewrite length_app. cbn [fst snd length].
    destruct (au_subtracted au); lia.
Qed.

Lemma inv_checks_never_fail_witness :
  check [0; N] = Ret () /\
  (prog ← build_chain; prove_chain prog) = Ret () /\
  exists nsub maxext, prove_products [(N - 1, N - 2); (0, 1)] = Ret (nsub, maxext) /\
    (nsub <= 2)%nat /\ maxext <= 1.
Proof. apply inv_checks_never_fail. repeat constructor; vm_compute; congruence. Defined.
