(* ===== verification/PyStr.v ===== *)
(** * Python strings

    The [str] methods the scripts use, on [String.string].  Strings are
    sequences of 8-bit characters and character classes are the ASCII ones:
    on ASCII text they agree with Python's, and the scripts' delimiters
    (commas, brackets, slashes, newlines) are all ASCII. *)

From Stdlib Require Import Ascii.
From S2P Require Import Prelude.
From stdpp Require Import pretty.

#[global] Open Scope string_scope.
#[global] Open Scope list_scope.
#[global] Open Scope Z_scope.

Notation "x =s? y" := (String.eqb x y) (at level 70).

Definition NL : ascii := "010".
Definition TAB : ascii := "009".
Definition nl : string := String NL "".
Definition QUOTE : ascii := "034".
Definition code (c : ascii) : N := N_of_ascii c.

(** [c in lo..hi] on character codes *)
Definition in_range (lo hi : N) (c : ascii) : bool := (lo <=? code c)%N && (code c <=? hi)%N.

(** [str.isspace], [\s], [\d], [\w] on one ASCII character *)
Definition is_space (c : ascii) : bool := in_range 9 13 c || in_range 28 32 c.
Definition is_digit (c : ascii) : bool := in_range 48 57 c.
Definition is_upper (c : ascii) : bool := in_range 65 90 c.
Definition is_lower (c : ascii) : bool := in_range 97 122 c.
Definition is_alpha (c : ascii) : bool := is_upper c || is_lower c.
Definition is_word (c : ascii) : bool := is_alpha c || is_digit c || (code c =? 95)%N.

Definition lower_char (c : ascii) : ascii := if is_upper c then ascii_of_N (code c + 32) else c.
Definition upper_char (c : ascii) : ascii := if is_lower c then ascii_of_N (code c - 32) else c.

Fixpoint smap (f : ascii -> ascii) (s : string) : string :=
  match s with "" => "" | String c s => String (f c) (smap f s) end.
Definition lower : string -> string := smap lower_char.
Definition upper : string -> string := smap upper_char.

Fixpoint sforall (f : ascii -> bool) (s : string) : bool :=
  match s with "" => true | String c s => f c && sforall f s end.
(** No newline: the text of one line. *)
Definition no_nl (s : string) : bool := sforall (fun c => negb (Ascii.eqb c NL)) s.
Definition isdigit (s : string) : bool := negb (s =s? "") && sforall is_digit s.

(** [s.lstrip(chars)], [rstrip], [strip]; the character set is a predicate. *)
Fixpoint lstrip_by (f : ascii -> bool) (s : string) : string :=
  match s with String c s' => if f c then lstrip_by f s' else s | "" => "" end.
Fixpoint rstrip_by (f : ascii -> bool) (s : string) : string :=
  match s with
  | "" => ""
  | String c s' =>
      match rstrip_by f s' with
      | "" => if f c then "" else String c ""
      | t => String c t
      end
  end.
Definition strip_by (f : ascii -> bool) (s : string) : string := rstrip_by f (lstrip_by f s).
Definition lstrip := lstrip_by is_space.
Definition rstrip := rstrip_by is_space.
Definition strip := strip_by is_space.

Fixpoint mem_char (c : ascii) (s : string) : bool :=
  match s with "" => false | String d s => Ascii.eqb c d || mem_char c s end.
Definition strip_chars (cs : string) : string -> string := strip_by (fun c => mem_char c cs).
Definition rstrip_chars (cs : string) : string -> string := rstrip_by (fun c => mem_char c cs).
Definition lstrip_chars (cs : string) : string -> string := lstrip_by (fun c => mem_char c cs).

(** [s.startswith(p)], [s.endswith(p)], [p in s] *)
Definition startswith (p s : string) : bool := String.prefix p s.
Fixpoint contains (p s : string) : bool :=
  startswith p s || match s with "" => false | String _ s => contains p s end.
Fixpoint endswith (p s : string) : bool :=
  (p =s? s) || match s with "" => false | String _ s => endswith p s end.

(** [s.find(p)], as an option instead of [-1] *)
Fixpoint find (p s : string) : option nat :=
  if startswith p s then Some O
  else match s with "" => None | String _ s => S <$> find p s end.

(** [s[n:]] and [s[:n]] *)
Fixpoint drop_str (n : nat) (s : string) : string :=
  match n, s with O, s => s | S n, String _ s => drop_str n s | _, "" => "" end.
Fixpoint take_str (n : nat) (s : string) : string :=
  match n, s with S n, String c s => String c (take_str n s) | _, _ => "" end.
Definition slice (i j : nat) (s : string) : string := take_str (j - i) (drop_str i s).

(** [s.split(c)] and [s.split(p)] for a non-empty separator; the scan carries
    the current field. *)
Fixpoint split_char (d : ascii) (s : string) : list string :=
  match s with
  | "" => [""]
  | String c s =>
      if Ascii.eqb c d then "" :: split_char d s
      else match split_char d s with
           | [] => [String c ""]
           | f :: fs => String c f :: fs
           end
  end.

(** [s.partition(p)]: [(before, Some after)], or [(s, None)] when absent. *)
Definition partition (p s : string) : string * option string :=
  match find p s with
  | Some i => (take_str i s, Some (drop_str (i + String.length p) s))
  | None => (s, None)
  end.
(** [s.partition(p)[0]], and [s.split(p, 1)[0]] *)
Definition before (p s : string) : string := (partition p s).1.
(** [s.partition(p)[2]] *)
Definition after (p s : string) : string := default "" (partition p s).2.

Fixpoint split_str_fuel (fuel : nat) (p s : string) : list string :=
  match fuel with
  | O => [s]
  | S fuel => match partition p s with
              | (a, Some b) => a :: split_str_fuel fuel p b
              | (a, None) => [a]
              end
  end.
Definition split_str (p s : string) : list string := split_str_fuel (S (String.length s)) p s.

(** [s.split()]: maximal runs of non-space characters. *)
Fixpoint words_aux (s : string) (cur : string) : list string :=
  match s with
  | "" => if cur =s? "" then [] else [cur]
  | String c s =>
      if is_space c then (if cur =s? "" then words_aux s "" else cur :: words_aux s "")
      else words_aux s (cur +:+ String c "")
  end.
Definition split_ws (s : string) : list string := words_aux s "".

(** [s.split(None, 1)] *)
Definition first_word (s : string) : string :=
  (fix go s := match s with
               | String c s => if is_space c then "" else String c (go s)
               | "" => "" end) (lstrip s).
Definition split_ws1 (s : string) : list string :=
  let s := lstrip s in
  if s =s? "" then []
  else let w := first_word s in
       let r := lstrip (drop_str (String.length w) s) in
       if r =s? "" then [w] else [w; r].

(** [s.splitlines()]: boundaries are [\n], [\r], [\r\n], [\v], [\f] and the
    ASCII separators [\x1c]..[\x1e]; a final boundary adds no empty line. *)
Definition is_line_break (c : ascii) : bool := in_range 10 13 c || in_range 28 30 c.
Fixpoint splitlines_aux (s : string) (cur : string) : list string :=
  match s with
  | "" => if cur =s? "" then [] else [cur]
  | String c s' =>
      if is_line_break c then
        cur :: match s' with
               | String d s'' =>
                   if (code c =? 13)%N && (code d =? 10)%N then splitlines_aux s'' ""
                   else splitlines_aux s' ""
               | "" => []
               end
      else splitlines_aux s' (cur +:+ String c "")
  end.
Definition splitlines (s : string) : list string := splitlines_aux s "".

(** [sep.join(l)] *)
Definition join (sep : string) (l : list string) : string := String.concat sep l.

(** [s.replace(p, q)] for a non-empty [p] *)
Definition replace (p q s : string) : string := join q (split_str p s).

(** [s.count(c)] for a single character *)
Fixpoint count_char (d : ascii) (s : string) : nat :=
  match s with "" => O | String c s => (if Ascii.eqb c d then 1 else 0) + count_char d s end%nat.

(** [int(s)] on a string of decimal digits, and [str(n)]. *)
Definition digit_val (c : ascii) : Z := Z.of_N (code c) - 48.
Fixpoint digits_aux (s : string) (acc : Z) : Z :=
  match s with "" => acc | String c s => digits_aux s (10 * acc + digit_val c) end.
Definition digits (s : string) : Z := digits_aux s 0.
Definition nat_of_digits (s : string) : nat := Z.to_nat (digits s).
(** [int("[+-]?\d+")] *)
Definition int_of (s : string) : Z :=
  match s with
  | String c s' => if (code c =? 45)%N then - digits s' else if (code c =? 43)%N then digits s' else digits s
  | "" => 0
  end.
Definition str_nat (n : nat) : string := pretty n.
Definition str_z (n : Z) : string := pretty n.

(** [" " * n] *)
Fixpoint spaces (n : nat) : string := match n with O => "" | S n => String " " (spaces n) end.

(** [repr] of a string: single quotes unless only the other kind is free;
    control characters are escaped. *)
Definition hex_digit (n : N) : ascii := if (n <? 10)%N then ascii_of_N (48 + n) else ascii_of_N (87 + n).
Definition repr_char (q c : ascii) : string :=
  if Ascii.eqb c q || Ascii.eqb c "\" then String "\" (String c "") else
  if Ascii.eqb c NL then "\n" else if Ascii.eqb c "013" then "\r" else if Ascii.eqb c TAB then "\t" else
  if (code c <? 32)%N || (code c =? 127)%N
  then String "\" (String "x" (String (hex_digit (code c / 16)) (String (hex_digit (code c mod 16)) "")))
  else String c "".
Fixpoint repr_body (q : ascii) (s : string) : string :=
  match s with "" => "" | String c s => repr_char q c +:+ repr_body q s end.
Definition repr (s : string) : string :=
  let q := if mem_char "'" s && negb (mem_char QUOTE s) then QUOTE else "'"%char in
  String q "" +:+ repr_body q s +:+ String q "".

(** ** Lemmas *)

Lemma string_app_nil_r s : s +:+ "" = s.
Proof. induction s as [|c s IH]; [done|]. change (String c s +:+ "") with (String c (s +:+ "")). by rewrite IH. Qed.

Lemma string_app_assoc (a b c : string) : (a +:+ b) +:+ c = a +:+ b +:+ c.
Proof.
  induction a as [|x a IH]; [done|].
  change (String x ((a +:+ b) +:+ c) = String x (a +:+ b +:+ c)). by rewrite IH.
Qed.

Lemma string_app_cons c s t : String c s +:+ t = String c (s +:+ t).
Proof. done. Qed.

Lemma string_length_app s t : String.length (s +:+ t) = (String.length s + String.length t)%nat.
Proof. induction s as [|c s IH]; [done|]. rewrite string_app_cons. simpl. by rewrite IH. Qed.

Lemma seqb_true (x y : string) : (x =s? y) = true <-> x = y.
Proof. apply String.eqb_eq. Qed.

Lemma seqb_false (x y : string) : (x =s? y) = false <-> x <> y.
Proof. apply String.eqb_neq. Qed.

Lemma seqb_refl (x : string) : (x =s? x) = true.
Proof. apply String.eqb_refl. Qed.

(** Joining the fields of a split gives the string back. *)
Lemma join_split_char d s : join (String d "") (split_char d s) = s.
Proof.
  induction s as [|c s IH]; [done|]. cbn [split_char].
  assert (split_char d s <> []) as Hne.
  { destruct s as [|c' s']; cbn [split_char]; [done|].
    destruct (Ascii.eqb c' d); [done|]. by destruct (split_char d s'). }
  destruct (Ascii.eqb_spec c d) as [->|Hcd].
  - unfold join in *. cbn [String.concat]. destruct (split_char d s) eqn:E; [done|].
    rewrite IH. done.
  - destruct (split_char d s) as [|f fs] eqn:E; [done|]. unfold join in *.
    cbn [String.concat] in *. destruct fs as [|g gs].
    + by rewrite IH.
    + rewrite <- IH. done.
Qed.

Lemma join_cons sep x y l : join sep (x :: y :: l) = x +:+ sep +:+ join sep (y :: l).
Proof. done. Qed.

Lemma startswith_spec p s : startswith p s = true <-> exists t, s = p +:+ t.
Proof.
  revert s. induction p as [|c p IH]; intros s.
  - split; [|by destruct s]. intros _. by exists s.
  - destruct s as [|d s]; [split; [done|]; by intros [t ?]|].
    change (startswith (String c p) (String d s))
      with (if ascii_dec c d then startswith p s else false).
    destruct (ascii_dec c d) as [->|Hne].
    + rewrite IH. split; intros [t Ht]; exists t.
      * by subst.
      * by injection Ht.
    + split; [done|]. intros [t Ht]. by injection Ht.
Qed.

(** A stripped string neither begins nor ends with a stripped character. *)
Lemma lstrip_by_head f s c t : lstrip_by f s = String c t -> f c = false.
Proof.
  induction s as [|d s IH]; [done|]. cbn [lstrip_by]. destruct (f d) eqn:E; [done|]. by intros [= -> ->].
Qed.

Lemma lstrip_by_id f c s : f c = false -> lstrip_by f (String c s) = String c s.
Proof. intros H. cbn [lstrip_by]. by rewrite H. Qed.

Lemma lstrip_by_idem f s : lstrip_by f (lstrip_by f s) = lstrip_by f s.
Proof.
  destruct (lstrip_by f s) as [|c t] eqn:E; [done|]. apply lstrip_by_id. by eapply lstrip_by_head.
Qed.

Lemma rstrip_by_idem f s : rstrip_by f (rstrip_by f s) = rstrip_by f s.
Proof.
  induction s as [|c s IH]; [done|]. cbn [rstrip_by].
  destruct (rstrip_by f s) as [|d t] eqn:E.
  - destruct (f c) eqn:Ec; [done|]. cbn [rstrip_by]. by rewrite Ec.
  - cbn [rstrip_by] in *. by rewrite IH.
Qed.

Lemma rstrip_by_head f c s : f c = false -> exists t, rstrip_by f (String c s) = String c t.
Proof. intros H. cbn [rstrip_by]. rewrite H. destruct (rstrip_by f s); eauto. Qed.

(** [s.strip().strip() == s.strip()] *)
Lemma strip_by_idem f s : strip_by f (strip_by f s) = strip_by f s.
Proof.
  unfold strip_by. destruct (lstrip_by f s) as [|c t] eqn:E; [done|].
  pose proof (lstrip_by_head f s c t E) as Hc.
  destruct (rstrip_by_head f c t Hc) as [u Hu]. rewrite Hu.
  rewrite lstrip_by_id by done. rewrite <- Hu. apply rstrip_by_idem.
Qed.

Lemma strip_idem s : strip (strip s) = strip s.
Proof. apply strip_by_idem. Qed.

(** Tests on every character, prefixes and suffixes. *)
Lemma sforall_ext f g a : (forall c, f c = g c) -> sforall f a = sforall g a.
Proof. intros H. induction a as [|c a IH]; [done|]. cbn [sforall]. by rewrite H, IH. Qed.

Lemma lstrip_spaces a b : sforall is_space a = true -> lstrip (a +:+ b) = lstrip b.
Proof.
  unfold lstrip. induction a as [|c a IH]; [done|]. cbn [sforall]. intros [Hc Ha]%andb_true_iff.
  rewrite string_app_cons. cbn [lstrip_by]. rewrite Hc. by apply IH.
Qed.

Lemma lstrip_split s : exists a, s = a +:+ lstrip s /\ sforall is_space a = true.
Proof.
  unfold lstrip. induction s as [|c s (a & E & Ha)]; [by exists ""|]. cbn [lstrip_by].
  destruct (is_space c) eqn:Hc; [|by exists ""]. exists (String c a). rewrite string_app_cons, <- E. split; [done|].
  cbn [sforall]. by rewrite Hc.
Qed.

Lemma strip_head s c t : lstrip s = String c t -> exists u, strip s = String c u.
Proof.
  intros E. change (exists u, rstrip_by is_space (lstrip s) = String c u). rewrite E.
  apply rstrip_by_head. by apply (lstrip_by_head is_space s c t).
Qed.

Lemma before_cons c s : c <> "/"%char -> before "//" (String c s) = String c (before "//" s).
Proof.
  intros Hc. unfold before, partition. cbn [find]. unfold startswith. cbn [String.prefix].
  destruct (ascii_dec "/" c) as [<-|_]; [done|]. by destruct (find "//" s).
Qed.

Lemma before_app a s : sforall (fun c => negb (Ascii.eqb c "/")) a = true -> before "//" (a +:+ s) = a +:+ before "//" s.
Proof.
  induction a as [|c a IH]; [done|]. cbn [sforall]. intros [Hc Ha]%andb_true_iff. rewrite string_app_cons, before_cons.
  - by rewrite IH.
  - intros ->. done.
Qed.

Lemma take_drop_str n s : take_str n s +:+ drop_str n s = s.
Proof. revert s. induction n as [|n IH]; intros [|c s]; try done. cbn [take_str drop_str]. by rewrite string_app_cons, IH. Qed.

Lemma before_prefix s : exists t, s = before "//" s +:+ t.
Proof.
  unfold before, partition. destruct (find "//" s) as [i|].
  - exists (drop_str i s). symmetry. apply take_drop_str.
  - exists "". symmetry. apply string_app_nil_r.
Qed.

Lemma rstrip_split f s : exists w, s = rstrip_by f s +:+ w.
Proof.
  induction s as [|c s (w & E)]; [by exists ""|]. cbn [rstrip_by]. destruct (rstrip_by f s) as [|d t] eqn:Er.
  - destruct (f c); [by exists (String c s)|]. exists s. done.
  - exists w. rewrite string_app_cons, <- E. done.
Qed.

Lemma rstrip_app f x d y : f d = false -> rstrip_by f (x +:+ String d y) = x +:+ String d (rstrip_by f y).
Proof.
  intros Hd. induction x as [|c x IH].
  - change (rstrip_by f (String d y) = String d (rstrip_by f y)). cbn [rstrip_by]. rewrite Hd. by destruct (rstrip_by f y).
  - rewrite !string_app_cons. cbn [rstrip_by]. rewrite IH. destruct (x +:+ String d (rstrip_by f y)) eqn:E; [|done].
    by destruct x.
Qed.

Lemma sforall_app f a b : sforall f (a +:+ b) = sforall f a && sforall f b.
Proof. induction a as [|c a IH]; [done|]. rewrite string_app_cons. cbn [sforall]. by rewrite IH, andb_assoc. Qed.

Lemma before_all s : sforall (fun c => negb (Ascii.eqb c "/")) s = true -> before "//" s = s.
Proof. intros H. rewrite <- (string_app_nil_r s) at 1. rewrite before_app by done. apply string_app_nil_r. Qed.

Lemma sforall_impl f g s : (forall c, f c = true -> g c = true) -> sforall f s = true -> sforall g s = true.
Proof.
  intros H. induction s as [|c s IH]; [done|]. cbn [sforall]. rewrite !andb_true_iff. intros [Hc Hs]. auto.
Qed.

Lemma rstrip_none f s : sforall (fun c => negb (f c)) s = true -> rstrip_by f s = s.
Proof.
  induction s as [|c s IH]; [done|]. cbn [sforall rstrip_by]. intros [Hc%negb_true_iff Hs]%andb_true_iff.
  rewrite (IH Hs), Hc. by destruct s.
Qed.

(** A field that [strip] leaves as it is. *)
Lemma strip_none s : sforall (fun c => negb (is_space c)) s = true -> strip s = s.
Proof.
  intros H. unfold strip, strip_by. assert (lstrip_by is_space s = s) as ->.
  { destruct s as [|c s]; [done|]. cbn [sforall] in H. apply andb_true_iff in H as [Hc%negb_true_iff _].
    cbn [lstrip_by]. by rewrite Hc. }
  by apply rstrip_none.
Qed.

Lemma endswith_char d s : sforall (fun c => negb (Ascii.eqb c d)) s = true -> endswith (String d "") s = false.
Proof.
  induction s as [|c s IH]; [done|]. cbn [sforall]. intros [Hc Hs]%andb_true_iff. cbn [endswith].
  rewrite (IH Hs), orb_false_r. apply seqb_false. intros [= <- _]. by rewrite Ascii.eqb_refl in Hc.
Qed.

Lemma split_one d s : sforall (fun c => negb (Ascii.eqb c d)) s = true -> split_char d s = [s].
Proof.
  induction s as [|c s IH]; [done|]. cbn [sforall split_char]. intros [Hc%negb_true_iff Hs]%andb_true_iff.
  by rewrite Hc, (IH Hs).
Qed.

Lemma split_line d l t : sforall (fun c => negb (Ascii.eqb c d)) l = true ->
  split_char d (l +:+ String d t) = l :: split_char d t.
Proof.
  induction l as [|c l IH].
  - intros _. change (split_char d (String d t) = "" :: split_char d t). cbn [split_char]. by rewrite Ascii.eqb_refl.
  - cbn [sforall]. intros [Hc%negb_true_iff Hl]%andb_true_iff. rewrite string_app_cons. cbn [split_char].
    by rewrite Hc, (IH Hl).
Qed.

(** The lines of a text printed with ["\n".join(lines) + "\n"]. *)
Lemma split_join lines : lines <> [] -> forallb no_nl lines = true ->
  split_char NL (join nl lines +:+ nl) = lines ++ [""].
Proof.
  intros Hne H. induction lines as [|l lines IH]; [done|]. cbn [forallb] in H. apply andb_true_iff in H as [Hl H].
  destruct lines as [|l2 lines].
  - change (split_char NL (l +:+ String NL "") = [l; ""]). by rewrite split_line.
  - rewrite join_cons, !string_app_assoc. change (nl +:+ join nl (l2 :: lines) +:+ nl)
      with (String NL (join nl (l2 :: lines) +:+ nl)). rewrite split_line by done. by rewrite IH.
Qed.
