(* ===== verification/Emitted.v ===== *)
(** * Emitted assembly data

    The two data files of the server that the derivations print, the comb
    table ([gen_table] of scripts/p256_comb_derivation.py) and the inversion
    program ([gen_chain] of scripts/p256_scalar_inv_derivation.py), as text;
    a reference assembler for the data directives they consist of; and the
    loop of src/crypto/p256_scalar/inv.S that interprets the program.  What is
    printed assembles to the data the derivations are about: the composition
    of printer, assembler and interpreter inverts. *)

From Stdlib Require Import Ascii.
From S2P Require Import Prelude PyInt Words Reduce PrimeField Comb ScalarInv PyStr.

(** ** Number formats *)

(** [f"{v:x}"] on [k] digits, the digits of [v mod 16^k]. *)
Fixpoint hex_low (k : nat) (v : Z) : string :=
  match k with
  | O => ""
  | S k => hex_low k (v / 16) ++ String (hex_digit (Z.to_N (v mod 16))) ""
  end.

(** The number of digits [f"{v:x}"] has, for [v >= 0]. *)
Definition hex_len (v : Z) : nat := if v =? 0 then 1%nat else Z.to_nat (Z.log2 v / 4 + 1).

(** [f"{v:0wx}"], [v >= 0]: zero-padded, never truncated. *)
Definition hex_pad (w : nat) (v : Z) : string := hex_low (Nat.max w (hex_len v)) v.

(** ["%4d" % v] *)
Definition pad4 (v : nat) : string :=
  let s := str_nat v in spaces (4 - String.length s) ++ s.

(** A C or assembler string literal. *)
Definition quoted (s : string) : string := String QUOTE s ++ String QUOTE "".

(** ** The comb table *)

Definition quad_line (v : Z) : string := "    .quad 0x" ++ hex_pad 16 v.

Definition table_header : list string :=
  ["// P-256 fixed-base comb table -- GENERATED, do not edit by hand.";
   "//";
   "// Regenerate with:";
   "//   python3 scripts/p256_comb_derivation.py gen-table \";
   "//       > src/crypto/p256_point/comb_table.S";
   "//";
   "// " ++ str_nat BLOCKS ++ " blocks x " ++ str_nat ENTRIES
     ++ " entries. Entry [i][j-1] is the affine point";
   "// (j * 2^(" ++ str_z W ++ "*i)) * G, stored as x[4] then y[4], 4x64-bit little-endian";
   "// limbs each -- the same field-element layout p256_fe_frombytes";
   "// produces and p256_point_add_affine consumes.";
   "//";
   "// Stride: " ++ str_nat (ENTRIES * 64) ++ " bytes per block, "
     ++ str_nat (ENTRIES * 64 * BLOCKS) ++ " bytes total.";
   "// Every entry was re-derived from the oracle (scripts/";
   "// p256_comb_derivation.py, `check`) before emission.";
   "";
   "#include " ++ quoted "../../defs.S";
   "";
   ".data";
   ".align 4";
   ".global p256_comb_table";
   "p256_comb_table:"]%string.

Definition block_comment (i : nat) : string :=
  ("    // block " ++ str_nat i ++ ": multiples of 2^" ++ str_z (W * Z.of_nat i) ++ " * G")%string.
Definition entry_comment (i j : nat) : string := ("    // [" ++ str_nat i ++ "][" ++ str_nat j ++ "]")%string.

(** The nested loops of [gen_table]; unpacking a missing point is a type
    error. *)
Definition entry_lines (table : list (list point)) (i j : nat) : result (list string) :=
  e ← entry table i j;
  match e with
  | None => Raise TypeError
  | Some (x, y) =>
      Ret (entry_comment i j :: (quad_line <$> limbs x) ++ (quad_line <$> limbs y))
  end.

Definition block_lines (table : list (list point)) (out : list string) (i : nat)
  : result (list string) :=
  for_result (seq 1 ENTRIES) (out ++ [block_comment i]) (fun out j => lines ← entry_lines table i j; Ret (out ++ lines)).

(** The part of [gen_table] after the table is verified. *)
Definition table_text (table : list (list point)) : result string :=
  out ← for_result (seq 0 BLOCKS) table_header (block_lines table);
  Ret (join nl out ++ nl)%string.

Definition gen_table : result string :=
  table ← build_table;
  _ ← verify_table table;
  table_text table.

(** ** The inversion program *)

Definition GEN_CMD : string := "python3 scripts/p256_scalar_inv_derivation.py".

Definition quads (v : Z) : string := join nl (quad_line <$> words v).

(** [names]: the slots by name; a slot without one is a key error. *)
Definition slot_name (s : nat) : result string :=
  let names := dict_set ((fun '(k, v) => (v, ("ones" ++ str_nat k)%string)) <$> SLOT) ACC "acc"%string in
  match dict_get names s with Some n => Ret n | None => Raise KeyError end.

Definition chain_line (i : instr) : result string :=
  let '(dst, src, nsq, m) := i in
  let mtxt := if (m =? NO_MUL)%nat then "0xFF"%string else pad4 m in
  d ← slot_name dst;
  s ← slot_name src;
  let desc := (d ++ " = " ++ s ++ "^(2^" ++ str_nat nsq ++ ")")%string in
  desc ← (if (m =? NO_MUL)%nat then Ret desc
          else n ← slot_name m; Ret (desc ++ " * " ++ n)%string);
  Ret ("    .byte " ++ pad4 dst ++ ", " ++ pad4 src ++ ", " ++ pad4 nsq ++ ", " ++ mtxt
       ++ "   // " ++ desc)%string.

Definition chain_header (prog : list instr) : list string :=
  let '(sq, ml) := chain_cost prog in
  ["// P-256 scalar-inversion constants and addition chain";
   "//";
   "// GENERATED FILE -- do not edit by hand. Regenerate with:";
   "//   " ++ GEN_CMD ++ " gen-chain > src/crypto/p256_scalar/inv_chain.S";
   "//";
   "// p256_scalar_inv_chain is the program p256_scalar_inv";
   "// (src/crypto/p256_scalar/inv.S) interprets. Four bytes per";
   "// instruction -- dst slot, src slot, squaring count, multiply";
   "// slot (0xFF for none) -- meaning:";
   "//";
   "//     t = slot[src]; t = t^(2^nsq); if mul != 0xFF: t *= slot[mul]";
   "//     slot[dst] = t";
   "//";
   "// with every multiply a Montgomery multiply, so the whole run";
   "// stays in Montgomery form. nsq is always >= 1, which is why";
   "// there is no slot-copy opcode: the first squaring reads src";
   "// and writes dst. A dst of 0xFF terminates the program.";
   "//";
   "// Slots 0..8 hold x^(2^k - 1) for k = 1,2,3,4,5,6,8,16,32 and";
   "// slot 9 is the accumulator. " ++ str_nat (length prog) ++ " instructions, "
     ++ str_nat sq ++ " squarings +";
   "// " ++ str_nat ml ++ " multiplies = " ++ str_nat (sq + ml)
     ++ " Montgomery multiplications, against the";
   "// " ++ str_nat (256 + length (filter (fun b => b = true) (py_bin E)))
     ++ " of square-and-multiply over the bits of n-2.";
   "";
   "#include " ++ quoted "../../defs.S";
   "";
   ".data";
   ".align 4";
   "";
   "// R^2 mod n, R = 2^256 -- multiplying by this in Montgomery";
   "// form is what converts a plain scalar into Montgomery form.";
   ".global p256_scalar_rr_n";
   "p256_scalar_rr_n:";
   quads RR;
   "";
   "// -n^-1 mod 2^64, the Montgomery reduction multiplier.";
   ".global p256_scalar_n0inv";
   "p256_scalar_n0inv:";
   quad_line N0INV;
   "";
   ".align 4";
   ".global p256_scalar_inv_chain";
   "p256_scalar_inv_chain:"]%string.

Definition gen_chain : result string :=
  prog ← build_chain;
  out ← for_result prog (chain_header prog) (fun out i => l ← chain_line i; Ret (out ++ [l]));
  Ret (join nl (out ++ ["    .byte 0xFF, 0xFF, 0xFF, 0xFF   // end of program"%string; ""%string])).

(** ** A reference assembler for data directives *)

Definition hex_val (c : ascii) : option Z :=
  if is_digit c then Some (Z.of_N (code c) - 48)
  else if in_range 97 102 c then Some (Z.of_N (code c) - 87)
  else if in_range 65 70 c then Some (Z.of_N (code c) - 55)
  else None.

Fixpoint hex_read (s : string) (acc : Z) : option Z :=
  match s with
  | "" => Some acc
  | String c s => d ← hex_val c; hex_read s (16 * acc + d)
  end.

(** An integer operand, [0x..] or decimal. *)
Definition operand (s : string) : option Z :=
  let s := strip s in
  if startswith "0x" s && negb (drop_str 2 s =s? "") then hex_read (drop_str 2 s) 0
  else if isdigit s then Some (digits s) else None.

(** The section: its bytes, last first, and the labels with their offsets. *)
Record section : Type := { rbytes : list Z; labels : list (string * nat) }.

Definition put (bytes : list Z) (s : section) : section :=
  {| rbytes := rev_append bytes (rbytes s); labels := labels s |}.

(** Integers of [n] bytes, little-endian. *)
Definition put_data (n : nat) (args : string) (s : section) : option section :=
  vs ← mapM operand (split_char "," args);
  if forallb (fun v => v <? 256 ^ Z.of_nat n) vs
  then Some (put (concat (to_bytes_le n <$> vs)) s) else None.

(** [.align n]: zeros up to a multiple of [2^n]. *)
Definition align (n : nat) (s : section) : section :=
  let m := (2 ^ n)%nat in
  put (replicate ((m - length (rbytes s) mod m) mod m) 0) s.

Definition assemble_line (s : section) (line : string) : option section :=
  let text := strip (before "//" line) in
  if (text =s? "") || startswith "#" text then Some s
  else if endswith ":" text then
    Some {| rbytes := rbytes s;
            labels := labels s ++ [(take_str (String.length text - 1) text, length (rbytes s))] |}
  else
    let '(d, args) := partition " " text in
    match d, args with
    | ".data", None | ".global", Some _ => Some s
    | ".align", Some a => n ← operand a; Some (align (Z.to_nat n) s)
    | ".quad", Some a => put_data 8 a s
    | ".byte", Some a => put_data 1 a s
    | _, _ => None
    end.

Fixpoint assemble_lines (s : section) (lines : list string) : option section :=
  match lines with
  | [] => Some s
  | line :: lines => s ← assemble_line s line; assemble_lines s lines
  end.

(** The bytes of a text's section and its labels. *)
Definition assemble (text : string) : option (list Z * list (string * nat)) :=
  s ← assemble_lines {| rbytes := []; labels := [] |} (split_char NL text);
  Some (rev (rbytes s), labels s).

(** A load of a 64-bit word, and of four limbs. *)
Definition quad_at (img : list Z) (off : nat) : Z := from_bytes_le (take 8 (drop off img)).
Definition limbs_at (img : list Z) (off : nat) : Z :=
  value ((fun k => quad_at img (off + 8 * k)) <$> seq 0 4).

(** The point the comb loop loads for block [i], digit [j]. *)
Definition point_at (img : list Z) (i j : nat) : point :=
  let off := (i * (ENTRIES * 64) + (j - 1) * 64)%nat in
  Some (limbs_at img off, limbs_at img (off + 32)).

Definition decode_table (img : list Z) : list (list point) :=
  (fun i => point_at img i <$> seq 1 ENTRIES) <$> seq 0 BLOCKS.

(** ** The interpreter of inv.S

    [p256_scalar_inv] over an assembled image: slots are overwritten in place,
    the first squaring reads the source and writes the destination, the others
    count down to zero from the (64-bit) count less one, and a destination of
    [0xFF] ends the program.  [mont_mul] stands for [p256_scalar_mont_mul] and
    [mod N] for [p256_scalar_reduce].  A slot the program has not written is
    [None]. *)
Definition symbol_at (syms : list (string * nat)) (name : string) : result nat :=
  match dict_get syms name with Some off => Ret off | None => Raise KeyError end.

(** [ldrb] *)
Definition byte_at (img : list Z) (off : nat) : result nat :=
  match img !! off with Some b => Ret (Z.to_nat b) | None => Raise IndexError end.

Section interpreter.
Context {X : Type} (mul : X -> X -> result X).

(** [bl p256_scalar_mont_mul] on slots *)
Definition mul_slots (slots : list (option X)) (dst a b : nat) : result (list (option X)) :=
  t ← slot_get slots a;
  u ← slot_get slots b;
  v ← omul mul t u;
  slot_set slots dst v.

(** The body of [.Lsi_step] after the loads. *)
Definition si_step (slots : list (option X)) (i : instr) : result (list (option X)) :=
  let '(dst, src, nsq, m) := i in
  slots ← mul_slots slots dst src src;
  slots ← for_result (range 0 (Z.to_nat ((Z.of_nat nsq - 1) mod 2 ^ 64))) slots
            (fun slots _ => mul_slots slots dst dst dst);
  if (m =? 255)%nat then Ret slots else mul_slots slots dst dst m.

(** [.Lsi_step] to [.Lsi_done]; the fuel bounds the instructions. *)
Fixpoint si_loop (fuel : nat) (img : list Z) (pc : nat) (slots : list (option X))
  : result (list (option X)) :=
  match fuel with
  | O => Raise OutOfFuel
  | S fuel =>
      dst ← byte_at img pc;
      if (dst =? 255)%nat then Ret slots else
      src ← byte_at img (pc + 1);
      nsq ← byte_at img (pc + 2);
      m ← byte_at img (pc + 3);
      slots ← si_step slots (dst, src, nsq, m);
      si_loop fuel img (pc + 4) slots
  end.
End interpreter.

Definition p256_scalar_inv (img : list Z) (syms : list (string * nat)) (a : Z) : result Z :=
  rr ← symbol_at syms "p256_scalar_rr_n";
  chain ← symbol_at syms "p256_scalar_inv_chain";
  xm ← mont_mul (a mod ScalarInv.N) (limbs_at img rr);
  slots ← slot_set (replicate NSLOTS None) 0 (Some xm);
  slots ← si_loop mont_mul (length img) img chain slots;
  acc ← slot_get slots ACC;
  match acc with Some acc => mont_mul acc 1 | None => Raise TypeError end.

(** ** Lemmas: numbers *)

Lemma hex_digit_facts : forallb (fun n => let c := hex_digit n in
  bool_decide (hex_val c = Some (Z.of_N n)) && negb (is_space c) && negb (Ascii.eqb c "/")
  && negb (Ascii.eqb c ",") && negb (Ascii.eqb c ":") && negb (Ascii.eqb c NL))
  (N.of_nat <$> seq 0 16) = true.
Proof. vm_compute. reflexivity. Qed.

(** The characters a printed number has none of. *)
Definition word_char (c : ascii) : bool :=
  negb (is_space c) && negb (Ascii.eqb c "/") && negb (Ascii.eqb c ",")
  && negb (Ascii.eqb c ":") && negb (Ascii.eqb c NL).

Lemma hex_digit_ok d : 0 <= d < 16 ->
  hex_val (hex_digit (Z.to_N d)) = Some d /\ word_char (hex_digit (Z.to_N d)) = true.
Proof.
  intros Hd. pose proof hex_digit_facts as H. rewrite forallb_forall in H.
  specialize (H (Z.to_N d)). cbv beta zeta in H. rewrite !andb_true_iff, bool_decide_eq_true in H.
  destruct H as (((((H1 & H2) & H3) & H4) & H5) & H6).
  - apply list_elem_of_In, list_elem_of_fmap. exists (Z.to_nat d). rewrite elem_of_seq. lia.
  - split; [by rewrite H1, Z2N.id by lia|]. unfold word_char. by rewrite H2, H3, H4, H5, H6.
Qed.

Lemma hex_read_app s t acc v : hex_read s acc = Some v -> hex_read (s +:+ t) acc = hex_read t v.
Proof.
  revert acc. induction s as [|c s IH]; intros acc; [by intros [= ->]|]. rewrite string_app_cons. cbn [hex_read].
  destruct (hex_val c); [|done]. apply IH.
Qed.

Lemma hex_low_read k v acc : hex_read (hex_low k v) acc = Some (acc * 16 ^ Z.of_nat k + v mod 16 ^ Z.of_nat k).
Proof.
  revert v. induction k as [|k IH]; intros v; cbn [hex_low].
  - change (Some acc = Some (acc * 1 + v mod 1)). by rewrite Z.mod_1_r, Z.add_0_r, Z.mul_1_r.
  - rewrite (hex_read_app _ _ _ _ (IH _)). cbn [hex_read].
    destruct (hex_digit_ok (v mod 16)) as [-> _]; [apply Z.mod_pos_bound; lia|]. cbn [mbind option_bind]. f_equal.
    rewrite Nat2Z.inj_succ, Z.pow_succ_r, (Z.rem_mul_r v 16) by lia. lia.
Qed.

Lemma hex_low_chars k v : sforall word_char (hex_low k v) = true.
Proof.
  revert v. induction k as [|k IH]; intros v; [done|]. cbn [hex_low]. rewrite sforall_app, IH. cbn [sforall].
  destruct (hex_digit_ok (v mod 16)) as [_ ->]; [apply Z.mod_pos_bound; lia|done].
Qed.

Lemma hex_low_nonempty k v : hex_low (S k) v <> "".
Proof. cbn [hex_low]. by destruct (hex_low k (v / 16)). Qed.

Lemma hex_len_word v : word v -> (hex_len v <= 16)%nat.
Proof.
  intros [H0 H1]. unfold hex_len. destruct (Z.eqb_spec v 0); [lia|].
  assert (Z.log2 v < 64) by (apply Z.log2_lt_pow2; lia). pose proof (Z.log2_nonneg v).
  assert (Z.log2 v / 4 < 16) by (apply Z.div_lt_upper_bound; lia). lia.
Qed.

(** ** Lemmas: lines *)

Lemma comment_line s r : assemble_line s ("    //" +:+ r) = Some s.
Proof. by destruct r. Qed.

(** What a printed number does to the tests of a line. *)
Lemma word_char_tests c : word_char c = true ->
  negb (is_space c) = true /\ negb (Ascii.eqb c "/") = true /\ negb (Ascii.eqb c ",") = true /\
  negb (Ascii.eqb c ":") = true /\ negb (Ascii.eqb c NL) = true.
Proof. unfold word_char. rewrite !andb_true_iff. tauto. Qed.

Lemma word_text f h : sforall word_char h = true -> (forall c, word_char c = true -> f c = true) -> sforall f h = true.
Proof. intros Hh Hf. by apply (sforall_impl word_char). Qed.

#[local] Ltac word_text :=
  match goal with H : sforall word_char ?h = true |- _ =>
    apply (word_text _ h H); intros ? ?%word_char_tests; tauto end.

Lemma directive_code h : sforall word_char h = true -> h <> "" ->
  strip (before "//" ("    .quad 0x" +:+ h)) = ".quad 0x" +:+ h.
Proof.
  intros Hc Hne. rewrite before_all by (change (sforall (fun c => negb (Ascii.eqb c "/")) h = true); word_text).
  unfold strip, strip_by. change (lstrip_by is_space ("    .quad 0x" +:+ h)) with (".quad 0x" +:+ h).
  destruct h as [|c h]; [done|]. cbn [sforall] in Hc. apply andb_true_iff in Hc as [Hc Hh].
  rewrite rstrip_app by (apply negb_true_iff; apply word_char_tests in Hc; tauto).
  rewrite rstrip_none; [done|]. word_text.
Qed.

Lemma hex_operand h v : sforall word_char h = true -> h <> "" -> hex_read h 0 = Some v ->
  operand ("0x" +:+ h) = Some v.
Proof.
  intros Hc Hne Hr. unfold operand.
  rewrite strip_none by (change (sforall (fun c => negb (is_space c)) h = true); word_text).
  change (startswith "0x" ("0x" +:+ h)) with (String.prefix "" h). change (drop_str 2 ("0x" +:+ h)) with h.
  replace (String.prefix "" h) with true by (by destruct h). apply seqb_false in Hne. rewrite Hne. exact Hr.
Qed.

Lemma hex_pad_word v : word v -> hex_pad 16 v = hex_low 16 v /\ hex_read (hex_low 16 v) 0 = Some v.
Proof.
  intros Hv. unfold hex_pad. rewrite Nat.max_l by (by apply hex_len_word). split; [done|].
  rewrite hex_low_read. change (16 ^ Z.of_nat 16) with (2 ^ 64). unfold word in Hv. by rewrite Z.mod_small by lia.
Qed.

(** A printed word assembles to its eight bytes. *)
Lemma quad_line_assembles s v : word v -> assemble_line s (quad_line v) = Some (put (to_bytes_le 8 v) s).
Proof.
  intros Hv. unfold quad_line. destruct (hex_pad_word v Hv) as [-> Hr].
  pose proof (hex_low_chars 16 v) as Hc. pose proof (hex_low_nonempty 15 v) as Hne.
  revert Hr Hc Hne. generalize (hex_low 16 v). intros h Hr Hc Hne. unfold assemble_line. rewrite directive_code by done.
  change (((".quad 0x" +:+ h) =s? "") || startswith "#" (".quad 0x" +:+ h)) with false. cbv iota.
  rewrite (endswith_char ":") by (change (sforall (fun c => negb (Ascii.eqb c ":")) h = true); word_text).
  change (partition " " (".quad 0x" +:+ h)) with (".quad", Some ("0x" +:+ h)). cbv iota beta. unfold put_data.
  rewrite split_one by (change (sforall (fun c => negb (Ascii.eqb c ",")) h = true); word_text).
  cbn [mapM mbind option_bind]. rewrite (hex_operand h v) by done.
  cbn [mbind option_bind mret option_ret forallb]. change (256 ^ Z.of_nat 8) with (2 ^ 64). unfold word in Hv.
  destruct (Z.ltb_spec v (2 ^ 64)); [|lia]. cbn [andb fmap list_fmap concat]. by rewrite app_nil_r.
Qed.

Lemma quad_line_no_nl v : word v -> no_nl (quad_line v) = true.
Proof.
  intros Hv. unfold quad_line. destruct (hex_pad_word v Hv) as [-> _]. pose proof (hex_low_chars 16 v) as Hc.
  change (sforall (fun c => negb (Ascii.eqb c NL)) (hex_low 16 v) = true). word_text.
Qed.

(** ** Lemmas: sections *)

Lemma assemble_lines_app s l1 l2 :
  assemble_lines s (l1 ++ l2) = (s' ← assemble_lines s l1; assemble_lines s' l2).
Proof.
  revert s. induction l1 as [|l l1 IH]; intros s; [done|]. cbn [app assemble_lines].
  destruct (assemble_line s l); [apply IH|done].
Qed.

Definition data (ws : list Z) : list Z := concat (to_bytes_le 8 <$> ws).

Lemma data_app l1 l2 : data (l1 ++ l2) = data l1 ++ data l2.
Proof. unfold data. by rewrite fmap_app, concat_app. Qed.

Lemma put_app b1 b2 s : put b2 (put b1 s) = put (b1 ++ b2) s.
Proof. unfold put. cbn [rbytes labels]. by rewrite !rev_append_rev, rev_app_distr, app_assoc. Qed.

Lemma quads_assemble ws s : Forall word ws -> assemble_lines s (quad_line <$> ws) = Some (put (data ws) s).
Proof.
  intros H. revert s. induction H as [|w ws Hw _ IH]; intros s; [by destruct s|].
  cbn [fmap list_fmap assemble_lines]. rewrite quad_line_assembles by done. cbn [mbind option_bind].
  rewrite IH, put_app. done.
Qed.

Lemma quads_no_nl ws : Forall word ws -> forallb no_nl (quad_line <$> ws) = true.
Proof.
  induction 1 as [|w ws Hw _ IH]; [done|]. cbn [fmap list_fmap forallb]. by rewrite quad_line_no_nl, IH.
Qed.

Lemma limbs_words v : limbs v = words v.
Proof. reflexivity. Qed.

(** The words of a table entry. *)
Definition entry_words (p : point) : list Z :=
  match p with Some (x, y) => limbs x ++ limbs y | None => [] end.

Lemma entry_words_ok p : Forall word (entry_words p).
Proof.
  destruct p as [[x y]|]; [|constructor]. apply list.Forall_app. rewrite !limbs_words. split; apply words_word.
Qed.

(** The lines so far hold the entries so far. *)
Record assembled (out : list string) (pts : list point) : Prop := {
  as_lines : out <> [] /\ forallb no_nl out = true;
  as_section : assemble_lines {| rbytes := []; labels := [] |} out
    = Some {| rbytes := rev (data (concat (entry_words <$> pts))); labels := [("p256_comb_table", 0%nat)] |};
}.

Lemma assembled_app out pts ls extra : assembled out pts -> forallb no_nl ls = true ->
  (forall s, assemble_lines s ls = Some (put (data (concat (entry_words <$> extra))) s)) ->
  assembled (out ++ ls) (pts ++ extra).
Proof.
  intros [[Hne Ho] Hs] Hl Ha. split; [split|].
  - destruct out; [by destruct Hne|]. done.
  - rewrite forallb_app, Ho, Hl. done.
  - rewrite assemble_lines_app, Hs. cbn [mbind option_bind]. rewrite Ha. f_equal. unfold put. cbn [rbytes labels].
    rewrite fmap_app, concat_app, data_app, rev_append_rev, <- rev_app_distr. done.
Qed.

Lemma table_header_assembled : assembled table_header [].
Proof. split; [split; [done|]|]; vm_compute; reflexivity. Qed.

Lemma comments_assemble s i j :
  assemble_line s (block_comment i) = Some s /\ assemble_line s (entry_comment i j) = Some s.
Proof. split; apply comment_line. Qed.

Lemma comments_no_nl i j : (i < BLOCKS)%nat -> (1 <= j <= ENTRIES)%nat ->
  no_nl (block_comment i) = true /\ no_nl (entry_comment i j) = true.
Proof.
  intros Hi Hj. assert (forallb (fun i => no_nl (block_comment i)
    && forallb (fun j => no_nl (entry_comment i j)) (seq 1 ENTRIES)) (seq 0 BLOCKS) = true) as H
    by (vm_compute; reflexivity).
  rewrite forallb_forall in H. specialize (H i ltac:(apply in_seq; lia)). apply andb_true_iff in H as [H1 H2].
  rewrite forallb_forall in H2. split; [done|]. apply H2, in_seq. lia.
Qed.

(** The position of an element in a range. *)
Lemma seq_at a n pre x post : seq a n = pre ++ x :: post -> x = (a + length pre)%nat /\ (length pre < n)%nat.
Proof.
  intros E. assert (seq a n !! length pre = Some x) as Hx by (rewrite E; by apply list_lookup_middle).
  by apply lookup_seq in Hx as [-> Hx].
Qed.

Lemma entry_assembled table out pts i j : table_ok table -> (i < BLOCKS)%nat -> (1 <= j <= ENTRIES)%nat ->
  assembled out pts -> exists lines p, entry_lines table i j = Ret lines /\
    table !! i ≫= (.!! (j - 1)%nat) = Some p /\ assembled (out ++ lines) (pts ++ [p]).
Proof.
  intros Ht Hi Hj Ho. destruct (entry_ok table i j Ht Hi Hj) as ([x y] & E & _). unfold entry_lines.
  rewrite E, bind_Ret. unfold entry in E. destruct (table !! i ≫= _) as [p|] eqn:Ep; [|done].
  injection E as ->. eexists _, _. split_and!; [reflexivity|reflexivity|]. apply assembled_app; [done| |].
  - cbn [forallb]. destruct (comments_no_nl i j Hi Hj) as [_ Hc]. rewrite Hc.
    rewrite <- fmap_app. apply quads_no_nl, (entry_words_ok (Some (x, y))).
  - intros s. cbn [assemble_lines]. destruct (comments_assemble s i j) as [_ ->].
    cbn [mbind option_bind]. rewrite <- fmap_app, quads_assemble by apply (entry_words_ok (Some (x, y))).
    cbn [fmap list_fmap concat entry_words]. by rewrite app_nil_r.
Qed.

Lemma block_assembled table out pts i row : table_ok table -> (i < BLOCKS)%nat -> table !! i = Some row ->
  assembled out pts -> exists out', block_lines table out i = Ret out' /\ assembled out' (pts ++ row).
Proof.
  intros Ht Hi Er Ho. unfold block_lines.
  loop_invariant (fun (pre : list nat) out => assembled out (pts ++ take (length pre) row)) as (out' & -> & H').
  - cbn [length]. rewrite take_0, app_nil_r, <- (app_nil_r pts). apply assembled_app; [done| |].
    + destruct (comments_no_nl i 1 Hi) as [Hc _]; [unfold ENTRIES; lia|].
      cbn [forallb]. by rewrite Hc.
    + intros s. cbn [assemble_lines]. destruct (comments_assemble s i 1) as [-> _].
      by destruct s.
  - intros pre j post o E Ha. apply seq_at in E as [-> El].
    destruct (entry_assembled table o _ i (1 + length pre) Ht Hi ltac:(lia) Ha) as (ls & p & -> & Ep & Hp).
    rewrite bind_Ret. eexists. split; [reflexivity|]. rewrite Er in Ep. cbn [mbind option_bind] in Ep.
    replace (1 + length pre - 1)%nat with (length pre) in Ep by lia.
    rewrite length_app, Nat.add_1_r, (take_S_r _ _ _ Ep), app_assoc. exact Hp.
  - exists out'. split; [done|]. rewrite length_seq in H'. destruct Ht as [_ Ht]. rewrite Forall_lookup in Ht.
    destruct (Ht _ _ Er) as [Hrow _]. by rewrite take_ge in H' by (unfold point in *; lia).
Qed.

Lemma table_assembled table : table_ok table -> exists out,
  table_text table = Ret (join nl out ++ nl)%string /\ assembled out (concat table).
Proof.
  intros Ht. unfold table_text.
  loop_invariant (fun (pre : list nat) out => assembled out (concat (take (length pre) table))) as (out' & -> & H').
  - exact table_header_assembled.
  - intros pre i post o E Ha. apply seq_at in E as [-> El].
    cbn [Nat.add].
    destruct (table !! length pre) as [row|] eqn:Er.
    2:{ apply lookup_ge_None in Er. destruct Ht as [Hl _]. unfold point in *. lia. }
    destruct (block_assembled table o _ (length pre) row Ht El Er Ha) as (o' & -> & Ho'). eexists. split; [reflexivity|].
    rewrite length_app, Nat.add_1_r, (take_S_r _ _ _ Er), concat_app. cbn [concat]. by rewrite app_nil_r.
  - exists out'. split; [done|]. destruct Ht as [Hl _]. rewrite length_seq, take_ge in H' by (unfold point in *; lia). done.
Qed.

(** ** Lemmas: reading the image *)

(** Lists of equal length, concatenated. *)
Lemma lookup_concat {A} n (ls : list (list A)) i k : Forall (fun l => length l = n) ls -> (k < n)%nat ->
  concat ls !! (i * n + k)%nat = ls !! i ≫= (.!! k).
Proof.
  intros H Hk. revert i. induction H as [|l ls Hl _ IH]; intros i; [done|]. cbn [concat].
  destruct i as [|i].
  - cbn [Nat.mul Nat.add]. rewrite lookup_app_l by lia. done.
  - rewrite lookup_app_r by lia. replace (S i * n + k - length l)%nat with (i * n + k)%nat by lia. apply IH.
Qed.

Lemma drop_concat {A} n (ls : list (list A)) i : Forall (fun l => length l = n) ls ->
  drop (i * n) (concat ls) = concat (drop i ls).
Proof.
  intros H. revert i. induction H as [|l ls Hl _ IH]; intros i; [cbn [concat]; by rewrite !drop_nil|].
  destruct i as [|i]; [done|]. cbn [concat drop]. rewrite <- IH, drop_app_ge by lia. f_equal. lia.
Qed.

Lemma length_concat {A} n (ls : list (list A)) : Forall (fun l => length l = n) ls ->
  length (concat ls) = (length ls * n)%nat.
Proof. induction 1 as [|l ls Hl _ IH]; [done|]. cbn [concat length]. rewrite length_app. lia. Qed.

Lemma data_words_len ws : Forall (fun l => length l = 8%nat) (to_bytes_le 8 <$> ws).
Proof. induction ws as [|w ws IH]; constructor; [apply to_bytes_le_length|exact IH]. Qed.

Lemma quad_at_data ws n w : ws !! n = Some w -> word w -> quad_at (data ws) (8 * n) = w.
Proof.
  intros Hn Hw. unfold quad_at, data. rewrite Nat.mul_comm, drop_concat by apply data_words_len.
  rewrite <- fmap_drop, (drop_S _ _ _ Hn). cbn [fmap list_fmap concat].
  rewrite take_app_length' by (symmetry; apply to_bytes_le_length). rewrite from_to_bytes_le. apply Z.mod_small.
  unfold word in Hw. change (256 ^ Z.of_nat 8) with (2 ^ 64). lia.
Qed.

Lemma limbs_at_data ws n v : 0 <= v < 2 ^ 256 -> (forall k, (k < 4)%nat -> ws !! (n + k)%nat = limbs v !! k) ->
  limbs_at (data ws) (8 * n) = v.
Proof.
  intros Hv H. unfold limbs_at. etransitivity; [|exact (value_words v Hv)]. f_equal. apply list_eq. intros k.
  rewrite list_lookup_fmap. pose proof (words_length v) as Hl. destruct (decide (k < 4)%nat) as [Hk|Hk].
  - rewrite lookup_seq_lt by done. cbn [fmap option_fmap option_map]. rewrite <- Nat.mul_add_distr_l.
    destruct (words v !! k) as [w|] eqn:E; [|apply lookup_ge_None in E; lia].
    f_equal. apply quad_at_data.
    + cbn [Nat.add]. rewrite (H k Hk). exact E.
    + pose proof (words_word v) as Hw. rewrite Forall_lookup in Hw. eauto.
  - rewrite lookup_seq_ge by lia. symmetry. apply lookup_ge_None. lia.
Qed.

Lemma limbs_length v : length (limbs v) = 4%nat.
Proof. reflexivity. Qed.

Lemma rows_len table : table_ok table -> Forall (fun row => length row = ENTRIES) table.
Proof. intros [_ H]. eapply list.Forall_impl; [exact H|]. by intros r [? _]. Qed.

Lemma entries_len table : table_ok table -> Forall (fun ws => length ws = 8%nat) (entry_words <$> concat table).
Proof.
  intros [_ H]. apply list.Forall_forall. intros ws (p & -> & Hp)%list_elem_of_fmap.
  apply list_elem_of_In, in_concat in Hp as (row & Hr%list_elem_of_In & Hp%list_elem_of_In).
  rewrite list.Forall_forall in H. destruct (H row Hr) as [_ Hrow]. rewrite list.Forall_forall in Hrow.
  by destruct (Hrow p Hp) as [[[x y] ->] _].
Qed.

Lemma point_at_data table i j p : table_ok table -> (i < BLOCKS)%nat -> (1 <= j <= ENTRIES)%nat ->
  entry table i j = Ret p -> point_at (data (concat (entry_words <$> concat table))) i j = p.
Proof.
  intros Ht Hi Hj E. destruct (entry_ok table i j Ht Hi Hj) as ([x y] & E' & [[Hx Hy] _]).
  rewrite E in E'. injection E' as ->. unfold entry in E. destruct (table !! i ≫= _) as [p|] eqn:Ep; [|done].
  injection E as ->. destruct Ht as [Hl Hrows]. pose proof P_range as HP.
  assert (concat table !! (i * ENTRIES + (j - 1))%nat = Some (Some (x, y) : point)) as Hc.
  { rewrite lookup_concat; [done|by apply rows_len|lia]. }
  pose proof (entries_len table (conj Hl Hrows)) as H8.
  assert (forall k, (k < 8)%nat -> concat (entry_words <$> concat table) !! ((i * ENTRIES + (j - 1)) * 8 + k)%nat
    = (limbs x ++ limbs y) !! k) as Hw.
  { intros k Hk. rewrite lookup_concat by done. by rewrite list_lookup_fmap, Hc. }
  unfold point_at. do 2 f_equal.
  - replace (i * (ENTRIES * 64) + (j - 1) * 64)%nat with (8 * ((i * ENTRIES + (j - 1)) * 8))%nat by lia.
    apply limbs_at_data; [cbn [reduced] in Hx; lia|]. intros k Hk. rewrite Hw by lia.
    by rewrite lookup_app_l by (rewrite limbs_length; lia).
  - replace (i * (ENTRIES * 64) + (j - 1) * 64 + 32)%nat with (8 * ((i * ENTRIES + (j - 1)) * 8 + 4))%nat by lia.
    apply limbs_at_data; [cbn [reduced] in Hy; lia|]. intros k Hk.
    rewrite <- Nat.add_assoc, Hw by lia. rewrite lookup_app_r by (rewrite limbs_length; lia).
    rewrite limbs_length. f_equal. lia.
Qed.

Lemma entry_at table i j row p : table !! i = Some row -> row !! (j - 1)%nat = Some p -> entry table i j = Ret p.
Proof. unfold entry, point in *. intros -> Hp. cbn [mbind option_bind]. by rewrite Hp. Qed.

Lemma decode_data table : table_ok table -> decode_table (data (concat (entry_words <$> concat table))) = table.
Proof.
  intros Ht. pose proof Ht as [Hl Hrows]. unfold decode_table. apply list_eq. intros i. rewrite list_lookup_fmap.
  destruct (decide (i < BLOCKS)%nat) as [Hi|Hi].
  2:{ rewrite lookup_seq_ge by lia. symmetry. apply lookup_ge_None. unfold point in *. lia. }
  rewrite lookup_seq_lt by done. destruct (table !! i) as [row|] eqn:Er.
  2:{ apply lookup_ge_None in Er. unfold point in *. lia. }
  rewrite Forall_lookup in Hrows. destruct (Hrows _ _ Er) as [Hrow _]. cbn [fmap option_fmap option_map]. f_equal.
  apply list_eq. intros k. rewrite list_lookup_fmap. destruct (decide (k < ENTRIES)%nat) as [Hk|Hk].
  2:{ rewrite lookup_seq_ge by lia. symmetry. apply lookup_ge_None. unfold point in *. lia. }
  rewrite lookup_seq_lt by done. destruct (row !! k) as [p|] eqn:Ep.
  2:{ apply lookup_ge_None in Ep. unfold point in *. lia. }
  cbn [fmap option_fmap option_map]. f_equal. apply point_at_data; [done|done|lia|].
  apply (entry_at _ _ _ row); [done|]. by replace (1 + k - 1)%nat with k by lia.
Qed.

(** C17: the emitted comb table is the table: for every table of finite curve
    points the text [gen_table] prints for it assembles to one labelled
    object of 61440 bytes, in which the limbs found at the stride the header
    states are the table's points again; and [gen_table] prints that text as
    soon as its own verification of the table passes. *)
Theorem table_reads_back table : table_ok table -> exists text img,
  table_text table = Ret text /\
  assemble text = Some (img, [("p256_comb_table", 0%nat)]) /\
  length img = (ENTRIES * 64 * BLOCKS)%nat /\
  decode_table img = table /\
  (forall n, build_table = Ret table -> verify_table table = Ret n -> gen_table = Ret text).
Proof.
  intros Ht. destruct (table_assembled table Ht) as (out & E & [[Hne Ho] Hs]).
  eexists _, (data (concat (entry_words <$> concat table))). split; [exact E|].
  split.
  { unfold assemble. rewrite split_join, assemble_lines_app, Hs by done. cbn [mbind option_bind rbytes labels].
    change (assemble_lines ?s [""]) with (Some s). cbn [mbind option_bind rbytes labels]. by rewrite rev_involutive. }
  split.
  { unfold data. rewrite (length_concat 8) by apply data_words_len. rewrite length_fmap.
    rewrite (length_concat 8) by (by apply entries_len). rewrite length_fmap.
    rewrite (length_concat ENTRIES) by (by apply rows_len). destruct Ht as [Hl _]. unfold point in *. lia. }
  split; [by apply decode_data|]. intros n Hb Hv. unfold gen_table. by rewrite Hb, bind_Ret, Hv, bind_Ret, E.
Qed.

Lemma table_reads_back_witness : exists text img,
  table_text demo_table = Ret text /\ assemble text = Some (img, [("p256_comb_table", 0%nat)]) /\
  decode_table img = demo_table.
Proof.
  destruct (table_reads_back demo_table demo_table_ok) as (text & img & H1 & H2 & _ & H3 & _).
  exists text, img. split; [exact H1|]. split; [exact H2|exact H3].
Defined.

(** ** Lemmas: the interpreter *)

Section interpreter_lemmas.
Context {X : Type} (mul : X -> X -> result X).

(** What the program has to satisfy for in-place squaring to be what
    [run_instr] does: at least one squaring and a multiplicand other than the
    destination. *)
Definition in_place (i : instr) : bool :=
  let '(dst, src, nsq, m) := i in
  (dst <? NSLOTS)%nat && (src <? NSLOTS)%nat && (1 <=? nsq)%nat && (nsq <? 255)%nat
  && ((m =? NO_MUL)%nat || (m <? NSLOTS)%nat && negb (m =? dst)%nat).

Lemma slot_set_get (slots : list (option X)) i v : (i < length slots)%nat ->
  slot_set slots i v = Ret (<[i := v]> slots) /\ slot_get (<[i := v]> slots) i = Ret v.
Proof.
  intros Hi. unfold slot_set, slot_get. rewrite list_lookup_insert_eq by done. split; [|done].
  by destruct (Nat.ltb_spec i (length slots)); [|lia].
Qed.

Lemma mul_dst slots dst t : (dst < length slots)%nat ->
  mul_slots mul (<[dst := t]> slots) dst dst dst = (v ← omul mul t t; Ret (<[dst := v]> slots)).
Proof.
  intros Hd. unfold mul_slots. destruct (slot_set_get slots dst t Hd) as [_ ->]. rewrite !bind_Ret.
  destruct (omul mul t t) as [v|e]; [|done]. rewrite !bind_Ret.
  destruct (slot_set_get (<[dst := t]> slots) dst v) as [-> _]; [by rewrite length_insert|].
  by rewrite list_insert_insert_eq.
Qed.

Lemma squarings_in_place dst (l : list nat) slots t : (dst < length slots)%nat ->
  for_result l (<[dst := t]> slots) (fun slots _ => mul_slots mul slots dst dst dst)
  = (t ← for_result l t (fun t _ => omul mul t t); Ret (<[dst := t]> slots)).
Proof.
  intros Hd. revert t. induction l as [|x l IH]; intros t; [done|]. cbn [for_result]. rewrite mul_dst by done.
  destruct (omul mul t t) as [v|e]; [|done]. rewrite !bind_Ret. apply IH.
Qed.

Lemma for_result_fmap {A B S} (f : A -> B) (l : list A) (s : S) body :
  for_result (f <$> l) s body = for_result l s (fun s x => body s (f x)).
Proof.
  revert s. induction l as [|x l IH]; intros s; [done|]. cbn [fmap list_fmap for_result].
  destruct (body s (f x)); [apply IH|done].
Qed.

Lemma si_step_run slots i : length slots = NSLOTS -> in_place i = true ->
  si_step mul slots i = run_instr mul slots i.
Proof.
  destruct i as [[[dst src] nsq] m]. intros Hl. unfold in_place.
  rewrite !andb_true_iff, orb_true_iff, andb_true_iff, negb_true_iff, !Nat.ltb_lt, Nat.leb_le, !Nat.eqb_eq, Nat.eqb_neq.
  intros ((((Hd & Hs) & Hn1) & Hn2) & Hm). unfold si_step, run_instr.
  replace (Z.to_nat ((Z.of_nat nsq - 1) mod 2 ^ 64)) with (nsq - 1)%nat by (rewrite Z.mod_small; lia).
  replace (range 0 nsq) with (0%nat :: (S <$> range 0 (nsq - 1))).
  2:{ unfold range. rewrite !Nat.sub_0_r, fmap_S_seq. destruct nsq as [|k]; [lia|]. cbn [seq].
      by replace (S k - 1)%nat with k by lia. }
  cbn [for_result].
  assert (mul_slots mul slots dst src src = (t ← slot_get slots src; v ← omul mul t t; Ret (<[dst := v]> slots))) as ->.
  { unfold mul_slots. destruct (slot_get slots src) as [t|e]; [|done]. rewrite !bind_Ret.
    destruct (omul mul t t) as [v|e]; [|done]. rewrite !bind_Ret. by destruct (slot_set_get slots dst v) as [-> _]; [lia|]. }
  destruct (slot_get slots src) as [t|e]; [|done]. rewrite !bind_Ret.
  destruct (omul mul t t) as [v|e]; [|done]. rewrite !bind_Ret, for_result_fmap, squarings_in_place by lia.
  destruct (for_result (range 0 (nsq - 1)) v _) as [t'|e]; [|done]. rewrite !bind_Ret.
  change NO_MUL with 255%nat in *. destruct (Nat.eqb_spec m 255) as [->|Hm'].
  - rewrite bind_Ret. by destruct (slot_set_get slots dst t') as [-> _]; [lia|].
  - destruct Hm as [?|[Hm Hne]]; [done|]. unfold mul_slots. destruct (slot_set_get slots dst t') as [_ ->]; [lia|].
    rewrite bind_Ret. replace (slot_get (<[dst := t']> slots) m) with (slot_get slots m)
      by (unfold slot_get; by rewrite list_lookup_insert_ne).
    destruct (slot_get slots m) as [u|e]; [|done]. rewrite !bind_Ret. destruct (omul mul t' u) as [w|e]; [|done].
    rewrite !bind_Ret. destruct (slot_set_get (<[dst := t']> slots) dst w) as [-> _]; [rewrite length_insert; lia|].
    destruct (slot_set_get slots dst w) as [-> _]; [lia|]. by rewrite list_insert_insert_eq.
Qed.

Lemma run_instr_length slots i slots' : run_instr mul slots i = Ret slots' -> length slots' = length slots.
Proof.
  destruct i as [[[dst src] nsq] m]. unfold run_instr. intros (t & _ & H)%bind_Ret_inv.
  apply bind_Ret_inv in H as (t1 & _ & H). apply bind_Ret_inv in H as (t2 & _ & H). unfold slot_set in H.
  destruct (dst <? length slots)%nat; [|done]. injection H as <-. apply length_insert.
Qed.

(** The bytes of an instruction. *)
Definition encode (i : instr) : list Z :=
  let '(dst, src, nsq, m) := i in Z.of_nat <$> [dst; src; nsq; m].

Lemma byte_at_drop img pc k b rest : drop pc img = rest -> rest !! k = Some b -> byte_at img (pc + k) = Ret (Z.to_nat b).
Proof. intros <- H. unfold byte_at. rewrite lookup_drop in H. by rewrite H. Qed.

(** From an encoded program, the loop runs the program. *)
Lemma si_loop_run prog fuel img pc rest slots : forallb in_place prog = true -> (length prog < fuel)%nat ->
  length slots = NSLOTS -> drop pc img = concat (encode <$> prog) ++ 255 :: rest ->
  si_loop mul fuel img pc slots = for_result prog slots (run_instr mul).
Proof.
  revert fuel pc slots. induction prog as [|i prog IH]; intros fuel pc slots Hp Hf Hl Hd.
  - destruct fuel as [|fuel]; [cbn [length] in Hf; lia|]. cbn [si_loop].
    assert (byte_at img pc = Ret 255%nat) as ->.
    { rewrite <- (Nat.add_0_r pc). exact (byte_at_drop img pc 0 255 _ Hd eq_refl). }
    reflexivity.
  - destruct fuel as [|fuel]; [cbn [length] in Hf; lia|]. cbn [length] in Hf. cbn [forallb] in Hp.
    apply andb_true_iff in Hp as [Hi Hp]. cbn [for_result]. rewrite <- si_step_run by done.
    destruct i as [[[dst src] nsq] m]. pose proof (fun k b => byte_at_drop img pc k b _ Hd) as Hb.
    pose proof (Hb 0%nat (Z.of_nat dst) eq_refl) as B0. pose proof (Hb 1%nat (Z.of_nat src) eq_refl) as B1.
    pose proof (Hb 2%nat (Z.of_nat nsq) eq_refl) as B2. pose proof (Hb 3%nat (Z.of_nat m) eq_refl) as B3.
    rewrite Nat2Z.id in B0, B1, B2, B3. rewrite Nat.add_0_r in B0. cbn [si_loop]. rewrite B0, B1, B2, B3, !bind_Ret.
    assert (dst < NSLOTS)%nat as Hdst.
    { unfold in_place in Hi. rewrite !andb_true_iff, Nat.ltb_lt in Hi. tauto. }
    destruct (Nat.eqb_spec dst 255) as [->|_]; [unfold NSLOTS in Hdst; lia|].
    destruct (si_step mul slots (dst, src, nsq, m)) as [s'|e] eqn:Es; [|done]. rewrite !bind_Ret.
    apply IH; [done|lia| |].
    + rewrite si_step_run in Es by done. by rewrite (run_instr_length _ _ _ Es).
    + rewrite <- drop_drop, Hd. reflexivity.
Qed.
End interpreter_lemmas.

Lemma emitted_image : match gen_chain with
  | Ret text => match assemble text with
    | Some (img, syms) =>
        bool_decide (dict_get syms "p256_scalar_rr_n" = Some 0%nat)
        && bool_decide (dict_get syms "p256_scalar_inv_chain" = Some 48%nat)
        && (limbs_at img 0 =? RR)
        && (length CHAIN <? length img)%nat
        && bool_decide (drop 48 img = concat (encode <$> CHAIN) ++ 255 :: [255; 255; 255])
        && forallb in_place CHAIN
    | None => false
    end
  | Raise _ => false
  end = true.
Proof. vm_compute. reflexivity. Qed.

(** C18: the emitted inversion program inverts: [gen_chain] prints a text, the
    text assembles, and on the bytes of that image the loop of inv.S returns,
    for every scalar, its inverse modulo the group order (0 for multiples of
    the order): it terminates, reads no slot before writing it, loads nothing
    outside the image, and its in-place squaring and multiplying computes what
    the derivation's chain does. *)
Theorem emitted_program_inverts : exists text img syms,
  gen_chain = Ret text /\ assemble text = Some (img, syms) /\
  forall a, exists x, p256_scalar_inv img syms a = Ret x /\ 0 <= x < ScalarInv.N /\
    if decide (a mod ScalarInv.N = 0) then x = 0 else (x * a) mod ScalarInv.N = 1.
Proof.
  pose proof emitted_image as H. destruct gen_chain as [text|e]; [|done].
  destruct (assemble text) as [[img syms]|] eqn:Ea; [|done].
  rewrite !andb_true_iff, !bool_decide_eq_true, Z.eqb_eq, Nat.ltb_lt in H.
  destruct H as (((((Hrr & Hch) & Hr) & Hf) & Hd) & Hp). exists text, img, syms. split; [done|]. split; [done|].
  intros a. eexists. split; [|split; [apply Z.mod_pos_bound; pose proof N_range; lia|exact (fermat_inverse a)]].
  rewrite <- scalar_inv_exact.
  unfold p256_scalar_inv, scalar_inv_hw, symbol_at. rewrite Hrr, Hch, !bind_Ret, Hr.
  destruct (mont_mul (a mod ScalarInv.N) RR) as [xm|e]; [|done]. rewrite build_chain_CHAIN, !bind_Ret.
  unfold run_chain. change (slot 1) with (Ret 0%nat). rewrite bind_Ret.
  destruct (slot_set (replicate NSLOTS None) 0 (Some xm)) as [slots|e] eqn:Es; [|done]. rewrite !bind_Ret.
  rewrite (si_loop_run mont_mul CHAIN _ img 48 _ slots Hp Hf) by (injection Es as <-; done || exact Hd).
  destruct (for_result CHAIN slots (run_instr mont_mul)) as [s'|e]; [|done]. rewrite !bind_Ret.
  by destruct (slot_get s' ACC) as [[?|]|].
Qed.
