(* ===== verification/Regex.v ===== *)
(** * Python regular expressions

    The part of the [re] module the scripts use: a parser for the pattern
    syntax, so that every pattern below is the source's own text, and the
    backtracking matcher (leftmost, greedy or lazy, first alternative first)
    behind [match], [search], [fullmatch], [finditer], [sub] and [split].
    Character classes are the ASCII ones. *)

From Stdlib Require Import Ascii.
From S2P Require Import Prelude PyStr.

(** ** Syntax *)

Inductive citem : Type :=
| CRange (lo hi : N)
| CSpace (neg : bool)
| CDigit (neg : bool)
| CWord (neg : bool).

Inductive re : Type :=
| RSet (neg ic : bool) (items : list citem)
| RAny (dotall : bool)
| REps
| RSeq (r1 r2 : re)
| RAlt (r1 r2 : re)
| RStar (greedy : bool) (r : re)
| RGroup (n : nat) (r : re)
| RBackref (n : nat)
| RBol (multiline : bool)
| REol (multiline : bool)
| REnd
| RWordB (neg : bool)
| RLook (neg : bool) (r : re).

Definition item_match (c : ascii) (i : citem) : bool :=
  match i with
  | CRange lo hi => in_range lo hi c
  | CSpace n => xorb n (is_space c)
  | CDigit n => xorb n (is_digit c)
  | CWord n => xorb n (is_word c)
  end.

Definition set_match (neg ic : bool) (items : list citem) (c : ascii) : bool :=
  xorb neg (existsb (item_match c) items
            || ic && (existsb (item_match (lower_char c)) items
                      || existsb (item_match (upper_char c)) items)).

(** ** The matcher *)

(** A position in the subject: the characters before it (nearest first), the
    rest, its index, and the groups captured so far (latest first). *)
Record st : Type := mkst {
  st_before : list ascii;
  st_rest : string;
  st_pos : nat;
  st_caps : list (nat * (nat * nat))
}.

Definition st_start (s : string) : st := mkst [] s 0 [].

Definition advance (s : st) : option (ascii * st) :=
  match st_rest s with
  | "" => None
  | String c r => Some (c, mkst (c :: st_before s) r (S (st_pos s)) (st_caps s))
  end.

Definition word_at (o : option ascii) : bool := match o with Some c => is_word c | None => false end.
Definition head_char (s : string) : option ascii :=
  match s with String c _ => Some c | "" => None end.

Definition at_eol (multiline : bool) (s : st) : bool :=
  match st_rest s with
  | "" => true
  | String c r => Ascii.eqb c NL && (multiline || (r =s? ""))
  end.

Definition at_bol (multiline : bool) (s : st) : bool :=
  match st_before s with
  | [] => true
  | c :: _ => multiline && Ascii.eqb c NL
  end.

Definition at_wordb (s : st) : bool :=
  xorb (word_at (head (st_before s))) (word_at (head_char (st_rest s))).

Fixpoint cap_get (n : nat) (caps : list (nat * (nat * nat))) : option (nat * nat) :=
  match caps with
  | [] => None
  | (k, v) :: caps => if (k =? n)%nat then Some v else cap_get n caps
  end.

(** The captured text of a group, read back from the characters consumed. *)
Definition before_slice (s : st) (i j : nat) : list ascii :=
  rev (firstn (j - i) (skipn (st_pos s - j) (st_before s))).

Fixpoint eat (cs : list ascii) (s : st) : option st :=
  match cs with
  | [] => Some s
  | c :: cs => match advance s with
               | Some (d, s') => if Ascii.eqb c d then eat cs s' else None
               | None => None
               end
  end.

(** The repetition loop over a matcher [mr] of one iteration.  An iteration
    must consume a character, so a repetition runs at most as many times as
    there are characters left. *)
Fixpoint star_loop {X : Type} (mr : st -> (st -> option X) -> option X) (greedy : bool)
  (k : st -> option X) (n : nat) (s : st) : option X :=
  match n with
  | O => k s
  | S n =>
      if greedy then
        match mr s (fun s' => if (st_pos s' =? st_pos s)%nat then None else star_loop mr greedy k n s') with
        | Some x => Some x
        | None => k s
        end
      else
        match k s with
        | Some x => Some x
        | None => mr s (fun s' => if (st_pos s' =? st_pos s)%nat then None else star_loop mr greedy k n s')
        end
  end.

(** Continuation-passing backtracking. *)
Fixpoint m {X : Type} (r : re) (s : st) (k : st -> option X) {struct r} : option X :=
  match r with
  | RSet neg ic items =>
      match advance s with
      | Some (c, s') => if set_match neg ic items c then k s' else None
      | None => None
      end
  | RAny dotall =>
      match advance s with
      | Some (c, s') => if dotall || negb (Ascii.eqb c NL) then k s' else None
      | None => None
      end
  | REps => k s
  | RSeq r1 r2 => m r1 s (fun s' => m r2 s' k)
  | RAlt r1 r2 => match m r1 s k with Some x => Some x | None => m r2 s k end
  | RStar greedy r => star_loop (m r) greedy k (String.length (st_rest s)) s
  | RGroup n r =>
      m r s (fun s' => k (mkst (st_before s') (st_rest s') (st_pos s')
                               ((n, (st_pos s, st_pos s')) :: st_caps s')))
  | RBackref n =>
      match cap_get n (st_caps s) with
      | Some (i, j) => match eat (before_slice s i j) s with Some s' => k s' | None => None end
      | None => None
      end
  | RBol ml => if at_bol ml s then k s else None
  | REol ml => if at_eol ml s then k s else None
  | REnd => match st_rest s with "" => k s | _ => None end
  | RWordB neg => if xorb neg (at_wordb s) then k s else None
  | RLook neg r =>
      match m r s Some with
      | Some s' => if neg then None
                   else k (mkst (st_before s) (st_rest s) (st_pos s) (st_caps s'))
      | None => if neg then k s else None
      end
  end.

(** ** Match objects *)

Record mtch : Type := mkmatch {
  m_start : nat;
  m_end : nat;
  m_caps : list (nat * (nat * nat));
  m_str : string
}.

Definition group_span (x : mtch) (n : nat) : option (nat * nat) :=
  match n with O => Some (m_start x, m_end x) | n => cap_get n (m_caps x) end.

(** [m.group(n)], [None] for a group that did not take part. *)
Definition group_opt (x : mtch) (n : nat) : option string :=
  '(i, j) ← group_span x n; Some (slice i j (m_str x)).
(** ... and for a group every match sets. *)
Definition group (x : mtch) (n : nat) : string := default "" (group_opt x n).

(** Match at the position [s]; with [adv], an empty match is refused there. *)
Definition match_at (r : re) (subject : string) (adv : bool) (s : st) : option (mtch * st) :=
  m r s (fun s' => if adv && (st_pos s' =? st_pos s)%nat then None
                   else Some (mkmatch (st_pos s) (st_pos s') (st_caps s') subject, s')).

Definition re_match (r : re) (s : string) : option mtch := fst <$> match_at r s false (st_start s).
Definition re_fullmatch (r : re) (s : string) : option mtch :=
  fst <$> match_at (RSeq r REnd) s false (st_start s).

(** Scan forward from a position. *)
Fixpoint search_from (r : re) (subject : string) (adv : bool) (before : list ascii) (rest : string)
  (pos : nat) : option (mtch * st) :=
  match match_at r subject adv (mkst before rest pos []) with
  | Some x => Some x
  | None => match rest with
            | "" => None
            | String c rest => search_from r subject false (c :: before) rest (S pos)
            end
  end.

Definition re_search (r : re) (s : string) : option mtch := fst <$> search_from r s false [] s 0.

(** [finditer]: the next scan starts where the last match ended, and may not
    be empty there when the last match was empty. *)
Fixpoint finditer_fuel (fuel : nat) (r : re) (subject : string) (adv : bool) (s : st) : list mtch :=
  match fuel with
  | O => []
  | S fuel =>
      match search_from r subject adv (st_before s) (st_rest s) (st_pos s) with
      | None => []
      | Some (x, s') => x :: finditer_fuel fuel r subject (m_start x =? m_end x)%nat s'
      end
  end.
Definition re_finditer (r : re) (s : string) : list mtch :=
  finditer_fuel (2 * String.length s + 2) r s false (st_start s).

(** [re.sub(r, f, s)], and the pieces between matches for [re.split]. *)
Fixpoint sub_pieces (ms : list mtch) (pos : nat) (s : string) : list string :=
  match ms with
  | [] => [drop_str pos s]
  | x :: ms => slice pos (m_start x) s :: sub_pieces ms (m_end x) s
  end.
Definition re_split (r : re) (s : string) : list string := sub_pieces (re_finditer r s) 0 s.
Fixpoint sub_aux (ms : list mtch) (pos : nat) (f : mtch -> string) (s : string) : string :=
  match ms with
  | [] => drop_str pos s
  | x :: ms => slice pos (m_start x) s +:+ f x +:+ sub_aux ms (m_end x) f s
  end.
Definition re_sub (r : re) (f : mtch -> string) (s : string) : string :=
  sub_aux (re_finditer r s) 0 f s.
Definition matches (r : re) (s : string) : bool := bool_decide (is_Some (re_match r s)).
Definition searches (r : re) (s : string) : bool := bool_decide (is_Some (re_search r s)).
Definition fullmatches (r : re) (s : string) : bool := bool_decide (is_Some (re_fullmatch r s)).

(** ** The pattern parser *)

Record flags : Type := mkflags { f_ic : bool; f_ml : bool; f_dot : bool }.
Definition no_flags : flags := mkflags false false false.

Fixpoint nullable (r : re) : bool :=
  match r with
  | RSet _ _ _ | RAny _ => false
  | RSeq a b => nullable a && nullable b
  | RAlt a b => nullable a || nullable b
  | RGroup _ a => nullable a
  | _ => true
  end.

Fixpoint repeat_re (n : nat) (r : re) : re :=
  match n with O => REps | S O => r | S n => RSeq r (repeat_re n r) end.
Definition opt_re (greedy : bool) (r : re) : re := if greedy then RAlt r REps else RAlt REps r.
Fixpoint upto_re (n : nat) (greedy : bool) (r : re) : re :=
  match n with O => REps | S n => opt_re greedy (RSeq r (upto_re n greedy r)) end.
(** [r{lo,hi}] *)
Definition bounded_re (lo : nat) (hi : option nat) (greedy : bool) (r : re) : re :=
  match hi with
  | None => match lo with O => RStar greedy r | _ => RSeq (repeat_re lo r) (RStar greedy r) end
  | Some hi => match lo with
               | O => upto_re hi greedy r
               | _ => RSeq (repeat_re lo r) (upto_re (hi - lo) greedy r)
               end
  end.

Definition lit (f : flags) (c : ascii) : re := RSet false (f_ic f) [CRange (code c) (code c)].

(** The escapes that stand for a class, and those that stand for a character. *)
Definition class_escape (c : ascii) : option citem :=
  match c with
  | "s"%char => Some (CSpace false) | "S"%char => Some (CSpace true)
  | "d"%char => Some (CDigit false) | "D"%char => Some (CDigit true)
  | "w"%char => Some (CWord false) | "W"%char => Some (CWord true)
  | _ => None
  end.
Definition char_escape (c : ascii) : ascii :=
  match c with
  | "n"%char => NL | "t"%char => TAB | "r"%char => "013" | "f"%char => "012" | "v"%char => "011"
  | _ => c
  end.

(** The items of [[...]], up to the closing bracket. *)
Fixpoint parse_set (fuel : nat) (s : string) (first : bool) (acc : list citem)
  : option (list citem * string) :=
  match fuel with
  | O => None
  | S fuel =>
      match s with
      | "" => None
      | String "]" r => if first then parse_set fuel r false (acc ++ [CRange 93 93]) else Some (acc, r)
      | String "\" (String c r) =>
          match class_escape c with
          | Some i => parse_set fuel r false (acc ++ [i])
          | None => let n := code (char_escape c) in parse_range fuel r n acc
          end
      | String c r => parse_range fuel r (code c) acc
      end
  end
with parse_range (fuel : nat) (s : string) (lo : N) (acc : list citem)
  : option (list citem * string) :=
  match fuel with
  | O => None
  | S fuel =>
      match s with
      | String "-" (String "]" r) => Some (acc ++ [CRange lo lo; CRange 45 45], r)
      | String "-" (String "\" (String c r)) =>
          parse_set fuel r false (acc ++ [CRange lo (code (char_escape c))])
      | String "-" (String c r) => parse_set fuel r false (acc ++ [CRange lo (code c)])
      | _ => parse_set fuel s false (acc ++ [CRange lo lo])
      end
  end.

Fixpoint parse_num (s : string) (acc : option nat) : option nat * string :=
  match s with
  | String c r => if is_digit c then parse_num r (Some (10 * default 0 acc + Z.to_nat (digit_val c))%nat)
                  else (acc, s)
  | "" => (acc, s)
  end.

(** [{m}], [{m,}], [{m,n}] after the opening brace; [None] if it is no
    quantifier. *)
Definition parse_braces (s : string) : option (nat * option nat * string) :=
  match parse_num s None with
  | (Some lo, String "}" r) => Some (lo, Some lo, r)
  | (lo, String "," r) =>
      match parse_num r None with
      | (hi, String "}" r) => match lo, hi with None, None => None | _, _ => Some (default 0%nat lo, hi, r) end
      | _ => None
      end
  | _ => None
  end.

(** A quantifier suffix applied to an atom. *)
Definition parse_quant (s : string) (r : re) : re * string :=
  let lazy (t : string) : bool * string :=
    match t with String "?" t => (false, t) | t => (true, t) end in
  match s with
  | String "*" t => let '(g, t) := lazy t in (RStar g r, t)
  | String "+" t => let '(g, t) := lazy t in (RSeq r (RStar g r), t)
  | String "?" t => let '(g, t) := lazy t in (opt_re g r, t)
  | String "{" t => match parse_braces t with
                    | Some (lo, hi, t) => let '(g, t) := lazy t in (bounded_re lo hi g r, t)
                    | None => (r, s)
                    end
  | _ => (r, s)
  end.

Definition seq_re (a b : re) : re := match a with REps => b | _ => RSeq a b end.

Definition simple_atom (f : flags) (c : ascii) : re :=
  match c with
  | "."%char => RAny (f_dot f)
  | "^"%char => RBol (f_ml f)
  | "$"%char => REol (f_ml f)
  | _ => lit f c
  end.

Definition escape_atom (f : flags) (c : ascii) : re :=
  match c with
  | "b"%char => RWordB false
  | "B"%char => RWordB true
  | "Z"%char => REnd
  | "A"%char => RBol false
  | _ => match class_escape c with
         | Some i => RSet false (f_ic f) [i]
         | None => if is_digit c then RBackref (Z.to_nat (digit_val c)) else lit f (char_escape c)
         end
  end.

(** Alternation, sequences and groups.  [n] is the number of groups opened so
    far; a group is numbered by its opening parenthesis. *)
Fixpoint parse_alt (fuel : nat) (f : flags) (s : string) (n : nat) : option (re * string * nat) :=
  match fuel with
  | O => None
  | S fuel =>
      '(a, s, n) ← parse_seq fuel f s n REps;
      match s with
      | String "|" s => '(b, s, n) ← parse_alt fuel f s n; Some (RAlt a b, s, n)
      | _ => Some (a, s, n)
      end
  end
with parse_seq (fuel : nat) (f : flags) (s : string) (n : nat) (acc : re) : option (re * string * nat) :=
  match fuel with
  | O => None
  | S fuel =>
      match s with
      | "" | String "|" _ | String ")" _ => Some (acc, s, n)
      | _ =>
          '(a, s, n) ← parse_atom fuel f s n;
          let '(a, s) := parse_quant s a in
          parse_seq fuel f s n (seq_re acc a)
      end
  end
with parse_atom (fuel : nat) (f : flags) (s : string) (n : nat) : option (re * string * nat) :=
  match fuel with
  | O => None
  | S fuel =>
      let close (x : re * string * nat) (g : re -> re) : option (re * string * nat) :=
        let '(a, s, n) := x in
        match s with String ")" s => Some (g a, s, n) | _ => None end in
      match s with
      | String "(" (String "?" (String ":" s)) => x ← parse_alt fuel f s n; close x id
      | String "(" (String "?" (String "=" s)) => x ← parse_alt fuel f s n; close x (RLook false)
      | String "(" (String "?" (String "!" s)) => x ← parse_alt fuel f s n; close x (RLook true)
      | String "(" s => x ← parse_alt fuel f s (S n); close x (RGroup (S n))
      | String "[" (String "^" s) =>
          '(items, s) ← parse_set fuel s true []; Some (RSet true (f_ic f) items, s, n)
      | String "[" s => '(items, s) ← parse_set fuel s true []; Some (RSet false (f_ic f) items, s, n)
      | String "\" (String c s) => Some (escape_atom f c, s, n)
      | String c s => Some (simple_atom f c, s, n)
      | "" => None
      end
  end.

(** [re.compile(p, flags)] *)
Definition re_compile (f : flags) (p : string) : option re :=
  match parse_alt (10 * String.length p + 10) f p 0 with
  | Some (r, "", _) => Some r
  | _ => None
  end.

(** A pattern literal: the pattern parses, by evaluation. *)
Definition is_some {X : Type} (o : option X) : bool := match o with Some _ => true | None => false end.
Definition the {X : Type} (o : option X) : is_some o = true -> X :=
  match o with Some x => fun _ => x | None => fun H => match Bool.diff_false_true H with end end.
Abbreviation rx p := (the (re_compile no_flags p) eq_refl) (only parsing).
Abbreviation rx_i p := (the (re_compile (mkflags true false false) p) eq_refl) (only parsing).
Abbreviation rx_m p := (the (re_compile (mkflags false true false) p) eq_refl) (only parsing).
Abbreviation rx_s p := (the (re_compile (mkflags false false true) p) eq_refl) (only parsing).
Abbreviation rx_ms p := (the (re_compile (mkflags false true true) p) eq_refl) (only parsing).

(** [re.escape(s)] as an expression: a literal string. *)
Fixpoint re_literal (s : string) : re :=
  match s with "" => REps | String c s => RSeq (lit no_flags c) (re_literal s) end.

(** ** Sanity checks against documented behaviour *)

Example re_ex1 : (group_opt <$> re_match (rx "^(mov)\s+(x\d+|w\d+),\s*\2$") "mov x1, x1") ≫= (.$ 2%nat) = Some "x1".
Proof. vm_compute. reflexivity. Qed.
Example re_ex2 : re_match (rx "^(mov)\s+(x\d+|w\d+),\s*\2$") "mov x1, x2" = None.
Proof. vm_compute. reflexivity. Qed.
Example re_ex3 : (fun x => group x 1) <$> re_finditer (rx "\b(x\d+|sp)\b") "ldr x1, [sp, x20]" = ["x1"; "sp"; "x20"].
Proof. vm_compute. reflexivity. Qed.
Example re_ex4 : re_split (rx ",(?![^(]*\))") "a, b (c, d), e" = ["a"; " b (c, d)"; " e"].
Proof. vm_compute. reflexivity. Qed.
Example re_ex5 : (fun x => group x 0) <$> re_finditer (rx "x*") "axx" = [""; "xx"; ""].
Proof. vm_compute. reflexivity. Qed.

(** ** What the matcher decides

    [rmatch r s s'] is the matching relation; a repetition is a sequence of
    iterations each of which consumes a character.  [m_spec] says that the
    backtracking search finds a state its continuation accepts exactly when
    there is one. *)

Inductive iterate (R : st -> st -> Prop) : st -> st -> Prop :=
| iter_done s : iterate R s s
| iter_step s t u : R s t -> (st_pos s < st_pos t)%nat -> iterate R t u -> iterate R s u.

Definition with_caps (s : st) (caps : list (nat * (nat * nat))) : st :=
  mkst (st_before s) (st_rest s) (st_pos s) caps.

Fixpoint rmatch (r : re) (s s' : st) : Prop :=
  match r with
  | RSet neg ic items => exists c, advance s = Some (c, s') /\ set_match neg ic items c = true
  | RAny dotall => exists c, advance s = Some (c, s') /\ dotall || negb (Ascii.eqb c NL) = true
  | REps => s' = s
  | RSeq r1 r2 => exists t, rmatch r1 s t /\ rmatch r2 t s'
  | RAlt r1 r2 => rmatch r1 s s' \/ rmatch r2 s s'
  | RStar _ r => iterate (rmatch r) s s'
  | RGroup n r => exists t, rmatch r s t /\
      s' = mkst (st_before t) (st_rest t) (st_pos t) ((n, (st_pos s, st_pos t)) :: st_caps t)
  | RBackref n => exists i j, cap_get n (st_caps s) = Some (i, j) /\ eat (before_slice s i j) s = Some s'
  | RBol ml => at_bol ml s = true /\ s' = s
  | REol ml => at_eol ml s = true /\ s' = s
  | REnd => st_rest s = "" /\ s' = s
  | RWordB neg => xorb neg (at_wordb s) = true /\ s' = s
  | RLook true r => (forall t, ~ rmatch r s t) /\ s' = s
  | RLook false r => exists t, m r s Some = Some t /\ s' = with_caps s (st_caps t)
  end.

(** Every step moves forward over the rest of the subject. *)
Definition forward (s s' : st) : Prop :=
  (st_pos s <= st_pos s')%nat /\
  (st_pos s + String.length (st_rest s) = st_pos s' + String.length (st_rest s'))%nat.

Lemma forward_refl s : forward s s.
Proof. split; lia. Qed.

Lemma forward_trans s t u : forward s t -> forward t u -> forward s u.
Proof. unfold forward. lia. Qed.

Lemma advance_forward s c s' : advance s = Some (c, s') -> forward s s' /\ st_pos s' = S (st_pos s).
Proof.
  unfold advance, forward. destruct (st_rest s) as [|d r] eqn:E; [done|]. intros [= <- <-]. simpl. lia.
Qed.

Lemma eat_forward cs s s' : eat cs s = Some s' -> forward s s'.
Proof.
  revert s. induction cs as [|c cs IH]; intros s; cbn [eat].
  - intros [= <-]. apply forward_refl.
  - destruct (advance s) as [[d t]|] eqn:E; [|done]. destruct (Ascii.eqb c d); [|done].
    intros H. eapply forward_trans; [by eapply advance_forward|eauto].
Qed.

Lemma iterate_forward (R : st -> st -> Prop) s s' :
  (forall s s', R s s' -> forward s s') -> iterate R s s' -> forward s s'.
Proof.
  intros HR. induction 1 as [|s t u H _ _ IH]; [apply forward_refl|].
  eapply forward_trans; [apply HR, H|exact IH].
Qed.

Lemma rmatch_forward r s s' : rmatch r s s' -> forward s s'.
Proof.
  revert s s'. induction r as [neg ic items|dotall| |r1 IH1 r2 IH2|r1 IH1 r2 IH2|g r IH|n r IH|n|ml|ml| |neg|neg r IH];
    intros s s'; cbn [rmatch].
  - intros (c & H & _). by eapply advance_forward.
  - intros (c & H & _). by eapply advance_forward.
  - intros ->. apply forward_refl.
  - intros (t & H1 & H2). eapply forward_trans; eauto.
  - intros [H|H]; eauto.
  - intros H. by eapply iterate_forward.
  - intros (t & H & ->). specialize (IH _ _ H). exact IH.
  - intros (i & j & _ & H). by eapply eat_forward.
  - intros [_ ->]. apply forward_refl.
  - intros [_ ->]. apply forward_refl.
  - intros [_ ->]. apply forward_refl.
  - intros [_ ->]. apply forward_refl.
  - destruct neg; [intros [_ ->]; apply forward_refl|]. intros (t & _ & ->). exact (forward_refl s).
Qed.

(** Soundness and completeness of a search [mr] for a relation [R]. *)
Definition decides {X : Type} (mr : st -> (st -> option X) -> option X) (R : st -> st -> Prop) : Prop :=
  forall s k,
    (forall x, mr s k = Some x -> exists s', R s s' /\ k s' = Some x) /\
    (mr s k = None -> forall s', R s s' -> k s' = None).

Lemma star_decides {X : Type} (mr : st -> (st -> option X) -> option X) (R : st -> st -> Prop) greedy :
  decides mr R -> (forall s s', R s s' -> forward s s') ->
  forall n s k, (String.length (st_rest s) <= n)%nat ->
    (forall x, star_loop mr greedy k n s = Some x -> exists s', iterate R s s' /\ k s' = Some x) /\
    (star_loop mr greedy k n s = None -> forall s', iterate R s s' -> k s' = None).
Proof.
  intros HD HF n. induction n as [|n IH]; intros s k Hn; cbn [star_loop].
  - split; [intros x Hx; exists s; split; [constructor|done]|].
    intros H s' Hi. inversion Hi as [|? t ? HR Hlt _]; subst; [done|].
    pose proof (HF _ _ HR) as [_ HFl]. lia.
  - set (k' := fun s' => if (st_pos s' =? st_pos s)%nat then None else star_loop mr greedy k n s').
    destruct (HD s k') as [HS HC].
    assert (forall x, mr s k' = Some x -> exists s', iterate R s s' /\ k s' = Some x) as HS'.
    { intros x Hx. destruct (HS x Hx) as (t & Ht & Hk). unfold k' in Hk.
      destruct (Nat.eqb_spec (st_pos t) (st_pos s)) as [|Hne]; [done|].
      pose proof (HF _ _ Ht) as [Hle HFl].
      destruct (IH t k ltac:(lia)) as [IHS _]. destruct (IHS x Hk) as (u & Hu & Hku).
      exists u. split; [|done]. eapply iter_step; [exact Ht|lia|exact Hu]. }
    assert (mr s k' = None -> forall t u, R s t -> (st_pos s < st_pos t)%nat -> iterate R t u -> k u = None) as HC'.
    { intros HN t u Ht Hlt Hu. specialize (HC HN t Ht). unfold k' in HC.
      destruct (Nat.eqb_spec (st_pos t) (st_pos s)) as [|Hne]; [lia|].
      pose proof (HF _ _ Ht) as [Hle HFl]. destruct (IH t k ltac:(lia)) as [_ IHC]. by apply IHC. }
    destruct greedy.
    + destruct (mr s k') as [y|]; split; [intros x [= <-]; by apply HS'|done| |].
      * intros x Hx. exists s. split; [constructor|done].
      * intros Hk s' Hi. inversion Hi as [|? t ? HR Hlt Hrest]; subst; [done|]. eapply HC'; eauto.
    + destruct (k s) as [y|] eqn:Hks; split; [intros x [= <-]; exists s; split; [constructor|done]|done|exact HS'|].
      intros HN s' Hi. inversion Hi as [|? t ? HR Hlt Hrest]; subst; [done|]. eapply HC'; eauto.
Qed.

(** A character with a property, and a condition on the position *)
Lemma decides_char {X} (P : ascii -> bool) : decides
  (fun s (k : st -> option X) => match advance s with Some (c, t) => if P c then k t else None | None => None end)
  (fun s s' => exists c, advance s = Some (c, s') /\ P c = true).
Proof.
  intros s k. destruct (advance s) as [[c t]|] eqn:E; [|split; [done|by intros _ s' (c & ? & _)]].
  destruct (P c) eqn:Es; split.
  - intros x Hx. eauto.
  - intros Hk s' (d & [= <- <-] & _). done.
  - done.
  - intros _ s' (d & [= <- <-] & Hd). congruence.
Qed.

Lemma decides_cond {X} (b : st -> bool) : decides (fun s (k : st -> option X) => if b s then k s else None)
  (fun s s' => b s = true /\ s' = s).
Proof. intros s k. destruct (b s); split; [eauto|by intros H s' [_ ->]|done|by intros _ s' [? _]]. Qed.

Lemma m_spec r : forall X, decides (@m X r) (rmatch r).
Proof.
  induction r as [neg ic items|dotall| |r1 IH1 r2 IH2|r1 IH1 r2 IH2|g r IH|n r IH|n|ml|ml| |neg|neg r IH];
    intros X s k.
  - apply decides_char.
  - apply (decides_char (fun c => dotall || negb (Ascii.eqb c NL))).
  - cbn [m rmatch]. split; [eauto|by intros H s' ->].
  - cbn [m rmatch]. destruct (IH1 X s (fun s' => m r2 s' k)) as [HS HC]. split.
    + intros x Hx. destruct (HS x Hx) as (t & H1 & H2). destruct (IH2 X t k) as [HS2 _].
      destruct (HS2 x H2) as (u & H3 & H4). eauto.
    + intros HN s' (t & H1 & H2). destruct (IH2 X t k) as [_ HC2]. apply HC2; [|done]. by apply HC.
  - cbn [m rmatch]. destruct (IH1 X s k) as [HS1 HC1], (IH2 X s k) as [HS2 HC2].
    destruct (m r1 s k) as [y|].
    + split; [|done]. intros x [= <-]. destruct (HS1 y eq_refl) as (t & ? & ?). eauto.
    + split.
      * intros x Hx. destruct (HS2 x Hx) as (t & ? & ?). eauto.
      * intros HN s' [H|H]; [by apply HC1|by apply HC2].
  - cbn [m rmatch]. apply star_decides; [exact (IH X)|apply rmatch_forward|done].
  - cbn [m rmatch].
    destruct (IH X s (fun s' => k (mkst (st_before s') (st_rest s') (st_pos s')
      ((n, (st_pos s, st_pos s')) :: st_caps s')))) as [HS HC]. split.
    + intros x Hx. destruct (HS x Hx) as (t & ? & ?). eauto.
    + intros HN s' (t & Ht & ->). by apply HC.
  - cbn [m rmatch]. destruct (cap_get n (st_caps s)) as [[i j]|]; [|split; [done|by intros _ s' (i & j & ? & _)]].
    destruct (eat (before_slice s i j) s) as [t|] eqn:E; split.
    + intros x Hx. eauto 6.
    + intros HN s' (i' & j' & [= <- <-] & H). congruence.
    + done.
    + intros _ s' (i' & j' & [= <- <-] & H). congruence.
  - apply decides_cond.
  - apply decides_cond.
  - cbn [m rmatch]. destruct (st_rest s); split; [eauto|by intros H s' [_ ->]|done|by intros _ s' [? _]].
  - apply (decides_cond (fun s => xorb neg (at_wordb s))).
  - cbn [m rmatch]. destruct (IH st s Some) as [HS HC]. destruct neg, (m r s Some) as [t|].
    + split; [done|]. intros _ s' [H _]. destruct (HS t eq_refl) as (u & Hu & _). by destruct (H u).
    + split; [|by intros Hk s' [_ ->]]. intros x Hx. exists s. split; [split; [|done]|done].
      intros u Hu. specialize (HC eq_refl u Hu). done.
    + split; [intros x Hx; eauto|]. intros HN s' (u & [= <-] & ->). done.
    + split; [done|]. intros _ s' (u & ? & _). done.
Qed.

(** ** Facts about match objects *)

(** A successful [match] comes from a run of the relation from the start. *)
Lemma re_match_inv r s x : re_match r s = Some x ->
  exists s', rmatch r (st_start s) s' /\
    x = mkmatch 0 (st_pos s') (st_caps s') s.
Proof.
  unfold re_match, match_at. intros H. apply fmap_Some in H as ([y s'] & H & ->).
  destruct (m_spec r (mtch * st) (st_start s) (fun s' => if false && (st_pos s' =? st_pos (st_start s))%nat
    then None else Some (mkmatch (st_pos (st_start s)) (st_pos s') (st_caps s') s, s'))) as [HS _].
  destruct (HS _ H) as (t & Ht & Hk). cbn [andb] in Hk. injection Hk as <- <-. eauto.
Qed.

(** [match] fails exactly when the relation has no run. *)
Lemma re_match_None r s : re_match r s = None <-> forall s', ~ rmatch r (st_start s) s'.
Proof.
  unfold re_match, match_at.
  destruct (m_spec r (mtch * st) (st_start s) (fun s' => if false && (st_pos s' =? st_pos (st_start s))%nat
    then None else Some (mkmatch (st_pos (st_start s)) (st_pos s') (st_caps s') s, s'))) as [HS HC].
  split.
  - intros H s' Hr. apply fmap_None in H. by specialize (HC H s' Hr).
  - intros H. apply fmap_None. destruct (m r _ _) as [y|]; [|done].
    destruct (HS y eq_refl) as (t & Ht & _). by destruct (H t).
Qed.

Lemma length_drop_str n s : String.length (drop_str n s) = (String.length s - n)%nat.
Proof. revert s. induction n as [|n IH]; intros [|c s]; simpl; [done|done|done|apply IH]. Qed.

Lemma length_take_str n s : (String.length (take_str n s) <= String.length s)%nat.
Proof.
  revert s. induction n as [|n IH]; intros [|c s]; cbn [take_str String.length]; [lia..|].
  specialize (IH s). lia.
Qed.

Lemma length_slice i j s : (String.length (slice i j s) <= String.length s - i)%nat.
Proof. unfold slice. etrans; [apply length_take_str|]. by rewrite length_drop_str. Qed.

Lemma length_lstrip_by f s : (String.length (lstrip_by f s) <= String.length s)%nat.
Proof. induction s as [|c s IH]; cbn [lstrip_by String.length]; [lia|]. destruct (f c); simpl; lia. Qed.

Lemma length_rstrip_by f s : (String.length (rstrip_by f s) <= String.length s)%nat.
Proof.
  induction s as [|c s IH]; cbn [rstrip_by String.length]; [lia|].
  destruct (rstrip_by f s) as [|d t]; [destruct (f c); simpl; lia|simpl in *; lia].
Qed.

Lemma length_strip s : (String.length (strip s) <= String.length s)%nat.
Proof. unfold strip, strip_by. etrans; [apply length_rstrip_by|apply length_lstrip_by]. Qed.

Lemma matches_spec r s : matches r s = true <-> is_Some (re_match r s).
Proof. apply bool_decide_eq_true. Qed.
