(* ===== verification/AsmParse.v ===== *)
(** * The assembly parser (scripts/asmparse.py)

    Lines, labels and instructions; operand splitting; branch target
    resolution; macro definitions and their expansion; the scan of a file
    into callable regions; and the tree-wide index with its call graph.

    Files are values: a file is its path relative to the repository and its
    text, and a tree is the sorted list of them.  [host_is_linux] is the
    [linux] argument every function takes. *)

From Stdlib Require Import Ascii Sorted.
From S2P Require Import Prelude PyInt PyStr Regex.

(** ** Lines, labels and directives *)

Definition SKIP_FILES : list string :=
  ["config.S"; "defs.S"; "embedded.S"; "cert_data.S"; "h2_huffman_table.S"].

Definition LABEL_RE : re := Eval vm_compute in rx "^(\.?[A-Za-z0-9_.$]+):\s*(.*)$".

Definition DIRECTIVE_RE : re := Eval vm_compute in
  rx ("^\.(align|p2align|balign|text|data|bss|globa?l|equ|set|byte|hword|short|"
      +:+ "word|long|quad|octa|single|double|float|section|subsection|macro|endm|"
      +:+ "asciz|ascii|string|space|skip|fill|zero|rept|irp|endr|type|size|extern|"
      +:+ "weak|hidden|protected|comm|lcomm|cfi_\w+|loc|file|ident|pushsection|"
      +:+ "popsection|include|if\w*|else|endif|arch|cpu|abort)\b").

Definition DATA_DIRECTIVE_RE : re := Eval vm_compute in
  rx ("^\.(byte|hword|short|word|long|quad|octa|single|double|float|asciz|"
      +:+ "ascii|string|space|skip|fill|zero|comm|lcomm)\b").

Definition GLOBAL_RE : re := Eval vm_compute in rx "^\.globa?l\s+([A-Za-z0-9_.$]+)".

Definition SYMBOL_MACRO_RE : re := Eval vm_compute in rx "^(?:FUNC|OBJECT)\s+([A-Za-z0-9_.$]+)\s*$".

Definition symbol_macro (line : string) : option string :=
  (fun x => group x 1) <$> re_match SYMBOL_MACRO_RE line.

Definition SYMBOL_DIRECTIVE_RE : re := Eval vm_compute in
  rx "^(?:FUNC|ENDFUNC|OBJECT|ENDOBJ)\s+[A-Za-z0-9_.$]+\s*$".

Definition HEADER_DIRECTIVE_RE : re := Eval vm_compute in
  rx ("^\.(align|p2align|balign|globa?l|type|size|extern|weak|hidden|"
      +:+ "protected|text|section|cfi_\w+)\b").

(** [line = line[:line.find(marker)]] when the marker occurs *)
Definition strip_comment (line : string) : string :=
  strip (for_each ["//"; "/*"] line (fun line marker => before marker line)).

Definition is_label (line : string) : option (string * string) :=
  if matches DIRECTIVE_RE line then None
  else x ← re_match LABEL_RE line; Some (group x 1, strip (group x 2)).

(** The loop [while True: found = is_label(line); ...] every scan contains:
    the names of the leading labels and what follows the last one.  Each
    label is shorter by at least two characters, so [length line] rounds
    suffice ([label_loop_done] below). *)
Fixpoint label_loop (fuel : nat) (line : string) : list string * string :=
  match fuel with
  | O => ([], line)
  | S fuel =>
      match is_label line with
      | None => ([], line)
      | Some (name, rest) =>
          if rest =s? "" then ([name], rest)
          else let '(names, rest) := label_loop fuel rest in (name :: names, rest)
      end
  end.
Definition strip_labels (line : string) : list string * string :=
  label_loop (String.length line) line.

Record Instruction : Type := mkInsn {
  line : nat;
  text : string;
  mnemonic : string;
  operands : list string
}.

Definition REG_RE : re := Eval vm_compute in
  rx "\b(x\d+|w\d+|v\d+|d\d+|q\d+|s\d+|b\d+|h\d+|sp|wsp|xzr|wzr)\b".

(** [Instruction.regs] *)
Definition regs (i : Instruction) : list string :=
  operand ← operands i; (fun x => group x 1) <$> re_finditer REG_RE operand.

(** [labels: dict[str, list[int]]] *)
Definition labels_map : Type := list (string * list nat).

(** [labels.setdefault(name, []).append(v)] *)
Definition append_to {X} (d : list (string * list X)) (name : string) (v : X) : list (string * list X) :=
  dict_set d name (default [] (dict_get d name) ++ [v]).

(** The scan of [split_operands]: the finished pieces, the bracket depth and
    the piece being read. *)
Definition split_step (s : list string * Z * string) (c : ascii) : list string * Z * string :=
  let '(out, depth, current) := s in
  let depth := if mem_char c "[{" then depth + 1 else if mem_char c "]}" then depth - 1 else depth in
  if Ascii.eqb c "," && (depth <=? 0) then (out ++ [current], depth, "")
  else (out, depth, current +:+ String c "").

Fixpoint split_scan (text : string) (s : list string * Z * string) : list string * Z * string :=
  match text with "" => s | String c text => split_scan text (split_step s c) end.

Definition split_operands (text : string) : list string :=
  let '(out, _, current) := split_scan text ([], 0, "") in
  let out := if current =s? "" then out else out ++ [current] in
  filter (fun o => o <> "") (strip <$> out).

(** One line of [parse_instructions]. *)
Definition parse_line (s : list Instruction * labels_map) (lr : nat * string)
  : list Instruction * labels_map :=
  let '(instructions, labels) := s in
  let '(lineno, raw) := lr in
  let line := strip_comment raw in
  if line =s? "" then s else
  let '(names, line) := strip_labels line in
  let labels := for_each names labels (fun labels name => append_to labels name (length instructions)) in
  if line =s? "" then (instructions, labels) else
  if startswith "#" line || startswith "." line then (instructions, labels) else
  if matches SYMBOL_DIRECTIVE_RE line then (instructions, labels) else
  match split_ws1 line with
  | [] => (instructions, labels)
  | [mnemonic] => (instructions ++ [mkInsn lineno raw mnemonic []], labels)
  | mnemonic :: rest :: _ =>
      (instructions ++ [mkInsn lineno raw mnemonic (strip <$> split_operands rest)], labels)
  end.

(** [enumerate(l, start=n)] *)
Fixpoint enumerate {X} (n : nat) (l : list X) : list (nat * X) :=
  match l with [] => [] | x :: l => (n, x) :: enumerate (S n) l end.

Definition parse_instructions (source : string) : list Instruction * labels_map :=
  for_each (enumerate 1 (splitlines source)) ([], []) parse_line.

(** [max(l)] and [min(l)] of a non-empty list of indices *)
Definition py_max (l : list nat) : option nat :=
  match l with [] => None | x :: l => Some (foldl Nat.max x l) end.
Definition py_min (l : list nat) : option nat :=
  match l with [] => None | x :: l => Some (foldl Nat.min x l) end.

(** [(target[:-1], target[-1])] *)
Fixpoint unsnoc (s : string) : option (string * ascii) :=
  match s with
  | "" => None
  | String c "" => Some ("", c)
  | String c s => '(t, d) ← unsnoc s; Some (String c t, d)
  end.

(** ["2b"] / ["3f"]: the label number and whether the direction is [b]. *)
Definition numeric_target (target : string) : option (string * bool) :=
  match unsnoc target with
  | Some (name, "b"%char) => if isdigit name then Some (name, true) else None
  | Some (name, "f"%char) => if isdigit name then Some (name, false) else None
  | _ => None
  end.

Definition resolve_target (target : string) (labels : labels_map) (current : nat) : option nat :=
  let target := strip target in
  match numeric_target target with
  | Some (name, dir_b) =>
      let values := default [] (dict_get labels name) in
      if dir_b then py_max (filter (fun v => (v <= current)%nat) values)
      else py_min (filter (fun v => (current < v)%nat) values)
  | None =>
      let values := default [] (dict_get labels target) in
      match values with
      | [] => None
      | [v] => Some v
      | _ => match py_min (filter (fun v => (current <= v)%nat) values) with
             | Some v => Some v
             | None => py_max values
             end
      end
  end.

(** ** Macro expansion *)

Record Macro : Type := mkMacro {
  mac_name : string;
  mac_params : list (string * option string);
  mac_body : list string
}.

Definition macros_map : Type := list (string * Macro).

(** The loop state of [parse_macros]; [branch] keeps the innermost condition
    first. *)
Record macro_state : Type := mkMS {
  ms_macros : macros_map;
  ms_branch : list bool;
  ms_active : bool;
  ms_current : option Macro
}.

Definition all (l : list bool) : bool := forallb id l.

Definition set_branch (s : macro_state) (branch : list bool) : macro_state :=
  mkMS (ms_macros s) branch (all branch) (ms_current s).

(** [.macro name, p, q=default] after the directive name *)
Definition parse_macro_decl (line : string) : Macro :=
  let decl := strip (drop_str 6 (strip_comment line)) in
  let head := before " " decl in
  let rest := after " " decl in
  let name := rstrip_chars "," head in
  let params :=
    part ← split_char "," rest;
    let part := strip part in
    if part =s? "" then []
    else match partition "=" part with
         | (pname, Some dflt) => [(strip pname, Some (strip dflt))]
         | (pname, None) => [(strip pname, None)]
         end in
  mkMacro name params [].

Definition parse_macros_line (linux : bool) (s : macro_state) (raw : string) : macro_state :=
  let line := strip raw in
  if startswith "#ifdef __linux__" line then set_branch s (linux :: ms_branch s) else
  if startswith "#ifndef __linux__" line then set_branch s (negb linux :: ms_branch s) else
  match startswith "#else" line, startswith "#endif" line, ms_branch s with
  | true, _, b :: branch => set_branch s (negb b :: branch)
  | false, true, _ :: branch => set_branch s branch
  | _, _, _ =>
      match ms_current s with
      | Some current =>
          if startswith ".endm" line then
            mkMS (if ms_active s then dict_set (ms_macros s) (mac_name current) current else ms_macros s)
                 (ms_branch s) (ms_active s) None
          else mkMS (ms_macros s) (ms_branch s) (ms_active s)
                    (Some (mkMacro (mac_name current) (mac_params current) (mac_body current ++ [raw])))
      | None =>
          if startswith ".macro" line
          then mkMS (ms_macros s) (ms_branch s) (ms_active s) (Some (parse_macro_decl line))
          else s
      end
  end.

Definition parse_macros (defs_text : string) (linux : bool) : macros_map :=
  ms_macros (for_each (splitlines defs_text) (mkMS [] [] true None) (parse_macros_line linux)).

(** [sorted(l, key=len, reverse=True)]: a stable sort, longest first. *)
Definition sort_longest : list (string * string) -> list (string * string) :=
  sort_by (fun p q => String.length q.1 <? String.length p.1)%nat.

(** The bindings of an invocation, in parameter order. *)
Definition bind_params (params : list (string * option string)) (args : list string)
  : list (string * string) :=
  for_each (enumerate 0 params) [] (fun bindings '(i, (pname, dflt)) =>
    dict_set bindings pname
      match args !! i with
      | Some a => a
      | None => default "" dflt
      end).

Definition expand_body_line (bindings : list (string * string)) (body_line : string) : string :=
  for_each (sort_longest bindings) body_line (fun expanded '(pname, v) =>
    replace ("\" +:+ pname) v expanded).

(** One line of a round: the lines it becomes, and whether it changed. *)
Definition expand_line (macros : macros_map) (raw : string) : list string * bool :=
  let stripped := strip_comment raw in
  if stripped =s? "" then ([raw], false) else
  let '(names, stripped) := strip_labels stripped in
  let prefix := String.concat "" ((fun name => name +:+ ":" +:+ nl) <$> names) in
  match dict_get macros (rstrip_chars "," (before " " stripped)) with
  | None => ([raw], false)
  | Some macro =>
      let args := split_operands (after " " stripped) in
      let bindings := bind_params (mac_params macro) args in
      ((if prefix =s? "" then [] else [rstrip_chars nl prefix])
         ++ (expand_body_line bindings <$> mac_body macro), true)
  end.

Definition expand_round (macros : macros_map) (text : string) : string * bool :=
  let rs := expand_line macros <$> splitlines text in
  (join nl (rs ≫= fst), existsb snd rs).

(** [for _ in range(depth): ...; if not changed: break] *)
Definition expand_macros (text : string) (macros : macros_map) (depth : nat) : string :=
  match macros with
  | [] => text
  | _ => iter_changed depth (expand_round macros) text
  end.

(** A tree: the sorted [.S] files under [src/], with their texts. *)
Definition tree : Type := list (string * string).
Definition DEFS : string := "src/defs.S".

Definition load_macros (files : tree) (linux : bool) : macros_map :=
  let macros := for_each (filter (fun f => f.1 = DEFS) files) [] (fun macros '(_, text) =>
    for_each (parse_macros text linux) macros (fun macros '(name, m) => dict_set macros name m)) in
  for_each (filter (fun f => f.1 <> DEFS) files) macros (fun macros '(_, text) =>
    if contains ".macro" text then
      for_each (parse_macros text linux) macros (fun macros '(name, m) => dict_setdefault macros name m)
    else macros).

(** ** Regions *)

Record Region : Type := mkRegion {
  name : string;
  path : string;
  label_line : nat;
  start_line : nat;
  end_line : nat;
  r_text : string;
  body : string;
  doc : string;
  is_global : bool;
  is_local_label : bool;
  falls_through_to : option string;
  enclosing : option string
}.

Definition set_doc (r : Region) (d : string) : Region :=
  mkRegion (name r) (path r) (label_line r) (start_line r) (end_line r) (r_text r) (body r) d
           (is_global r) (is_local_label r) (falls_through_to r) (enclosing r).
Definition set_falls_through (r : Region) (o : option string) : Region :=
  mkRegion (name r) (path r) (label_line r) (start_line r) (end_line r) (r_text r) (body r) (doc r)
           (is_global r) (is_local_label r) o (enclosing r).

Definition CARRY_RE : re := Eval vm_compute in rx_i "carry\s+(set|clear)".

(** [Region.carry_abi] *)
Definition carry_abi (doc : string) : bool := searches CARRY_RE doc.

Definition FIELD_RE : re := Eval vm_compute in rx "^[A-Z][A-Za-z/ ]+:".

(** A rule line: [set(text) <= {"-", "─", "="}]; the box character is the
    UTF-8 sequence E2 94 80. *)
Definition BOX : string := String "226" (String "148" (String "128" "")).
Fixpoint rule_line (fuel : nat) (s : string) : bool :=
  match fuel with
  | O => s =? ""
  | S fuel =>
      match s with
      | "" => true
      | String "-" s | String "=" s => rule_line fuel s
      | _ => startswith BOX s && rule_line fuel (drop_str 3 s)
      end
  end%string.

(** The text of a doc line without its comment marker. *)
Definition doc_text (raw : string) : string :=
  let text := strip raw in
  if startswith "//" text then strip (drop_str 2 text) else text.

(** The lines after the field's own line, up to the end of the block. *)
Fixpoint doc_field_rest (lines : list string) : list string :=
  match lines with
  | [] => []
  | raw :: lines =>
      let text := doc_text raw in
      if (text =s? "") || rule_line (String.length text) text then []
      else if matches FIELD_RE text then []
      else text :: doc_field_rest lines
  end.

Fixpoint doc_field_lines (field_name : string) (lines : list string) : option (list string) :=
  match lines with
  | [] => None
  | raw :: lines =>
      let text := doc_text raw in
      if startswith (field_name +:+ ":") text then
        let rest := strip (drop_str (String.length field_name + 1) text) in
        Some ((if rest =s? "" then [] else [rest]) ++ doc_field_rest lines)
      else doc_field_lines field_name lines
  end.

Definition doc_field (doc field_name : string) : option string :=
  (fun collected => strip (join " " collected)) <$> doc_field_lines field_name (splitlines doc).

(** [Region.documented_clobbers] *)
Definition documented_clobbers (r : Region) : option string := doc_field (doc r) "Clobbered Registers".

(** The first pass of [_classify_lines]: labels with their line index, and
    the global names. *)
Definition classify_line (s : list (nat * string) * list string) (ir : nat * string)
  : list (nat * string) * list string :=
  let '(labels, globals) := s in
  let '(i, raw) := ir in
  let line := strip_comment raw in
  if line =s? "" then s else
  match re_match GLOBAL_RE line with
  | Some x => (labels, globals ++ [group x 1])
  | None =>
      match symbol_macro line with
      | Some declared => (labels ++ [(i, declared)], globals ++ [declared])
      | None => match is_label line with
                | Some (name, _) => (labels ++ [(i, name)], globals)
                | None => s
                end
      end
  end.

(** Is the first content at or below a label data? *)
Fixpoint first_content_is_data (lines : list string) : bool :=
  match lines with
  | [] => false
  | raw :: lines =>
      let line := (strip_labels (strip_comment raw)).2 in
      if line =s? "" then first_content_is_data lines
      else if bool_decide (is_Some (symbol_macro line)) then first_content_is_data lines
      else if matches HEADER_DIRECTIVE_RE line then first_content_is_data lines
      else matches DATA_DIRECTIVE_RE line
  end.

(** [_classify_lines]: the labels with their data flag, and the globals; the
    third component of the code's result is the set of data label indices. *)
Definition classify_lines (text : string) : list (nat * string * bool) * list string :=
  let lines := splitlines text in
  let '(labels, globals) := for_each (enumerate 0 lines) ([], []) classify_line in
  ((fun '(i, n) => (i, n, first_content_is_data (drop i lines))) <$> labels, globals).

Definition FUNCTION_NAME_RE : re := Eval vm_compute in rx "^//\s*Function Name:\s*([A-Za-z0-9_.$]+)".

(** [flush] of [_doc_blocks] *)
Fixpoint block_name (current : list string) : option string :=
  match current with
  | [] => None
  | l :: current => match re_match FUNCTION_NAME_RE (strip l) with
                    | Some x => Some (group x 1)
                    | None => block_name current
                    end
  end.
Definition flush_block (blocks : list (string * string)) (current : list string) : list (string * string) :=
  match block_name current with
  | Some n => dict_setdefault blocks n (join nl current)
  | None => blocks
  end.

Definition doc_blocks (lines : list string) : list (string * string) :=
  let '(blocks, current) := for_each lines ([], []) (fun '(blocks, current) raw =>
    if startswith "//" (strip raw) then (blocks, current ++ [raw])
    else (flush_block blocks current, [])) in
  flush_block blocks current.

(** Does a line belong to the header of the label below it? *)
Definition header_line (raw : string) : bool :=
  let text := strip raw in
  let stripped := strip_comment raw in
  (text =s? "") || startswith "//" text || startswith "/*" text || startswith "*" text
  || (negb (stripped =s? "") && matches HEADER_DIRECTIVE_RE stripped).

(** The [while j >= floor] loop, with [n = j + 1 - floor] iterations left. *)
Fixpoint header_walk (lines : list string) (floor n : nat) : nat :=
  match n with
  | O => floor
  | S n => if header_line (lines !!! (floor + n)%nat) then header_walk lines floor n else S (floor + n)
  end.

Definition header_start (lines : list string) (label_index floor : nat) : nat :=
  if (floor <=? label_index)%nat then header_walk lines floor (label_index - floor) else label_index.

Definition TERMINATORS : list string := ["ret"; "br"; "b"; "eret"].
Definition SYSCALL_MNEMONICS : list string := ["svc"; "SCWISVC"].
Definition EXIT_NUMBER_RE : re := Eval vm_compute in rx "\bSYS_exit(?:_group)?\b".

(** [_terminates], [false] on the empty list the code never passes. *)
Definition terminates (insns : list Instruction) : bool :=
  match list.last insns with
  | None => false
  | Some i =>
      if bool_decide (mnemonic i ∈ TERMINATORS) then true
      else if negb (bool_decide (mnemonic i ∈ SYSCALL_MNEMONICS)) then false
      else existsb (fun i => searches EXIT_NUMBER_RE (text i)) (drop (length insns - 6) insns)
  end.

Section scan_regions.
Context (lines : list string) (candidates : list (nat * string)) (globals : list string)
        (data_label_starts : list nat).

(** [next(n for i, n in candidates if i == index)] *)
Definition name_at (index : nat) : string :=
  default "" (snd <$> list_find (fun c => c.1 = index) candidates ≫= fun c => Some c.2).

Definition region_floor (label_index : nat) : nat :=
  for_each candidates 0%nat (fun floor '(other, _) =>
    if (other <? label_index)%nat then Nat.max floor (other + 1) else floor).

(** The end of a region before its own closing marker is looked for. *)
Definition raw_end (label_index : nat) (next_index : option nat) : nat :=
  let e := match next_index with
           | Some n => header_start lines n (label_index + 1)
           | None => length lines
           end in
  match list_find (fun d => (label_index < d < e)%nat) data_label_starts with
  | Some (_, d) => header_start lines d (label_index + 1)
  | None => e
  end.

(** [text in ("ENDFUNC name", "ENDOBJ name")] *)
Definition is_closer (n raw : string) : bool :=
  let t := strip_comment raw in (t =s? "ENDFUNC " +:+ n) || (t =s? "ENDOBJ " +:+ n).

Definition extent (label_index : nat) (next_index : option nat) : nat * nat :=
  let start := header_start lines label_index (region_floor label_index) in
  let e := raw_end label_index next_index in
  let n := name_at label_index in
  match list_find (fun offset => is_closer n (lines !!! offset) = true)
                  (seq (label_index + 1) (e - (label_index + 1))) with
  | Some (_, offset) => (start, offset + 1)%nat
  | None => (start, e)
  end.

(** Each element with the index of the next one. *)
Fixpoint with_next (l : list nat) : list (nat * option nat) :=
  match l with [] => [] | i :: l => (i, head l) :: with_next l end.

Definition global_indices : list nat := fst <$> filter (fun c => c.2 ∈ globals) candidates.
Definition global_extents : list (nat * nat) :=
  (fun '(i, nxt) => (i, (extent i nxt).2)) <$> with_next global_indices.

Definition enclosing_global (label_index : nat) : option string :=
  '(_, (start, _)) ← list_find (fun se : nat * nat => (se.1 < label_index < se.2)%nat) global_extents;
  Some (name_at start).

Definition top_level : list (nat * string) :=
  filter (fun c => c.2 ∈ globals \/ enclosing_global c.1 = None) candidates.

Definition slice_lines (a b : nat) : list string := take (b - a) (drop a lines).

Definition make (p : string) (blocks : list (string * string)) (label_index : nat)
  (next_index : option nat) (encl : option string) : Region :=
  let '(start, e) := extent label_index next_index in
  let n := name_at label_index in
  let d := join nl (filter (fun raw => startswith "//" (strip raw) = true) (slice_lines start label_index)) in
  let d := if contains "Function Name:" d then d else default d (dict_get blocks n) in
  mkRegion n p (label_index + 1) (start + 1) (e + 1)
    (join nl (slice_lines start e)) (join nl (slice_lines label_index e)) d
    (bool_decide (n ∈ globals)) (startswith ".L" n || startswith "L" n) None encl.

Definition top_regions (p : string) (blocks : list (string * string)) : list Region :=
  (fun '(i, nxt) => make p blocks i nxt None) <$> with_next (fst <$> top_level).

Definition nested_regions (p : string) (blocks : list (string * string)) : list Region :=
  (fun c : nat * string =>
     make p blocks c.1 (py_min (filter (fun i => (c.1 < i)%nat) (fst <$> candidates)))
          (enclosing_global c.1))
  <$> filter (fun c => c.1 ∉ fst <$> top_level) candidates.
End scan_regions.

(** [regions.sort(key=lambda r: (r.label_line, r.enclosing is not None))] *)
Definition region_before (a b : Region) : bool :=
  (label_line a <? label_line b)%nat
  || ((label_line a =? label_line b)%nat
      && negb (is_some (enclosing a)) && is_some (enclosing b)).
Definition sort_regions : list Region -> list Region := sort_by region_before.

(** The fallthrough links: a region that does not end in a terminator runs on
    into the next region of the same tier. *)
Definition same_tier (a b : Region) : bool := Bool.eqb (is_some (enclosing a)) (is_some (enclosing b)).
Fixpoint link_fallthrough (rs : list Region) : list Region :=
  match rs with
  | [] => []
  | r :: rs =>
      let insns := (parse_instructions (body r)).1 in
      match list_find (fun q => same_tier r q = true) rs with
      | Some (_, nxt) =>
          if bool_decide (insns = []) || negb (terminates insns)
          then set_falls_through r (Some (name nxt)) else r
      | None => r
      end :: link_fallthrough rs
  end.

(** [sorted(l)] on indices *)
Definition sort_nat : list nat -> list nat := sort_by Nat.ltb.

Definition code_candidates (labels : list (nat * string * bool)) (names : list string)
  : list (nat * string) :=
  fst <$> filter (fun l : nat * string * bool => l.2 = false /\ l.1.2 ∈ names) labels.

Definition scan_regions (text p : string) (call_targets : list string) : list Region :=
  let lines := splitlines text in
  let '(labels, globals) := classify_lines text in
  let blocks := doc_blocks lines in
  let candidates := code_candidates labels (globals ++ call_targets) in
  let data_label_starts := sort_nat ((fun l => l.1.1) <$> filter (fun l : nat * string * bool => l.2 = true) labels) in
  let regions := top_regions lines candidates globals data_label_starts p blocks
                 ++ nested_regions lines candidates globals data_label_starts p blocks in
  link_fallthrough (sort_regions regions).

(** ** The call graph *)

Definition BL_RE : re := Eval vm_compute in rx "^bl\s+([A-Za-z0-9_.$]+)".
Definition B_RE : re := Eval vm_compute in rx "^b\s+([A-Za-z_.$][A-Za-z0-9_.$]*)".

Definition branch_targets_line (s : list string * list string) (raw : string) : list string * list string :=
  let '(calls, tails) := s in
  let line := strip_comment raw in
  if line =s? "" then s else
  let line := (strip_labels line).2 in
  match re_match BL_RE line with
  | Some x => (calls ++ [group x 1], tails)
  | None => match re_match B_RE line with
            | Some x => (calls, tails ++ [group x 1])
            | None => s
            end
  end.

Definition branch_targets_in (text : string) (macros : macros_map) : list string * list string :=
  for_each (splitlines (expand_macros text macros 4)) ([], []) branch_targets_line.

Definition call_targets_in (text : string) (macros : macros_map) : list string :=
  (branch_targets_in text macros).1.

Record SourceIndex : Type := mkIndex {
  regions : list Region;
  by_name : list (string * Region);
  all_by_name : list (string * list Region);
  macros : macros_map;
  callers : list (string * list (string * string));
  calls : list (string * list string);
  tail_calls : list (string * list string);
  references : list (string * list string)
}.

Definition call_sites (ix : SourceIndex) (n : string) : nat := length (default [] (dict_get (callers ix) n)).
Definition referenced (ix : SourceIndex) (n : string) : bool :=
  negb (bool_decide (default [] (dict_get (references ix) n) = [])).

(** [SourceIndex.analysis_body(region, _depth)] *)
Fixpoint analysis_loop (named : list (string * Region)) (depth : nat) (current : Region)
  (seen : list string) (acc : string) : string :=
  match depth with
  | O => acc
  | S depth =>
      match falls_through_to current with
      | None => acc
      | Some f =>
          match dict_get named f with
          | None => acc
          | Some nxt =>
              if bool_decide (name nxt ∈ seen) then acc
              else analysis_loop named depth nxt (name nxt :: seen) (acc +:+ nl +:+ body nxt)
          end
      end
  end.
Definition analysis_body (ix : SourceIndex) (r : Region) (depth : nat) : string :=
  analysis_loop (by_name ix) depth r [name r] (body r).

(** [p.name]: the last component of a path *)
Definition base_name (p : string) : string := default "" (list.last (split_char "/" p)).

(** A Python set built by insertion: no duplicates, in insertion order. *)
Definition set_add (l : list string) (x : string) : list string :=
  if bool_decide (x ∈ l) then l else l ++ [x].
Definition set_of (l : list string) : list string := for_each l [] set_add.

(** Pass 3 for one region: the callees, and the tail calls resolved through
    the label owners. *)
Definition resolve_tails (known : list string) (owner : list (string * string * string))
  (r : Region) (tails : list string) : list string :=
  let local := dict_keys (parse_instructions (body r)).2 in
  for_each tails [] (fun resolved target =>
    if bool_decide (target ∈ local) || (target =s? name r) then resolved
    else if bool_decide (target ∈ known) then set_add resolved target
    else match dict_get owner (path r, target) with
         | Some o => if o =s? name r then resolved else set_add resolved o
         | None => resolved
         end).

Definition BRANCH_LINE_RE : re := Eval vm_compute in rx "^(bl|blr|b|b\.\w+|bc\.\w+)\s".
(** [re.compile(r"\b" + re.escape(name) + r"\b")] *)
Definition word_re (n : string) : re := RSeq (RWordB false) (RSeq (re_literal n) (RWordB false)).

(** Pass 4 for one line: the names it mentions as an address. *)
Definition line_references (names : list string) (raw : string) : list string :=
  let line := strip_comment raw in
  if line =s? "" then [] else
  let line := (strip_labels line).2 in
  if (line =s? "") || matches DIRECTIVE_RE line && negb (matches DATA_DIRECTIVE_RE line) then []
  else if matches BRANCH_LINE_RE line then []
  else filter (fun n => searches (word_re n) line = true) names.

Definition index_source (files : tree) (linux : bool) : SourceIndex :=
  let macros := load_macros files linux in
  let texts := filter (fun f : string * string => base_name f.1 ∉ SKIP_FILES) files in
  let call_targets := set_of (texts ≫= fun f => call_targets_in f.2 macros) in
  let docs := for_each texts [] (fun d f =>
    for_each (doc_blocks (splitlines f.2)) d (fun d '(n, b) => dict_setdefault d n b)) in
  let regions := f ← texts;
    (fun r => if contains "Clobbered Registers:" (doc r) then r
              else set_doc r (default (doc r) (dict_get docs (name r))))
    <$> scan_regions f.2 f.1 call_targets in
  let named := for_each regions [] (fun d r => dict_setdefault d (name r) r) in
  let all_named := for_each regions [] (fun d r => append_to d (name r) r) in
  let known := dict_keys named in
  let owner := for_each regions [] (fun d r =>
    for_each (dict_keys (parse_instructions (body r)).2) d (fun d label =>
      dict_set d (path r, label) (name r))) in
  let '(callers, calls, tail_calls) :=
    for_each regions ([], [], []) (fun '(callers, calls, tail_calls) r =>
      let '(cs, ts) := branch_targets_in (body r) macros in
      let callees := set_of cs in
      let resolved := resolve_tails known owner r ts in
      (for_each (callees ++ resolved) callers (fun d c => append_to d c (name r, path r)),
       dict_set calls (name r) callees, dict_set tail_calls (name r) resolved)) in
  let references := for_each texts [] (fun d f =>
    for_each (splitlines f.2) d (fun d raw =>
      for_each (line_references known raw) d (fun d n =>
        dict_set d n (set_add (default [] (dict_get d n)) f.1)))) in
  mkIndex regions named all_named macros callers calls tail_calls references.

(** ** Lemmas: labels *)

(** Split a matched concatenation into its steps. *)
Ltac split_rmatch H :=
  repeat match type of H with
  | exists _, _ => let t := fresh "t" in destruct H as [t H]
  | _ /\ _ => let H1 := fresh "H" in destruct H as [H1 H]
  end.

Lemma iterate_forward_set (f : ascii -> bool) s s' :
  iterate (fun s s' => exists c, advance s = Some (c, s') /\ f c = true) s s' -> forward s s'.
Proof. apply iterate_forward. intros ? ? (c & H & _). by eapply advance_forward. Qed.

(** What follows a label is strictly shorter than the line. *)
Lemma is_label_shorter l n rest : is_label l = Some (n, rest) ->
  (String.length rest < String.length l)%nat.
Proof.
  unfold is_label. destruct (matches DIRECTIVE_RE l); [done|].
  intros (x & H & [= <- <-])%bind_Some. apply re_match_inv in H as (s' & H & ->).
  eapply Nat.le_lt_trans; [apply length_strip|].
  unfold LABEL_RE in H. cbn [rmatch] in H.
  destruct H as (t & (t0 & (t1 & (t2 & (t3 & [_ ->] & t4 & (t5 & H1 & t6 & (c & Hc & _) & H3) & ->) & d & Hd & _) & H4)
    & t7 & H5 & ->) & _ & ->).
  cbn [st_caps]. unfold group, group_opt, group_span. cbn [cap_get Nat.eqb m_caps m_str].
  eapply Nat.le_lt_trans; [apply length_slice|].
  assert (forward (st_start l) t5) as F1.
  { destruct H1 as [(e & He & _)| ->]; [by eapply advance_forward|apply forward_refl]. }
  destruct (advance_forward _ _ _ Hc) as [F2 E2].
  apply iterate_forward_set in H3. destruct (advance_forward _ _ _ Hd) as [F4 E4].
  apply iterate_forward_set in H4. unfold forward in *. cbn [st_start st_pos st_rest st_before] in *. lia.
Qed.

Lemma label_loop_rest fuel l : (String.length l <= fuel)%nat ->
  (label_loop fuel l).2 = "" \/ is_label (label_loop fuel l).2 = None.
Proof.
  revert l. induction fuel as [|fuel IH]; intros l Hl; cbn [label_loop].
  - left. destruct l; [done|simpl in Hl; lia].
  - destruct (is_label l) as [[n rest]|] eqn:E; [|by right].
    destruct (rest =s? "") eqn:Er; [left; by apply seqb_true|].
    apply is_label_shorter in E. specialize (IH rest ltac:(lia)).
    destruct (label_loop fuel rest). exact IH.
Qed.

Lemma strip_labels_first l n rest : is_label l = Some (n, rest) -> n ∈ (strip_labels l).1.
Proof.
  intros H. unfold strip_labels. pose proof (is_label_shorter _ _ _ H).
  destruct (String.length l) as [|k]; [lia|]. cbn [label_loop]. rewrite H.
  destruct (rest =s? ""); [by left|]. destruct (label_loop k rest). by left.
Qed.

(** ** Lemmas: instructions *)

Lemma append_to_get {X} (d : list (string * list X)) n v k :
  dict_get (append_to d n v) k =
    if decide (k = n) then Some (default [] (dict_get d n) ++ [v]) else dict_get d k.
Proof. unfold append_to. rewrite dict_get_set. destruct (decide (k = n)), (decide (n = k)); congruence. Qed.

(** The labels recorded so far point at most at the next instruction, in
    increasing order. *)
Definition labels_ok (k : nat) (labels : labels_map) : Prop :=
  forall n vs, dict_get labels n = Some vs ->
    vs <> [] /\ Forall (fun v => (v <= k)%nat) vs /\ StronglySorted le vs.

Lemma sorted_snoc (l : list nat) v : StronglySorted le l -> Forall (fun w => (w <= v)%nat) l ->
  StronglySorted le (l ++ [v]).
Proof.
  induction 1 as [|a l _ IH Ha]; intros Hf; [repeat constructor|].
  apply Forall_cons_iff in Hf as [Hav Hf]. cbn. constructor; [auto|].
  apply Forall_app. split; [done|]. by repeat constructor.
Qed.

Lemma labels_ok_append k labels n : labels_ok k labels -> labels_ok k (append_to labels n k).
Proof.
  intros H k' vs. rewrite append_to_get. destruct (decide (k' = n)) as [->|]; [|apply H].
  intros [= <-]. split; [by destruct (default _ _)|].
  destruct (dict_get labels n) as [ws|] eqn:E; cbn [default].
  - destruct (H n ws E) as (_ & Hf & Hs). split; [apply Forall_app; split; [done|by repeat constructor]|].
    by apply sorted_snoc.
  - split; repeat constructor.
Qed.

Lemma labels_ok_names k labels names : labels_ok k labels ->
  labels_ok k (for_each names labels (fun labels n => append_to labels n k)).
Proof.
  intros H. apply for_each_inv; [done|]. intros s x _ Hs. by apply labels_ok_append.
Qed.

Lemma labels_ok_mono k k' labels : (k <= k')%nat -> labels_ok k labels -> labels_ok k' labels.
Proof.
  intros Hk H n vs E. destruct (H n vs E) as (? & Hf & ?). split; [done|]. split; [|done].
  eapply Forall_impl; [|exact Hf]. intros; cbn in *; lia.
Qed.

(** What one line adds: its labels, then at most one instruction. *)
Lemma parse_line_shape instructions labels lineno raw :
  exists names new,
    parse_line (instructions, labels) (lineno, raw) =
      (instructions ++ new,
       for_each names labels (fun labels n => append_to labels n (length instructions))) /\
    names = (if strip_comment raw =s? "" then [] else (strip_labels (strip_comment raw)).1) /\
    (new = [] \/ exists i, new = [i] /\ line i = lineno /\ text i = raw /\ mnemonic i <> "").
Proof.
  unfold parse_line. destruct (strip_comment raw =s? "") eqn:E0.
  { exists [], []. rewrite app_nil_r. auto. }
  destruct (strip_labels (strip_comment raw)) as [names l] eqn:El. cbn [fst]. exists names.
  assert (exists new : list Instruction, forall lb : labels_map, (instructions, lb) = (instructions ++ new, lb) /\ new = [])
    as (new0 & Hnew0) by (exists []; by rewrite app_nil_r).
  destruct (l =s? ""). { exists new0. destruct (Hnew0 (for_each names labels (fun labels n => append_to labels n (length instructions)))); auto. }
  destruct (startswith "#" l || startswith "." l).
  { exists new0. destruct (Hnew0 (for_each names labels (fun labels n => append_to labels n (length instructions)))); auto. }
  destruct (matches SYMBOL_DIRECTIVE_RE l).
  { exists new0. destruct (Hnew0 (for_each names labels (fun labels n => append_to labels n (length instructions)))); auto. }
  unfold split_ws1. destruct (lstrip l =s? "") eqn:Els.
  { exists new0. destruct (Hnew0 (for_each names labels (fun labels n => append_to labels n (length instructions)))); auto. }
  assert (first_word (lstrip l) <> "") as Hw.
  { unfold first_word, lstrip. rewrite lstrip_by_idem. unfold lstrip in Els.
    destruct (lstrip_by is_space l) as [|c t] eqn:Ec; [done|].
    apply lstrip_by_head in Ec. by rewrite Ec. }
  destruct (lstrip (drop_str _ _) =s? "").
  - eexists [_]. split; [reflexivity|]. split; [done|]. right. eauto.
  - eexists [_]. split; [reflexivity|]. split; [done|]. right. eauto.
Qed.

Lemma enumerate_lookup {X} n (l : list X) i : enumerate n l !! i = (fun x => (n + i, x)%nat) <$> l !! i.
Proof.
  revert n i. induction l as [|x l IH]; intros n [|i]; cbn; [done|done|by rewrite Nat.add_0_r|].
  rewrite IH. by replace (S n + i)%nat with (n + S i)%nat by lia.
Qed.

Lemma enumerate_app {X} n (l1 l2 : list X) :
  enumerate n (l1 ++ l2) = enumerate n l1 ++ enumerate (n + length l1) l2.
Proof.
  revert n. induction l1 as [|x l IH]; intros n; cbn; [by rewrite Nat.add_0_r|].
  rewrite IH. by replace (S n + length l)%nat with (n + S (length l))%nat by lia.
Qed.

Lemma enumerate_length {X} n (l : list X) : length (enumerate n l) = length l.
Proof. revert n. induction l as [|x l IH]; intros n; cbn; [done|by rewrite IH]. Qed.

(** The state after a prefix of the lines. *)
Definition parse_prefix (lines : list string) : list Instruction * labels_map :=
  for_each (enumerate 1 lines) ([], []) parse_line.

Lemma parse_prefix_snoc pre raw :
  parse_prefix (pre ++ [raw]) = parse_line (parse_prefix pre) (S (length pre), raw).
Proof. unfold parse_prefix. by rewrite enumerate_app, for_each_app. Qed.

(** The invariant of the scan. *)
Record parsed (lines : list string) (s : list Instruction * labels_map) : Prop := {
  pa_insn : Forall (fun i => (1 <= line i <= length lines)%nat /\
                             lines !! (line i - 1)%nat = Some (text i) /\ mnemonic i <> "") s.1;
  pa_sorted : StronglySorted lt (line <$> s.1);
  pa_labels : labels_ok (length s.1) s.2
}.

Lemma sorted_lt_snoc (l : list nat) v : StronglySorted lt l -> Forall (fun w => (w < v)%nat) l ->
  StronglySorted lt (l ++ [v]).
Proof.
  induction 1 as [|a l _ IH Ha]; intros Hf; [repeat constructor|].
  apply Forall_cons_iff in Hf as [Hav Hf]. cbn. constructor; [auto|].
  apply Forall_app. split; [done|]. by repeat constructor.
Qed.

Lemma parse_prefix_parsed lines : parsed lines (parse_prefix lines).
Proof.
  induction lines as [|raw lines IH] using rev_ind.
  { split; [constructor|constructor|]. intros n vs. done. }
  rewrite parse_prefix_snoc. destruct (parse_prefix lines) as [instructions labels].
  destruct (parse_line_shape instructions labels (S (length lines)) raw) as (names & new & -> & _ & Hnew).
  destruct IH as [H1 H2 H3]. cbn [fst snd] in *.
  assert (Forall (fun i => (1 <= line i <= length (lines ++ [raw]))%nat /\
    (lines ++ [raw]) !! (line i - 1)%nat = Some (text i) /\ mnemonic i <> "") instructions) as H1'.
  { eapply Forall_impl; [|exact H1]. intros i (Hl & Hlk & Hm). rewrite length_app. cbn [length].
    split; [lia|]. split; [|done]. by rewrite lookup_app_l by lia. }
  split; cbn [fst snd].
  - apply Forall_app. split; [exact H1'|]. destruct Hnew as [->|(i & -> & Hl & Ht & Hm)]; [constructor|].
    repeat constructor; rewrite ?length_app, ?Hl, ?Ht; cbn [length]; [lia|lia| |done].
    rewrite lookup_app_r by lia. by replace (S (length lines) - 1 - length lines)%nat with 0%nat by lia.
  - rewrite fmap_app. destruct Hnew as [->|(i & -> & Hl & _)]; [by rewrite app_nil_r|].
    cbn [fmap list_fmap]. apply sorted_lt_snoc; [done|]. rewrite Hl. apply Forall_fmap.
    eapply Forall_impl; [|exact H1]. intros j (Hj & _). cbn. lia.
  - apply labels_ok_mono with (length instructions); [rewrite length_app; lia|]. by apply labels_ok_names.
Qed.

(** Later lines only add. *)
Definition has_label (labels : labels_map) (n : string) (v : nat) : Prop :=
  exists vs, dict_get labels n = Some vs /\ v ∈ vs.

Lemma has_label_append labels n v m w : has_label labels n v -> has_label (append_to labels m w) n v.
Proof.
  intros (vs & E & Hv). unfold has_label. setoid_rewrite append_to_get.
  destruct (decide (n = m)) as [->|]; [|eauto]. rewrite E. cbn. eexists. split; [done|].
  apply elem_of_app. by left.
Qed.

Lemma has_label_names names labels n v w : has_label labels n v ->
  has_label (for_each names labels (fun labels n => append_to labels n w)) n v.
Proof. intros H. apply for_each_inv; [done|]. intros s x _ Hs. by apply has_label_append. Qed.

Lemma has_label_new names labels n w : n ∈ names ->
  has_label (for_each names labels (fun labels n => append_to labels n w)) n w.
Proof.
  revert labels. induction names as [|m names IH]; intros labels Hn; [by apply elem_of_nil in Hn|].
  change (for_each (m :: names) labels (fun labels n => append_to labels n w))
    with (for_each names (append_to labels m w) (fun labels n => append_to labels n w)).
  apply elem_of_cons in Hn as [->|Hn]; [|by apply IH]. apply has_label_names.
  unfold has_label. setoid_rewrite append_to_get. destruct (decide (m = m)); [|done].
  eexists. split; [done|]. apply elem_of_app. right. by left.
Qed.

Lemma parse_prefix_label pre raw post n rest :
  is_label (strip_comment raw) = Some (n, rest) ->
  has_label (parse_prefix (pre ++ raw :: post)).2 n (length (parse_prefix pre).1).
Proof.
  intros Hl. induction post as [|raw' post IH] using rev_ind.
  - rewrite parse_prefix_snoc. destruct (parse_prefix pre) as [instructions labels].
    destruct (parse_line_shape instructions labels (S (length pre)) raw) as (names & new & -> & -> & _).
    cbn [fst snd]. apply has_label_new. destruct (strip_comment raw =s? "") eqn:E.
    + apply seqb_true in E. rewrite E in Hl. pose proof (is_label_shorter _ _ _ Hl) as Hs. simpl in Hs. lia.
    + by eapply strip_labels_first.
  - replace (pre ++ raw :: post ++ [raw']) with ((pre ++ raw :: post) ++ [raw']) by (by rewrite <- app_assoc).
    rewrite parse_prefix_snoc. destruct (parse_prefix (pre ++ raw :: post)) as [instructions labels].
    destruct (parse_line_shape instructions labels (S (length (pre ++ raw :: post))) raw')
      as (names & new & -> & _ & _). cbn [fst snd] in *. by apply has_label_names.
Qed.

(** The instructions of a prefix are those on its lines. *)
Lemma parse_prefix_count pre post :
  length (parse_prefix pre).1 =
  length (filter (fun i => (line i <= length pre)%nat) (parse_prefix (pre ++ post)).1).
Proof.
  induction post as [|raw post IH] using rev_ind.
  - rewrite app_nil_r. pose proof (pa_insn _ _ (parse_prefix_parsed pre)) as H.
    f_equal. symmetry. induction H as [|i l [Hi _] _ IH]; [done|].
    rewrite filter_cons_True by lia. by rewrite IH.
  - rewrite app_assoc, parse_prefix_snoc. destruct (parse_prefix (pre ++ post)) as [instructions labels].
    destruct (parse_line_shape instructions labels (S (length (pre ++ post))) raw)
      as (names & new & -> & _ & Hnew). cbn [fst snd] in *. rewrite list.filter_app, length_app, IH.
    destruct Hnew as [->|(i & -> & Hl & _)]; [cbn; lia|].
    rewrite filter_cons_False by (rewrite Hl, length_app; lia). cbn. lia.
Qed.

Lemma parse_instructions_prefix source : parse_instructions source = parse_prefix (splitlines source).
Proof. done. Qed.

(** ** Lemmas: operands *)

(** The bracket depth after a character, and after an operand that has no
    comma at depth 0 or below. *)
Definition depth_of (d : Z) (c : ascii) : Z :=
  if mem_char c "[{" then d + 1 else if mem_char c "]}" then d - 1 else d.
Fixpoint nest (d : Z) (o : string) : option Z :=
  match o with
  | "" => Some d
  | String c o => let d := depth_of d c in
                  if Ascii.eqb c "," && (d <=? 0) then None else nest d o
  end.

(** A well-formed operand: stripped, not empty, brackets closed, commas only
    inside brackets. *)
Definition operand_ok (o : string) : Prop := strip o = o /\ o <> "" /\ nest 0 o = Some 0.

Lemma split_scan_nest o rest out d d' cur : nest d o = Some d' ->
  split_scan (o +:+ rest) (out, d, cur) = split_scan rest (out, d', cur +:+ o).
Proof.
  revert d cur. induction o as [|c o IH]; intros d cur; cbn [nest].
  - intros [= <-]. by rewrite string_app_nil_r.
  - intros H. rewrite string_app_cons. cbn [split_scan]. unfold split_step. fold (depth_of d c).
    destruct (Ascii.eqb c "," && (depth_of d c <=? 0)); [done|].
    rewrite (IH _ _ H), string_app_assoc. done.
Qed.

Lemma split_scan_comma rest out cur :
  split_scan (String "," (String " " rest)) (out, 0, cur) = split_scan rest (out ++ [cur], 0, " ").
Proof. done. Qed.

(** The scan of joined operands: every operand but the first is preceded by
    the blank after the comma. *)
Lemma split_scan_join ops o out pad : Forall operand_ok (o :: ops) ->
  split_scan (join ", " (o :: ops)) (out, 0, pad) =
    (out ++ removelast (((pad +:+ o) :: (String " " <$> ops))), 0, List.last ((pad +:+ o) :: (String " " <$> ops)) "").
Proof.
  revert o out pad. induction ops as [|p ops IH]; intros o out pad Hops;
    apply Forall_cons_iff in Hops as [(_ & _ & Ho) Hops].
  - change (join ", " [o]) with o. rewrite <- (string_app_nil_r o) at 1.
    rewrite (split_scan_nest _ _ _ _ _ _ Ho). cbn. by rewrite app_nil_r.
  - rewrite join_cons. rewrite (split_scan_nest _ _ _ _ _ _ Ho).
    change (", " +:+ join ", " (p :: ops)) with (String "," (String " " (join ", " (p :: ops)))).
    rewrite split_scan_comma, (IH p (out ++ [pad +:+ o]) " " Hops). rewrite <- app_assoc. done.
Qed.

Lemma strip_space_cons o : strip (String " " o) = strip o.
Proof. done. Qed.

Lemma removelast_last {X} (x : X) l d : removelast (x :: l) ++ [List.last (x :: l) d] = x :: l.
Proof. symmetry. apply app_removelast_last. done. Qed.

Lemma last_Forall {X} (P : X -> Prop) l x d : Forall P (x :: l) -> P (List.last (x :: l) d).
Proof.
  revert x. induction l as [|y l IH]; intros x [Hx Hl]%Forall_cons_iff; [done|]. by apply (IH y).
Qed.

Lemma filter_nonempty_ok ops : Forall operand_ok ops -> filter (fun o => o <> "") ops = ops.
Proof.
  induction 1 as [|o ops (_ & Hne & _) _ IH]; [done|]. by rewrite filter_cons_True, IH.
Qed.

Lemma strip_ok ops : Forall operand_ok ops -> strip <$> (String " " <$> ops) = ops.
Proof.
  induction 1 as [|o ops (Hs & _) _ IH]; [done|]. cbn [fmap list_fmap].
  rewrite strip_space_cons, Hs. f_equal. exact IH.
Qed.

(** ** Lemmas: branch targets *)

Lemma foldl_max_spec l x : (forall y, y ∈ l -> (y <= foldl Nat.max x l)%nat) /\
  (x <= foldl Nat.max x l)%nat /\ (foldl Nat.max x l = x \/ foldl Nat.max x l ∈ l).
Proof.
  revert x. induction l as [|a l IH]; intros x; cbn [foldl].
  - split; [intros y Hy; by apply elem_of_nil in Hy|]. auto.
  - destruct (IH (Nat.max x a)) as (H1 & H2 & H3). split; [|split; [lia|]].
    + intros y [->|Hy]%elem_of_cons; [lia|auto].
    + destruct H3 as [H3|H3]; [|right; by right].
      destruct (Nat.max_spec x a) as [[_ E]|[_ E]]; rewrite E in *; [right; rewrite H3; left|left; exact H3].
Qed.

Lemma foldl_min_spec l x : (forall y, y ∈ l -> (foldl Nat.min x l <= y)%nat) /\
  (foldl Nat.min x l <= x)%nat /\ (foldl Nat.min x l = x \/ foldl Nat.min x l ∈ l).
Proof.
  revert x. induction l as [|a l IH]; intros x; cbn [foldl].
  - split; [intros y Hy; by apply elem_of_nil in Hy|]. auto.
  - destruct (IH (Nat.min x a)) as (H1 & H2 & H3). split; [|split; [lia|]].
    + intros y [->|Hy]%elem_of_cons; [lia|auto].
    + destruct H3 as [H3|H3]; [|right; by right].
      destruct (Nat.min_spec x a) as [[_ E]|[_ E]]; rewrite E in *; [left; exact H3|right; rewrite H3; left].
Qed.

(** [v] is the greatest (least) element of [l] satisfying [P]. *)
Definition greatest (P : nat -> Prop) (l : list nat) (v : nat) : Prop :=
  v ∈ l /\ P v /\ forall w, w ∈ l -> P w -> (w <= v)%nat.
Definition least (P : nat -> Prop) (l : list nat) (v : nat) : Prop :=
  v ∈ l /\ P v /\ forall w, w ∈ l -> P w -> (v <= w)%nat.

Lemma py_max_greatest (P : nat -> Prop) `{forall x, Decision (P x)} l v :
  py_max (filter P l) = Some v <-> greatest P l v.
Proof.
  unfold greatest. split.
  - destruct (filter P l) as [|x l'] eqn:E; [done|]. intros [= <-].
    destruct (foldl_max_spec l' x) as (H1 & H2 & H3).
    assert (foldl Nat.max x l' ∈ filter P l) as Hin by (rewrite E; destruct H3 as [->|]; [by left|by right]).
    apply list_elem_of_filter in Hin as [HP Hl]. split; [done|]. split; [done|].
    intros w Hw HPw. assert (w ∈ filter P l) as Hwf by (by apply list_elem_of_filter).
    rewrite E in Hwf. apply elem_of_cons in Hwf as [->|Hwf]; auto.
  - intros (Hl & HP & Hmax). assert (v ∈ filter P l) as Hv by (by apply list_elem_of_filter).
    assert (forall w, w ∈ filter P l -> (w <= v)%nat) as Hb
      by (intros w [? ?]%list_elem_of_filter; auto).
    destruct (filter P l) as [|x l']; [by apply elem_of_nil in Hv|]. cbn. f_equal.
    destruct (foldl_max_spec l' x) as (H1 & H2 & H3). apply Nat.le_antisymm.
    + apply Hb. destruct H3 as [->|]; [by left|by right].
    + apply elem_of_cons in Hv as [->|Hv]; auto.
Qed.

Lemma py_min_least (P : nat -> Prop) `{forall x, Decision (P x)} l v :
  py_min (filter P l) = Some v <-> least P l v.
Proof.
  unfold least. split.
  - destruct (filter P l) as [|x l'] eqn:E; [done|]. intros [= <-].
    destruct (foldl_min_spec l' x) as (H1 & H2 & H3).
    assert (foldl Nat.min x l' ∈ filter P l) as Hin by (rewrite E; destruct H3 as [->|]; [by left|by right]).
    apply list_elem_of_filter in Hin as [HP Hl]. split; [done|]. split; [done|].
    intros w Hw HPw. assert (w ∈ filter P l) as Hwf by (by apply list_elem_of_filter).
    rewrite E in Hwf. apply elem_of_cons in Hwf as [->|Hwf]; auto.
  - intros (Hl & HP & Hmax). assert (v ∈ filter P l) as Hv by (by apply list_elem_of_filter).
    assert (forall w, w ∈ filter P l -> (v <= w)%nat) as Hb
      by (intros w [? ?]%list_elem_of_filter; auto).
    destruct (filter P l) as [|x l']; [by apply elem_of_nil in Hv|]. cbn. f_equal.
    destruct (foldl_min_spec l' x) as (H1 & H2 & H3). apply Nat.le_antisymm.
    + apply elem_of_cons in Hv as [->|Hv]; auto.
    + apply Hb. destruct H3 as [->|]; [by left|by right].
Qed.

Lemma filter_True {X} (P : X -> Prop) `{forall x, Decision (P x)} (l : list X) : (forall x, P x) -> filter P l = l.
Proof. intros HP. induction l as [|x l IH]; [done|]. by rewrite filter_cons_True, IH. Qed.

Lemma py_max_None l : py_max l = None <-> l = [].
Proof. by destruct l. Qed.
Lemma py_min_None l : py_min l = None <-> l = [].
Proof. by destruct l. Qed.

(** ** Lemmas: conditional macro definitions *)

Definition is_conditional (raw : string) : bool :=
  let line := strip raw in
  startswith "#ifdef __linux__" line || startswith "#ifndef __linux__" line
  || startswith "#else" line || startswith "#endif" line.

Definition run_macros (linux : bool) (lines : list string) (s : macro_state) : macro_state :=
  for_each lines s (parse_macros_line linux).

Lemma run_macros_app linux l1 l2 s : run_macros linux (l1 ++ l2) s = run_macros linux l2 (run_macros linux l1 s).
Proof. apply for_each_app. Qed.

(** Lines without conditionals act only on the open definition and, when
    active, on the table. *)
Lemma plain_line linux raw s : is_conditional raw = false ->
  ms_branch (parse_macros_line linux s raw) = ms_branch s /\
  ms_active (parse_macros_line linux s raw) = ms_active s /\
  (ms_active s = false -> ms_macros (parse_macros_line linux s raw) = ms_macros s).
Proof.
  unfold is_conditional, parse_macros_line. intros (((H1 & H2)%orb_false_iff & H3)%orb_false_iff & H4)%orb_false_iff.
  rewrite H1, H2, H3, H4. destruct s as [ms br act cur]. cbn [ms_branch ms_active ms_macros ms_current].
  destruct cur as [m|].
  - destruct (startswith ".endm" _); cbn; [|done]. split; [done|]. split; [done|]. by intros ->.
  - destruct (startswith ".macro" _); done.
Qed.

Lemma plain_run linux lines s : Forall (fun raw => is_conditional raw = false) lines ->
  ms_branch (run_macros linux lines s) = ms_branch s /\
  ms_active (run_macros linux lines s) = ms_active s /\
  (ms_active s = false -> ms_macros (run_macros linux lines s) = ms_macros s).
Proof.
  intros H. revert s. induction H as [|raw lines Hr _ IH]; intros s; [done|].
  change (run_macros linux (raw :: lines) s) with (run_macros linux lines (parse_macros_line linux s raw)).
  destruct (plain_line linux raw s Hr) as (E1 & E2 & E3).
  destruct (IH (parse_macros_line linux s raw)) as (F1 & F2 & F3).
  rewrite F1, F2. split; [done|]. split; [done|]. intros Ha. rewrite F3 by congruence. auto.
Qed.

(** Two states that differ only in their condition stack run alike. *)
Lemma plain_run_same linux linux' lines s t : Forall (fun raw => is_conditional raw = false) lines ->
  ms_macros s = ms_macros t -> ms_current s = ms_current t -> ms_active s = ms_active t ->
  ms_macros (run_macros linux lines s) = ms_macros (run_macros linux' lines t).
Proof.
  intros H. revert s t. induction H as [|raw lines Hr _ IH]; intros s t E1 E2 E3; [done|].
  change (run_macros linux (raw :: lines) s) with (run_macros linux lines (parse_macros_line linux s raw)).
  change (run_macros linux' (raw :: lines) t) with (run_macros linux' lines (parse_macros_line linux' t raw)).
  apply IH; revert Hr; unfold is_conditional, parse_macros_line;
    intros (((H1 & H2)%orb_false_iff & H3)%orb_false_iff & H4)%orb_false_iff;
    rewrite H1, H2, H3, H4; destruct s as [ms br act cur], t as [ms' br' act' cur'];
    cbn [ms_branch ms_active ms_macros ms_current] in *; subst;
    destruct cur' as [mm|]; repeat case_match; done.
Qed.

(** The definition still open after a run does not depend on the conditions. *)
Lemma plain_run_current linux linux' lines s t : Forall (fun raw => is_conditional raw = false) lines ->
  ms_current s = ms_current t ->
  ms_current (run_macros linux lines s) = ms_current (run_macros linux' lines t).
Proof.
  intros H. revert s t. induction H as [|raw lines Hr _ IH]; intros s t E2; [done|].
  change (run_macros linux (raw :: lines) s) with (run_macros linux lines (parse_macros_line linux s raw)).
  change (run_macros linux' (raw :: lines) t) with (run_macros linux' lines (parse_macros_line linux' t raw)).
  apply IH; revert Hr; unfold is_conditional, parse_macros_line;
    intros (((H1 & H2)%orb_false_iff & H3)%orb_false_iff & H4)%orb_false_iff;
    rewrite H1, H2, H3, H4; destruct s as [ms br act cur], t as [ms' br' act' cur'];
    cbn [ms_branch ms_active ms_macros ms_current] in *; subst;
    destruct cur' as [mm|]; repeat case_match; done.
Qed.

(** A block of whole definitions: no conditionals, nothing left open. *)
Definition macro_block (lines : list string) : Prop :=
  Forall (fun raw => is_conditional raw = false) lines /\
  ms_current (run_macros true lines (mkMS [] [] true None)) = None.

(** ** Lemmas: the extents of regions *)

Lemma header_walk_spec lines f n :
  (f <= header_walk lines f n <= f + n)%nat /\
  (forall j, (header_walk lines f n <= j < f + n)%nat -> header_line (lines !!! j) = true) /\
  ((f < header_walk lines f n)%nat -> header_line (lines !!! (header_walk lines f n - 1)%nat) = false).
Proof.
  induction n as [|n IH]; cbn [header_walk]; [split; [lia|split; [intros; lia|lia]]|].
  destruct (header_line (lines !!! (f + n)%nat)) eqn:E.
  - destruct IH as (H1 & H2 & H3). split; [lia|]. split; [|done].
    intros j Hj. destruct (decide (j = f + n)%nat) as [->|]; [done|]. apply H2. lia.
  - split; [lia|]. split; [intros; lia|]. intros _. by replace (S (f + n) - 1)%nat with (f + n)%nat by lia.
Qed.

Lemma header_start_bounds lines l f : (f <= l)%nat -> (f <= header_start lines l f <= l)%nat.
Proof.
  intros H. unfold header_start. destruct (Nat.leb_spec f l); [|lia].
  destruct (header_walk_spec lines f (l - f)) as (? & _). lia.
Qed.

(** A higher floor cannot move the header start up the file. *)
Lemma header_start_mono lines l f f' : (f <= f')%nat -> (f' <= l)%nat ->
  (header_start lines l f <= header_start lines l f')%nat.
Proof.
  intros H1 H2. unfold header_start.
  destruct (Nat.leb_spec f l); [|lia]. destruct (Nat.leb_spec f' l); [|lia].
  destruct (header_walk_spec lines f (l - f)) as (A1 & A2 & A3).
  destruct (header_walk_spec lines f' (l - f')) as (B1 & B2 & B3).
  set (a := header_walk lines f (l - f)) in *. set (b := header_walk lines f' (l - f')) in *.
  destruct (Nat.le_gt_cases a b) as [|Hlt]; [done|exfalso].
  assert (header_line (lines !!! (a - 1)%nat) = false) as E by (apply A3; lia).
  rewrite B2 in E by lia. done.
Qed.

Lemma with_next_elem l i nxt : StronglySorted lt l -> (i, nxt) ∈ with_next l ->
  i ∈ l /\ match nxt with
           | Some j => j ∈ l /\ (i < j)%nat /\ forall k, k ∈ l -> (i < k)%nat -> (j <= k)%nat
           | None => forall k, k ∈ l -> (k <= i)%nat
           end.
Proof.
  induction 1 as [|a l Hs IH Ha]; cbn [with_next]; [by intros ?%elem_of_nil|].
  rewrite List.Forall_forall in Ha. setoid_rewrite <- list_elem_of_In in Ha.
  intros [[= -> ->]|Hin]%elem_of_cons.
  - split; [by left|]. destruct l as [|b l]; cbn [head].
    + intros k [->|[]%elem_of_nil]%elem_of_cons. lia.
    + split; [right; by left|]. split; [apply Ha; by left|].
      apply StronglySorted_inv in Hs as [_ Hb]. rewrite List.Forall_forall in Hb.
      setoid_rewrite <- list_elem_of_In in Hb.
      intros k [->|[->|Hk]%elem_of_cons]%elem_of_cons Hlt; [lia|lia|]. specialize (Hb k Hk). lia.
  - destruct (IH Hin) as [Hi Hn]. split; [by right|]. specialize (Ha i Hi) as Hai. destruct nxt as [j|].
    + destruct Hn as (Hj & Hlt & Hmin). split; [by right|]. split; [done|].
      intros k [->|Hk]%elem_of_cons Hik; [lia|auto].
    + intros k [->|Hk]%elem_of_cons; [lia|auto].
Qed.

(** The labels of a file: in file order, at most one per line. *)
Lemma classify_sorted lines : let s := for_each (enumerate 0 lines) ([], []) classify_line in
  StronglySorted lt (fst <$> s.1) /\ Forall (fun i => (i < length lines)%nat) (fst <$> s.1).
Proof.
  induction lines as [|raw lines IH] using rev_ind; [split; constructor|]. cbn zeta in *.
  rewrite enumerate_app, for_each_app. destruct (for_each (enumerate 0 lines) _ _) as [labels globals].
  cbn [fst] in IH. destruct IH as [IH1 IH2]. rewrite length_app. cbn [length enumerate for_each foldl].
  assert (Forall (fun i => (i < length lines + 1)%nat) (fst <$> labels)) as IH2'
    by (eapply Forall_impl; [|exact IH2]; intros; cbn in *; lia).
  assert (forall n : string, StronglySorted lt (fst <$> labels ++ [((0 + length lines)%nat, n)]) /\
    Forall (fun i => (i < length lines + 1)%nat) (fst <$> labels ++ [((0 + length lines)%nat, n)])) as Hadd.
  { intros n. rewrite fmap_app. cbn [fmap list_fmap fst]. split.
    - by apply sorted_lt_snoc.
    - apply Forall_app. split; [done|]. repeat constructor. lia. }
  unfold classify_line. repeat case_match; cbn [fst]; eauto.
Qed.

Lemma fst_classify (lines : list string) (labels : list (nat * string)) :
  fst <$> (fst <$> ((fun '(i, n) => (i, n, first_content_is_data (drop i lines))) <$> labels)) = fst <$> labels.
Proof. rewrite <- !list_fmap_compose. apply list_fmap_ext. by intros ? [i n] _. Qed.

Lemma filter_sorted {X} (f : X -> nat) (P : X -> Prop) `{forall x, Decision (P x)} (l : list X) :
  StronglySorted lt (f <$> l) -> StronglySorted lt (f <$> filter P l).
Proof.
  induction l as [|x l IH]; intros Hs; [constructor|]. cbn [fmap list_fmap] in Hs.
  apply StronglySorted_inv in Hs as [Hs Hx].
  destruct (decide (P x)); [rewrite filter_cons_True by done|rewrite filter_cons_False by done; auto].
  cbn [fmap list_fmap]. constructor; [auto|]. rewrite List.Forall_forall in *. intros y Hy. apply Hx.
  rewrite <- list_elem_of_In in *. apply list_elem_of_fmap in Hy as (z & -> & [_ Hz]%list_elem_of_filter).
  by apply list_elem_of_fmap_2.
Qed.

(** The candidates of a file. *)
Record candidates_ok (lines : list string) (labels : list (nat * string * bool)) (names : list string)
  (candidates : list (nat * string)) : Prop := {
  co_sorted : StronglySorted lt (fst <$> candidates);
  co_range : Forall (fun i => (i < length lines)%nat) (fst <$> candidates);
  co_label : forall i n, (i, n) ∈ candidates -> (i, n, false) ∈ labels /\ n ∈ names
}.

Lemma code_candidates_ok text names :
  candidates_ok (splitlines text) (classify_lines text).1 names
    (code_candidates (classify_lines text).1 names).
Proof.
  unfold classify_lines, code_candidates. pose proof (classify_sorted (splitlines text)) as [Hs Hr].
  destruct (for_each (enumerate 0 (splitlines text)) _ _) as [labels globals]. cbn [fst] in *.
  set (full := (fun '(i, n) => (i, n, first_content_is_data (drop i (splitlines text)))) <$> labels).
  assert (forall l : list (nat * string * bool), fst <$> (fst <$> l) = (fun x => x.1.1) <$> l) as Hff
    by (intros l; by rewrite <- list_fmap_compose).
  pose proof (fst_classify (splitlines text) labels) as Hfc. fold full in Hfc. rewrite Hff in Hfc.
  split.
  - rewrite Hff. apply filter_sorted. by rewrite Hfc.
  - rewrite Hff. rewrite List.Forall_forall in *. intros i Hi. apply Hr. rewrite <- Hfc.
    rewrite <- list_elem_of_In in *. apply list_elem_of_fmap in Hi as (x & -> & [_ Hx]%list_elem_of_filter).
    by apply (list_elem_of_fmap_2 (fun x => x.1.1)).
  - intros i n H. apply list_elem_of_fmap in H as ([[i' n'] b] & [= -> ->] & [[Hb Hn] Hx]%list_elem_of_filter).
    cbn in Hb, Hn. by subst b.
Qed.

Section extents.
Context (lines : list string) (labels : list (nat * string * bool)) (names : list string)
        (candidates : list (nat * string)) (data : list nat).
Hypothesis ok : candidates_ok lines labels names candidates.

Lemma candidate_name i n : (i, n) ∈ candidates -> name_at candidates i = n.
Proof.
  pose proof (co_sorted _ _ _ _ ok) as Hs. clear ok. unfold name_at.
  induction candidates as [|[j m] l IH]; intros H; [by apply elem_of_nil in H|].
  cbn [fmap list_fmap fst] in Hs. apply StronglySorted_inv in Hs as [Hs Hj].
  apply elem_of_cons in H as [[= -> ->]|H].
  - cbn [list_find fst]. by destruct (decide (j = j)).
  - cbn [list_find fst]. rewrite List.Forall_forall in Hj.
    assert (j < i)%nat by (apply Hj, list_elem_of_In; by apply (list_elem_of_fmap_2 fst) in H).
    destruct (decide (j = i)); [lia|]. specialize (IH Hs H).
    destruct (list_find _ l) as [[k [a b]]|]; exact IH.
Qed.

Lemma region_floor_spec i :
  (region_floor candidates i <= i)%nat /\
  forall j, j ∈ fst <$> candidates -> (j < i)%nat -> (j < region_floor candidates i)%nat.
Proof.
  unfold region_floor. clear ok.
  induction candidates as [|[j m] l IH] using rev_ind.
  { split; [cbn; lia|]. intros j Hj. by apply elem_of_nil in Hj. }
  rewrite for_each_app. cbn [for_each foldl]. set (f := for_each l _ _) in *. destruct IH as [H1 H2].
  fold f. split.
  - destruct (Nat.ltb_spec j i); lia.
  - intros k Hk Hki. rewrite fmap_app in Hk. apply elem_of_app in Hk as [Hk|Hk].
    + specialize (H2 k Hk Hki). destruct (Nat.ltb_spec j i); lia.
    + apply elem_of_cons in Hk as [->|[]%elem_of_nil]. cbn [fst] in *.
      destruct (Nat.ltb_spec j i); lia.
Qed.

(** The bound an extent may not pass. *)
Definition limit (i : nat) (nxt : option nat) : nat :=
  match nxt with Some n => header_start lines n (i + 1) | None => length lines end.

Lemma raw_end_bounds i nxt : (i < length lines)%nat ->
  (forall j, nxt = Some j -> (i < j < length lines)%nat) ->
  (i < raw_end lines data i nxt <= limit i nxt)%nat /\ (limit i nxt <= length lines)%nat.
Proof.
  intros Hi Hn. unfold raw_end, limit.
  assert (i < match nxt with Some n => header_start lines n (i + 1) | None => length lines end <= length lines)%nat as He.
  { destruct nxt as [j|]; [|lia]. specialize (Hn j eq_refl).
    pose proof (header_start_bounds lines j (i + 1) ltac:(lia)). lia. }
  set (e := match nxt with Some n => header_start lines n (i + 1) | None => length lines end) in *.
  destruct (list_find _ data) as [[k d]|] eqn:E; [|lia].
  apply list_find_Some in E as (_ & Hd & _). pose proof (header_start_bounds lines d (i + 1) ltac:(lia)). lia.
Qed.

Lemma extent_bounds i nxt : (i < length lines)%nat ->
  (forall j, nxt = Some j -> (i < j < length lines)%nat) ->
  (extent lines candidates data i nxt).1 = header_start lines i (region_floor candidates i) /\
  (i < (extent lines candidates data i nxt).2 <= limit i nxt)%nat /\ (limit i nxt <= length lines)%nat.
Proof.
  intros Hi Hn. destruct (raw_end_bounds i nxt Hi Hn) as [Hr Hl]. unfold extent.
  destruct (list_find _ (seq _ _)) as [[k o]|] eqn:E; cbn [fst snd]; [|done].
  apply list_find_Some in E as (Ho & _ & _). apply lookup_seq in Ho. split; [done|]. lia.
Qed.
End extents.

Section scan.
Context (lines : list string) (labels : list (nat * string * bool)) (globals names : list string)
        (candidates : list (nat * string)) (data : list nat) (p : string) (blocks : list (string * string)).
Hypothesis ok : candidates_ok lines labels names candidates.

(** What is recorded of a region made at label [i]. *)
Record made (i : nat) (nxt : option nat) (r : Region) : Prop := {
  md_label : label_line r = (i + 1)%nat;
  md_start : start_line r = (header_start lines i (region_floor candidates i) + 1)%nat;
  md_end : (i + 1 < end_line r <= limit lines i nxt + 1)%nat;
  md_limit : (limit lines i nxt <= length lines)%nat;
  md_body : body r = join nl (take (end_line r - label_line r) (drop (label_line r - 1) lines));
  md_name : (i, name r, false) ∈ labels /\ name r ∈ names
}.

Lemma make_made i nxt encl : i ∈ fst <$> candidates ->
  (forall j, nxt = Some j -> j ∈ fst <$> candidates /\ (i < j)%nat) ->
  made i nxt (make lines candidates globals data p blocks i nxt encl).
Proof.
  intros Hi Hn. pose proof (co_range _ _ _ _ ok) as Hr. rewrite List.Forall_forall in Hr.
  setoid_rewrite <- list_elem_of_In in Hr. pose proof (Hr i Hi) as Hil.
  assert (forall j, nxt = Some j -> (i < j < length lines)%nat) as Hn'.
  { intros j Hj. destruct (Hn j Hj) as [Hj1 Hj2]. specialize (Hr j Hj1). lia. }
  destruct (extent_bounds lines candidates data i nxt Hil Hn') as (E1 & E2 & E3).
  apply list_elem_of_fmap in Hi as ([i' n] & -> & Hi). cbn [fst] in *.
  unfold make. destruct (extent lines candidates data i' nxt) as [s e]. cbn [fst snd] in *. subst s.
  pose proof (candidate_name _ _ _ _ ok i' n Hi) as Hname.
  split; cbn [label_line start_line end_line body name]; try lia.
  - unfold slice_lines. do 2 f_equal; [lia|]. f_equal. lia.
  - rewrite Hname. by apply (co_label _ _ _ _ ok).
Qed.

Lemma top_sorted : StronglySorted lt (fst <$> top_level lines candidates globals data).
Proof. apply filter_sorted, (co_sorted _ _ _ _ ok). Qed.

Lemma top_in i : i ∈ fst <$> top_level lines candidates globals data -> i ∈ fst <$> candidates.
Proof.
  intros Hi. apply list_elem_of_fmap in Hi as (x & -> & [_ Hx]%list_elem_of_filter).
  by apply list_elem_of_fmap_2.
Qed.

(** A top-level region, with the label of the next one. *)
Lemma top_region r : r ∈ top_regions lines candidates globals data p blocks ->
  exists i nxt, made i nxt r /\ enclosing r = None /\ i ∈ fst <$> top_level lines candidates globals data /\
    match nxt with
    | Some j => j ∈ fst <$> top_level lines candidates globals data /\ (i < j)%nat /\
        forall k, k ∈ fst <$> top_level lines candidates globals data -> (i < k)%nat -> (j <= k)%nat
    | None => forall k, k ∈ fst <$> top_level lines candidates globals data -> (k <= i)%nat
    end.
Proof.
  unfold top_regions. intros Hr. apply list_elem_of_fmap in Hr as ([i nxt] & -> & Hin).
  destruct (with_next_elem _ _ _ top_sorted Hin) as [Hi Hn]. exists i, nxt.
  split; [apply make_made; [by apply top_in|]|].
  - intros j ->. destruct Hn as (Hj & Hlt & _). split; [by apply top_in|done].
  - split; [|done]. unfold make. by destruct (extent _ _ _ _ _).
Qed.

Lemma nested_region r : r ∈ nested_regions lines candidates globals data p blocks ->
  exists i nxt, made i nxt r /\ is_Some (enclosing r).
Proof.
  unfold nested_regions. intros Hr. apply list_elem_of_fmap in Hr as ([i n] & -> & [Hnt Hin]%list_elem_of_filter).
  cbn [fst] in *. exists i, (py_min (filter (fun j => (i < j)%nat) (fst <$> candidates))). split.
  - apply make_made; [by apply (list_elem_of_fmap_2 fst) in Hin|].
    intros j Hj. apply py_min_least in Hj as (? & ? & _). done.
  - unfold make. destruct (extent _ _ _ _ _). cbn [enclosing].
    destruct (enclosing_global lines candidates globals data i) eqn:E; [by eexists|].
    destruct Hnt. assert ((i, n) ∈ top_level lines candidates globals data) as Ht
      by (apply list_elem_of_filter; split; [by right|done]).
    by apply (list_elem_of_fmap_2 fst) in Ht.
Qed.

(** Distinct top-level regions do not overlap, headers included. *)
Lemma top_disjoint r1 r2 :
  r1 ∈ top_regions lines candidates globals data p blocks ->
  r2 ∈ top_regions lines candidates globals data p blocks ->
  (label_line r1 < label_line r2)%nat -> (end_line r1 <= start_line r2)%nat.
Proof.
  intros H1 H2 Hlt. destruct (top_region r1 H1) as (i & nxt & M1 & _ & Hi & Hn).
  destruct (top_region r2 H2) as (i2 & nxt2 & M2 & _ & Hi2 & _).
  rewrite (md_label _ _ _ M1), (md_label _ _ _ M2) in Hlt. rewrite (md_start _ _ _ M2).
  pose proof (md_end _ _ _ M1) as He. destruct nxt as [j|]; [|specialize (Hn i2 Hi2); lia].
  destruct Hn as (Hj & Hij & Hmin). specialize (Hmin i2 Hi2 ltac:(lia)). cbn [limit] in He.
  destruct (region_floor_spec candidates i2) as [F1 F2].
  pose proof (F2 i (top_in _ Hi) ltac:(lia)) as F3.
  pose proof (header_start_bounds lines i2 (region_floor candidates i2) F1).
  destruct (decide (j = i2)) as [->|].
  - pose proof (header_start_mono lines i2 (i + 1) (region_floor candidates i2) ltac:(lia) F1). lia.
  - pose proof (F2 j (top_in _ Hj) ltac:(lia)).
    pose proof (header_start_bounds lines j (i + 1) ltac:(lia)). lia.
Qed.
End scan.

(** Sorting and linking keep the regions. *)
Lemma sort_regions_perm l : sort_regions l ≡ₚ l.
Proof. apply sort_by_perm. Qed.

Lemma link_fallthrough_elem r l : r ∈ link_fallthrough l ->
  exists q o, q ∈ l /\ (r = q \/ r = set_falls_through q o).
Proof.
  induction l as [|q l IH]; cbn [link_fallthrough]; [by intros ?%elem_of_nil|].
  intros [->|H]%elem_of_cons.
  - exists q. destruct (list_find _ l) as [[k nxt]|]; [|exists None; split; [by left|by left]].
    exists (Some (name nxt)). split; [by left|]. case_match; [by right|by left].
  - destruct (IH H) as (q' & o & ? & ?). exists q', o. split; [by right|done].
Qed.

(** Every region of a file comes from one of the two tiers. *)
Lemma scan_regions_elem text p ct r : r ∈ scan_regions text p ct ->
  let lines := splitlines text in
  let labels := (classify_lines text).1 in
  let globals := (classify_lines text).2 in
  let candidates := code_candidates labels (globals ++ ct) in
  exists data blocks q o, (r = q \/ r = set_falls_through q o) /\
    data = sort_nat ((fun l => l.1.1) <$> filter (fun l : nat * string * bool => l.2 = true) labels) /\
    blocks = doc_blocks lines /\
    (q ∈ top_regions lines candidates globals data p blocks \/
     q ∈ nested_regions lines candidates globals data p blocks).
Proof.
  unfold scan_regions. destruct (classify_lines text) as [labels globals]. cbn [fst snd]. intros Hr.
  apply link_fallthrough_elem in Hr as (q & o & Hq & Hrq). rewrite sort_regions_perm in Hq.
  apply elem_of_app in Hq. by eexists _, _, q, o.
Qed.

Lemma link_fallthrough_fields q l : q ∈ l ->
  exists r, r ∈ link_fallthrough l /\ name r = name q /\ label_line r = label_line q.
Proof.
  induction l as [|x l IH]; [by intros ?%elem_of_nil|]. cbn [link_fallthrough].
  intros [->|H]%elem_of_cons.
  - eexists. split; [left|]. destruct (list_find _ l) as [[k nxt]|]; [|done]. by case_match.
  - destruct (IH H) as (r & ? & ? & ?). exists r. split; [by right|done].
Qed.

Lemma with_next_covers i l : i ∈ l -> exists nxt, (i, nxt) ∈ with_next l.
Proof.
  induction l as [|x l IH]; [by intros ?%elem_of_nil|]. cbn [with_next].
  intros [->|H]%elem_of_cons; [eexists; left|]. destruct (IH H) as [nxt ?]. exists nxt. by right.
Qed.

(** Every candidate becomes a region of one of the tiers. *)
Lemma candidate_region lines labels globals names candidates data p blocks i n :
  candidates_ok lines labels names candidates -> (i, n) ∈ candidates ->
  exists r, r ∈ top_regions lines candidates globals data p blocks
              ++ nested_regions lines candidates globals data p blocks /\
    name r = n /\ label_line r = (i + 1)%nat.
Proof.
  intros Hok Hin. pose proof (candidate_name _ _ _ _ Hok i n Hin) as Hname.
  assert (forall nxt encl, let r := make lines candidates globals data p blocks i nxt encl in
    name r = n /\ label_line r = (i + 1)%nat) as Hmake.
  { intros nxt encl. cbn zeta. unfold make. destruct (extent _ _ _ _ _). done. }
  destruct (decide (i ∈ fst <$> top_level lines candidates globals data)) as [Ht|Ht].
  - destruct (with_next_covers _ _ Ht) as [nxt Hn]. eexists. split; [|apply (Hmake nxt None)].
    apply elem_of_app. left. unfold top_regions.
    apply (list_elem_of_fmap_2 (fun '(i, nxt) => make lines candidates globals data p blocks i nxt None)) in Hn.
    exact Hn.
  - eexists. split; [|apply (Hmake (py_min (filter (fun j => (i < j)%nat) (fst <$> candidates)))
      (enclosing_global lines candidates globals data i))].
    apply elem_of_app. right. unfold nested_regions.
    assert ((i, n) ∈ filter (fun c : nat * string => c.1 ∉ fst <$> top_level lines candidates globals data) candidates)
      as Hf by (by apply list_elem_of_filter).
    apply (list_elem_of_fmap_2 (fun c : nat * string => make lines candidates globals data p blocks c.1
      (py_min (filter (fun j => (c.1 < j)%nat) (fst <$> candidates)))
      (enclosing_global lines candidates globals data c.1))) in Hf. exact Hf.
Qed.

(** ** Properties *)

(** no label is lost to the directive filter.  If a source line, its
    comment removed, begins with a label, the label table of
    [parse_instructions] records that label at the index of the next
    instruction, i.e. at the number of instructions on earlier lines. *)
Theorem parse_instructions_labels source pre raw post n rest :
  splitlines source = pre ++ raw :: post ->
  is_label (strip_comment raw) = Some (n, rest) ->
  exists vs, dict_get (parse_instructions source).2 n = Some vs /\
    length (filter (fun i => (line i <= length pre)%nat) (parse_instructions source).1) ∈ vs.
Proof.
  intros Hs Hl. rewrite parse_instructions_prefix, Hs, <- parse_prefix_count.
  exact (parse_prefix_label pre raw post n rest Hl).
Qed.

Lemma parse_instructions_labels_witness :
  exists vs, dict_get (parse_instructions ("ret" +:+ nl +:+ ".Lf: nop")).2 ".Lf" = Some vs /\
    length (filter (fun i => (line i <= length ["ret"%string])%nat)
      (parse_instructions ("ret" +:+ nl +:+ ".Lf: nop")).1) ∈ vs.
Proof.
  apply (parse_instructions_labels _ ["ret"] ".Lf: nop" [] ".Lf" "nop"); vm_compute; reflexivity.
Defined.

(** C7: well-formedness of the parse.  Every instruction carries the text of
    the source line it names and a non-empty mnemonic; line numbers strictly
    increase; and every label maps to a non-empty increasing list of indices
    none of which exceeds the number of instructions, so that a resolved
    branch is an instruction or the end of the body. *)
Theorem parse_instructions_wf source :
  let '(insns, labels) := parse_instructions source in
  Forall (fun i => splitlines source !! (line i - 1)%nat = Some (text i) /\ mnemonic i <> "") insns /\
  StronglySorted lt (line <$> insns) /\
  forall n vs, dict_get labels n = Some vs ->
    vs <> [] /\ Forall (fun v => (v <= length insns)%nat) vs /\ StronglySorted le vs.
Proof.
  rewrite parse_instructions_prefix. destruct (parse_prefix_parsed (splitlines source)) as [H1 H2 H3].
  destruct (parse_prefix (splitlines source)) as [insns labels]. cbn [fst snd] in *.
  split; [|by split]. eapply Forall_impl; [|exact H1]. intros i (_ & ? & ?). done.
Qed.

(** the label loop ends with a label-free remainder: however many labels
    share a line, all of them are taken off. *)
Theorem strip_labels_complete l :
  (strip_labels l).2 = "" \/ is_label (strip_labels l).2 = None.
Proof. apply label_loop_rest. done. Qed.

(** Operand lists round-trip.  Joining well-formed operands (stripped,
    brackets closed, commas only inside brackets) with [", "] and splitting
    gives the operands back: [split_operands] cuts at exactly the top-level
    commas. *)
Theorem split_operands_join ops : Forall operand_ok ops -> split_operands (join ", " ops) = ops.
Proof.
  intros Hops. unfold split_operands. destruct ops as [|o ops]; [done|].
  rewrite split_scan_join by done. cbn beta iota.
  pose proof (removelast_last ("" +:+ o) (String " " <$> ops) "") as Hall.
  set (out := [] ++ removelast (("" +:+ o) :: (String " " <$> ops))) in *.
  set (cur := List.last (("" +:+ o) :: (String " " <$> ops)) "") in *.
  change ("" +:+ o) with o in Hall.
  pose proof Hops as Hops'. apply Forall_cons_iff in Hops' as [(Hs & Hne & _) Hrest].
  assert ((cur =s? "") = false) as ->.
  { apply seqb_false. apply (last_Forall (fun s => s <> "")). constructor; [done|].
    apply Forall_fmap, Forall_true. done. }
  assert (out ++ [cur] = o :: (String " " <$> ops)) as -> by exact Hall.
  cbn [fmap list_fmap]. rewrite Hs. fold (fmap (M := list) strip (String " " <$> ops)).
  rewrite strip_ok by done. by apply filter_nonempty_ok.
Qed.

Lemma split_operands_join_witness :
  split_operands (join ", " ["x0"; "[sp, #16]!"; "{v0.16b, v1.16b}"]) = ["x0"; "[sp, #16]!"; "{v0.16b, v1.16b}"].
Proof.
  apply split_operands_join.
  repeat apply List.Forall_cons; try apply List.Forall_nil; (split; [|split]); vm_compute; congruence.
Defined.

(** Branch resolution picks the nearest definition.  [Nb] is the
    greatest recorded index at or before the branch and [Nf] the least one
    after it; a name defined once is that definition; a name defined more than
    once is the least definition at or after the branch, or else the greatest
    of all. *)
Theorem resolve_target_nearest target labels current v :
  let values n := default [] (dict_get labels n) in
  match numeric_target (strip target) with
  | Some (n, true) =>
      resolve_target target labels current = Some v <-> greatest (fun w => (w <= current)%nat) (values n) v
  | Some (n, false) =>
      resolve_target target labels current = Some v <-> least (fun w => (current < w)%nat) (values n) v
  | None =>
      resolve_target target labels current = Some v <->
      values (strip target) = [v] \/
      (length (values (strip target)) > 1)%nat /\
      (least (fun w => (current <= w)%nat) (values (strip target)) v \/
       (forall w, w ∈ values (strip target) -> (w < current)%nat) /\
       greatest (fun _ => True) (values (strip target)) v)
  end.
Proof.
  cbn zeta. unfold resolve_target. destruct (numeric_target (strip target)) as [[n []]|].
  - apply py_max_greatest.
  - apply py_min_least.
  - destruct (default [] (dict_get labels (strip target))) as [|a [|b l]].
    + split; [done|]. intros [H|[H _]]; [done|cbn in H; lia].
    + split; [intros [= <-]; by left|]. intros [[= ->]|[H _]]; [done|cbn in H; lia].
    + set (values := a :: b :: l).
      assert (forall x, py_max values = Some x <-> greatest (fun _ => True) values x) as Hmax.
      { intros x. rewrite <- (filter_True (fun _ => True) values) at 1 by done. apply py_max_greatest. }
      pose proof (py_min_least (fun w => (current <= w)%nat) values) as Hmin.
      destruct (py_min (filter (fun w => (current <= w)%nat) values)) as [x|] eqn:E.
      * split.
        -- intros [= <-]. right. split; [cbn; lia|]. left. by apply Hmin.
        -- intros [[=]|[_ [Hv|[Hv _]]]]; [by apply Hmin|].
           apply (proj1 (Hmin x)) in E as (Hx & Hcx & _) || (destruct (proj1 (Hmin x) eq_refl) as (Hx & Hcx & _)).
           specialize (Hv x Hx). lia.
      * apply py_min_None in E. split.
        -- intros Hv. right. split; [cbn; lia|]. right. split; [|by apply Hmax].
           intros w Hw. destruct (decide (current <= w)%nat) as [Hc|]; [|lia].
           assert (w ∈ filter (fun w => (current <= w)%nat) values) as Hf by (by apply list_elem_of_filter).
           rewrite E in Hf. by apply elem_of_nil in Hf.
        -- intros [[=]|[_ [(Hx & Hcx & _)|[_ Hg]]]]; [|by apply Hmax].
           assert (v ∈ filter (fun w => (current <= w)%nat) values) as Hf by (by apply list_elem_of_filter).
           rewrite E in Hf. by apply elem_of_nil in Hf.
Qed.

(** A self-contained block of macros in an arm: it leaves the conditional and
    the open definition as they were, and defines what it defines on its own
    when the arm is active, nothing otherwise. *)
Lemma block_run linux A ms br act : macro_block A -> exists ms',
  run_macros linux A (mkMS ms br act None) = mkMS ms' br act None /\
  if act then run_macros linux A (mkMS ms [] true None) = mkMS ms' [] true None else ms' = ms.
Proof.
  intros [HA HAc].
  assert (forall ms br act, exists ms', run_macros linux A (mkMS ms br act None) = mkMS ms' br act None) as H.
  { intros ms0 br0 act0. destruct (plain_run linux A (mkMS ms0 br0 act0 None) HA) as (A1 & A2 & _).
    pose proof (plain_run_current linux true A (mkMS ms0 br0 act0 None) (mkMS [] [] true None) HA eq_refl) as A4.
    rewrite HAc in A4. exists (ms_macros (run_macros linux A (mkMS ms0 br0 act0 None))).
    destruct (run_macros linux A _); cbn in *; congruence. }
  destruct (H ms br act) as [ms' E]. exists ms'. split; [done|]. destruct act.
  - destruct (H ms [] true) as [ms2 E2]. rewrite E2. f_equal.
    pose proof (plain_run_same linux linux A (mkMS ms br true None) (mkMS ms [] true None) HA eq_refl eq_refl eq_refl) as C.
    rewrite E, E2 in C. by symmetry.
  - destruct (plain_run linux A (mkMS ms br false None) HA) as (_ & _ & A3). rewrite E in A3. by apply A3.
Qed.



(** C9: what a region is.  Every region a scan returns starts at a label of
    the file that is declared on its label line, is not a data label, and is
    either global or the target of a [bl]; its header lies above its label and
    inside the file; and its body is exactly the source lines from the label
    to its end. *)
Theorem scan_regions_sound text p ct r : r ∈ scan_regions text p ct ->
  (1 <= start_line r <= label_line r)%nat /\
  (label_line r < end_line r <= length (splitlines text) + 1)%nat /\
  body r = join nl (take (end_line r - label_line r) (drop (label_line r - 1) (splitlines text))) /\
  ((label_line r - 1)%nat, name r, false) ∈ (classify_lines text).1 /\
  name r ∈ (classify_lines text).2 ++ ct.
Proof.
  intros Hr. destruct (scan_regions_elem text p ct r Hr) as (data & blocks & q & o & Hrq & _ & _ & Hq).
  set (lines := splitlines text) in *. set (labels := (classify_lines text).1) in *.
  set (globals := (classify_lines text).2) in *.
  pose proof (code_candidates_ok text (globals ++ ct)) as Hok. fold lines labels in Hok.
  assert (exists i nxt, made lines labels (globals ++ ct) (code_candidates labels (globals ++ ct)) i nxt q) as (i & nxt & M).
  { destruct Hq as [Hq|Hq].
    - destruct (top_region _ _ _ _ _ _ _ _ Hok q Hq) as (i & nxt & ? & _). eauto.
    - destruct (nested_region _ _ _ _ _ _ _ _ Hok q Hq) as (i & nxt & ? & _). eauto. }
  destruct M as [M1 M2 M3 M4 M5 M6].
  pose proof (region_floor_spec (code_candidates labels (globals ++ ct)) i) as [F1 _].
  pose proof (header_start_bounds lines i _ F1).
  assert (start_line q = start_line r /\ label_line q = label_line r /\ end_line q = end_line r /\
    body q = body r /\ name q = name r) as (<- & <- & <- & <- & <-) by (by destruct Hrq as [->| ->]).
  split; [lia|]. split; [lia|]. split; [done|]. rewrite M1, Nat.add_sub. done.
Qed.

Lemma scan_regions_sound_witness :
  exists r, r ∈ scan_regions ("FUNC f" +:+ nl +:+ "ret") "src/f.S" [] /\ (1 <= start_line r <= label_line r)%nat.
Proof.
  eexists. split; [vm_compute; left|].
  apply (scan_regions_sound ("FUNC f" +:+ nl +:+ "ret") "src/f.S" []). vm_compute. left.
Defined.

(** top-level regions are disjoint.  Of two regions of a file that are
    not nested in another, the later one's doc header begins at or after the
    end of the earlier one. *)
Theorem scan_regions_disjoint text p ct r1 r2 :
  r1 ∈ scan_regions text p ct -> r2 ∈ scan_regions text p ct ->
  enclosing r1 = None -> enclosing r2 = None ->
  (label_line r1 < label_line r2)%nat -> (end_line r1 <= start_line r2)%nat.
Proof.
  intros H1 H2 E1 E2 Hlt.
  destruct (scan_regions_elem text p ct r1 H1) as (d1 & b1 & q1 & o1 & Hq1 & Hd1 & Hb1 & Hin1).
  destruct (scan_regions_elem text p ct r2 H2) as (d2 & b2 & q2 & o2 & Hq2 & Hd2 & Hb2 & Hin2).
  rewrite <- Hd2 in Hd1. rewrite <- Hb2 in Hb1. subst d1 b1. clear Hd2 Hb2.
  set (lines := splitlines text) in *. set (labels := (classify_lines text).1) in *.
  set (globals := (classify_lines text).2) in *.
  pose proof (code_candidates_ok text (globals ++ ct)) as Hok. fold lines labels in Hok.
  assert (forall q r o, r = q \/ r = set_falls_through q o -> enclosing r = None ->
    q ∈ nested_regions lines (code_candidates labels (globals ++ ct)) globals d2 p b2 -> False) as Hnn.
  { intros q r o Hqr Hr Hq. destruct (nested_region _ _ _ _ _ _ _ _ Hok q Hq) as (_ & _ & _ & [x Hx]).
    destruct Hqr as [->| ->]; cbn in Hr; congruence. }
  destruct Hin1 as [Hin1|Hin1]; [|by destruct (Hnn _ _ _ Hq1 E1 Hin1)].
  destruct Hin2 as [Hin2|Hin2]; [|by destruct (Hnn _ _ _ Hq2 E2 Hin2)].
  assert (label_line q1 = label_line r1 /\ end_line q1 = end_line r1) as [L1 L2]
    by (by destruct Hq1 as [->| ->]).
  assert (label_line q2 = label_line r2 /\ start_line q2 = start_line r2) as [L3 L4]
    by (by destruct Hq2 as [->| ->]).
  rewrite <- L2, <- L4. rewrite <- L1, <- L3 in Hlt.
  exact (top_disjoint _ _ _ _ _ _ _ _ Hok q1 q2 Hin1 Hin2 Hlt).
Qed.

Lemma scan_regions_disjoint_witness :
  exists r1 r2, enclosing r1 = None /\ enclosing r2 = None /\ (end_line r1 <= start_line r2)%nat.
Proof.
  eexists _, _. split; [|split; [|apply (scan_regions_disjoint
    ("FUNC f" +:+ nl +:+ "ret" +:+ nl +:+ "FUNC g" +:+ nl +:+ "ret") "src/f.S" [])]].
  all: [>| |vm_compute; left|vm_compute; right; left| | |]; vm_compute; try reflexivity; lia.
Defined.



(** A set built by insertion has the elements inserted. *)
Lemma elem_of_set_of x l : x ∈ set_of l <-> x ∈ l.
Proof.
  unfold set_of. induction l as [|y l IH] using rev_ind; [done|]. rewrite for_each_app. cbn [for_each foldl].
  unfold set_add at 1. case_bool_decide as Hy; rewrite ?elem_of_app, IH, ?list_elem_of_singleton; [|done].
  split; [by left|]. intros [?| ->]; [done|]. by apply IH.
Qed.
