(* ===== verification/GcmCtr.v ===== *)
(** * AES-GCM counter sequences (scripts/gcm_ctr_sweep_derivation.py)

    The memory-based and the four-at-a-time counter sequences, the script's
    comparison of the two, GHASH and the GCM seal on top of them.  AES itself
    ([ek], from a package) and OpenSSL's own GCM are parameters.  The C arrays
    the script emits are in [Vectors]. *)

From S2P Require Import Prelude PyInt AsmParse.

Definition M32 : Z := 0xFFFFFFFF.

(** [x.to_bytes(n, "big")] *)
Definition py_to_bytes (n : nat) (x : Z) : result (list Z) :=
  if (0 <=? x) && (x <? 256 ^ Z.of_nat n) then Ret (to_bytes_be n x) else Raise OverflowError.

(** [b[i:j]] *)
Definition bytes_slice (i j : nat) (b : list Z) : list Z := take (j - i) (drop i b).

(** ** The two sequences *)

(** [inc32]: the counter in bytes 12..15 of the block. *)
Definition inc32 (buf : list Z) : list Z :=
  let c := Z.land (from_bytes_be (bytes_slice 12 16 buf) + 1) M32 in
  take 12 buf ++ to_bytes_be 4 c ++ drop 16 buf.

Definition current_seq (iv12 : list Z) (nblocks : nat) (start_ctr : Z) : result (list Z * list (list Z) * list Z) :=
  start ← py_to_bytes 4 start_ctr;
  let jbuf := iv12 ++ start in
  let j0 := jbuf in
  let jbuf := inc32 jbuf in
  let '(blocks, jbuf) := for_each (seq 0 nblocks) ([], jbuf) (fun '(blocks, jbuf) _ =>
    (blocks ++ [jbuf], inc32 jbuf)) in
  Ret (j0, blocks, jbuf).

Definition ctr_block (iv12 : list Z) (ctr : Z) : list Z := iv12 ++ to_bytes_be 4 (Z.land ctr M32).

Definition unrolled_seq (iv12 : list Z) (nblocks : nat) (start_ctr : Z) : list Z * list (list Z) * list Z :=
  let j0 := iv12 ++ to_bytes_be 4 (Z.land start_ctr M32) in
  let ctr := Z.land (start_ctr + 1) M32 in
  let '(groups, rem) := (nblocks / 4, nblocks mod 4)%nat in
  let '(blocks, ctr) := for_each (seq 0 groups) ([], ctr) (fun '(blocks, ctr) _ =>
    (blocks ++ ((fun k => ctr_block iv12 (ctr + Z.of_nat k)) <$> seq 0 4), Z.land (ctr + 4) M32)) in
  let '(blocks, ctr) := for_each (seq 0 rem) (blocks, ctr) (fun '(blocks, ctr) _ =>
    (blocks ++ [ctr_block iv12 ctr], Z.land (ctr + 1) M32)) in
  (j0, blocks, ctr_block iv12 ctr).

(** One comparison of [check_counter_model]. *)
Definition counter_case (fails : nat) (c : list Z * nat * Z) : result nat :=
  let '(iv, n, sc) := c in
  cur ← current_seq iv n sc;
  Ret (if bool_decide (cur = unrolled_seq iv n sc) then fails else S fails).

(** The cases of [check_counter_model]; the random ones are an argument. *)
Definition counter_cases (rnd : list (list Z * nat * Z)) : list (list Z * nat * Z) :=
  let iv := Z.of_nat <$> seq 0 12 in
  ((fun n => (iv, n, 1)) <$> seq 0 200)
  ++ (off ← seq 0 8; (fun n => (iv, n, Z.land (M32 - Z.of_nat off) M32)) <$> seq 0 40)
  ++ rnd.
Definition check_counter_model (rnd : list (list Z * nat * Z)) : result nat :=
  for_result (counter_cases rnd) 0%nat counter_case.

(** ** GCM *)

(** [bytes(a ^ b for a, b in zip(x, y))] *)
Definition xor_bytes (x y : list Z) : list Z := zip_with Z.lxor x y.

(** [b + b"\0" * ((-len(b)) % 16)] *)
Definition pad (b : list Z) : list Z := b ++ replicate (Z.to_nat ((- Z.of_nat (length b)) mod 16)) 0.

(** The multiplication loop of [ghash]: bit 127 of [hi] first. *)
Definition gf_mul (hi y : Z) : Z :=
  (for_each (rev (seq 0 128)) (0, y) (fun '(z, v) bit =>
     ((if Z.testbit hi (Z.of_nat bit) then Z.lxor z v else z),
      (if Z.testbit v 0 then Z.lxor (Z.shiftr v 1) (Z.shiftl 0xE1 120) else Z.shiftr v 1)))).1.

Definition ghash (h data : list Z) : list Z :=
  let hi := from_bytes_be h in
  to_bytes_be 16 (for_each (seq 0 ((length data + 15) / 16)) 0 (fun y i =>
    let chunk := bytes_slice (16 * i) (16 * i + 16) data in
    gf_mul hi (Z.lxor y (from_bytes_be (chunk ++ replicate (16 - length chunk) 0))))).

Section seal.
(** One AES block encryption: from the [cryptography] package. *)
Context (ek : list Z -> list Z -> list Z).

Definition seal (key iv12 aad pt : list Z) : list Z * list Z :=
  let '(nblocks, rem) := (length pt / 16, length pt mod 16)%nat in
  let '(j0, blocks, tail_block) := unrolled_seq iv12 nblocks 1 in
  let ct := for_each (enumerate 0 blocks) [] (fun ct '(i, cb) =>
    ct ++ xor_bytes (bytes_slice (i * 16) ((i + 1) * 16) pt) (ek key cb)) in
  let ct := if (rem =? 0)%nat then ct
            else ct ++ xor_bytes (drop (nblocks * 16) pt) (take rem (ek key tail_block)) in
  let lens := to_bytes_be 8 (Z.of_nat (length aad) * 8) ++ to_bytes_be 8 (Z.of_nat (length pt) * 8) in
  let y := ghash (ek key (replicate 16 0)) (pad aad ++ pad ct ++ lens) in
  (ct, xor_bytes y (ek key j0)).

(** The plaintext and the associated data of length [n] of the sweep. *)
Definition sweep_pt (n : nat) : list Z := (fun i => Z.land (Z.of_nat i * 7 + 3) 0xFF) <$> seq 0 n.
Definition sweep_aad (n : nat) : list Z := (fun i => Z.land (Z.of_nat i * 11) 0xFF) <$> seq 0 (n mod 37).

(** [self_test], the random cases being an argument and the reference
    implementation a parameter. *)
Definition self_test (openssl_seal : list Z -> list Z -> list Z -> list Z -> list Z * list Z)
  (rnd : list (list Z * list Z * list Z * list Z)) : nat :=
  let '(key, iv) := (Z.of_nat <$> seq 0 16, Z.of_nat <$> seq 16 12) in
  for_each (((fun n => (key, iv, sweep_aad n, sweep_pt n)) <$> seq 0 301) ++ rnd) 0%nat (fun fails '(k, v, aad, pt) =>
    if bool_decide (seal k v aad pt = openssl_seal k v aad pt) then fails else S fails).
End seal.

(** ** Lemmas: counters *)

(** Block [i] of the keystream: the counter [start + 1 + i], modulo 2^32. *)
Definition keystream_block (iv12 : list Z) (start : Z) (i : nat) : list Z :=
  iv12 ++ to_bytes_be 4 ((start + 1 + Z.of_nat i) mod 2 ^ 32).

Lemma land_M32 x : Z.land x M32 = x mod 2 ^ 32.
Proof. exact (Z.land_ones x 32 ltac:(lia)). Qed.

Lemma ctr_block_mod iv ctr : ctr_block iv ctr = iv ++ to_bytes_be 4 (ctr mod 2 ^ 32).
Proof. unfold ctr_block. by rewrite land_M32. Qed.

Lemma ctr_block_key iv start i ctr : ctr mod 2 ^ 32 = (start + 1 + Z.of_nat i) mod 2 ^ 32 ->
  ctr_block iv ctr = keystream_block iv start i.
Proof. intros H. by rewrite ctr_block_mod, H. Qed.

Lemma inc32_block iv start i : length iv = 12%nat ->
  inc32 (keystream_block iv start i) = keystream_block iv start (S i).
Proof.
  intros Hiv. unfold inc32, keystream_block, bytes_slice. set (c := (start + 1 + Z.of_nat i) mod 2 ^ 32).
  change (16 - 12)%nat with 4%nat. rewrite take_app_length', drop_app_length' by done.
  rewrite drop_ge by (rewrite length_app, to_bytes_be_length; lia). rewrite app_nil_r.
  rewrite take_ge by (rewrite to_bytes_be_length; lia). rewrite from_to_bytes_be, land_M32.
  f_equal. f_equal. change (256 ^ Z.of_nat 4) with (2 ^ 32). rewrite Zplus_mod_idemp_l. unfold c.
  rewrite Zplus_mod_idemp_l. f_equal. lia.
Qed.

Lemma inc32_start iv start : length iv = 12%nat -> 0 <= start < 2 ^ 32 ->
  inc32 (iv ++ to_bytes_be 4 start) = keystream_block iv start 0.
Proof.
  intros Hiv Hs. pose proof (inc32_block iv (start - 1) 0 Hiv) as H. unfold keystream_block in *.
  replace (start - 1 + 1 + Z.of_nat 0) with start in H by lia. rewrite Z.mod_small in H by lia. rewrite H.
  do 3 f_equal. lia.
Qed.

Lemma current_seq_spec iv n start : length iv = 12%nat -> 0 <= start < 2 ^ 32 ->
  current_seq iv n start = Ret (iv ++ to_bytes_be 4 start, keystream_block iv start <$> seq 0 n,
                                keystream_block iv start n).
Proof.
  intros Hiv Hs. unfold current_seq, py_to_bytes. change (256 ^ Z.of_nat 4) with (2 ^ 32).
  rewrite (proj2 (Z.leb_le 0 start)), (proj2 (Z.ltb_lt start _)) by lia. cbn [andb]. rewrite bind_Ret.
  cbn zeta. rewrite inc32_start by done.
  assert (for_each (seq 0 n) ([], keystream_block iv start 0) (fun '(blocks, jbuf) (_ : nat) =>
    (blocks ++ [jbuf], inc32 jbuf)) = (keystream_block iv start <$> seq 0 n, keystream_block iv start n)) as ->.
  { induction n as [|n IH]; [done|]. rewrite seq_S, for_each_app, IH. cbn [for_each foldl].
    by rewrite fmap_app, inc32_block. }
  done.
Qed.

Lemma unrolled_groups iv start g : for_each (seq 0 g) ([], Z.land (start + 1) M32) (fun '(blocks, ctr) (_ : nat) =>
    (blocks ++ ((fun k => ctr_block iv (ctr + Z.of_nat k)) <$> seq 0 4), Z.land (ctr + 4) M32)) =
  (keystream_block iv start <$> seq 0 (4 * g), (start + 1 + Z.of_nat (4 * g)) mod 2 ^ 32).
Proof.
  induction g as [|g IH]; [cbn [for_each foldl seq fmap list_fmap]; rewrite land_M32; do 2 f_equal; lia|].
  rewrite seq_S, for_each_app, IH. cbn [for_each foldl]. rewrite land_M32. f_equal.
  - replace (4 * S g)%nat with (4 * g + 4)%nat by lia. rewrite seq_app, fmap_app. f_equal. cbn [Nat.add].
    replace (seq (4 * g) 4) with (Nat.add (4 * g) <$> seq 0 4) by (rewrite fmap_add_seq; f_equal; lia).
    rewrite <- list_fmap_compose. apply list_fmap_ext. intros _ k _. apply ctr_block_key.
    rewrite Zplus_mod_idemp_l. cbn [compose]. f_equal. lia.
  - rewrite Zplus_mod_idemp_l. f_equal. lia.
Qed.

Lemma unrolled_rest iv start b r : for_each (seq 0 r)
    (keystream_block iv start <$> seq 0 b, (start + 1 + Z.of_nat b) mod 2 ^ 32) (fun '(blocks, ctr) (_ : nat) =>
    (blocks ++ [ctr_block iv ctr], Z.land (ctr + 1) M32)) =
  (keystream_block iv start <$> seq 0 (b + r), (start + 1 + Z.of_nat (b + r)) mod 2 ^ 32).
Proof.
  induction r as [|r IH]; [by rewrite Nat.add_0_r|].
  rewrite seq_S, for_each_app, IH. cbn [for_each foldl]. rewrite land_M32, Nat.add_succ_r, seq_S, fmap_app.
  f_equal; [|rewrite Zplus_mod_idemp_l; f_equal; lia]. f_equal. cbn [Nat.add fmap list_fmap]. f_equal.
  apply ctr_block_key. rewrite Z.mod_mod by lia. done.
Qed.

Lemma unrolled_seq_spec iv n start : 0 <= start < 2 ^ 32 ->
  unrolled_seq iv n start = (iv ++ to_bytes_be 4 start, keystream_block iv start <$> seq 0 n,
                             keystream_block iv start n).
Proof.
  intros Hs. unfold unrolled_seq. rewrite unrolled_groups, unrolled_rest.
  replace (4 * (n / 4) + n mod 4)%nat with n by (apply Nat.div_mod_eq).
  rewrite land_M32, Z.mod_small by done. f_equal. apply ctr_block_key. rewrite Z.mod_mod by lia. done.
Qed.

(** ** Lemmas: the keystream *)

Lemma zip_with_app' (l1 l2 k1 k2 : list Z) : length l1 = length k1 ->
  xor_bytes (l1 ++ l2) (k1 ++ k2) = xor_bytes l1 k1 ++ xor_bytes l2 k2.
Proof. apply zip_with_app. Qed.

Lemma xor_bytes_take x k : xor_bytes x (take (length x) k) = xor_bytes x k.
Proof. revert k. induction x as [|a x IH]; intros [|b k]; [done..|]. cbn. f_equal. apply IH. Qed.

Lemma xor_bytes_involutive x k : (length x <= length k)%nat -> xor_bytes (xor_bytes x k) k = x.
Proof.
  revert k. induction x as [|a x IH]; intros [|b k] Hl; cbn in *; [done|done|lia|]. f_equal; [|apply IH; lia].
  by rewrite Z.lxor_assoc, Z.lxor_nilpotent, Z.lxor_0_r.
Qed.

Lemma xor_bytes_length x k : (length x <= length k)%nat -> length (xor_bytes x k) = length x.
Proof. intros. unfold xor_bytes. rewrite length_zip_with. lia. Qed.

Section keystream.
Context (ek : list Z -> list Z -> list Z).
(** AES maps 16-byte blocks to 16-byte blocks. *)
Hypothesis ek_block : forall key b, length b = 16%nat -> length (ek key b) = 16%nat.

(** The keystream of [SP 800-38D]'s [GCTR] from the counter after [J0]. *)
Definition gctr_stream (key iv12 : list Z) (n : nat) : list Z :=
  concat ((fun i => ek key (keystream_block iv12 1 i)) <$> seq 0 n).

Lemma keystream_length key iv n : length iv = 12%nat -> length (ek key (keystream_block iv 1 n)) = 16%nat.
Proof. intros Hiv. apply ek_block. unfold keystream_block. rewrite length_app, to_bytes_be_length. lia. Qed.

Lemma gctr_stream_S key iv n : gctr_stream key iv (S n) = gctr_stream key iv n ++ ek key (keystream_block iv 1 n).
Proof. unfold gctr_stream. rewrite seq_S, fmap_app, concat_app. cbn. by rewrite app_nil_r. Qed.

Lemma gctr_stream_length key iv n : length iv = 12%nat -> length (gctr_stream key iv n) = (16 * n)%nat.
Proof.
  intros Hiv. induction n as [|n IH]; [done|]. rewrite gctr_stream_S, length_app, IH, keystream_length by done. lia.
Qed.

Lemma full_blocks key iv pt n : length iv = 12%nat -> (16 * n <= length pt)%nat ->
  for_each (enumerate 0 (keystream_block iv 1 <$> seq 0 n)) [] (fun ct '(i, cb) =>
    ct ++ xor_bytes (bytes_slice (i * 16) ((i + 1) * 16) pt) (ek key cb)) =
  xor_bytes (take (16 * n) pt) (gctr_stream key iv n).
Proof.
  intros Hiv. induction n as [|n IH]; intros Hl; [done|].
  rewrite seq_S, fmap_app, enumerate_app, for_each_app, IH by lia. rewrite length_fmap, length_seq.
  cbn [for_each foldl fmap list_fmap enumerate Nat.add]. rewrite gctr_stream_S.
  replace (take (16 * S n) pt) with (take (16 * n) pt ++ bytes_slice (n * 16) ((n + 1) * 16) pt).
  - rewrite zip_with_app'; [done|]. rewrite length_take, gctr_stream_length by done. lia.
  - unfold bytes_slice. replace (16 * S n)%nat with (16 * n + 16)%nat by lia. rewrite <- take_take_drop.
    do 2 f_equal; [lia|]. f_equal. lia.
Qed.

(** The ciphertext of [seal] is the plaintext under the keystream. *)
Lemma seal_ct key iv aad pt : length iv = 12%nat ->
  (seal ek key iv aad pt).1 = xor_bytes pt (gctr_stream key iv (S (length pt / 16))).
Proof.
  intros Hiv. unfold seal. rewrite unrolled_seq_spec by lia. set (n := (length pt / 16)%nat).
  pose proof (Nat.div_mod_eq (length pt) 16) as Hdm. fold n in Hdm.
  rewrite full_blocks by (done || lia). cbn [fst]. rewrite gctr_stream_S.
  transitivity (xor_bytes (take (16 * n) pt ++ drop (16 * n) pt)
    (gctr_stream key iv n ++ ek key (keystream_block iv 1 n))); [|by rewrite take_drop].
  rewrite zip_with_app'.
  2: { rewrite length_take, gctr_stream_length by done. lia. }
  destruct (Nat.eqb_spec (length pt mod 16) 0) as [E|E].
  - rewrite (drop_ge pt) by lia. by rewrite app_nil_r.
  - f_equal. rewrite Nat.mul_comm. rewrite <- (xor_bytes_take _ (ek key _)), length_drop. do 2 f_equal. lia.
Qed.
End keystream.

(** ** The properties *)

(** C21: the unrolled counter sequence is the memory-based one: for every
    12-byte IV, every number of blocks and every 32-bit starting counter,
    wrap-around included, both give the same first block, keystream blocks
    and final block; so [check_counter_model] finds no mismatch on any such
    cases. *)
Theorem counter_sequences_agree iv n start rnd : length iv = 12%nat -> 0 <= start < 2 ^ 32 ->
  Forall (fun c => length c.1.1 = 12%nat /\ 0 <= c.2 < 2 ^ 32) rnd ->
  current_seq iv n start = Ret (unrolled_seq iv n start) /\ check_counter_model rnd = Ret 0%nat.
Proof.
  intros Hiv Hs Hr. split; [by rewrite current_seq_spec, unrolled_seq_spec|]. unfold check_counter_model.
  assert (Forall (fun c => length c.1.1 = 12%nat /\ 0 <= c.2 < 2 ^ 32) (counter_cases rnd)) as Hc.
  { unfold counter_cases. rewrite !Forall_app. split; [|split; [|done]].
    - apply Forall_fmap, Forall_forall. intros m _. cbn. lia.
    - apply Forall_bind, Forall_forall. intros off _. apply Forall_fmap, Forall_forall. intros m _. cbn [compose fst snd].
      split; [done|]. rewrite land_M32. apply Z.mod_pos_bound. lia. }
  revert Hc. generalize (counter_cases rnd) as cs. intros cs Hc. induction Hc as [|[[iv' m] sc] cs [H1 H2] _ IH]; [done|].
  cbn [for_result counter_case fst snd] in *. rewrite current_seq_spec, unrolled_seq_spec by done.
  rewrite bind_Ret, bool_decide_true, bind_Ret by done. exact IH.
Qed.

Lemma counter_sequences_agree_witness :
  current_seq (replicate 12 7) 9 (2 ^ 32 - 3) = Ret (unrolled_seq (replicate 12 7) 9 (2 ^ 32 - 3)) /\
  check_counter_model [(replicate 12 1, 5%nat, 2 ^ 32 - 1)] = Ret 0%nat.
Proof.
  apply (counter_sequences_agree (replicate 12 7) 9 (2 ^ 32 - 3) [(replicate 12 1, 5%nat, 2 ^ 32 - 1)]);
    [reflexivity|lia|]. constructor; [|constructor]. cbn [fst snd]. split; [reflexivity|lia].
Defined.

(** [seal] encrypts with the GCM keystream: for a 12-byte IV and any block
    cipher on 16-byte blocks, the ciphertext is the plaintext XORed with the
    encrypted counter blocks from the counter after [J0], the partial last
    block included; it has the plaintext's length; and sealing the ciphertext
    again under the same key and IV gives the plaintext back. *)
Theorem seal_gctr (ek : list Z -> list Z -> list Z) key iv aad aad' pt :
  (forall key b, length b = 16%nat -> length (ek key b) = 16%nat) -> length iv = 12%nat ->
  let ct := (seal ek key iv aad pt).1 in
  ct = xor_bytes pt (gctr_stream ek key iv (S (length pt / 16))) /\
  length ct = length pt /\ (seal ek key iv aad' ct).1 = pt.
Proof.
  intros Hek Hiv. cbn zeta. rewrite !seal_ct by done.
  assert (length pt <= length (gctr_stream ek key iv (S (length pt / 16))))%nat as Hl.
  { rewrite gctr_stream_length by done. pose proof (Nat.div_mod_eq (length pt) 16).
    pose proof (Nat.mod_upper_bound (length pt) 16). lia. }
  rewrite xor_bytes_length by done. split; [done|]. split; [done|]. by apply xor_bytes_involutive.
Qed.

Lemma seal_gctr_witness : let ek key b := take 16 (b ++ key) in
  (seal ek [] (replicate 12 3) [] (seal ek [] (replicate 12 3) [1] (sweep_pt 37)).1).1 = sweep_pt 37.
Proof.
  intros ek. apply (seal_gctr ek [] (replicate 12 3) [1] [] (sweep_pt 37)); [|reflexivity].
  intros key b Hb. unfold ek. rewrite length_take, length_app. lia.
Defined.
