(* ===== verification/Dataflow.v ===== *)
(** * Round-robin dataflow

    The iteration the analyses share: arrays indexed by node, swept in a
    fixed order with updates in place, at most [n + 2] sweeps, stopping when a
    sweep changes nothing.  For transfer functions given by generated facts
    and fact-preserving edges, the result is exactly the facts reachable
    along a path, and the arrays are a fixpoint: [n + 2] sweeps are enough. *)

From S2P Require Import Prelude.

Section sweep.
Context {W V : Type} `{EqW : EqDecision W, EqV : EqDecision V, InW : Inhabited W, InV : Inhabited V}.
Context (tr : nat -> list V -> W * V).

(** The two arrays: a value derived at the node, and the one propagated. *)
Definition arrays : Type := list W * list V.

(** One node of a sweep:
<<
    new = transfer(i)
    if new != (ws[i], vs[i]):
        ws[i], vs[i] = new
        changed = True
>> *)
Definition visit (s : arrays * bool) (i : nat) : arrays * bool :=
  let '(ws, vs, changed) := s in
  let new := tr i vs in
  if decide (new = (ws !!! i, vs !!! i)) then s
  else (<[i := new.1]> ws, <[i := new.2]> vs, true).

Definition sweep (order : list nat) (s : arrays) : arrays * bool := for_each order (s, false) visit.

(** [for _ in range(rounds): sweep; if not changed: break] *)
Definition solve (rounds : nat) (order : list nat) (s : arrays) : arrays :=
  iter_changed rounds (sweep order) s.

(** A sweep without a change is a no-op. *)
Lemma sweep_true order s : (for_each order (s, true) visit).2 = true.
Proof.
  revert s. induction order as [|i order IH]; intros s; [done|].
  change (for_each (i :: order) (s, true) visit) with (for_each order (visit (s, true) i) visit).
  destruct s as [ws vs]. unfold visit at 1. destruct (decide _); apply IH.
Qed.

Lemma sweep_unchanged order s s' : sweep order s = (s', false) -> s' = s.
Proof.
  unfold sweep. revert s. induction order as [|i order IH]; intros s; [by intros [= ->]|].
  change (for_each (i :: order) (s, false) visit) with (for_each order (visit (s, false) i) visit).
  destruct s as [ws vs]. unfold visit at 1. cbn beta iota. destruct (decide _); [apply IH|].
  intros H. apply (f_equal snd) in H. rewrite sweep_true in H. done.
Qed.

Lemma solve_iter rounds order s :
  solve rounds order s = Nat.iter rounds (fun s => (sweep order s).1) s.
Proof. apply iter_changed_iter. apply sweep_unchanged. Qed.

(** One visit, without the change flag. *)
Definition put (i : nat) (s : arrays) : arrays :=
  (<[i := (tr i s.2).1]> s.1, <[i := (tr i s.2).2]> s.2).

Lemma visit_put ws vs c i : (i < length ws)%nat -> (i < length vs)%nat ->
  (visit (ws, vs, c) i).1 = put i (ws, vs).
Proof.
  intros Hw Hv. unfold visit, put. cbn [fst snd]. destruct (decide _) as [E|]; [|done].
  rewrite E. cbn [fst snd]. by rewrite !list_insert_id by (by apply list_lookup_lookup_total_lt).
Qed.

Lemma put_length i s : length (put i s).1 = length s.1 /\ length (put i s).2 = length s.2.
Proof. unfold put. cbn [fst snd]. by rewrite !length_insert. Qed.

Lemma sweep_puts order s :
  Forall (fun i => (i < length s.1)%nat /\ (i < length s.2)%nat) order ->
  (sweep order s).1 = for_each order s (fun s i => put i s).
Proof.
  unfold sweep. generalize false as c. revert s.
  induction order as [|i order IH]; intros s c Ho; [by destruct s|].
  apply Forall_cons_iff in Ho as [[Hw Hv] Ho].
  change (for_each (i :: order) (s, c) visit) with (for_each order (visit (s, c) i) visit).
  change (for_each (i :: order) s (fun s i => put i s)) with (for_each order (put i s) (fun s i => put i s)).
  destruct s as [ws vs]. cbn [fst snd] in *. pose proof (visit_put ws vs c i Hw Hv) as E.
  destruct (visit (ws, vs, c) i) as [s' c']. cbn [fst] in E. subst s'. apply IH.
  eapply Forall_impl; [|exact Ho]. intros j Hj. cbn beta in *.
  destruct (put_length i (ws, vs)) as [-> ->]. exact Hj.
Qed.
End sweep.

(** ** Generated facts and edges *)

Section genkill.
Context {W V K : Type} `{EqW : EqDecision W, EqV : EqDecision V, InW : Inhabited W, InV : Inhabited V}.
Context (tr : nat -> list V -> W * V) (n : nat) (order : list nat).
Context (mem : nat -> V -> K -> Prop) (gen : nat -> K -> Prop) (edge : nat -> nat -> K -> Prop).

(** The facts that reach a node. *)
Inductive reaches : nat -> K -> Prop :=
| reach_gen i k : (i < n)%nat -> gen i k -> reaches i k
| reach_edge i j k : (i < n)%nat -> edge i j k -> reaches j k -> reaches i k.

Hypothesis order_all : forall i, i ∈ order <-> (i < n)%nat.
Hypothesis edge_range : forall i j k, (i < n)%nat -> edge i j k -> (j < n)%nat.
Hypothesis tr_mem : forall i vs k, (i < n)%nat -> length vs = n ->
  mem i (tr i vs).2 k <-> gen i k \/ exists j, edge i j k /\ mem j (vs !!! j) k.
(** Transferred values are determined by their facts. *)
Hypothesis tr_ext : forall i vs vs', (i < n)%nat -> length vs = n -> length vs' = n ->
  (forall k, mem i (tr i vs).2 k <-> mem i (tr i vs').2 k) -> (tr i vs).2 = (tr i vs').2.

Lemma reaches_range i k : reaches i k -> (i < n)%nat.
Proof. by destruct 1. Qed.

(** A fact reaches along a path of at most [d] edges. *)
Fixpoint within (d : nat) (i : nat) (k : K) : Prop :=
  match d with
  | O => gen i k
  | S d => gen i k \/ exists j, edge i j k /\ within d j k
  end.

Fixpoint fact_path (k : K) (l : list nat) : Prop :=
  match l with
  | [] => False
  | [i] => gen i k
  | i :: (j :: _) as l' => edge i j k /\ fact_path k l'
  end.

Lemma fact_path_within k l i : fact_path k (i :: l) -> within (length l) i k.
Proof.
  revert i. induction l as [|j l IH]; intros i; [done|]. intros [He Hp]. right. exists j. auto.
Qed.

Lemma fact_path_suffix k l1 i l2 : fact_path k (l1 ++ i :: l2) -> fact_path k (i :: l2).
Proof.
  induction l1 as [|a l1 IH]; [done|]. intros H. apply IH.
  destruct l1 as [|b l1]; cbn in *; apply H.
Qed.

Lemma reaches_path i k : reaches i k -> exists l, fact_path k (i :: l) /\ NoDup (i :: l) /\
  Forall (fun j => (j < n)%nat) (i :: l).
Proof.
  induction 1 as [i k Hi Hg|i j k Hi He _ (l & Hp & Hnd & Hf)].
  - exists []. split; [done|]. split; [apply NoDup_singleton|]. by repeat constructor.
  - destruct (decide (i ∈ j :: l)) as [Hin|Hnin].
    + apply list_elem_of_split in Hin as (l1 & l2 & E). rewrite E in Hp, Hnd, Hf.
      exists l2. split; [by eapply fact_path_suffix|]. apply list.NoDup_app in Hnd as (_ & _ & ?).
      by apply Forall_app in Hf as [_ ?].
    + exists (j :: l). split; [done|]. split; [by constructor|by constructor].
Qed.

(** A path need not repeat a node, so [n - 1] edges are enough. *)
Lemma reaches_within i k : reaches i k -> exists d, (d < n)%nat /\ within d i k.
Proof.
  intros H. destruct (reaches_path i k H) as (l & Hp & Hnd & Hf). exists (length l).
  split; [|by apply fact_path_within].
  assert (i :: l ⊆ seq 0 n) as Hsub.
  { intros j Hj. rewrite List.Forall_forall in Hf. apply elem_of_seq.
    specialize (Hf j). rewrite <- list_elem_of_In in Hf. specialize (Hf Hj). lia. }
  pose proof (NoDup_submseteq _ _ Hnd Hsub) as Hs. apply submseteq_length in Hs.
  rewrite length_seq in Hs. cbn in Hs. lia.
Qed.

(** The sweep invariant: the arrays have their length, only reachable facts
    are recorded, and a transfer never loses a recorded fact. *)
Record wf (s : list W * list V) : Prop := {
  wf_w : length s.1 = n;
  wf_v : length s.2 = n;
  wf_sound : forall i k, (i < n)%nat -> mem i (s.2 !!! i) k -> reaches i k;
  wf_grow : forall i k, (i < n)%nat -> mem i (s.2 !!! i) k -> mem i (tr i s.2).2 k
}.

(** [s'] records at least the facts of [s]. *)
Definition above (s s' : list W * list V) : Prop :=
  forall i k, (i < n)%nat -> mem i (s.2 !!! i) k -> mem i (s'.2 !!! i) k.

Lemma tr_mono i s s' k : (i < n)%nat -> length s.2 = n -> length s'.2 = n -> above s s' ->
  mem i (tr i s.2).2 k -> mem i (tr i s'.2).2 k.
Proof.
  intros Hi Hl Hl' Ha. rewrite !tr_mem by done. intros [H|(j & He & Hm)]; [by left|].
  right. exists j. split; [done|]. apply Ha; [by eapply edge_range|done].
Qed.

Lemma put_other i j s : i <> j -> (put tr i s).2 !!! j = s.2 !!! j.
Proof. intros. unfold put. cbn [snd]. by rewrite list_lookup_total_insert_ne. Qed.

Lemma put_same i s : (i < length s.2)%nat -> (put tr i s).2 !!! i = (tr i s.2).2.
Proof. intros. unfold put. cbn [snd]. by rewrite list_lookup_total_insert_eq. Qed.

Lemma put_above i s : (i < n)%nat -> wf s -> above s (put tr i s).
Proof.
  intros Hi Hwf j k Hj Hm. destruct (decide (i = j)) as [->|Hne].
  - rewrite put_same by (rewrite (wf_v _ Hwf); lia). by apply (wf_grow _ Hwf).
  - by rewrite put_other.
Qed.

Lemma put_wf i s : (i < n)%nat -> wf s -> wf (put tr i s).
Proof.
  intros Hi Hwf. destruct (put_length tr i s) as [L1 L2]. pose proof (wf_w _ Hwf). pose proof (wf_v _ Hwf).
  split; [lia|lia| |].
  - intros j k Hj. destruct (decide (i = j)) as [->|Hne].
    + rewrite put_same by lia. rewrite tr_mem by done. intros [Hg|(l & He & Hm)]; [by apply reach_gen|].
      apply reach_edge with l; [done|done|]. apply (wf_sound _ Hwf); [by eapply edge_range|done].
    + rewrite put_other by done. by apply (wf_sound _ Hwf).
  - intros j k Hj Hm. destruct (decide (i = j)) as [->|Hne].
    + rewrite put_same in Hm by lia. eapply (tr_mono j s (put tr j s)); [done|done|lia| |done]. by apply put_above.
    + rewrite put_other in Hm by done.
      eapply (tr_mono j s (put tr i s)); [done|done|lia|by apply put_above|]. by apply (wf_grow _ Hwf).
Qed.

(** A run of puts over a list of nodes. *)
Lemma puts_wf l s : Forall (fun i => (i < n)%nat) l -> wf s ->
  wf (for_each l s (fun s i => put tr i s)) /\ above s (for_each l s (fun s i => put tr i s)).
Proof.
  intros Hl. revert s. induction Hl as [|i l Hi _ IH]; intros s Hwf; [by split; [|intros i k _]|].
  destruct (IH (put tr i s) (put_wf i s Hi Hwf)) as [H1 H2]. split; [exact H1|].
  intros j k Hj Hm. apply H2; [done|]. by apply put_above.
Qed.

(** A visited node has at least the facts its transfer gave at the start. *)
Lemma puts_progress l s i k : Forall (fun i => (i < n)%nat) l -> wf s -> i ∈ l ->
  mem i (tr i s.2).2 k -> mem i ((for_each l s (fun s i => put tr i s)).2 !!! i) k.
Proof.
  intros Hl. revert s. induction Hl as [|j l Hj Hl IH]; intros s Hwf Hi Hm; [by apply elem_of_nil in Hi|].
  destruct (decide (i = j)) as [->|Hne].
  - destruct (puts_wf l (put tr j s) Hl (put_wf j s Hj Hwf)) as [_ Ha]. apply Ha; [done|].
    by rewrite put_same by (rewrite (wf_v _ Hwf); lia).
  - apply elem_of_cons in Hi as [->|Hi]; [done|]. apply (IH (put tr j s)); [by apply put_wf|done|].
    assert (i < n)%nat by (rewrite List.Forall_forall in Hl; apply Hl; by apply list_elem_of_In).
    destruct (put_length tr j s) as [_ L2]. pose proof (wf_v _ Hwf).
    eapply (tr_mono i s (put tr j s)); [done|done|lia|by apply put_above|done].
Qed.

(** The sweep as a function on states. *)
Definition round (s : list W * list V) : list W * list V := (sweep tr order s).1.

Lemma order_range : Forall (fun i => (i < n)%nat) order.
Proof. apply List.Forall_forall. intros i Hi. apply order_all. by apply list_elem_of_In. Qed.

Lemma round_puts s : wf s -> round s = for_each order s (fun s i => put tr i s).
Proof.
  intros Hwf. apply sweep_puts. eapply Forall_impl; [|exact order_range]. intros i Hi. cbn beta in *.
  rewrite (wf_w _ Hwf), (wf_v _ Hwf). done.
Qed.

Lemma round_wf s : wf s -> wf (round s).
Proof. intros Hwf. rewrite round_puts by done. apply puts_wf; [exact order_range|done]. Qed.

(** Complete up to paths of [d] edges. *)
Definition complete (d : nat) (s : list W * list V) : Prop :=
  forall i k, (i < n)%nat -> within d i k -> mem i (s.2 !!! i) k.

Lemma round_gen s : wf s -> complete 0 (round s).
Proof.
  intros Hwf i k Hi Hw. rewrite round_puts by done.
  apply puts_progress; [exact order_range|done|by apply order_all|]. apply tr_mem; [done|apply Hwf|by left].
Qed.

Lemma round_complete d s : wf s -> complete d s -> complete (S d) (round s).
Proof.
  intros Hwf Hc i k Hi Hw. rewrite round_puts by done.
  apply puts_progress; [exact order_range|done|by apply order_all|].
  apply tr_mem; [done|apply Hwf|]. destruct Hw as [Hg|(j & He & Hw)]; [by left|].
  right. exists j. split; [done|]. apply Hc; [by eapply edge_range|done].
Qed.

Lemma rounds_wf r s : wf s -> wf (Nat.iter r round s).
Proof. intros Hwf. induction r as [|r IH]; [done|]. by apply round_wf. Qed.

Lemma rounds_complete d s : wf s -> complete d (Nat.iter (S d) round s).
Proof.
  intros Hwf. induction d as [|d IH]; [by apply round_gen|].
  change (complete (S d) (round (Nat.iter (S d) round s))). apply round_complete; [by apply rounds_wf|done].
Qed.

(** Exact: recorded facts are the reachable ones. *)
Definition exact_facts (s : list W * list V) : Prop :=
  forall i k, (i < n)%nat -> mem i (s.2 !!! i) k <-> reaches i k.

Lemma within_mono d e i k : (d <= e)%nat -> within d i k -> within e i k.
Proof.
  revert e i. induction d as [|d IH]; intros e i Hde; cbn [within].
  - destruct e; cbn [within]; auto.
  - destruct e as [|e]; [lia|]. cbn [within]. intros [?|(j & ? & ?)]; [by left|].
    right. exists j. split; [done|]. apply IH; [lia|done].
Qed.

Lemma rounds_exact r s : wf s -> (n <= r)%nat -> exact_facts (Nat.iter r round s).
Proof.
  intros Hwf Hr i k Hi. split; [by apply (wf_sound _ (rounds_wf r s Hwf))|].
  intros H. destruct (reaches_within i k H) as (d & Hd & Hw).
  destruct r as [|r]; [lia|]. eapply rounds_complete; [done|done|]. eapply within_mono; [|exact Hw]. lia.
Qed.

(** The values stored after a round come from the transfer. *)
Definition transferred (s : list W * list V) : Prop :=
  forall i, (i < n)%nat -> exists vs, length vs = n /\ s.2 !!! i = (tr i vs).2.

Lemma puts_transferred l s : Forall (fun i => (i < n)%nat) l -> wf s ->
  forall i, i ∈ l -> exists vs, length vs = n /\
    (for_each l s (fun s i => put tr i s)).2 !!! i = (tr i vs).2.
Proof.
  intros Hl. revert s. induction Hl as [|j l Hj Hl IH]; intros s Hwf i Hi; [by apply elem_of_nil in Hi|].
  change (for_each (j :: l) s (fun s i => put tr i s)) with (for_each l (put tr j s) (fun s i => put tr i s)).
  destruct (decide (i ∈ l)) as [Hil|Hnil]; [apply IH; [by apply put_wf|done]|].
  apply elem_of_cons in Hi as [->|]; [|done]. exists s.2. split; [apply Hwf|].
  assert (forall s', j ∉ l -> (for_each l s' (fun s i => put tr i s)).2 !!! j = s'.2 !!! j) as Hkeep.
  { clear. induction l as [|x l IH]; intros s' Hn; [done|]. apply not_elem_of_cons in Hn as [Hx Hn].
    change (for_each (x :: l) s' (fun s i => put tr i s)) with (for_each l (put tr x s') (fun s i => put tr i s)).
    rewrite IH by done. by apply put_other. }
  rewrite Hkeep by done. apply put_same. rewrite (wf_v _ Hwf). lia.
Qed.

Lemma round_transferred s : wf s -> transferred (round s).
Proof.
  intros Hwf i Hi. rewrite round_puts by done.
  apply puts_transferred; [exact order_range|done|by apply order_all].
Qed.

(** On exact transferred arrays a put changes no propagated value. *)
Lemma put_exact i s : (i < n)%nat -> wf s -> exact_facts s -> transferred s -> (put tr i s).2 = s.2.
Proof.
  intros Hi Hwf He Ht. unfold put. cbn [snd]. destruct (Ht i Hi) as (vs & Hl & Hv).
  assert ((tr i s.2).2 = s.2 !!! i) as ->.
  { rewrite Hv. apply tr_ext; [done|apply Hwf|done|]. intros k. rewrite <- Hv. rewrite (He i k Hi).
    rewrite (tr_mem i s.2 k Hi (wf_v _ Hwf)). split.
    - intros [Hg|(j & Hed & Hm)]; [by apply reach_gen|]. apply reach_edge with j; [done|done|].
      apply He; [by eapply edge_range|done].
    - destruct 1 as [i k _ Hg|i j k _ Hed Hr]; [by left|]. right. exists j. split; [done|].
      apply He; [by eapply edge_range|done]. }
  apply list_insert_id, list_lookup_lookup_total_lt. rewrite (wf_v _ Hwf). done.
Qed.

Lemma puts_exact l s : Forall (fun i => (i < n)%nat) l -> wf s -> exact_facts s -> transferred s ->
  let s' := for_each l s (fun s i => put tr i s) in
  s'.2 = s.2 /\ (forall i, i ∈ l -> s'.1 !!! i = (tr i s.2).1).
Proof.
  intros Hl. revert s. induction Hl as [|j l Hj Hl IH]; intros s Hwf He Ht.
  { split; [done|]. intros i Hi. by apply elem_of_nil in Hi. }
  cbn zeta. change (for_each (j :: l) s (fun s i => put tr i s)) with (for_each l (put tr j s) (fun s i => put tr i s)).
  pose proof (put_exact j s Hj Hwf He Ht) as E.
  assert (exact_facts (put tr j s) /\ transferred (put tr j s)) as [He' Ht']
    by (split; intros i; unfold exact_facts, transferred in *; rewrite E; apply He || apply Ht).
  destruct (IH (put tr j s) (put_wf j s Hj Hwf) He' Ht') as [H1 H2]. rewrite E in H1, H2.
  split; [exact H1|]. intros i Hi. destruct (decide (i ∈ l)) as [Hil|Hnil]; [by apply H2|].
  apply elem_of_cons in Hi as [->|]; [|done].
  assert (forall s', j ∉ l -> (for_each l s' (fun s i => put tr i s)).1 !!! j = s'.1 !!! j) as Hkeep.
  { clear. induction l as [|x l IH]; intros s' Hn; [done|]. apply not_elem_of_cons in Hn as [Hx Hn].
    change (for_each (x :: l) s' (fun s i => put tr i s)) with (for_each l (put tr x s') (fun s i => put tr i s)).
    rewrite IH by done. unfold put. cbn [fst]. by rewrite list_lookup_total_insert_ne. }
  rewrite Hkeep by done. unfold put. cbn [fst]. apply list_lookup_total_insert_eq. rewrite (wf_w _ Hwf). lia.
Qed.

(** What [n + 2] sweeps compute, the early exit included: exactly the
    reachable facts, with every derived value that of the final array. *)
Theorem solve_spec s : wf s ->
  let s' := solve tr (n + 2) order s in
  length s'.1 = n /\ length s'.2 = n /\
  (forall i k, (i < n)%nat -> mem i (s'.2 !!! i) k <-> reaches i k) /\
  (forall i, (i < n)%nat -> s'.1 !!! i = (tr i s'.2).1).
Proof.
  intros Hwf. cbn zeta. set (t := Nat.iter (S n) round s).
  assert (solve tr (n + 2) order s = round t) as ->.
  { rewrite solve_iter. replace (n + 2)%nat with (S (S n)) by lia. reflexivity. }
  assert (wf t) as Ht by (by apply rounds_wf).
  assert (exact_facts t) as He by (apply rounds_exact; [done|lia]).
  assert (transferred t) as Htr by (unfold t; apply round_transferred; by apply rounds_wf).
  pose proof (round_wf t Ht) as Hwt. rewrite round_puts in Hwt |- * by done.
  destruct (puts_exact order t order_range Ht He Htr) as [E1 E2].
  split; [exact (wf_w _ Hwt)|]. split; [exact (wf_v _ Hwt)|]. rewrite E1. split; [exact He|].
  intros i Hi. apply E2. by apply order_all.
Qed.
(** After the sweeps every propagated value is one the transfer produced. *)
Theorem solve_transferred s : wf s -> transferred (solve tr (n + 2) order s).
Proof.
  intros Hwf. rewrite solve_iter. replace (n + 2)%nat with (S (S n)) by lia.
  apply (round_transferred (Nat.iter (S n) round s)). by apply rounds_wf.
Qed.
End genkill.
