(* ===== verification/Abi.v ===== *)
(** * The static ABI checker (scripts/abi.py)

    Instruction effects, the control-flow graph, the forward dataflow over
    callee-saved registers and the stack pointer, the two NZCV analyses, and
    the checks made of them.  The macro table the code caches per platform is
    an argument. *)

From Stdlib Require Import Ascii.
From S2P Require Import Prelude PyInt PyStr Regex AsmParse Dataflow.

(** ** Tables *)

(** [{f"{p}{i}" for i in range(a, b)}] *)
Definition reg_range (p : string) (a b : nat) : list string := (fun i => p +:+ str_nat i) <$> seq a (b - a).

Definition CALLEE_SAVED_GPR : list string := Eval vm_compute in reg_range "x" 19 29 ++ ["x29"; "x30"].
Definition CALLEE_SAVED_SIMD : list string := Eval vm_compute in reg_range "v" 8 16.
Definition SIMD_ALIASES : list (string * string) := Eval vm_compute in
  zip (reg_range "d" 0 32) (reg_range "v" 0 32) ++ zip (reg_range "q" 0 32) (reg_range "v" 0 32).

Definition LOAD_MNEMONICS : list string :=
  ["ldr"; "ldp"; "ldur"; "ldrb"; "ldrh"; "ldrsb"; "ldrsh"; "ldrsw";
   "ldnp"; "ldar"; "ldxr"; "ldaxr"; "ldarh"; "ldaxrh"; "ldarb"; "ldaxrb";
   "ldxp"; "ldaxp"; "ldursw"; "ldurb"; "ldurh"; "ldursb"; "ldursh";
   "ld1"; "ld2"; "ld3"; "ld4"; "ld1r"; "ld2r"; "ld3r"; "ld4r";
   "ldadd"; "ldclr"; "ldeor"; "ldset"; "ldsmax"; "ldsmin"; "ldumax"; "ldumin"].
Definition LOAD_PAIR : list string := ["ldp"; "ldnp"; "ldxp"; "ldaxp"].
Definition STORE_MNEMONICS : list string :=
  ["str"; "stp"; "stur"; "strb"; "strh"; "stnp"; "stlr"; "stxr"; "stlxp";
   "sturb"; "sturh"; "stlxr"; "stxp";
   "st1"; "st2"; "st3"; "st4"; "stadd"; "stclr"; "steor"; "stset";
   "stsmax"; "stsmin"; "stumax"; "stumin"].
Definition STORE_PAIR : list string := ["stp"; "stnp"; "stxp"; "stlxp"].
Definition COND_BRANCH : list string :=
  ["b"; "b.eq"; "b.ne"; "b.cs"; "b.hs"; "b.cc"; "b.lo"; "b.mi";
   "b.pl"; "b.vs"; "b.vc"; "b.hi"; "b.ls"; "b.ge"; "b.lt"; "b.gt";
   "b.le"; "b.al"; "b.nv"; "cbz"; "cbnz"; "tbz"; "tbnz"].
Definition NO_DEST : list string :=
  ["cmp"; "cmn"; "tst"; "fcmp"; "fcmpe"; "fccmp"; "fccmpe"; "ccmp";
   "ccmn"; "prfm"; "nop"; "dsb"; "dmb"; "isb"; "clrex"; "sev"; "sevl";
   "wfe"; "wfi"; "yield"; "hint"; "brk"; "svc"; "eret"; "at"; "dc";
   "ic"; "tlbi"; "sys"; "sysl"].
Definition FLAG_DEFS : list string :=
  ["adds"; "adcs"; "subs"; "sbcs"; "ands"; "bics"; "negs"; "ngcs";
   "cmp"; "cmn"; "tst"; "ccmp"; "ccmn";
   "fcmp"; "fcmpe"; "fccmp"; "fccmpe";
   "rmif"; "setf8"; "setf16"; "cfinv"; "msr"; "bl"; "blr"; "svc"].
Definition FLAG_USES : list string :=
  ["adc"; "adcs"; "sbc"; "sbcs"; "ngc"; "ngcs";
   "ccmp"; "ccmn"; "cfinv";
   "csel"; "csinc"; "csinv"; "csneg"; "cset"; "csetm";
   "cinc"; "cinv"; "cneg"; "fcsel"; "mrs"].

(** [x in table] *)
Definition in_table (l : list string) (x : string) : bool := existsb (String.eqb x) l.

Definition defines_flags (i : Instruction) : bool := in_table FLAG_DEFS (mnemonic i).
Definition uses_flags (i : Instruction) : bool :=
  in_table FLAG_USES (mnemonic i) || startswith "b." (mnemonic i) || startswith "bc." (mnemonic i).

Definition norm_text (i : Instruction) : string :=
  join " " (lower (mnemonic i) :: (lower <$> operands i)).

Record ABIWarning : Type := mkWarning {
  severity : string;
  message : string;
  w_line : option nat
}.

(** ** Instruction effects *)

Definition regs_of (text : string) : list string := (fun x => group x 1) <$> re_finditer REG_RE text.

Definition PRE_RE : re := Eval vm_compute in rx "\[sp,\s*#(-?\d+)\]!".
Definition POST_RE : re := Eval vm_compute in rx "\[sp\]\s*,\s*#(-?\d+)".
Definition STACK_RE : re := Eval vm_compute in rx "\b(sp|x29)\b".
Definition IMM_RE : re := Eval vm_compute in rx "#([+-]?\d+)".
Definition IMM_END_RE : re := Eval vm_compute in rx "#([+-]?\d+)$".

Definition sp_delta_of (operands : list string) : option Z :=
  let text := join ", " operands in
  match re_search PRE_RE text with
  | Some x => Some (int_of (group x 1))
  | None => match re_search POST_RE text with
            | Some x => Some (int_of (group x 1))
            | None => None
            end
  end.

Inductive branch_kind : Type := Bnone | Bcond | Bret.

(** The dict [effect] returns. *)
Record Effect : Type := mkEffect {
  e_loads : list string;
  e_stores : list string;
  e_dirtied : list string;
  e_copy_from : option string;
  e_sp_delta : option Z;
  e_sp_restore : bool;
  e_calls : bool;
  e_ret : option string;
  e_br : option string;
  e_branch : branch_kind
}.
Definition no_effect : Effect := mkEffect [] [] [] None None false false None None Bnone.
Definition with_dirtied (l : list string) : Effect := mkEffect [] [] l None None false false None None Bnone.

Definition brace_first (operands : list string) : bool :=
  match operands with o :: _ => startswith "{" o | [] => false end.
Definition first_regs (operands : list string) : list string :=
  match operands with o :: _ => regs_of o | [] => [] end.

Definition effect (insn : Instruction) : Effect :=
  let mn := mnemonic insn in
  let ops := operands insn in
  if in_table COND_BRANCH mn then mkEffect [] [] [] None None false false None None Bcond else
  if mn =s? "ret" then
    let found := filter (fun r => startswith "x" r = true) (first_regs ops) in
    mkEffect [] [] [] None None false false (Some (default "x30" (head found))) None Bret else
  if mn =s? "br" then
    mkEffect [] [] [] None None false false None (Some (default "x30" (head (first_regs ops)))) Bret else
  if in_table ["bl"; "blr"] mn then
    mkEffect [] [] ["x30"] None None false true None None (if mn =s? "blr" then Bcond else Bnone) else
  match mn =s? "mov", ops with
  | true, dst :: src :: _ =>
      if strip dst =s? "sp" then mkEffect [] [] [] None None true false None None Bnone
      else match regs_of dst with
           | d :: _ => mkEffect [] [] [d] (head (regs_of src)) None false false None None Bnone
           | [] => no_effect
           end
  | _, _ =>
  if in_table ["movz"; "movk"; "movn"; "adr"; "adrp"] mn then with_dirtied (take 1 (first_regs ops)) else
  if in_table LOAD_MNEMONICS mn then
    let n_dest := if in_table LOAD_PAIR mn then 2%nat else 1%nat in
    let loaded := if brace_first ops then first_regs ops else take n_dest ops ≫= regs_of in
    let address := join " " (if brace_first ops then drop 1 ops else drop n_dest ops) in
    if searches STACK_RE address
    then mkEffect loaded [] [] None (sp_delta_of ops) false false None None Bnone
    else mkEffect [] [] loaded None (sp_delta_of ops) false false None None Bnone else
  if in_table STORE_MNEMONICS mn then
    let n_src := if in_table STORE_PAIR mn then 2%nat else 1%nat in
    let stored := if brace_first ops then first_regs ops else take n_src ops ≫= regs_of in
    mkEffect [] stored [] None (sp_delta_of ops) false false None None Bnone else
  match in_table ["sub"; "add"] mn, ops with
  | true, "sp" :: "sp" :: imm :: _ =>
      match re_match IMM_RE imm with
      | Some x => let v := int_of (group x 1) in
                  mkEffect [] [] [] None (Some (if mn =s? "sub" then - v else v)) false false None None Bnone
      | None => no_effect
      end
  | _, _ => if in_table NO_DEST mn then no_effect else with_dirtied (take 1 (first_regs ops))
  end
  end.

Definition normalise_reg (reg : string) : string := default reg (dict_get SIMD_ALIASES reg).
Definition tracked (reg : string) : bool :=
  let reg := normalise_reg reg in in_table CALLEE_SAVED_GPR reg || in_table CALLEE_SAVED_SIMD reg.

(** ** Control-flow graph *)

Definition successors (n : nat) (labels : labels_map) (i : nat) (insn : Instruction) : list nat :=
  let mn := mnemonic insn in
  let in_body t := if (t <? n)%nat then [t] else [] in
  if in_table ["ret"; "br"; "eret"] mn then [] else
  if mn =s? "b" then
    match head (operands insn) ≫= (fun o => resolve_target o labels i) with
    | Some t => in_body t
    | None => []
    end else
  if in_table COND_BRANCH mn then
    in_body (S i) ++
    match list.last (operands insn) ≫= (fun o => resolve_target o labels i) with
    | Some t => if (t =? S i)%nat then [] else in_body t
    | None => []
    end else
  in_body (S i).

Definition build_cfg (insns : list Instruction) (labels : labels_map) : list (list nat) :=
  (fun '(i, insn) => successors (length insns) labels i insn) <$> enumerate 0 insns.

(** [for t in targets: preds[t].append(i)] *)
Definition predecessors (succ : list (list nat)) : list (list nat) :=
  for_each (enumerate 0 succ) (replicate (length succ) []) (fun preds '(i, targets) =>
    for_each targets preds (fun preds t => <[t := preds !!! t ++ [i]]> preds)).

Definition back_edges (succ : list (list nat)) : list (nat * nat) :=
  '(i, targets) ← enumerate 0 succ; (fun t => (i, t)) <$> filter (fun t => (t <= i)%nat) targets.

(** ** Dataflow state *)

Record State : Type := mkState {
  dirty : gset string;
  sp_net : Z;
  saved_x30 : bool;
  called : bool
}.
#[global] Instance State_eq_dec : EqDecision State.
Proof. solve_decision. Defined.
Definition clean : State := mkState ∅ 0 false false.
#[global] Instance State_inhabited : Inhabited State := populate clean.

Definition join2 (a b : State) : State :=
  mkState (dirty a ∪ dirty b) (if sp_net a =? sp_net b then sp_net a else -1)
          (saved_x30 a || saved_x30 b) (called a || called b).

Definition join_states (states : list State) : State :=
  match states with [] => clean | s :: rest => for_each rest s join2 end.

Definition set_dirty (s : State) (d : gset string) : State :=
  mkState d (sp_net s) (saved_x30 s) (called s).

(** [apply_effect], as a function of the state. *)
Definition apply_effect (state : State) (info : Effect) : State :=
  let state := for_each (e_loads info) state (fun s r =>
    let r := normalise_reg r in if tracked r then set_dirty s (dirty s ∖ {[r]}) else s) in
  let saved := for_each (e_stores info) (saved_x30 state) (fun b r =>
    if normalise_reg r =s? "x30" then true else b) in
  let state := mkState (dirty state) (sp_net state) saved (called state) in
  let dirty_source := match e_copy_from info with
    | Some c => if tracked c then Some (bool_decide (normalise_reg c ∈ dirty state)) else None
    | None => None
    end in
  let state := for_each (e_dirtied info) state (fun s r =>
    let r := normalise_reg r in
    if tracked r then
      match dirty_source with
      | Some false => set_dirty s (dirty s ∖ {[r]})
      | _ => set_dirty s (dirty s ∪ {[r]})
      end
    else s) in
  let state := if e_calls info
    then mkState (dirty state ∪ {["x30"]}) (sp_net state) (saved_x30 state) true else state in
  let state := if e_sp_restore info
    then mkState (dirty state) 0 (saved_x30 state) (called state) else state in
  match e_sp_delta info with
  | Some delta => if sp_net state =? -1 then state
                  else mkState (dirty state) (sp_net state + delta) (saved_x30 state) (called state)
  | None => state
  end.

(** [_after] *)
Definition after_insn (state : State) (insn : Instruction) : State := apply_effect state (effect insn).

(** ** NZCV *)

Record FlagAnalysis : Type := mkFlags {
  live_in : list bool;
  live_out : list bool;
  reaching : list (Z * gset nat);
  rets : list nat;
  fa_carry_abi : bool
}.

Definition live_at_ret (f : FlagAnalysis) : bool :=
  fa_carry_abi f && negb (bool_decide (rets f = [])).

#[global] Instance Instruction_inhabited : Inhabited Instruction := populate (mkInsn 0 "" "" []).

Definition insn_set (insns : list Instruction) (d : gset nat) : gset string :=
  list_to_set ((fun i => norm_text (insns !!! i)) <$> elements d).

Definition signature (f : FlagAnalysis) (insns : list Instruction) : list (string * gset string) :=
  for_each (reaching f) [] (fun out '(use, defs) =>
    let key := if use =? -1 then "ret" else norm_text (insns !!! Z.to_nat use) in
    dict_set out key (default ∅ (dict_get out key) ∪ insn_set insns defs)).

Section analyse_flags.
Context (insns : list Instruction) (succ : list (list nat)) (carry_abi : bool).

Definition flag_exits : list nat :=
  filter (fun i => mnemonic (insns !!! i) = "ret" \/
                   in_table ["b"; "br"] (mnemonic (insns !!! i)) = true /\ succ !!! i = [])
         (seq 0 (length insns)).

(** One node of the backward liveness sweep: [(out, new_in)]. *)
Definition live_transfer (i : nat) (live_in : list bool) : bool * bool :=
  let out := if bool_decide (i ∈ flag_exits) then carry_abi
             else existsb (fun s => live_in !!! s) (succ !!! i) in
  (out, uses_flags (insns !!! i) || out && negb (defines_flags (insns !!! i))).

(** One node of the forward reaching-definitions sweep: [(new_in, new_out)]. *)
Definition reach_transfer (preds : list (list nat)) (i : nat) (reach_out : list (gset nat))
  : gset nat * gset nat :=
  let new_in := for_each (preds !!! i) ∅ (fun s p => s ∪ reach_out !!! p) in
  (new_in, if defines_flags (insns !!! i) then {[i]} else new_in).

Definition analyse_flags : FlagAnalysis :=
  let n := length insns in
  let '(live_out, live_in) :=
    solve live_transfer (n + 2) (rev (seq 0 n)) (replicate n false, replicate n false) in
  let '(reach_in, reach_out) :=
    solve (reach_transfer (predecessors succ)) (n + 2) (seq 0 n) (replicate n ∅, replicate n ∅) in
  let reaching := (fun i => (Z.of_nat i, reach_in !!! i))
    <$> filter (fun i => uses_flags (insns !!! i) = true) (seq 0 n) in
  let reaching := if carry_abi
    then reaching ++ [(-1, for_each flag_exits ∅ (fun s r => s ∪ reach_in !!! r))]
    else reaching in
  mkFlags live_in live_out reaching flag_exits carry_abi.
End analyse_flags.

(** ** The checker *)

(** [sorted] on strings *)
Definition sorted_str : list string -> list string := sort_by String.ltb.
Definition sorted_set (s : gset string) : list string := sorted_str (elements s).

Definition detect_carry_abi (source : string) : bool := searches CARRY_RE source.

(** [f"{n:+d}"] *)
Definition signed (n : Z) : string := if 0 <=? n then "+" +:+ str_z n else str_z n.

Section entry.
Context (insns : list Instruction) (preds : list (list nat)).

(** One node of the forward sweep over entry states. *)
Definition entry_transfer (i : nat) (entry : list (option State)) : unit * option State :=
  (tt, if (i =? 0)%nat then entry !!! i else
       match (p ← preds !!! i; match entry !!! p with Some s => [after_insn s (insns !!! p)] | None => [] end) with
       | [] => entry !!! i
       | states => Some (join_states states)
       end).

Definition entry_init : list unit * list (option State) :=
  (replicate (length insns) tt, <[0%nat := Some clean]> (replicate (length insns) None)).

Definition entry_states : list (option State) :=
  (solve entry_transfer (length insns + 2) (seq 0 (length insns)) entry_init).2.
End entry.

(** [sorted(TRACKED_GPR - {"x30"} | TRACKED_SIMD)] *)
Definition RET_CHECKED : list string := Eval vm_compute in
  sorted_str (List.filter (fun r => negb (r =s? "x30")) CALLEE_SAVED_GPR ++ CALLEE_SAVED_SIMD).

Definition error_at (m : string) (l : nat) : ABIWarning := mkWarning "error" m (Some l).

Definition check_ret (state : State) (info : Effect) (insn : Instruction) : list ABIWarning :=
  let ret_reg := default "x30" (match e_ret info with Some r => Some r | None => e_br info end) in
  (if bool_decide (ret_reg ∈ dirty state) && negb (ret_reg =s? "x30")
   then [error_at ("ret " +:+ ret_reg +:+ " with " +:+ ret_reg +:+ " dirty (modified but not restored)") (line insn)]
   else []) ++
  (reg ← RET_CHECKED;
   if bool_decide (reg ∈ dirty state)
   then [error_at ("modifies callee-saved " +:+ reg +:+ " but never restores it before ret") (line insn)] else []) ++
  (if bool_decide ("x30" ∈ dirty state) && (ret_reg =s? "x30")
   then [error_at "returns with x30 dirty (return address not restored before ret)" (line insn)] else []) ++
  (if sp_net state =? -1
   then [mkWarning "warning" "could not verify SP restoration at ret (different paths disagree)" (Some (line insn))]
   else if negb (sp_net state =? 0)
   then [error_at ("SP not restored at ret (net change " +:+ signed (sp_net state) +:+ ")") (line insn)] else []).

Definition alignment_message (d : string) : string :=
  "SP adjusted by " +:+ d +:+ " (not a multiple of 16) -- breaks 16-byte stack alignment".

Definition check_alignment (insns : list Instruction) : list ABIWarning :=
  (insn ← insns;
   match in_table ["sub"; "add"] (mnemonic insn), operands insn with
   | true, "sp" :: _ :: imm :: _ =>
       match re_match IMM_END_RE (strip imm) with
       | Some x => if int_of (group x 1) mod 16 =? 0 then []
                   else [error_at (alignment_message (group x 1)) (line insn)]
       | None => []
       end
   | _, _ => []
   end) ++
  (insn ← insns;
   match sp_delta_of (operands insn) with
   | Some d => if d mod 16 =? 0 then [] else [error_at (alignment_message (str_z d)) (line insn)]
   | None => []
   end).

(** The differential message for one reader of the flags. *)
Definition nzcv_warning (use : string) (now defs : gset string) : ABIWarning :=
  let added := sorted_set (now ∖ defs) in
  let removed := sorted_set (defs ∖ now) in
  let detail := (match added with [] => [] | _ => ["now also reached by " +:+ join "; " added] end)
                ++ (match removed with [] => [] | _ => ["no longer reached by " +:+ join "; " removed] end) in
  let where_ := if use =s? "ret" then "the ret (carry-flag return value)" else "'" +:+ use +:+ "'" in
  mkWarning "error"
    ("NZCV dependency changed: the condition flags read by " +:+ where_ +:+
     " come from a different instruction than in the original (" +:+ join ", " detail +:+
     ") -- a flag-clobbering instruction was moved or inserted into a live flag range") None.

Definition check_flags (insns : list Instruction) (flags : FlagAnalysis) (original : option string)
  (macros : macros_map) (carry_abi : bool) : list ABIWarning :=
  let real_rets := filter (fun i => mnemonic (insns !!! i) = "ret") (rets flags) in
  (if carry_abi then
     match dict_get (reaching flags) (-1), real_rets with
     | Some d, r :: _ =>
         if bool_decide (d = ∅)
         then [mkWarning "warning"
                 "documents a carry-flag return but no instruction on the path to ret writes NZCV; the returned status is the caller's flags"
                 (Some (line (insns !!! r)))]
         else []
     | _, _ => []
     end
   else []) ++
  match original with
  | None => []
  | Some original =>
      let '(original_insns, original_labels) := parse_instructions (expand_macros original macros 4) in
      if bool_decide (original_insns = []) then [] else
      let original_flags :=
        analyse_flags original_insns (build_cfg original_insns original_labels) carry_abi in
      let after := signature flags insns in
      '(use, defs) ← signature original_flags original_insns;
      match dict_get after use with
      | None => []
      | Some now => if bool_decide (now = defs) then [] else [nzcv_warning use now defs]
      end
  end.

Definition check_function (macros : macros_map) (function_source : string) (original : option string)
  (carry_abi : option bool) : list ABIWarning :=
  let '(insns, labels) := parse_instructions (expand_macros function_source macros 4) in
  if bool_decide (insns = []) then [mkWarning "error" "no instructions found in function" None] else
  let succ := build_cfg insns labels in
  let entry := entry_states insns (predecessors succ) in
  let ret_warnings :=
    '(i, insn) ← enumerate 0 insns;
    match entry !!! i, e_branch (effect insn) with
    | Some state, Bret => check_ret state (effect insn) insn
    | _, _ => []
    end in
  let called := existsb (fun i => in_table ["bl"; "blr"] (mnemonic i)) insns in
  let x30_saved := existsb (fun i => in_table (e_stores (effect i)) "x30") insns in
  let save_warnings :=
    if called && negb x30_saved
    then [mkWarning "warning" "function calls bl/blr but never saves x30 to the stack; x30 must be restored some other way before ret" None]
    else [] in
  let carry_abi := default (detect_carry_abi function_source
                            || default false (detect_carry_abi <$> original)) carry_abi in
  ret_warnings ++ save_warnings ++ check_alignment insns ++
  check_flags insns (analyse_flags insns succ carry_abi) original macros carry_abi.

(** ** Regions in caller context *)

Definition UNRESTORED_RE : re := Eval vm_compute in
  rx "modifies callee-saved (\w+) but never restores it before ret".

Definition saves_and_restores (body reg : string) (macros : macros_map) : bool :=
  let '(insns, _) := parse_instructions (expand_macros body macros 4) in
  existsb (fun i => in_table (normalise_reg <$> e_stores (effect i)) reg) insns
  && existsb (fun i => in_table (normalise_reg <$> e_loads (effect i)) reg) insns.

(** One warning of a private region, judged by its callers. *)
Definition judge_warning (ix : SourceIndex) (cs : list (string * string)) (w : ABIWarning) : result ABIWarning :=
  match re_search UNRESTORED_RE (message w) with
  | Some x =>
      if negb (severity w =s? "error") || bool_decide (cs = []) then Ret w else
      let reg := normalise_reg (group x 1) in
      unprotected ← for_result cs [] (fun acc '(n, _) =>
        match dict_get (by_name ix) n with
        | None => Raise KeyError
        | Some r => Ret (if saves_and_restores (analysis_body ix r 3) reg (macros ix) then acc else acc ++ [n])
        end);
      match unprotected with
      | [] => Ret (mkWarning "warning"
                ("private region writes callee-saved " +:+ reg +:+ " without restoring it; all "
                 +:+ str_nat (length cs) +:+ " caller(s) (" +:+ join ", " (sorted_str (fst <$> cs))
                 +:+ ") do preserve it, so this is a non-AAPCS internal contract, not a violation") (w_line w))
      | _ => Ret (mkWarning (severity w)
                (message w +:+ "; caller(s) " +:+ join ", " (sorted_str unprotected)
                 +:+ " do not preserve " +:+ reg +:+ " either") (w_line w))
      end
  | None => Ret w
  end.

Definition check_region (macros : macros_map) (ix : SourceIndex) (r : Region) : result (list ABIWarning) :=
  let warnings := check_function macros (analysis_body ix r 3) None (Some (carry_abi (doc r))) in
  if is_global r then Ret warnings else
  let cs := default [] (dict_get (callers ix) (name r)) in
  for_result warnings [] (fun out w => w' ← judge_warning ix cs w; Ret (out ++ [w'])).

(** [main]'s verdict: the exit status is 1 when some warning is an error. *)
Definition has_errors (ws : list ABIWarning) : bool := existsb (fun w => severity w =s? "error") ws.

(** ** Lemmas: the graph *)

Lemma successors_range n labels i insn t : t ∈ successors n labels i insn -> (t < n)%nat.
Proof.
  unfold successors. intros H.
  assert (forall u, t ∈ (if (u <? n)%nat then [u] else []) -> (t < n)%nat) as Hb.
  { intros u. destruct (Nat.ltb_spec u n); [by intros ->%list_elem_of_singleton|by intros ?%elem_of_nil]. }
  destruct (in_table _ _); [by apply elem_of_nil in H|].
  destruct (mnemonic insn =s? "b").
  { destruct (_ ≫= _); [by eapply Hb|by apply elem_of_nil in H]. }
  destruct (in_table _ _); [|by eapply Hb].
  apply elem_of_app in H as [H|H]; [by eapply Hb|].
  destruct (_ ≫= _) as [u|]; [|by apply elem_of_nil in H].
  destruct (u =? S i)%nat; [by apply elem_of_nil in H|by eapply Hb].
Qed.

Lemma build_cfg_length insns labels : length (build_cfg insns labels) = length insns.
Proof. unfold build_cfg. by rewrite length_fmap, enumerate_length. Qed.

Lemma build_cfg_lookup insns labels i : (i < length insns)%nat ->
  build_cfg insns labels !!! i = successors (length insns) labels i (insns !!! i).
Proof.
  intros Hi. apply list_lookup_total_correct. unfold build_cfg.
  rewrite list_lookup_fmap, enumerate_lookup.
  destruct (insns !! i) as [x|] eqn:E; [|apply lookup_ge_None in E; lia].
  cbn. by rewrite (list_lookup_total_correct _ _ _ E).
Qed.

(** Every target of a graph is one of its nodes. *)
Definition closed_graph (succ : list (list nat)) : Prop :=
  forall i t, (i < length succ)%nat -> t ∈ succ !!! i -> (t < length succ)%nat.

Lemma build_cfg_closed insns labels : closed_graph (build_cfg insns labels).
Proof.
  intros i t Hi. rewrite build_cfg_length in *. rewrite build_cfg_lookup by done. apply successors_range.
Qed.

Lemma add_preds_spec targets (preds : list (list nat)) i : Forall (fun t => (t < length preds)%nat) targets ->
  length (for_each targets preds (fun preds t => <[t := preds !!! t ++ [i]]> preds)) = length preds /\
  forall u x, (u < length preds)%nat ->
    x ∈ for_each targets preds (fun preds t => <[t := preds !!! t ++ [i]]> preds) !!! u <->
    x ∈ preds !!! u \/ x = i /\ u ∈ targets.
Proof.
  revert preds. induction targets as [|t targets IH]; intros preds Hf.
  { split; [done|]. intros u x _. cbn. split; [by left|]. intros [?|[_ H]]; [done|by apply elem_of_nil in H]. }
  apply Forall_cons_iff in Hf as [Ht Hf].
  change (for_each (t :: targets) preds (fun preds t => <[t := preds !!! t ++ [i]]> preds))
    with (for_each targets (<[t := preds !!! t ++ [i]]> preds) (fun preds t => <[t := preds !!! t ++ [i]]> preds)).
  destruct (IH (<[t := preds !!! t ++ [i]]> preds)) as [L S].
  { eapply Forall_impl; [|exact Hf]. intros; cbn in *. by rewrite length_insert. }
  rewrite length_insert in L, S. split; [done|]. intros u x Hu. rewrite S by done.
  destruct (decide (t = u)) as [->|Hne].
  - rewrite list_lookup_total_insert_eq by done. rewrite elem_of_app, list_elem_of_singleton, elem_of_cons.
    tauto.
  - rewrite list_lookup_total_insert_ne by done. rewrite elem_of_cons. split; [tauto|].
    intros [?|[? [?|?]]]; [by left|by subst|by right].
Qed.

(** [predecessors] transposes the graph. *)
Lemma predecessors_spec succ : closed_graph succ ->
  length (predecessors succ) = length succ /\
  forall i p, (i < length succ)%nat ->
    p ∈ predecessors succ !!! i <-> (p < length succ)%nat /\ i ∈ succ !!! p.
Proof.
  intros Hc. unfold predecessors. set (n := length succ).
  set (body := fun (preds : list (list nat)) '(i, targets) =>
    for_each targets preds (fun preds t => <[t := preds !!! t ++ [i]]> preds)).
  assert (forall l rest, succ = l ++ rest ->
    length (for_each (enumerate 0 l) (replicate n []) body) = n /\
    forall i p, (i < n)%nat -> p ∈ for_each (enumerate 0 l) (replicate n []) body !!! i <->
      (p < length l)%nat /\ i ∈ succ !!! p) as Hgen.
  { induction l as [|targets l IH] using rev_ind; intros rest Hl.
    - split; [apply length_replicate|]. intros i p Hi.
      change (for_each (enumerate 0 []) (replicate n []) body) with (replicate n (@nil nat)).
      rewrite lookup_total_replicate_2 by done. split; [by intros ?%elem_of_nil|]. intros [H _]. cbn in H. lia.
    - rewrite <- app_assoc in Hl. cbn [app] in Hl. destruct (IH _ Hl) as [L S].
      assert (succ !!! length l = targets) as Ht.
      { apply list_lookup_total_correct. rewrite Hl, lookup_app_r by lia. by rewrite Nat.sub_diag. }
      assert (length l < n)%nat as Hln by (unfold n; rewrite Hl, !length_app; cbn; lia).
      rewrite enumerate_app, for_each_app. cbn [enumerate Nat.add].
      set (preds := for_each (enumerate 0 l) (replicate n []) body) in *.
      change (for_each [(length l, targets)] preds body)
        with (for_each targets preds (fun preds t => <[t := preds !!! t ++ [length l]]> preds)).
      destruct (add_preds_spec targets preds (length l)) as [L2 S2].
      { apply List.Forall_forall. intros t Hin%list_elem_of_In. rewrite L. apply (Hc (length l)); [done|by rewrite Ht]. }
      split; [by rewrite L2|]. intros i p Hi. rewrite S2 by (by rewrite L). rewrite S by done.
      rewrite length_app. cbn [length]. rewrite <- Ht. split.
      + intros [[? ?]|[-> ?]]; [split; [lia|done]|split; [lia|done]].
      + intros [Hp Hin]. destruct (decide (p = length l)) as [->|]; [by right|left; split; [lia|done]]. }
  exact (Hgen succ [] (eq_sym (app_nil_r succ))).
Qed.

(** ** Lemmas: the flag analyses *)

(** The flags are read before they are written along some path from [i]; for
    a carry-ABI function the exits read them. *)
Inductive flag_live (insns : list Instruction) (succ : list (list nat)) (carry : bool) : nat -> Prop :=
| fl_use i : uses_flags (insns !!! i) = true -> flag_live insns succ carry i
| fl_exit i : i ∈ flag_exits insns succ -> carry = true -> defines_flags (insns !!! i) = false ->
    flag_live insns succ carry i
| fl_step i j : j ∈ succ !!! i -> defines_flags (insns !!! i) = false ->
    flag_live insns succ carry j -> flag_live insns succ carry i.

(** The flag definition at [d] reaches the entry of [i]: some path from [d] to
    [i] defines no flags in between. *)
Inductive flag_reaches (insns : list Instruction) (succ : list (list nat)) (d : nat) : nat -> Prop :=
| fr_first i : defines_flags (insns !!! d) = true -> i ∈ succ !!! d -> flag_reaches insns succ d i
| fr_step j i : flag_reaches insns succ d j -> defines_flags (insns !!! j) = false -> i ∈ succ !!! j ->
    flag_reaches insns succ d i.

Lemma exits_no_succ insns labels i : i ∈ flag_exits insns (build_cfg insns labels) ->
  build_cfg insns labels !!! i = [].
Proof.
  unfold flag_exits. intros ([Hr|[_ H]] & Hi%elem_of_seq)%list_elem_of_filter; [|done].
  rewrite build_cfg_lookup by lia. unfold successors. by rewrite Hr.
Qed.

Lemma existsb_true {X} (f : X -> bool) l : existsb f l = true <-> exists x, x ∈ l /\ f x = true.
Proof. rewrite existsb_exists. by setoid_rewrite list_elem_of_In. Qed.

Lemma elem_rev {X} (x : X) l : x ∈ rev l <-> x ∈ l.
Proof. rewrite !list_elem_of_In. symmetry. apply in_rev. Qed.

Section flags.
Context (insns : list Instruction) (labels : labels_map) (carry : bool).
Let succ := build_cfg insns labels.
Let n := length insns.

Definition live_solution : list bool * list bool :=
  solve (live_transfer insns succ carry) (n + 2) (rev (seq 0 n)) (replicate n false, replicate n false).

Lemma live_solution_spec :
  length live_solution.1 = n /\ length live_solution.2 = n /\
  (forall i, (i < n)%nat -> live_solution.2 !!! i = true <-> flag_live insns succ carry i) /\
  (forall i, (i < n)%nat -> live_solution.1 !!! i = (live_transfer insns succ carry i live_solution.2).1).
Proof.
  set (gen := fun (i : nat) (_ : unit) => uses_flags (insns !!! i) = true \/
    i ∈ flag_exits insns succ /\ carry = true /\ defines_flags (insns !!! i) = false).
  set (edge := fun (i j : nat) (_ : unit) => i ∉ flag_exits insns succ /\
    defines_flags (insns !!! i) = false /\ j ∈ succ !!! i).
  destruct (solve_spec (live_transfer insns succ carry) n (rev (seq 0 n))
    (fun _ v (_ : unit) => v = true) gen edge) with (s := (replicate n false, replicate n false))
    as (L1 & L2 & H & HW).
  - intros i. rewrite elem_rev, elem_of_seq. lia.
  - intros i j _ Hi (_ & _ & Hj). pose proof (build_cfg_closed insns labels i j) as Hc.
    rewrite build_cfg_length in Hc. by apply Hc.
  - intros i vs [] Hi Hl. unfold live_transfer, gen, edge. cbn [snd].
    destruct (uses_flags (insns !!! i)); cbn [orb]; [split; [by left; left|done]|].
    rewrite andb_true_iff, negb_true_iff. destruct (bool_decide_reflect (i ∈ flag_exits insns succ)).
    + split; [intros [-> ->]; left; by right|]. intros [[?|(_ & -> & ->)]|(j & [? _] & _)]; done.
    + rewrite existsb_true. split.
      * intros [(j & Hj & Hv) Hd]. right. by exists j.
      * intros [[?|[? _]]|(j & (_ & Hd & Hj) & Hv)]; [done|done|]. split; [by exists j|done].
  - intros i vs vs' Hi _ _ Hk. specialize (Hk ()). apply eq_iff_eq_true. exact Hk.
  - split; cbn [fst snd]; [apply length_replicate|apply length_replicate| |];
      intros i k Hi; by rewrite lookup_total_replicate_2.
  - split; [exact L1|]. split; [exact L2|]. split; [|exact HW].
    intros i Hi. rewrite (H i () Hi). split.
    + intros Hr. clear Hi. induction Hr as [i k Hi' Hg|i j k Hi' He Hr IH].
      * unfold gen in Hg. destruct Hg as [Hu|(He & Hca & Hd)]; [by apply fl_use|by apply fl_exit].
      * unfold edge in He. destruct He as (_ & Hd & Hj). by apply fl_step with j.
    + intros Hl. revert Hi. induction Hl as [i Hu|i He Hca Hd|i j Hj Hd Hl IH]; intros Hi.
      { apply reach_gen; [done|]. unfold gen. tauto. }
      { apply reach_gen; [done|]. unfold gen. tauto. }
      apply reach_edge with j; [done| |].
      * split; [|done]. intros He. apply exits_no_succ in He. unfold succ in Hj. rewrite He in Hj.
        by apply elem_of_nil in Hj.
      * apply IH. pose proof (build_cfg_closed insns labels i j) as Hc.
        rewrite build_cfg_length in Hc. by apply Hc.
Qed.

Definition reach_solution : list (gset nat) * list (gset nat) :=
  solve (reach_transfer insns (predecessors succ)) (n + 2) (seq 0 n) (replicate n ∅, replicate n ∅).

Lemma union_all (preds : list nat) (vs : list (gset nat)) (s0 : gset nat) d :
  d ∈ for_each preds s0 (fun s p => s ∪ vs !!! p) <-> d ∈ s0 \/ exists p, p ∈ preds /\ d ∈ vs !!! p.
Proof.
  revert s0. induction preds as [|p preds IH]; intros s0.
  - split; [by left|]. intros [?|(p & []%elem_of_nil & _)]. done.
  - change (for_each (p :: preds) s0 (fun s p => s ∪ vs !!! p))
      with (for_each preds (s0 ∪ vs !!! p) (fun s p => s ∪ vs !!! p)).
    rewrite IH, elem_of_union. setoid_rewrite elem_of_cons. split.
    + intros [[?|?]|(q & ? & ?)]; eauto.
    + intros [?|(q & [->|?] & ?)]; eauto.
Qed.

Lemma preds_iff i p : (i < n)%nat -> p ∈ predecessors succ !!! i <-> (p < n)%nat /\ i ∈ succ !!! p.
Proof.
  intros Hi. destruct (predecessors_spec succ (build_cfg_closed insns labels)) as [_ H].
  unfold succ in *. rewrite build_cfg_length in H. by apply H.
Qed.

Lemma reach_solution_spec i d : (i < n)%nat ->
  length reach_solution.1 = n /\ (d ∈ reach_solution.1 !!! i <-> (d < n)%nat /\ flag_reaches insns succ d i).
Proof.
  intros Hi.
  set (gen := fun (i d : nat) => defines_flags (insns !!! i) = true /\ d = i).
  set (edge := fun (i p : nat) (_ : nat) => defines_flags (insns !!! i) = false /\ p ∈ predecessors succ !!! i).
  destruct (solve_spec (reach_transfer insns (predecessors succ)) n (seq 0 n)
    (fun _ (v : gset nat) d => d ∈ v) gen edge) with (s := (replicate n (∅ : gset nat), replicate n (∅ : gset nat)))
    as (L1 & L2 & H & HW).
  - intros j. rewrite elem_of_seq. lia.
  - intros j p k Hj [_ Hp]. by apply preds_iff in Hp as [? _].
  - intros j vs k Hj Hl. unfold reach_transfer, gen, edge. cbn [snd].
    destruct (defines_flags (insns !!! j)).
    + rewrite elem_of_singleton. split; [intros ->; by left|]. by intros [[_ ->]|(p & [? _] & _)].
    + rewrite union_all. split.
      * intros [?%elem_of_empty|(p & Hp & Hd)]; [done|]. right. by exists p.
      * intros [[? _]|(p & [_ Hp] & Hd)]; [done|]. right. by exists p.
  - intros j vs vs' Hj _ _ Hk. apply leibniz_equiv. exact Hk.
  - split; cbn [fst snd]; [apply length_replicate|apply length_replicate| |];
      intros j k Hj; rewrite lookup_total_replicate_2 by done; by intros ?%elem_of_empty.
  - split; [exact L1|]. fold reach_solution in *. rewrite HW by done. unfold reach_transfer at 1. cbn [fst].
    rewrite union_all.
    assert (forall p, (p < n)%nat -> reaches n gen edge p d -> (d < n)%nat /\
      forall i, i ∈ succ !!! p -> flag_reaches insns succ d i) as Hf.
    { intros p Hp Hr. induction Hr as [p d' Hp' [Hd ->]|p q d' Hp' [Hd Hq] Hr IH].
      - split; [done|]. intros i' Hi'. by apply fr_first.
      - apply preds_iff in Hq as [Hq Hpq]; [|done]. destruct (IH Hq) as [Hdn Hs].
        split; [done|]. intros i' Hi'. apply fr_step with p; [by apply Hs|done|done]. }
    split.
    + intros [?%elem_of_empty|(p & Hp & Hd)]; [done|]. apply preds_iff in Hp as [Hp Hip]; [|done].
      apply H in Hd; [|done]. destruct (Hf p Hp Hd) as [? Hs]. by auto.
    + intros [Hd Hfr]. right. revert Hi.
      induction Hfr as [i' Hdef Hs|j i' Hfr IH Hdef Hs]; intros Hi.
      * exists d. split; [by apply preds_iff|]. apply H; [done|]. by apply reach_gen.
      * assert (j < n)%nat as Hj.
        { destruct (decide (j < n)%nat) as [|Hge]; [done|]. exfalso.
          unfold succ in Hs. rewrite (list_lookup_total_alt (build_cfg insns labels)), lookup_ge_None_2 in Hs
            by (rewrite build_cfg_length; fold n; lia). by apply elem_of_nil in Hs. }
        exists j. split; [by apply preds_iff|]. apply H; [done|].
        destruct (IH Hj) as (p & Hp & Hpd). apply reach_edge with p; [done|done|]. apply H; [|done].
        by apply preds_iff in Hp as [? _].
Qed.
End flags.

(** ** Lemmas: the entry states *)

(** [a] is approximated by [b]: fewer dirty registers, and the same stack
    offset unless [b]'s is unknown. *)
Record approx (a b : State) : Prop := {
  ap_dirty : dirty a ⊆ dirty b;
  ap_sp : sp_net b = -1 \/ sp_net a = sp_net b
}.

Lemma approx_refl a : approx a a.
Proof. split; [done|by right]. Qed.

Lemma approx_trans a b c : approx a b -> approx b c -> approx a c.
Proof.
  intros [H1 H2] [H3 H4]. split; [set_solver|].
  destruct H4 as [|H4]; [by left|]. destruct H2 as [H2|H2]; [left|right]; congruence.
Qed.

Lemma approx_join2_l a b : approx a (join2 a b).
Proof.
  split; cbn; [set_solver|]. destruct (sp_net a =? sp_net b); [by right|by left].
Qed.

Lemma approx_join2_r a b : approx b (join2 a b).
Proof.
  split; cbn; [set_solver|]. destruct (Z.eqb_spec (sp_net a) (sp_net b)); [by right|by left].
Qed.

Lemma approx_fold s l : approx s (for_each l s join2) /\ forall x, x ∈ l -> approx x (for_each l s join2).
Proof.
  revert s. induction l as [|y l IH]; intros s; [split; [apply approx_refl|by intros x ?%elem_of_nil]|].
  change (for_each (y :: l) s join2) with (for_each l (join2 s y) join2). destruct (IH (join2 s y)) as [H1 H2].
  split; [eapply approx_trans; [apply approx_join2_l|exact H1]|].
  intros x [->|Hx]%elem_of_cons; [eapply approx_trans; [apply approx_join2_r|exact H1]|auto].
Qed.

Lemma approx_join states x : x ∈ states -> approx x (join_states states).
Proof.
  destruct states as [|s l]; [by intros ?%elem_of_nil|]. cbn [join_states].
  destruct (approx_fold s l) as [H1 H2]. intros [->|Hx]%elem_of_cons; auto.
Qed.

(** A fold of set updates preserves the approximation. *)
Lemma approx_for_each (f : State -> string -> State) (g : State -> string -> State) l a b :
  (forall r a b, approx a b -> approx (f a r) (g b r)) -> approx a b ->
  approx (for_each l a f) (for_each l b g).
Proof.
  intros Hfg. revert a b. induction l as [|r l IH]; intros a b H; [exact H|]. apply IH. by apply Hfg.
Qed.

(** Instruction effects preserve the approximation. *)
Lemma approx_apply a b info : approx a b -> approx (apply_effect a info) (apply_effect b info).
Proof.
  intros H. unfold apply_effect.
  assert (approx
    (for_each (e_loads info) a (fun s r => let r := normalise_reg r in
       if tracked r then set_dirty s (dirty s ∖ {[r]}) else s))
    (for_each (e_loads info) b (fun s r => let r := normalise_reg r in
       if tracked r then set_dirty s (dirty s ∖ {[r]}) else s))) as H1.
  { apply approx_for_each; [|done]. intros r x y [Hd Hs]. cbn zeta.
    destruct (tracked (normalise_reg r)); [|done]. split; cbn; [set_solver|done]. }
  set (a1 := for_each (e_loads info) a _) in *. set (b1 := for_each (e_loads info) b _) in *.
  clearbody a1 b1. clear H a b.
  set (sa := for_each (e_stores info) (saved_x30 a1) _). set (sb := for_each (e_stores info) (saved_x30 b1) _).
  clearbody sa sb. set (a2 := mkState (dirty a1) (sp_net a1) sa (called a1)).
  set (b2 := mkState (dirty b1) (sp_net b1) sb (called b1)).
  assert (approx a2 b2) as H2 by (destruct H1; split; done). clearbody a2 b2. clear H1 a1 b1 sa sb.
  set (da := match e_copy_from info with Some c => if tracked c then Some (bool_decide (normalise_reg c ∈ dirty a2)) else None | None => None end).
  set (db := match e_copy_from info with Some c => if tracked c then Some (bool_decide (normalise_reg c ∈ dirty b2)) else None | None => None end).
  assert (da = db \/ da = Some false /\ db = Some true) as Hsrc.
  { unfold da, db. destruct (e_copy_from info) as [c|]; [|by left]. destruct (tracked c); [|by left].
    pose proof (ap_dirty _ _ H2) as Hsub.
    destruct (bool_decide_reflect (normalise_reg c ∈ dirty a2)), (bool_decide_reflect (normalise_reg c ∈ dirty b2));
      [by left|exfalso; set_solver|by right|by left]. }
  clearbody da db.
  assert (approx
    (for_each (e_dirtied info) a2 (fun s r => let r := normalise_reg r in
       if tracked r then match da with Some false => set_dirty s (dirty s ∖ {[r]}) | _ => set_dirty s (dirty s ∪ {[r]}) end else s))
    (for_each (e_dirtied info) b2 (fun s r => let r := normalise_reg r in
       if tracked r then match db with Some false => set_dirty s (dirty s ∖ {[r]}) | _ => set_dirty s (dirty s ∪ {[r]}) end else s))) as H3.
  { apply approx_for_each; [|done]. intros r x y [Hd Hs]. cbn zeta.
    destruct (tracked (normalise_reg r)); [|done].
    destruct Hsrc as [->|[-> ->]]; [destruct db as [[]|]|]; split; cbn; (set_solver || done). }
  set (a3 := for_each (e_dirtied info) a2 _) in *. set (b3 := for_each (e_dirtied info) b2 _) in *.
  clearbody a3 b3. destruct H3 as [Hd Hs].
  destruct (e_calls info), (e_sp_restore info), (e_sp_delta info) as [delta|]; cbn [sp_net dirty];
    repeat match goal with |- context [?x =? -1] => destruct (Z.eqb_spec x (-1)) end;
    split; cbn [sp_net dirty]; first [exact Hd|apply union_mono_r; exact Hd|lia|destruct Hs; lia].
Qed.

(** The states along the paths from the entry. *)
Inductive exec (insns : list Instruction) (succ : list (list nat)) : nat -> State -> Prop :=
| exec_entry : exec insns succ 0 clean
| exec_step i j st : exec insns succ i st -> j ∈ succ !!! i ->
    exec insns succ j (after_insn st (insns !!! i)).

(** One more sweep would change nothing. *)
Definition stable (insns : list Instruction) (preds : list (list nat)) (entry : list (option State)) : bool :=
  forallb (fun i => bool_decide ((entry_transfer insns preds i entry).2 = entry !!! i)) (seq 0 (length insns)).

(** The entry instruction keeps its clean state through the sweeps. *)
Lemma entry_zero insns preds : insns <> [] ->
  length (entry_states insns preds) = length insns /\ entry_states insns preds !!! 0%nat = Some clean.
Proof.
  intros Hne. unfold entry_states. rewrite solve_iter.
  set (f := fun s => (sweep (entry_transfer insns preds) (seq 0 (length insns)) s).1).
  assert (0 < length insns)%nat as Hpos by (destruct insns; [done|cbn; lia]).
  assert (forall r s, (length s.1 = length insns /\ length s.2 = length insns /\ s.2 !!! 0%nat = Some clean) ->
    let s' := Nat.iter r f s in
    length s'.1 = length insns /\ length s'.2 = length insns /\ s'.2 !!! 0%nat = Some clean) as Hinv.
  { intros r s Hs. induction r as [|r IH]; [exact Hs|]. cbn zeta in *.
    change (Nat.iter (S r) f s) with (f (Nat.iter r f s)).
    set (t := Nat.iter r f s) in *. clearbody t. destruct IH as (L1 & L2 & Hz).
    unfold f. rewrite sweep_puts.
    2: { apply List.Forall_forall. intros i Hi%list_elem_of_In%elem_of_seq. lia. }
    apply for_each_inv; [done|]. clear t L1 L2 Hz. intros t i Hi (L1 & L2 & Hz).
    apply elem_of_seq in Hi. destruct (put_length (entry_transfer insns preds) i t) as [P1 P2].
    split; [lia|]. split; [lia|]. destruct i as [|i].
    - rewrite put_same by lia. cbn. exact Hz.
    - by rewrite put_other. }
  destruct (Hinv (length insns + 2)%nat (entry_init insns)) as (_ & H1 & H2); [|done].
  unfold entry_init. cbn [fst snd]. rewrite length_insert, !length_replicate.
  split; [done|]. split; [done|]. rewrite list_lookup_total_insert_eq by (rewrite length_replicate; lia). done.
Qed.

(** On a stable table every path state is approximated by the entry state. *)
Lemma entry_sound insns labels i st :
  let succ := build_cfg insns labels in
  let preds := predecessors succ in
  let entry := entry_states insns preds in
  insns <> [] -> stable insns preds entry = true -> preds !!! 0%nat = [] ->
  exec insns succ i st -> (i < length insns)%nat -> exists e, entry !!! i = Some e /\ approx st e.
Proof.
  cbn zeta. intros Hne Hst Hp0 Hex. destruct (entry_zero insns (predecessors (build_cfg insns labels)) Hne) as [_ Hz].
  assert (0 < length insns)%nat as Hpos by (destruct insns; [done|cbn; lia]).
  induction Hex as [|i j st Hex IH Hj]; intros Hlt.
  { exists clean. split; [done|apply approx_refl]. }
  assert (i < length insns)%nat as Hi.
  { destruct (decide (i < length insns)%nat) as [|Hge]; [done|]. exfalso.
    rewrite (list_lookup_total_alt (build_cfg insns labels)), lookup_ge_None_2 in Hj
      by (rewrite build_cfg_length; lia). by apply elem_of_nil in Hj. }
  destruct (IH Hi) as (e & He & Ha).
  assert (i ∈ predecessors (build_cfg insns labels) !!! j) as Hpred.
  { destruct (predecessors_spec _ (build_cfg_closed insns labels)) as [_ H].
    rewrite build_cfg_length in H. apply H; done. }
  unfold stable in Hst. rewrite forallb_forall in Hst.
  specialize (Hst j). rewrite <- list_elem_of_In, elem_of_seq in Hst. specialize (Hst ltac:(lia)).
  apply bool_decide_eq_true in Hst. unfold entry_transfer in Hst. cbn [snd] in Hst.
  destruct (j =? 0)%nat eqn:Hj0.
  { apply Nat.eqb_eq in Hj0. rewrite Hj0, Hp0 in Hpred. by apply elem_of_nil in Hpred. }
  set (entry := entry_states insns (predecessors (build_cfg insns labels))) in *.
  set (states := p ← predecessors (build_cfg insns labels) !!! j; match entry !!! p with
    | Some s => [after_insn s (insns !!! p)] | None => [] end) in *.
  assert (after_insn e (insns !!! i) ∈ states) as Hin.
  { unfold states. apply list_elem_of_bind. exists i. rewrite He. split; [by left|done]. }
  destruct states as [|x l]; [by apply elem_of_nil in Hin|]. rewrite <- Hst. eexists. split; [done|].
  eapply approx_trans; [|apply approx_join; exact Hin]. by apply approx_apply.
Qed.

(** What the absence of errors at a return says of the entry state. *)
Lemma check_ret_clean e info insn : has_errors (check_ret e info insn) = false ->
  (forall reg, reg ∈ RET_CHECKED -> reg ∉ dirty e) /\
  (default "x30" (match e_ret info with Some r => Some r | None => e_br info end) = "x30" -> "x30" ∉ dirty e) /\
  (sp_net e = -1 \/ sp_net e = 0).
Proof.
  unfold check_ret. set (rr := default "x30" _). unfold has_errors. rewrite !existsb_app.
  intros (_ & (H2 & (H3 & H4)%orb_false_iff)%orb_false_iff)%orb_false_iff. split; [|split].
  - intros reg Hr Hd. apply not_true_iff_false in H2. apply H2. apply existsb_true.
    eexists. split; [apply list_elem_of_bind; exists reg; split; [|exact Hr]|].
    + rewrite bool_decide_true by done. left.
    + done.
  - intros Hrr Hd. rewrite bool_decide_true, Hrr in H3 by done. done.
  - destruct (Z.eqb_spec (sp_net e) (-1)); [by left|]. destruct (Z.eqb_spec (sp_net e) 0); [by right|]. done.
Qed.

(** ** Lemmas: signatures *)

Lemma dict_set_nodup {X Y} `{EqDecision X} (d : list (X * Y)) k v :
  NoDup (dict_keys d) -> NoDup (dict_keys (dict_set d k v)).
Proof.
  induction d as [|[a b] d IH]; cbn [dict_set]; intros Hnd; [apply NoDup_singleton|].
  unfold dict_keys in *. cbn [fmap list_fmap fst] in Hnd. apply list.NoDup_cons in Hnd as [Ha Hnd].
  destruct (decide _) as [Heq|Hne].
  - cbn [fmap list_fmap fst]. by constructor.
  - cbn [fmap list_fmap fst]. constructor; [|auto]. intros Hin. apply (dict_set_keys d k v a) in Hin as [->|?]; done.
Qed.

Lemma dict_get_in {X Y} `{EqDecision X} (d : list (X * Y)) k v :
  NoDup (dict_keys d) -> (k, v) ∈ d -> dict_get d k = Some v.
Proof.
  induction d as [|[a b] d IH]; intros Hnd Hin; [by apply elem_of_nil in Hin|].
  unfold dict_keys in Hnd. cbn [fmap list_fmap fst] in Hnd. apply list.NoDup_cons in Hnd as [Ha Hnd].
  cbn [dict_get]. apply elem_of_cons in Hin as [[= -> ->]|Hin]; [by destruct (decide _)|].
  destruct (decide _) as [Heq|]; [|by apply IH]. exfalso. apply Ha. subst.
  by apply (list_elem_of_fmap_2 fst) in Hin.
Qed.

Lemma signature_nodup f insns : NoDup (dict_keys (signature f insns)).
Proof.
  unfold signature. apply for_each_inv; [constructor|]. intros s [use defs] _ Hs. by apply dict_set_nodup.
Qed.

(** ** Properties *)

(** C11: flag liveness is exact.  After the bounded sweeps the flags are
    recorded live into an instruction exactly when some path from it reads
    them before writing them, the exits of a carry-ABI function counting as
    reads; and live out of it exactly when it is such an exit or they are live
    into a successor.  So [n + 2] rounds always suffice. *)
Theorem flag_liveness_exact insns labels carry i :
  (i < length insns)%nat ->
  let succ := build_cfg insns labels in
  let f := analyse_flags insns succ carry in
  (live_in f !! i = Some true <-> flag_live insns succ carry i) /\
  (live_out f !! i = Some true <->
     i ∈ flag_exits insns succ /\ carry = true \/ exists j, j ∈ succ !!! i /\ flag_live insns succ carry j).
Proof.
  intros Hi succ f.
  destruct (live_solution_spec insns labels carry) as (L1 & L2 & H & HW).
  assert (live_in f = (live_solution insns labels carry).2 /\ live_out f = (live_solution insns labels carry).1)
    as [-> ->].
  { unfold f, analyse_flags, live_solution. fold succ.
    destruct (solve (live_transfer insns succ carry) _ _ _) as [lo li].
    by destruct (solve (reach_transfer _ _) _ _ _). }
  assert (forall l : list bool, length l = length insns -> l !! i = Some true <-> l !!! i = true) as Hl.
  { intros l Hll. rewrite list_lookup_alt. split; [by intros [_ ?]|]. intros; split; [lia|done]. }
  rewrite (Hl _ L1), (Hl _ L2). split; [by apply H|]. rewrite HW by done. unfold live_transfer. cbn [fst].
  destruct (bool_decide_reflect (i ∈ flag_exits insns (build_cfg insns labels))) as [He|He].
  - split; [by left|]. intros [[_ ?]|(j & Hj & _)]; [done|]. apply exits_no_succ in He.
    unfold succ in Hj. rewrite He in Hj. by apply elem_of_nil in Hj.
  - rewrite existsb_true. pose proof (build_cfg_closed insns labels i) as Hc. rewrite build_cfg_length in Hc.
    split.
    + intros (j & Hj & Hv). right. exists j. split; [done|]. by apply H; [apply Hc|].
    + intros [[? _]|(j & Hj & Hv)]; [done|]. exists j. split; [done|]. by apply H; [apply Hc|].
Qed.

Definition demo : list Instruction * labels_map := Eval vm_compute in
  parse_instructions (join nl ["1: subs x0, x0, #1"; "b.ne 1b"; "adc x1, x1, x2"; "ret"]).

Lemma flag_liveness_exact_witness :
  let succ := build_cfg demo.1 demo.2 in
  let f := analyse_flags demo.1 succ true in
  (live_in f !! 1%nat = Some true <-> flag_live demo.1 succ true 1) /\
  (live_out f !! 1%nat = Some true <->
     1%nat ∈ flag_exits demo.1 succ /\ true = true \/ exists j, j ∈ succ !!! 1%nat /\ flag_live demo.1 succ true j).
Proof. apply flag_liveness_exact. vm_compute. lia. Defined.

(** C12: reaching definitions are exact.  For every instruction that reads the
    flags, the recorded set holds exactly the flag-defining instructions from
    which some path reaches it with no other flag definition in between. *)
Theorem reaching_definitions_exact insns labels carry i :
  (i < length insns)%nat -> uses_flags (insns !!! i) = true ->
  let succ := build_cfg insns labels in
  exists defs, dict_get (reaching (analyse_flags insns succ carry)) (Z.of_nat i) = Some defs /\
    forall d, d ∈ defs <-> (d < length insns)%nat /\ flag_reaches insns succ d i.
Proof.
  intros Hi Hu succ. exists ((reach_solution insns labels).1 !!! i).
  split; [|intros d; by apply reach_solution_spec].
  unfold analyse_flags. fold succ. destruct (solve (live_transfer _ _ _) _ _ _) as [lo li].
  change (solve (reach_transfer insns (predecessors succ)) (length insns + 2) (seq 0 (length insns))
    (replicate (length insns) ∅, replicate (length insns) ∅)) with (reach_solution insns labels).
  destruct (reach_solution insns labels) as [ri ro]. cbn [fst reaching].
  assert (forall l : list nat, i ∈ l ->
    dict_get ((fun i => (Z.of_nat i, ri !!! i)) <$> filter (fun i => uses_flags (insns !!! i) = true) l) (Z.of_nat i)
    = Some (ri !!! i)) as Hd.
  { induction l as [|j l IH]; [by intros ?%elem_of_nil|]. intros Hin.
    destruct (decide (uses_flags (insns !!! j) = true)) as [Huj|Huj].
    - rewrite filter_cons_True by done. cbn [fmap list_fmap dict_get].
      destruct (decide _) as [E|E]; [by apply Nat2Z.inj in E as ->|].
      apply IH. apply elem_of_cons in Hin as [->|]; [done|done].
    - rewrite filter_cons_False by done. apply IH. apply elem_of_cons in Hin as [->|]; [done|done]. }
  specialize (Hd (seq 0 (length insns)) ltac:(apply elem_of_seq; lia)).
  destruct carry; [|exact Hd]. clear -Hd. induction (_ <$> _) as [|[a b] l IH]; [done|].
  cbn [dict_get app] in *. by destruct (decide _); [|apply IH].
Qed.

Lemma reaching_definitions_exact_witness :
  let succ := build_cfg demo.1 demo.2 in
  exists defs, dict_get (reaching (analyse_flags demo.1 succ false)) (Z.of_nat 2) = Some defs /\
    forall d, d ∈ defs <-> (d < 4)%nat /\ flag_reaches demo.1 succ d 2.
Proof. apply (reaching_definitions_exact demo.1 demo.2 false 2); [vm_compute; lia|vm_compute; reflexivity]. Defined.


Definition demo_save : string := Eval vm_compute in
  join nl ["f: str x19, [sp, #-16]!"; "mov x19, x0"; "ldr x19, [sp], #16"; "ret"].
Definition demo_insns : list Instruction := Eval vm_compute in (parse_instructions demo_save).1.
Definition demo_labels : labels_map := Eval vm_compute in (parse_instructions demo_save).2.


(** a candidate identical to the original is never accused.  Checking a
    function against itself reports exactly what checking it alone does: the
    differential NZCV comparison adds nothing. *)
Theorem check_function_reflexive macros source carry :
  check_function macros source (Some source) carry = check_function macros source None carry.
Proof.
  unfold check_function.
  destruct (parse_instructions (expand_macros source macros 4)) as [insns labels] eqn:Ep.
  case_bool_decide as Hne; [done|]. cbn [fmap option_fmap option_map default from_option].
  rewrite orb_diag, orb_false_r.
  set (ca := default (detect_carry_abi source) carry).
  do 3 f_equal. unfold check_flags. f_equal. rewrite Ep, bool_decide_false by done.
  set (f := analyse_flags insns (build_cfg insns labels) ca).
  pose proof (signature_nodup f insns) as Hnd.
  assert (forall l, l ⊆ signature f insns -> ('(use, defs) ← l;
    match dict_get (signature f insns) use with
    | None => []
    | Some now => if bool_decide (now = defs) then [] else [nzcv_warning use now defs]
    end) = []) as Hall; [|by apply Hall].
  induction l as [|[use defs] l IH]; intros Hl; [done|]. cbn [mbind list_bind].
  rewrite (dict_get_in _ use defs Hnd) by (apply Hl; left). rewrite bool_decide_true by done.
  apply IH. intros x Hx. apply Hl. by right.
Qed.

(** ** What the checker does not see

    [effect] records a write to the 32-bit view of a callee-saved register
    under its own name, which is not tracked; and the entry state is pinned
    to clean even when a branch returns to the first instruction. *)

Lemma w_register_clobber_accepted :
  check_function [] (join nl ["f: mov w19, w0"; "ret"]) None None = [].
Proof. vm_compute. reflexivity. Qed.

Definition loop_to_entry : string := Eval vm_compute in
  join nl ["f: cbz x1, 9f"; "mov x19, x0"; "b f"; "9: ret"].

Lemma loop_to_entry_accepted :
  check_function [] loop_to_entry None None = [] /\
  let '(insns, labels) := parse_instructions loop_to_entry in
  exists st, exec insns (build_cfg insns labels) 3 st /\ "x19" ∈ dirty st.
Proof.
  split; [vm_compute; reflexivity|].
  set (pr := parse_instructions loop_to_entry). vm_compute in pr. cbn.
  eexists. split.
  - eapply (exec_step _ _ 0); [|vm_compute; right; left].
    eapply (exec_step _ _ 2); [|vm_compute; left].
    eapply (exec_step _ _ 1); [|vm_compute; left].
    eapply (exec_step _ _ 0); [|vm_compute; left]. apply exec_entry.
  - apply (bool_decide_unpack _). vm_compute. exact I.
Qed.

(** The sorted copy of a list has its elements. *)
Lemma elem_of_sorted_str x l : x ∈ sorted_str l <-> x ∈ l.
Proof. apply elem_of_sort_by. Qed.
