(* ===== verification/RegPressure.v ===== *)
(** * Register pressure and clobber sets (scripts/regpressure.py)

    Definitions and uses of an instruction, register liveness, the facts the
    report is made of, the registers a region preserves, the propagation of
    clobber sets along call edges, and the text form of a register set. *)

From Stdlib Require Import Ascii Sorted.
From S2P Require Import Prelude PyInt PyStr Regex AsmParse Dataflow Abi.

Definition CALLER_SAVED : gset string := list_to_set (reg_range "x" 0 18).
Definition CALLEE_SAVED : gset string := list_to_set (reg_range "x" 19 29).
Definition CALLER_SAVED_SIMD : gset string := list_to_set (reg_range "v" 0 8) ∪ list_to_set (reg_range "v" 16 32).
Definition ALL_CALLER : gset string := CALLER_SAVED ∪ CALLER_SAVED_SIMD ∪ {["x30"]}.

Definition REG_RE : re := Eval vm_compute in rx "\b(x\d+|w\d+|v\d+|d\d+|q\d+|s\d+|b\d+|h\d+|sp|xzr|wzr)\b".
Definition GPR_RE : re := Eval vm_compute in rx "^[xw](\d+)$".
Definition SIMD_RE : re := Eval vm_compute in rx "^[vdqsbh](\d+)$".
Definition XREG_RE : re := Eval vm_compute in rx "x\d+".
Definition XWREG_RE : re := Eval vm_compute in rx "[xw]\d+".
Definition VREG_RE : re := Eval vm_compute in rx "v\d+".

Definition norm (reg : string) : string :=
  if in_table ["xzr"; "wzr"; "sp"] reg then reg else
  match re_match GPR_RE reg with
  | Some x => "x" +:+ group x 1
  | None => match re_match SIMD_RE reg with
            | Some x => "v" +:+ group x 1
            | None => reg
            end
  end.

Definition regs_in (text : string) : gset string :=
  list_to_set ((fun x => norm (group x 1)) <$> re_finditer REG_RE text).

Definition WRITEBACK_RE : re := Eval vm_compute in rx "\[\s*(\w+)\s*(?:,[^\]]*)?\]\s*!".
Definition BARE_BRACKET_RE : re := Eval vm_compute in rx "^\[\s*(\w+)\s*\]$".

Definition union_regs (l : list string) : gset string := ⋃ (regs_in <$> l).

Definition writeback_regs (operands : list string) : gset string :=
  ⋃ (operand ← operands; (fun x => regs_in (group x 1)) <$> re_finditer WRITEBACK_RE operand)
  ∪ ⋃ (operand ← take (length operands - 1) operands;
       match re_match BARE_BRACKET_RE (strip operand) with
       | Some x => [regs_in (group x 1)]
       | None => []
       end).

(** [(defs, uses, is_call_site)] *)
Definition def_use (insn : Instruction) : gset string * gset string * bool :=
  let mn := mnemonic insn in
  let ops := operands insn in
  let done (defs uses : gset string) (call : bool) :=
    (defs ∖ {["xzr"; "wzr"; "sp"]}, uses ∖ {["xzr"; "wzr"; "sp"]}, call) in
  let fst_op := match ops with o :: _ => regs_in o | [] => ∅ end in
  if in_table ["bl"; "blr"; "svc"] mn then done ALL_CALLER (if mn =s? "blr" then fst_op else ∅) true else
  if mn =s? "ret" then done ∅ (match ops with [] => {["x30"; "x0"]} | o :: _ => regs_in o ∪ {["x0"]} end) false else
  if mn =s? "br" then done ∅ fst_op false else
  if in_table COND_BRANCH mn then
    done ∅ (if in_table ["cbz"; "cbnz"; "tbz"; "tbnz"] mn then fst_op else ∅) false else
  if in_table LOAD_MNEMONICS mn then
    let n_dest := if in_table LOAD_PAIR mn then 2%nat else 1%nat in
    let '(d, u) := if brace_first ops then (fst_op, union_regs (drop 1 ops))
                   else (union_regs (take n_dest ops), union_regs (drop n_dest ops)) in
    done (d ∪ writeback_regs ops) u false else
  if in_table STORE_MNEMONICS mn then done (writeback_regs ops) (union_regs ops) false else
  if in_table NO_DEST mn then done ∅ (union_regs ops) false else
  if in_table ["movz"; "movn"; "adr"; "adrp"] mn then done fst_op ∅ false else
  if mn =s? "movk" then done fst_op fst_op false else
  done fst_op (union_regs (drop 1 ops)) false.

Definition defs_of (i : Instruction) : gset string := (def_use i).1.1.
Definition uses_of (i : Instruction) : gset string := (def_use i).1.2.
Definition is_call (i : Instruction) : bool := (def_use i).2.

(** ** Liveness *)

(** One node of the backward sweep: [(out, (out - defs) | uses)]. *)
Definition reg_transfer (insns : list Instruction) (succ : list (list nat)) (i : nat)
  (live_in : list (gset string)) : gset string * gset string :=
  let out := for_each (succ !!! i) ∅ (fun out s => out ∪ live_in !!! s) in
  (out, (out ∖ defs_of (insns !!! i)) ∪ uses_of (insns !!! i)).

(** [(live_out, live_in)] after the loop. *)
Definition liveness (insns : list Instruction) (succ : list (list nat)) : list (gset string) * list (gset string) :=
  let n := length insns in
  solve (reg_transfer insns succ) (n + 2) (rev (seq 0 n)) (replicate n ∅, replicate n ∅).

(** ** The analysis of a region *)

Record FunctionInfo : Type := mkInfo {
  fi_name : string;
  fi_file : string;
  fi_insns : nat;
  peak : nat;
  peak_loop : nat;
  loops : nat;
  callee_used : list string;
  callee_justified : list string;
  save_restore : nat;
  frame : Z;
  loads : nat;
  stores : nat;
  movs : nat;
  fi_calls : nat;
  uses_flags_abi : bool;
  flags_live_at_ret : bool;
  flag_writers : nat;
  flag_readers : nat;
  fi_is_global : bool;
  fi_is_local_label : bool;
  fi_enclosing : option string;
  fi_call_sites : nat;
  caller_names : list string;
  address_taken : bool;
  clobbers_direct : gset string;
  clobbers : gset string;
  preserved : gset string;
  callees : list string
}.

Definition set_clobbers (r : FunctionInfo) (c : gset string) : FunctionInfo :=
  mkInfo (fi_name r) (fi_file r) (fi_insns r) (peak r) (peak_loop r) (loops r) (callee_used r)
    (callee_justified r) (save_restore r) (frame r) (loads r) (stores r) (movs r) (fi_calls r)
    (uses_flags_abi r) (flags_live_at_ret r) (flag_writers r) (flag_readers r) (fi_is_global r)
    (fi_is_local_label r) (fi_enclosing r) (fi_call_sites r) (caller_names r) (address_taken r)
    (clobbers_direct r) c (preserved r) (callees r).

(** [sorted(regs, key=lambda r: int(r[1:]))] *)
Definition reg_num (r : string) : Z := digits (drop_str 1 r).
Definition sort_regs (s : gset string) : list string :=
  sort_by (fun x y => reg_num x <? reg_num y) (elements s).

Definition gprs (s : gset string) : gset string := filter (fun r => fullmatches XREG_RE r = true) s.

Definition max_of (l : list nat) : nat := foldr Nat.max 0%nat l.

Definition FRAME_SUB_RE : re := Eval vm_compute in rx "sub\s+sp,\s*sp,\s*#(\d+)".
Definition FRAME_PRE_RE : re := Eval vm_compute in rx "\[sp,\s*#-(\d+)\]!".
Definition SAVED_RE : re := Eval vm_compute in rx "\b(x(19|2[0-8])|x29|x30|d([89]|1[0-5]))\b".

(** [_preserved_registers] *)
Definition spilled (table pair : list string) (insns : list Instruction) : gset string :=
  ⋃ (insn ← insns;
     if contains "sp" (strip_comment (text insn)) && in_table table (mnemonic insn)
     then [union_regs (take (if in_table pair (mnemonic insn) then 2 else 1) (operands insn))] else []).
Definition preserved_registers (insns : list Instruction) : gset string :=
  let saved := spilled STORE_MNEMONICS STORE_PAIR insns in
  let restored := spilled LOAD_MNEMONICS LOAD_PAIR
                    (List.filter (fun i => negb (in_table STORE_MNEMONICS (mnemonic i))) insns) in
  saved ∩ restored.

Definition frame_of (insns : list Instruction) : Z :=
  for_each insns 0 (fun f insn =>
    let text := strip_comment (text insn) in
    let f := match re_search FRAME_SUB_RE text with Some x => Z.max f (digits (group x 1)) | None => f end in
    match re_search FRAME_PRE_RE text with Some x => Z.max f (digits (group x 1)) | None => f end).

Definition is_save_restore (insn : Instruction) : bool :=
  let text := strip_comment (text insn) in
  in_table ["stp"; "ldp"; "str"; "ldr"] (mnemonic insn) && contains "sp" text && searches SAVED_RE text.

Definition count_if {X} (f : X -> bool) (l : list X) : nat := length (List.filter f l).

Definition is_reg_mov (i : Instruction) : bool :=
  match operands i with
  | [_; src] => (mnemonic i =s? "mov") && fullmatches XWREG_RE (strip src)
  | _ => false
  end.

Definition analyse_insns (insns : list Instruction) (labels : labels_map) (region : Region)
  (ix : SourceIndex) : FunctionInfo :=
  let n := length insns in
  let succ := build_cfg insns labels in
  let '(live_out, live_in) := liveness insns succ in
  let edges := back_edges succ in
  let loop_insns := '(source, target) ← edges; seq target (source + 1 - target) in
  let plain := List.filter (fun i => negb (is_call i)) insns in
  let explicit := ⋃ ((fun i => defs_of i ∪ uses_of i) <$> plain) in
  let written := ⋃ (defs_of <$> plain) in
  let written := if existsb (fun i => in_table ["bl"; "blr"] (mnemonic i)) insns
                 then written ∪ {["x30"]} else written in
  let justified := ⋃ (i ← seq 0 n; if is_call (insns !!! i)
                                   then [gprs (live_out !!! i) ∩ CALLEE_SAVED] else []) in
  let flags := analyse_flags insns succ (carry_abi (doc region)) in
  mkInfo (name region) (path region) n
    (max_of ((fun i => size (gprs (live_out !!! i))) <$> seq 0 n))
    (max_of ((fun i => size (gprs (live_out !!! i))) <$> loop_insns))
    (length edges)
    (sort_regs (gprs explicit ∩ CALLEE_SAVED))
    (sort_regs justified)
    (count_if is_save_restore insns)
    (frame_of insns)
    (count_if (fun i => in_table LOAD_MNEMONICS (mnemonic i)) insns)
    (count_if (fun i => in_table STORE_MNEMONICS (mnemonic i)) insns)
    (count_if is_reg_mov insns)
    (count_if is_call insns)
    (carry_abi (doc region)) (live_at_ret flags)
    (count_if defines_flags insns) (count_if uses_flags insns)
    (is_global region) (is_local_label region) (enclosing region)
    (call_sites ix (name region))
    (sorted_str (fst <$> default [] (dict_get (callers ix) (name region))))
    (referenced ix (name region))
    written ∅ (preserved_registers insns)
    (sorted_str (default [] (dict_get (calls ix) (name region)))).

Definition analyse (region : Region) (ix : SourceIndex) : option FunctionInfo :=
  let '(insns, labels) := parse_instructions (expand_macros (analysis_body ix region 3) (macros ix) 4) in
  if bool_decide (insns = []) then None else Some (analyse_insns insns labels region ix).

(** ** The report's judgement *)

(** [FunctionInfo.unjustified] *)
Definition unjustified (r : FunctionInfo) : list string :=
  sort_regs ((list_to_set (callee_used r) ∩ preserved r) ∖ list_to_set (callee_justified r)).

Definition ENTRY_POINTS : list string := ["_start"; "_main"; "main"].
Definition is_reachable_dead (r : FunctionInfo) : bool :=
  negb (in_table ENTRY_POINTS (fi_name r)) && negb (address_taken r).

Definition opportunity (r : FunctionInfo) : string * string :=
  if fi_is_global r && (fi_call_sites r =? 0)%nat && is_reachable_dead r
  then ("NONE", "no call site anywhere in src/ -- not on any hot path this server executes") else
  if negb (bool_decide (unjustified r = [])) && negb (save_restore r =? 0)%nat
  then ("HIGH", str_nat (length (unjustified r)) +:+ " callee-saved reg(s) (" +:+ join ", " (unjustified r)
                +:+ ") never hold a value across a call") else
  if (20 <? peak r)%nat
  then ("HIGH", "peak pressure " +:+ str_nat (peak r) +:+ " approaches the 31-GPR limit; scheduling may be constrained") else
  if (fi_calls r =? 0)%nat && negb (bool_decide (callee_used r = []))
  then ("MEDIUM", "leaf function preserving callee-saved registers") else
  if (12 <=? peak_loop r)%nat
  then ("MEDIUM", "loop carries " +:+ str_nat (peak_loop r) +:+ " live registers") else
  if (10 <=? save_restore r)%nat
  then ("LOW", str_nat (save_restore r) +:+ " save/restore instructions, all justified by live-across-call values") else
  ("NONE", "register usage already tight").

(** ** Clobber propagation *)

Section resolve_clobbers.
Context (rows : list (string * FunctionInfo)) (ix : SourceIndex).

(** [rows.get(callee)], as the position of its row *)
Definition row_index (callee : string) : option nat := fst <$> list_find (fun r => r.1 = callee) rows.

#[export] Instance info_inhabited : Inhabited FunctionInfo :=
  populate (mkInfo "" "" 0 0 0 0 [] [] 0 0 0 0 0 0 false false 0 0 false false None 0 [] false ∅ ∅ ∅ []).

Definition info_at (i : nat) : FunctionInfo := (rows !!! i).2.

(** [index.calls.get(name, set()) | index.tail_calls.get(name, set())] *)
Definition call_edges (i : nat) : list string :=
  let n := (rows !!! i).1 in
  default [] (dict_get (calls ix) n) ++ default [] (dict_get (tail_calls ix) n).

(** One row of the sweep. *)
Definition clobber_transfer (i : nat) (cs : list (gset string)) : unit * gset string :=
  let new := for_each (call_edges i) (clobbers_direct (info_at i)) (fun new callee =>
    match row_index callee with
    | None => new ∪ ALL_CALLER
    | Some j => new ∪ (cs !!! j ∖ preserved (info_at j))
    end) in
  (tt, new ∖ preserved (info_at i)).

Definition clobber_solution : list (gset string) :=
  let n := length rows in
  (solve clobber_transfer (n + 2) (seq 0 n)
     (replicate n tt, (fun r : string * FunctionInfo => clobbers_direct r.2) <$> rows)).2.

Definition resolve_clobbers : list (string * FunctionInfo) :=
  zip_with (fun (r : string * FunctionInfo) c => (r.1, set_clobbers r.2 c)) rows clobber_solution.
End resolve_clobbers.

(** [collect]: the rows in region order; a name keeps its first row, and only
    that one's clobber set is resolved. *)
Definition collect (files : tree) (linux : bool) : list FunctionInfo * SourceIndex :=
  let ix := index_source files linux in
  let '(ordered, rows) := for_each (regions ix) ([], []) (fun '(ordered, rows) region =>
    match analyse region ix with
    | None => (ordered, rows)
    | Some info => (ordered ++ [(info, negb (is_some (dict_get rows (name region))))],
                    dict_setdefault rows (name region) info)
    end) in
  let resolved := resolve_clobbers rows ix in
  ((fun '(info, first) => if (first : bool) then default info (dict_get resolved (fi_name info)) else info)
   <$> ordered, ix).

(** ** The text form of a register set *)

(** The runs of consecutive numbers of a sorted list: the inner loop of
    [fmt_regs], with [start] and [prev]. *)
Fixpoint runs_from (start prev : Z) (nums : list Z) : list (Z * Z) :=
  match nums with
  | [] => [(start, prev)]
  | num :: nums => if num =? prev + 1 then runs_from start num nums
                   else (start, prev) :: runs_from num num nums
  end.
Definition runs (nums : list Z) : list (Z * Z) :=
  match nums with [] => [] | n :: nums => runs_from n n nums end.

Definition fmt_run (prefix : string) (r : Z * Z) : string :=
  if r.1 =? r.2 then prefix +:+ str_z r.1
  else prefix +:+ str_z r.1 +:+ "-" +:+ prefix +:+ str_z r.2.

(** [sorted(int(r[1:]) for r in regs if re.fullmatch(prefix + r"\d+", r))] *)
Definition sorted_z : list Z -> list Z := sort_by Z.ltb.
Definition reg_nums (r : re) (s : gset string) : list Z :=
  sorted_z (reg_num <$> filter (fun x => fullmatches r x = true) (elements s)).

Definition fmt_regs (s : gset string) : string :=
  join ", " ((fmt_run "x" <$> runs (reg_nums XREG_RE s)) ++ (fmt_run "v" <$> runs (reg_nums VREG_RE s))).

(** ** Lemmas: register sets *)

Lemma sort_regs_elem s r : r ∈ sort_regs s <-> r ∈ s.
Proof. unfold sort_regs. by rewrite elem_of_sort_by, elem_of_elements. Qed.

Lemma sorted_z_perm l : sorted_z l ≡ₚ l.
Proof. apply sort_by_perm. Qed.

Lemma sorted_z_sorted l : StronglySorted Z.le (sorted_z l).
Proof. apply (sort_by_sorted _ (fun _ => True)); [intros; lia..|by apply Forall_true]. Qed.

(** ** Lemmas: liveness *)

(** The value in [r] on entry to [i] may be read before it is overwritten. *)
Inductive reg_live (insns : list Instruction) (succ : list (list nat)) (r : string) : nat -> Prop :=
| rl_use i : r ∈ uses_of (insns !!! i) -> reg_live insns succ r i
| rl_step i j : j ∈ succ !!! i -> r ∉ defs_of (insns !!! i) -> reg_live insns succ r j ->
    reg_live insns succ r i.

Lemma union_lookup (l : list nat) (vs : list (gset string)) s0 r :
  r ∈ for_each l s0 (fun out s => out ∪ vs !!! s) <-> r ∈ s0 \/ exists p, p ∈ l /\ r ∈ vs !!! p.
Proof.
  revert s0. induction l as [|p l IH]; intros s0; [cbn; set_solver|].
  change (for_each (p :: l) s0 (fun out s => out ∪ vs !!! s))
    with (for_each l (s0 ∪ vs !!! p) (fun out s => out ∪ vs !!! s)).
  rewrite IH, elem_of_union. setoid_rewrite elem_of_cons. split.
  - intros [[?|?]|(q & ? & ?)]; eauto.
  - intros [?|(q & [->|?] & ?)]; eauto.
Qed.

Section live.
Context (insns : list Instruction) (labels : labels_map).
Let succ := build_cfg insns labels.
Let n := length insns.

Lemma liveness_spec :
  (forall i r, (i < n)%nat -> r ∈ (liveness insns succ).2 !!! i <-> reg_live insns succ r i) /\
  (forall i r, (i < n)%nat -> r ∈ (liveness insns succ).1 !!! i <->
     exists j, j ∈ succ !!! i /\ reg_live insns succ r j).
Proof.
  set (gen := fun (i : nat) (r : string) => r ∈ uses_of (insns !!! i)).
  set (edge := fun (i j : nat) (r : string) => r ∉ defs_of (insns !!! i) /\ j ∈ succ !!! i).
  assert (forall i j, (i < n)%nat -> j ∈ succ !!! i -> (j < n)%nat) as Hrange.
  { intros i j Hi Hj. pose proof (build_cfg_closed insns labels i j) as Hc.
    rewrite build_cfg_length in Hc. by apply Hc. }
  destruct (solve_spec (reg_transfer insns succ) n (rev (seq 0 n))
    (fun _ (v : gset string) r => r ∈ v) gen edge)
    with (s := (replicate n (∅ : gset string), replicate n (∅ : gset string))) as (L1 & L2 & H & HW).
  - intros i. rewrite elem_rev, elem_of_seq. lia.
  - intros i j r Hi [_ Hj]. by eapply Hrange.
  - intros i vs r Hi Hl. unfold reg_transfer, gen, edge. cbn [snd].
    rewrite elem_of_union, elem_of_difference, union_lookup. split.
    + intros [[[?%elem_of_empty|(p & ? & ?)] ?]|?]; [done|right; by exists p|by left].
    + intros [?|(p & [? ?] & ?)]; [by right|]. left. split; [|done]. right. by exists p.
  - intros i vs vs' Hi _ _ Hk. apply leibniz_equiv. exact Hk.
  - split; cbn [fst snd]; [apply length_replicate|apply length_replicate| |];
      intros i k Hi; rewrite lookup_total_replicate_2 by done; by intros ?%elem_of_empty.
  - assert (forall i r, (i < n)%nat -> r ∈ (liveness insns succ).2 !!! i <-> reg_live insns succ r i) as Hin.
    { intros i r Hi. unfold liveness. fold n. rewrite (H i r Hi). split.
      - intros Hr. clear Hi. induction Hr as [i r Hi' Hg|i j r Hi' [Hd Hj] Hr IH]; [by apply rl_use|].
        by apply rl_step with j.
      - intros Hl. revert Hi. induction Hl as [i Hu|i j Hj Hd Hl IH]; intros Hi; [by apply reach_gen|].
        apply reach_edge with j; [done|by split|]. apply IH. by eapply Hrange. }
    split; [exact Hin|]. intros i r Hi. unfold liveness. fold n. rewrite HW by done.
    unfold reg_transfer at 1. cbn [fst]. rewrite union_lookup. split.
    + intros [?%elem_of_empty|(j & Hj & Hr)]; [done|]. exists j. split; [done|].
      apply Hin; [by eapply Hrange|exact Hr].
    + intros (j & Hj & Hr). right. exists j. split; [done|]. apply Hin in Hr; [exact Hr|by eapply Hrange].
Qed.

(** A register is live across the call at [i]: its value may be read after
    the call returns, before it is overwritten. *)
Definition live_across (r : string) (i : nat) : Prop :=
  (i < n)%nat /\ is_call (insns !!! i) = true /\ exists j, j ∈ succ !!! i /\ reg_live insns succ r j.
End live.

Lemma elem_union_list {A} (f : A -> gset string) (l : list A) r :
  r ∈ ⋃ (f <$> l) <-> exists x, x ∈ l /\ r ∈ f x.
Proof.
  rewrite elem_of_union_list. split.
  - intros (X & (x & -> & Hx)%list_elem_of_fmap & Hr). eauto.
  - intros (x & Hx & Hr). exists (f x). split; [|done]. apply list_elem_of_fmap. eauto.
Qed.

Lemma callee_saved_gpr r : r ∈ CALLEE_SAVED -> fullmatches XREG_RE r = true.
Proof.
  unfold CALLEE_SAVED. rewrite elem_of_list_to_set.
  assert (Forall (fun r => fullmatches XREG_RE r = true) (reg_range "x" 19 29)) as H.
  { by apply (bool_decide_unpack _); vm_compute. }
  rewrite List.Forall_forall in H. intros Hr. apply H. by apply list_elem_of_In.
Qed.

Lemma gprs_elem s r : r ∈ gprs s <-> fullmatches XREG_RE r = true /\ r ∈ s.
Proof. unfold gprs. by rewrite elem_of_filter. Qed.

(** ** Lemmas: clobber propagation *)

Section clobbers.
Context (rows : list (string * FunctionInfo)) (ix : SourceIndex).
Let n := length rows.

(** A call of the region in row [i] may destroy [r]: it writes it itself, it
    calls an unknown function, or it calls a row that may destroy it -- and it
    does not save and restore it. *)
Inductive clobbered (r : string) : nat -> Prop :=
| cl_direct i : r ∈ clobbers_direct (info_at rows i) -> r ∉ preserved (info_at rows i) -> clobbered r i
| cl_unknown i callee : callee ∈ call_edges rows ix i -> row_index rows callee = None ->
    r ∈ ALL_CALLER -> r ∉ preserved (info_at rows i) -> clobbered r i
| cl_callee i callee j : callee ∈ call_edges rows ix i -> row_index rows callee = Some j ->
    (j < n)%nat -> clobbered r j -> r ∉ preserved (info_at rows i) -> clobbered r i.

Lemma row_index_range callee j : row_index rows callee = Some j -> (j < n)%nat.
Proof.
  unfold row_index. rewrite fmap_Some. intros ([i x] & Hf%list_find_Some & ->).
  destruct Hf as [Hl _]. by apply lookup_lt_Some in Hl.
Qed.

Lemma call_fold (cs : list (gset string)) callees s0 r :
  r ∈ for_each callees s0 (fun new callee => match row_index rows callee with
        | None => new ∪ ALL_CALLER
        | Some j => new ∪ (cs !!! j ∖ preserved (info_at rows j)) end) <->
  r ∈ s0 \/ exists callee, callee ∈ callees /\
    ((row_index rows callee = None /\ r ∈ ALL_CALLER) \/
     exists j, row_index rows callee = Some j /\ r ∈ cs !!! j /\ r ∉ preserved (info_at rows j)).
Proof.
  revert s0. induction callees as [|c l IH]; intros s0; [cbn; set_solver|].
  match goal with |- context [for_each (c :: l) s0 ?f] =>
    change (for_each (c :: l) s0 f) with (for_each l (f s0 c) f) end.
  rewrite IH. clear IH. cbn beta. setoid_rewrite elem_of_cons.
  destruct (row_index rows c) as [j|] eqn:E; rewrite elem_of_union, ?elem_of_difference; split.
  - intros [[?|[? ?]]|(q & ? & ?)]; [by left|right; exists c; eauto 8|right; exists q; eauto].
  - intros [?|(q & [->|?] & Hq)]; [by do 2 left| |right; by exists q].
    destruct Hq as [[? _]|(j' & E' & ?)]; [congruence|]. left. right. rewrite E in E'.
    by injection E' as <-.
  - intros [[?|?]|(q & ? & ?)]; [by left|right; exists c; eauto 8|right; exists q; eauto].
  - intros [?|(q & [->|?] & Hq)]; [by do 2 left| |right; by exists q].
    destruct Hq as [[_ ?]|(j' & E' & ?)]; [by left; right|congruence].
Qed.

(** The facts the iteration computes: membership of a register a row does not
    preserve, generated by the row itself, carried along calls to known rows. *)
Definition cl_mem (i : nat) (v : gset string) (r : string) : Prop := r ∈ v /\ r ∉ preserved (info_at rows i).
Definition cl_gen (i : nat) (r : string) : Prop := r ∉ preserved (info_at rows i) /\
  (r ∈ clobbers_direct (info_at rows i) \/
   exists c, c ∈ call_edges rows ix i /\ row_index rows c = None /\ r ∈ ALL_CALLER).
Definition cl_edge (i j : nat) (r : string) : Prop := r ∉ preserved (info_at rows i) /\
  exists c, c ∈ call_edges rows ix i /\ row_index rows c = Some j.

Lemma transfer_mem i vs r : cl_mem i (clobber_transfer rows ix i vs).2 r <->
  cl_gen i r \/ exists j, cl_edge i j r /\ cl_mem j (vs !!! j) r.
Proof.
  unfold cl_mem, cl_gen, cl_edge, clobber_transfer. cbn [snd]. rewrite elem_of_difference, call_fold. split.
  - intros [[[Hd|(c & Hc & [[E ?]|(j & E & ? & ?)])] Hp] _].
    + left. auto.
    + left. split; [done|]. right. by exists c.
    + right. exists j. split; [split; [done|]; by exists c|done].
  - intros [[Hp [Hd|(c & Hc & E & Hr)]]|(j & [Hp (c & Hc & E)] & Hr & Hpj)]; (split; [split; [|done]|done]).
    + by left.
    + right. exists c. split; [done|]. by left.
    + right. exists c. split; [done|]. right. by exists j.
Qed.

Lemma transfer_preserved i vs r : r ∈ (clobber_transfer rows ix i vs).2 -> r ∉ preserved (info_at rows i).
Proof. unfold clobber_transfer. cbn [snd]. by intros [_ ?]%elem_of_difference. Qed.

Lemma transfer_ext i vs vs' :
  (forall r, cl_mem i (clobber_transfer rows ix i vs).2 r <-> cl_mem i (clobber_transfer rows ix i vs').2 r) ->
  (clobber_transfer rows ix i vs).2 = (clobber_transfer rows ix i vs').2.
Proof.
  intros Hk. apply leibniz_equiv. intros r. specialize (Hk r). unfold cl_mem in Hk.
  pose proof (transfer_preserved i vs r). pose proof (transfer_preserved i vs' r). tauto.
Qed.

Lemma start_wf : wf (clobber_transfer rows ix) n cl_mem cl_gen cl_edge
  (replicate n tt, (fun r : string * FunctionInfo => clobbers_direct r.2) <$> rows).
Proof.
  set (s0 := (replicate n tt, (fun r : string * FunctionInfo => clobbers_direct r.2) <$> rows)).
  assert (forall i, (i < n)%nat -> s0.2 !!! i = clobbers_direct (info_at rows i)) as Hs0.
  { intros i Hi. apply list_lookup_total_correct. unfold s0, info_at. cbn [snd]. rewrite list_lookup_fmap.
    destruct (rows !! i) as [x|] eqn:E; [|apply lookup_ge_None in E; unfold n in Hi; lia].
    by rewrite (list_lookup_total_correct _ _ _ E). }
  split; [apply length_replicate|apply length_fmap| |].
  - intros i r Hi. rewrite Hs0 by done. intros [? ?]. apply reach_gen; [done|]. split; [done|]. by left.
  - intros i r Hi. rewrite Hs0 by done. intros [? ?]. apply transfer_mem. left. split; [done|]. by left.
Qed.

Lemma edge_range i j r : cl_edge i j r -> (j < n)%nat.
Proof. intros [_ (c & _ & E)]. by eapply row_index_range. Qed.

Lemma reaches_clobbered i r : (i < n)%nat -> reaches n cl_gen cl_edge i r <-> clobbered r i.
Proof.
  intros Hi. split.
  - intros Hr. clear Hi. induction Hr as [i r Hi [Hp [Hd|(c & Hc & E & Hr)]]|i j r Hi [Hp (c & Hc & E)] Hr IH].
    + by apply cl_direct.
    + by apply cl_unknown with c.
    + apply cl_callee with c j; try done. by eapply row_index_range.
  - intros Hc. revert Hi. induction Hc as [i Hd Hp|i c Hc E Hr Hp|i c j Hc E Hj Hr IH Hp]; intros Hi.
    + apply reach_gen; [done|]. split; [done|]. by left.
    + apply reach_gen; [done|]. split; [done|]. right. by exists c.
    + apply reach_edge with j; [done| |by apply IH]. split; [done|]. by exists c.
Qed.

Lemma clobber_solution_spec : length (clobber_solution rows ix) = n /\
  forall i r, (i < n)%nat -> r ∈ clobber_solution rows ix !!! i <-> clobbered r i.
Proof.
  assert (forall i, i ∈ seq 0 n <-> (i < n)%nat) as Hseq by (intros i; rewrite elem_of_seq; lia).
  destruct (solve_spec (clobber_transfer rows ix) n (seq 0 n) cl_mem cl_gen cl_edge Hseq
    (fun i j r _ => edge_range i j r) (fun i vs r _ _ => transfer_mem i vs r) (fun i vs vs' _ _ _ => transfer_ext i vs vs')
    _ start_wf) as (_ & L & H & _).
  split; [exact L|]. intros i r Hi. specialize (H i r Hi). unfold clobber_solution. fold n.
  destruct (solve_transferred (clobber_transfer rows ix) n (seq 0 n) cl_mem cl_gen cl_edge Hseq
    (fun i j r _ => edge_range i j r) (fun i vs r _ _ => transfer_mem i vs r) _ start_wf i Hi) as (vs & _ & E).
  rewrite <- (reaches_clobbered i r Hi), <- H. unfold cl_mem. rewrite E. pose proof (transfer_preserved i vs r). tauto.
Qed.
End clobbers.

(** ** Lemmas: runs *)

(** The numbers a list of runs stands for. *)
Definition expand_runs (rs : list (Z * Z)) : list Z := r ← rs; seqZ r.1 (r.2 - r.1 + 1).

(** No two neighbouring runs can be merged. *)
Fixpoint separated (rs : list (Z * Z)) : Prop :=
  match rs with
  | a :: ((b :: _) as rs') => b.1 <> a.2 + 1 /\ separated rs'
  | _ => True
  end.

Lemma runs_from_spec start prev nums : start <= prev ->
  expand_runs (runs_from start prev nums) = seqZ start (prev - start + 1) ++ nums /\
  separated (runs_from start prev nums) /\ exists e rs, runs_from start prev nums = (start, e) :: rs.
Proof.
  revert start prev. induction nums as [|num nums IH]; intros start prev Hle; cbn [runs_from].
  { split; [done|]. split; [done|]. by exists prev, []. }
  destruct (Z.eqb_spec num (prev + 1)) as [->|Hne].
  - destruct (IH start (prev + 1) ltac:(lia)) as (E & S & Hx). split; [|by split]. rewrite E.
    replace (prev + 1 - start + 1) with ((prev - start + 1) + 1) by lia.
    rewrite seqZ_app by lia. rewrite <- app_assoc. f_equal.
    by replace (start + (prev - start + 1)) with (prev + 1) by lia.
  - destruct (IH num num ltac:(lia)) as (E & S & e & rs & Hx). split; [|split; [|by eauto]].
    + unfold expand_runs in *. cbn [mbind list_bind fst snd]. rewrite E.
      by replace (num - num + 1) with 1 by lia.
    + rewrite Hx in S |- *. split; [exact Hne|exact S].
Qed.

Lemma runs_spec nums : expand_runs (runs nums) = nums /\ separated (runs nums).
Proof.
  destruct nums as [|num nums]; [done|]. unfold runs.
  destruct (runs_from_spec num num nums ltac:(lia)) as (E & S & _). split; [|done].
  rewrite E. by replace (num - num + 1) with 1 by lia.
Qed.

Lemma reg_nums_spec r s : StronglySorted Z.le (reg_nums r s) /\
  forall k, k ∈ reg_nums r s <-> exists x, x ∈ s /\ fullmatches r x = true /\ k = reg_num x.
Proof.
  split; [apply sorted_z_sorted|]. intros k. unfold reg_nums. rewrite sorted_z_perm, list_elem_of_fmap.
  setoid_rewrite list_elem_of_filter. setoid_rewrite elem_of_elements. naive_solver.
Qed.

(** ** The properties *)

(** C14: the loop of [analyse] computes liveness: after its [n + 2] sweeps, and
    the early exit, a register is in [live_in[i]] exactly when some path from
    [i] reads it before writing it, and in [live_out[i]] exactly when such a
    path starts at a successor of [i]. *)
Theorem register_liveness_exact insns labels i r : (i < length insns)%nat ->
  let succ := build_cfg insns labels in
  (r ∈ (liveness insns succ).2 !!! i <-> reg_live insns succ r i) /\
  (r ∈ (liveness insns succ).1 !!! i <-> exists j, j ∈ succ !!! i /\ reg_live insns succ r j).
Proof. intros Hi. destruct (liveness_spec insns labels) as [H1 H2]. split; [by apply H1|by apply H2]. Qed.

Definition loop_demo : list Instruction * labels_map :=
  parse_instructions (join nl ["f:"; "mov x19, x0"; "1:"; "bl g"; "cbnz x19, 1b"; "ret"]).

Lemma register_liveness_exact_witness :
  let succ := build_cfg loop_demo.1 loop_demo.2 in
  ("x19" ∈ (liveness loop_demo.1 succ).1 !!! 1%nat <->
   exists j, j ∈ succ !!! 1%nat /\ reg_live loop_demo.1 succ "x19" j) /\
  "x19" ∈ (liveness loop_demo.1 succ).1 !!! 1%nat.
Proof.
  split.
  - apply (register_liveness_exact loop_demo.1 loop_demo.2 1 "x19"). vm_compute. lia.
  - apply (bool_decide_unpack _). vm_compute. exact I.
Defined.

(** What the report calls unjustified: a register is in [unjustified] of
    an analysed region exactly when it is callee-saved, some instruction other
    than a call names it, the region spills and reloads it, and at no call
    site of the region is its value read after the call. *)
Theorem unjustified_exact insns labels region ix r :
  r ∈ unjustified (analyse_insns insns labels region ix) <->
  r ∈ CALLEE_SAVED /\ r ∈ preserved_registers insns /\
  (exists i, i ∈ insns /\ is_call i = false /\ r ∈ defs_of i ∪ uses_of i) /\
  forall i, ~ live_across insns labels r i.
Proof.
  unfold unjustified, analyse_insns. destruct (liveness insns (build_cfg insns labels)) as [lo li] eqn:El.
  cbn [callee_used preserved callee_justified]. rewrite sort_regs_elem, elem_of_difference, elem_of_intersection.
  rewrite !elem_of_list_to_set, !sort_regs_elem, elem_of_intersection, gprs_elem, elem_union_list.
  assert (r ∈ CALLEE_SAVED -> r ∈ ⋃ (i ← seq 0 (length insns); if is_call (insns !!! i)
      then [gprs (lo !!! i) ∩ CALLEE_SAVED] else []) <-> exists i, live_across insns labels r i) as Hj.
  { intros Hc. rewrite elem_of_union_list. setoid_rewrite list_elem_of_bind. unfold live_across.
    destruct (liveness_spec insns labels) as [_ HL]. rewrite El in HL. cbn [fst] in HL. split.
    - intros (X & (i & HX & Hi) & Hr). apply elem_of_seq in Hi. exists i.
      destruct (is_call (insns !!! i)); [|by apply elem_of_nil in HX].
      apply list_elem_of_singleton in HX as ->. apply elem_of_intersection in Hr as [Hr _].
      apply gprs_elem in Hr as [_ Hr]. split; [lia|]. split; [done|]. apply HL; [lia|done].
    - intros (i & Hi & Hcall & Hr). exists (gprs (lo !!! i) ∩ CALLEE_SAVED). split.
      + exists i. rewrite Hcall. split; [by apply list_elem_of_singleton|]. apply elem_of_seq. lia.
      + apply elem_of_intersection. split; [|done]. apply gprs_elem.
        split; [by apply callee_saved_gpr|]. by apply HL. }
  assert ((exists x, x ∈ List.filter (fun i => negb (is_call i)) insns /\ r ∈ defs_of x ∪ uses_of x) <->
    exists i, i ∈ insns /\ is_call i = false /\ r ∈ defs_of i ∪ uses_of i) as Hu.
  { split; intros (x & Hx); exists x; rewrite list_elem_of_In, filter_In, negb_true_iff, <- list_elem_of_In in *; tauto. }
  rewrite Hu. clear Hu. split.
  - intros [[[[_ ?] Hc] ?] Hn]. repeat split; [done|done|done|]. intros i Hl. apply Hn, Hj; [done|]. by exists i.
  - intros (Hc & ? & ? & Hn). repeat split; [by apply callee_saved_gpr|done|done|done|].
    intros [i Hl]%Hj; [|done]. by eapply Hn.
Qed.

(** C15: clobber propagation is exact: the [len(rows) + 2] sweeps of
    [resolve_clobbers] leave in each row exactly the registers a call of that
    region may destroy along some chain of calls, where an unknown callee
    destroys every caller-saved register and a region that saves and restores
    a register stops it. *)
Theorem clobbers_exact rows ix i r : (i < length rows)%nat ->
  r ∈ clobbers (resolve_clobbers rows ix !!! i).2 <-> clobbered rows ix r i.
Proof.
  intros Hi. destruct (clobber_solution_spec rows ix) as [L H]. rewrite <- H by done.
  unfold resolve_clobbers. erewrite list_lookup_total_correct; [|].
  2: { rewrite lookup_zip_with. rewrite (list_lookup_lookup_total_lt rows i) by done. cbn [mbind option_bind].
       rewrite (list_lookup_lookup_total_lt (clobber_solution rows ix) i) by lia. reflexivity. }
  done.
Qed.

Definition call_demo : SourceIndex :=
  index_source [("lib/a.S", join nl ["// Function Name: f"; ".global f"; "f:"; "stp x29, x30, [sp, #-16]!"; "bl g";
      "ldp x29, x30, [sp], #16"; "ret"; "// Function Name: g"; ".global g"; "g:"; "mov x9, x0"; "b f"])] false.
Definition call_rows : list (string * FunctionInfo) :=
  omap (fun r => (fun i => (name r, i)) <$> analyse r call_demo) (regions call_demo).

Lemma clobbers_exact_witness :
  ("x9" ∈ clobbers (resolve_clobbers call_rows call_demo !!! 0%nat).2 <-> clobbered call_rows call_demo "x9" 0) /\
  "x9" ∈ clobbers (resolve_clobbers call_rows call_demo !!! 0%nat).2 /\
  "x30" ∉ clobbers (resolve_clobbers call_rows call_demo !!! 0%nat).2.
Proof.
  split; [apply (clobbers_exact call_rows call_demo 0 "x9"); vm_compute; lia|].
  split; [apply (bool_decide_unpack _); vm_compute; exact I|].
  apply (bool_decide_unpack (_ ∉ _)). vm_compute. exact I.
Defined.

(** the text of a register set is exact: [fmt_regs] prints, for [x] and
    then for [v], runs that stand for exactly the register numbers of the set,
    in increasing order, and no two neighbouring runs could be merged. *)
Theorem fmt_regs_exact s : exists xs vs,
  fmt_regs s = join ", " ((fmt_run "x" <$> xs) ++ (fmt_run "v" <$> vs)) /\
  separated xs /\ separated vs /\
  StronglySorted Z.le (expand_runs xs) /\ StronglySorted Z.le (expand_runs vs) /\
  (forall k, k ∈ expand_runs xs <-> exists r, r ∈ s /\ fullmatches XREG_RE r = true /\ k = reg_num r) /\
  (forall k, k ∈ expand_runs vs <-> exists r, r ∈ s /\ fullmatches VREG_RE r = true /\ k = reg_num r).
Proof.
  exists (runs (reg_nums XREG_RE s)), (runs (reg_nums VREG_RE s)). split; [done|].
  destruct (runs_spec (reg_nums XREG_RE s)) as [-> Sx]. destruct (runs_spec (reg_nums VREG_RE s)) as [-> Sv].
  destruct (reg_nums_spec XREG_RE s) as [Ox Mx]. destruct (reg_nums_spec VREG_RE s) as [Ov Mv]. auto 10.
Qed.
