(* ===== verification/Clobbers.v ===== *)
(** * Documented clobbers (scripts/validate_clobbers.py)

    The register sets of a [// Clobbered Registers:] header, the expansion of
    its references to other headers, and the comparison of each header with
    the set [regpressure] computes. *)

From Stdlib Require Import Ascii.
From S2P Require Import Prelude PyInt PyStr Regex AsmParse Abi RegPressure.

Definition RANGE_RE : re := Eval vm_compute in
  rx "\b([xwvdqsbh])(\d+)\s*(?:-|–|\.\.)\s*[xwvdqsbh]?(\d+)\b".
Definition SINGLE_RE : re := Eval vm_compute in rx "\b([xwvdqsbh])(\d+)\b".
Definition PAREN_RE : re := Eval vm_compute in rx "\(([^)]*)\)".
Definition REFERENCE_RE : re := Eval vm_compute in
  rx "everything\s+[`']?([A-Za-z_][A-Za-z0-9_]*)[`']?\s+clobbers".
Definition ITEM_RE : re := Eval vm_compute in rx ",(?![^(]*\))".
Definition NONE_RE : re := Eval vm_compute in rx_i "\bnone\b".
Definition XV_RE : re := Eval vm_compute in rx "[xv]\d+".
Definition PRESERVE_WORDS : list string := ["saved"; "restored"; "preserved"; "preserve"].

(** [{r for r in regs if re.fullmatch(r"[xv]\d+", r)}] *)
Definition clean (regs : gset string) : gset string := filter (fun r => fullmatches XV_RE r = true) regs.

(** ** Headers *)

(** The registers of one range token; an inverted range stands for none. *)
Definition range_regs (x : mtch) : gset string :=
  let '(prefix, lo, hi) := (group x 1, digits (group x 2), digits (group x 3)) in
  if lo <=? hi then list_to_set ((fun i => norm (prefix +:+ str_z i)) <$> seqZ lo (hi + 1 - lo)) else ∅.

(** [parse_regs]: ranges first, then the single tokens outside every range. *)
Definition parse_regs (text : string) : gset string :=
  let ranges := re_finditer RANGE_RE text in
  let consumed (x : mtch) := existsb (fun r => (m_start r <=? m_start x)%nat && (m_start x <? m_end r)%nat) ranges in
  let singles := List.filter (fun x => negb (consumed x)) (re_finditer SINGLE_RE text) in
  clean (⋃ (range_regs <$> ranges) ∪ list_to_set ((fun x => norm (group x 0)) <$> singles)).

Record Documented : Type := mkDoc {
  d_clobbers : gset string;
  d_preserved : gset string;
  d_flags : bool;
  d_references : gset string;
  d_outputs : gset string;
  d_parsed : bool;
  d_raw : string
}.

Definition set_d_clobbers (d : Documented) (c : gset string) : Documented :=
  mkDoc c (d_preserved d) (d_flags d) (d_references d) (d_outputs d) (d_parsed d) (d_raw d).
Definition set_d_parsed (d : Documented) (p : bool) : Documented :=
  mkDoc (d_clobbers d) (d_preserved d) (d_flags d) (d_references d) (d_outputs d) p (d_raw d).
Definition set_d_outputs (d : Documented) (o : gset string) : Documented :=
  mkDoc (d_clobbers d) (d_preserved d) (d_flags d) (d_references d) o (d_parsed d) (d_raw d).

(** What one parenthesised remark says is preserved. *)
Definition paren_preserved (text : string) (x : mtch) : gset string :=
  let inner := group x 1 in
  if negb (existsb (fun word => contains word (lower inner)) PRESERVE_WORDS) then ∅ else
  let inner_regs := parse_regs inner in
  if negb (bool_decide (inner_regs = ∅)) then inner_regs
  else parse_regs (List.last (re_split ITEM_RE (take_str (m_start x) text)) "").

(** [parse_header]; its [remainder] variable is written and never read. *)
Definition parse_header (raw : string) : Documented :=
  let text := strip raw in
  if (text =s? "") || in_table ["(none)"; "none"] (lower text) then mkDoc ∅ ∅ false ∅ ∅ true raw else
  let flags := contains "nzcv" (lower text) in
  let references := list_to_set ((fun x => group x 1) <$> re_finditer REFERENCE_RE text) in
  let preserved := for_each (re_finditer PAREN_RE text) ∅ (fun p x => p ∪ paren_preserved text x) in
  let clobbers := parse_regs text ∖ preserved in
  let prose := bool_decide (clobbers = ∅) && bool_decide (preserved = ∅) in
  let parsed := if prose && negb (bool_decide (references = ∅)) then false else true in
  let parsed := if prose && bool_decide (references = ∅) then searches NONE_RE text else parsed in
  mkDoc clobbers preserved flags references ∅ parsed raw.

(** ** References *)

(** [docs], a dictionary in insertion order; its values are updated in place. *)
Definition docs_map : Type := list (string * Documented).

(** One reference of the document under [key]. *)
Definition resolve_one (key : string) (s : docs_map * bool) (target : string) : docs_map * bool :=
  let '(docs, changed) := s in
  match dict_get docs key, dict_get docs target with
  | Some doc, Some other =>
      if negb (d_parsed other) then s else
      let new := d_clobbers doc ∪ (d_clobbers other ∖ d_preserved doc) in
      let '(doc, changed) := if decide (new = d_clobbers doc) then (doc, changed) else (set_d_clobbers doc new, true) in
      let '(doc, changed) := if d_parsed doc then (doc, changed) else (set_d_parsed doc true, true) in
      (dict_set docs key doc, changed)
  | _, _ => s
  end.

Definition resolve_doc (s : docs_map * bool) (key : string) : docs_map * bool :=
  match dict_get s.1 key with
  | Some doc => for_each (elements (d_references doc)) s (resolve_one key)
  | None => s
  end.

Definition finish_doc (d : Documented) : Documented :=
  if negb (bool_decide (d_references d = ∅)) && bool_decide (d_clobbers d = ∅) then set_d_parsed d false else d.

Definition resolve_references (docs : docs_map) : docs_map :=
  let docs := iter_changed (length docs + 2) (fun docs => for_each (fst <$> docs) (docs, false) resolve_doc) docs in
  (fun '(n, d) => (n, finish_doc d)) <$> docs.

(** ** Comparison *)

Record Result : Type := mkResult {
  r_name : string;
  r_file : string;
  verdict : string;
  documented : gset string;
  computed : gset string;
  missing : gset string;
  spurious : gset string;
  basis : string;
  flags_documented : bool;
  flags_computed : bool;
  r_raw : string
}.

Definition missing_of (doc : Documented) (computed : gset string) : gset string :=
  computed ∖ d_clobbers doc ∖ d_outputs doc.
Definition spurious_of (doc : Documented) (computed : gset string) : gset string := d_clobbers doc ∖ computed.
Definition score (doc : Documented) (computed : gset string) : nat :=
  size (missing_of doc computed) + size (spurious_of doc computed).

Definition direct_of (info : FunctionInfo) : gset string := clean (clobbers_direct info ∖ preserved info).
Definition transitive_of (info : FunctionInfo) : gset string := clean (clobbers info).

(** The body of the comparison loop. *)
Definition judge (region : Region) (doc : Documented) (info : FunctionInfo) : Result :=
  let flags := (0 <? flag_writers info)%nat in
  let result v c m s b := mkResult (name region) (path region) v (d_clobbers doc) c m s b (d_flags doc) flags (d_raw doc) in
  if negb (d_parsed doc) then result "UNPARSED" (transitive_of info) ∅ ∅ "direct" else
  let '(b, c) := if (score doc (direct_of info) <=? score doc (transitive_of info))%nat
                 then ("direct", direct_of info) else ("transitive", transitive_of info) in
  let '(ms, sp) := (missing_of doc c, spurious_of doc c) in
  let v := match bool_decide (ms = ∅), bool_decide (sp = ∅) with
           | true, true => "AGREE"
           | false, false => "BOTH"
           | false, true => "UNDERSTATES"
           | true, false => "OVERSTATES"
           end in
  result v c ms sp b.

Definition header_docs (rs : list Region) : docs_map :=
  for_each rs [] (fun docs region =>
    match documented_clobbers region with
    | None => docs
    | Some raw => dict_setdefault docs (name region)
                    (set_d_outputs (parse_header raw) (parse_regs (default "" (doc_field (doc region) "Output/Returns"))))
    end).

Definition validate (files : tree) (linux : bool) : list Result :=
  let '(rows, ix) := collect files linux in
  let infos := for_each rows [] (fun d r => dict_set d (fi_name r) r) in
  let docs := resolve_references (header_docs (regions ix)) in
  region ← regions ix;
  match dict_get docs (name region), dict_get infos (name region) with
  | Some doc, Some info => [judge region doc info]
  | _, _ => []
  end.

(** ** Lemmas: references *)

(** [r] is documented for [key]: its own header names it, or its header refers
    to a symbol it is documented for and does not preserve it. *)
Inductive documented_by (docs : docs_map) (r : string) : string -> Prop :=
| dc_own key d : dict_get docs key = Some d -> r ∈ d_clobbers d -> documented_by docs r key
| dc_ref key d target : dict_get docs key = Some d -> target ∈ d_references d -> r ∉ d_preserved d ->
    documented_by docs r target -> documented_by docs r key.

(** What every step keeps of the header it started from. *)
Record grown (docs : docs_map) (key : string) (d d' : Documented) : Prop := {
  gr_get : dict_get docs key = Some d;
  gr_refs : d_references d' = d_references d;
  gr_pres : d_preserved d' = d_preserved d;
  gr_outs : d_outputs d' = d_outputs d;
  gr_more : d_clobbers d ⊆ d_clobbers d';
  gr_sound : forall r, r ∈ d_clobbers d' -> documented_by docs r key
}.

Definition all_grown (docs now : docs_map) : Prop :=
  forall key d', dict_get now key = Some d' -> exists d, grown docs key d d'.

Lemma all_grown_refl docs : all_grown docs docs.
Proof. intros key d H. exists d. split; [done..|]. intros r Hr. by eapply dc_own. Qed.

Lemma resolve_one_grown docs key target s : all_grown docs s.1 ->
  (forall d, dict_get docs key = Some d -> target ∈ d_references d) ->
  all_grown docs (resolve_one key s target).1.
Proof.
  destruct s as [now c]. cbn [fst]. intros Hg Ht. unfold resolve_one.
  destruct (dict_get now key) as [doc|] eqn:Ek; [|done]. destruct (dict_get now target) as [other|] eqn:Eo; [|done].
  destruct (d_parsed other); [|done]. cbn [negb].
  set (new := d_clobbers doc ∪ (d_clobbers other ∖ d_preserved doc)).
  destruct (Hg key doc Ek) as [d Hd]. destruct (Hg target other Eo) as [o Ho].
  assert (forall p, all_grown docs (dict_set now key (set_d_parsed (set_d_clobbers doc new) p))) as Hset.
  { intros p key' d' H. rewrite dict_get_set in H. case_decide as Hk; [|by apply Hg]. subst key'.
    injection H as <-. exists d. destruct Hd as [G1 G2 G3 G4 G5 G6]. split; [done|done|done|done| |].
    - cbn. unfold new. set_solver.
    - cbn. unfold new. intros r [Hr|[Hr Hp]%elem_of_difference]%elem_of_union; [by apply G6|].
      apply dc_ref with d target; [done|by apply Ht|by rewrite <- G3|]. by apply (gr_sound _ _ _ _ Ho). }
  assert (forall d c, d_parsed d = true -> set_d_clobbers d c = set_d_parsed (set_d_clobbers d c) true) as Hpar
    by (intros [? ? ? ? ? ? ?] c0; cbn; by intros ->).
  assert (forall d : Documented, d = set_d_clobbers d (d_clobbers d)) as Hid by (by intros []).
  destruct (decide (new = d_clobbers doc)) as [E|_].
  - destruct (d_parsed doc) eqn:Ep; cbn [fst].
    + rewrite (Hid doc), (Hpar _ _ Ep), <- E. apply Hset.
    + rewrite (Hid doc), <- E. apply Hset.
  - change (d_parsed (set_d_clobbers doc new)) with (d_parsed doc). destruct (d_parsed doc) eqn:Ep; cbn [fst].
    + rewrite (Hpar _ _ Ep). apply Hset.
    + apply Hset.
Qed.

Lemma resolve_doc_grown docs s key : all_grown docs s.1 -> all_grown docs (resolve_doc s key).1.
Proof.
  intros Hg. unfold resolve_doc. destruct (dict_get s.1 key) as [doc|] eqn:Ek; [|done].
  destruct (Hg key doc Ek) as [d0 Hd0].
  apply (for_each_inv (fun s => all_grown docs s.1)); [done|]. intros s' target Hin Hs.
  apply resolve_one_grown; [done|]. intros d Hd. rewrite elem_of_elements, (gr_refs _ _ _ _ Hd0) in Hin.
  rewrite (gr_get _ _ _ _ Hd0) in Hd. by injection Hd as <-.
Qed.

Lemma dict_get_map (f : Documented -> Documented) (docs : docs_map) key :
  dict_get ((fun '(n, d) => (n, f d)) <$> docs) key = f <$> dict_get docs key.
Proof. induction docs as [|[n d] docs IH]; [done|]. cbn. case_decide; [done|apply IH]. Qed.

(** ** The properties *)

(** expanding references only ever adds documented registers: after
    [resolve_references] every header still has its own set, references,
    preserved set and outputs; each register it gained is named by the header
    of a symbol it refers to, directly or through a chain of references, none
    of which preserves it; and a header with references and no register left is not parsed. *)
Theorem resolve_references_sound docs key d' : dict_get (resolve_references docs) key = Some d' ->
  exists d, grown docs key d d' /\
    (d_parsed d' = true -> d_references d = ∅ \/ d_clobbers d' <> ∅).
Proof.
  unfold resolve_references. rewrite dict_get_map, fmap_Some.
  set (now := iter_changed _ _ _). intros (d1 & Hget & ->).
  assert (all_grown docs now) as Hg.
  { apply (iter_changed_inv (all_grown docs)); [apply all_grown_refl|]. intros s Hs.
    apply (for_each_inv (fun s => all_grown docs s.1)); [done|]. intros s' k _. apply resolve_doc_grown. }
  destruct (Hg key d1 Hget) as [d Hd]. exists d. destruct Hd as [G1 G2 G3 G4 G5 G6]. unfold finish_doc.
  rewrite G2. destruct (decide (d_references d = ∅)) as [Er|Er].
  - rewrite bool_decide_true by done. cbn [negb andb]. split; [by split|]. by left.
  - rewrite (bool_decide_false (d_references d = ∅)) by done. cbn [negb andb].
    destruct (decide (d_clobbers d1 = ∅)) as [Ec|Ec].
    + rewrite bool_decide_true by done. split; [by split|]. done.
    + rewrite bool_decide_false by done. split; [by split|]. by right.
Qed.

Definition header_demo : docs_map :=
  [("f", parse_header "x19, plus everything `g` clobbers"); ("g", parse_header "x0-x3, NZCV")].

Lemma resolve_references_sound_witness :
  exists d d', dict_get (resolve_references header_demo) "f" = Some d' /\ grown header_demo "f" d d' /\
    "x3" ∈ d_clobbers d'.
Proof.
  destruct (dict_get (resolve_references header_demo) "f") as [d'|] eqn:E; [|vm_compute in E; discriminate E].
  destruct (resolve_references_sound header_demo "f" d' E) as (d & Hg & _). exists d, d'.
  split; [reflexivity|]. split; [exact Hg|].
  assert ("x3" ∈ default ∅ (d_clobbers <$> dict_get (resolve_references header_demo) "f")) as H
    by (apply (bool_decide_unpack _); vm_compute; exact I).
  rewrite E in H. exact H.
Defined.

Lemma size_zero (X : gset string) : size X = 0%nat <-> X = ∅.
Proof. rewrite size_empty_iff. apply leibniz_equiv_iff. Qed.

Lemma score_zero doc c : score doc c = 0%nat <-> missing_of doc c = ∅ /\ spurious_of doc c = ∅.
Proof. unfold score. rewrite <- !size_zero. lia. Qed.

Lemma missing_empty doc c : missing_of doc c = ∅ <-> c ⊆ d_clobbers doc ∪ d_outputs doc.
Proof.
  unfold missing_of. rewrite <- leibniz_equiv_iff, elem_of_equiv_empty. setoid_rewrite elem_of_difference.
  setoid_rewrite elem_of_difference. split.
  - intros H r Hr. specialize (H r). rewrite elem_of_union.
    destruct (decide (r ∈ d_clobbers doc)); [by left|]. destruct (decide (r ∈ d_outputs doc)); [by right|]. tauto.
  - intros H r [[Hr ?] ?]. apply H in Hr. rewrite elem_of_union in Hr. tauto.
Qed.

Lemma spurious_empty doc c : spurious_of doc c = ∅ <-> d_clobbers doc ⊆ c.
Proof.
  unfold spurious_of. rewrite <- leibniz_equiv_iff, elem_of_equiv_empty. setoid_rewrite elem_of_difference. split.
  - intros H r Hr. specialize (H r). destruct (decide (r ∈ c)); [done|]. tauto.
  - intros H r [Hr ?]. by apply H in Hr.
Qed.

(** [a] agrees with the header: everything it has is documented or an output,
    and everything documented is in it. *)
Definition agrees (doc : Documented) (a : gset string) : Prop :=
  a ⊆ d_clobbers doc ∪ d_outputs doc /\ d_clobbers doc ⊆ a.

(** the verdict on a header.  An unparsed header is reported as such; for
    a parsed one the set compared is the direct or the transitive one, no
    farther from the header than the other; the verdict is AGREE exactly when
    one of the two agrees with the header, and otherwise says exactly which
    of the two differences is not empty. *)
Theorem judge_verdict region doc info :
  let r := judge region doc info in
  if d_parsed doc then
    (computed r = direct_of info \/ computed r = transitive_of info) /\
    (score doc (computed r) <= score doc (direct_of info))%nat /\
    (score doc (computed r) <= score doc (transitive_of info))%nat /\
    missing r = missing_of doc (computed r) /\ spurious r = spurious_of doc (computed r) /\
    (verdict r = "AGREE" <-> agrees doc (direct_of info) \/ agrees doc (transitive_of info)) /\
    (verdict r = "UNDERSTATES" <-> missing r <> ∅ /\ spurious r = ∅) /\
    (verdict r = "OVERSTATES" <-> missing r = ∅ /\ spurious r <> ∅) /\
    (verdict r = "BOTH" <-> missing r <> ∅ /\ spurious r <> ∅) /\
    verdict r <> "UNPARSED"
  else verdict r = "UNPARSED" /\ missing r = ∅ /\ spurious r = ∅.
Proof.
  unfold judge. destruct (d_parsed doc); cbn [negb]; [|done].
  set (D := direct_of info). set (T := transitive_of info).
  assert (forall c, agrees doc c <-> score doc c = 0%nat) as Ha
    by (intros c; unfold agrees; rewrite score_zero, missing_empty, spurious_empty; done).
  rewrite !Ha.
  assert (exists c b, (if (score doc D <=? score doc T)%nat then ("direct", D) else ("transitive", T)) = (b, c) /\
    (c = D \/ c = T) /\ (score doc c <= score doc D)%nat /\ (score doc c <= score doc T)%nat) as (c & b & -> & Hc & H1 & H2).
  { destruct (Nat.leb_spec (score doc D) (score doc T)); eexists _, _; (split; [done|]); split; auto; lia. }
  cbn zeta iota beta. cbn [computed missing spurious verdict].
  split; [exact Hc|]. split; [exact H1|]. split; [exact H2|]. split; [done|]. split; [done|].
  assert (score doc D = 0%nat \/ score doc T = 0%nat <-> missing_of doc c = ∅ /\ spurious_of doc c = ∅) as ->
    by (rewrite <- score_zero; destruct Hc as [->| ->]; lia).
  destruct (decide (missing_of doc c = ∅)), (decide (spurious_of doc c = ∅));
    rewrite ?(bool_decide_true (missing_of doc c = ∅)), ?(bool_decide_false (missing_of doc c = ∅)),
      ?(bool_decide_true (spurious_of doc c = ∅)), ?(bool_decide_false (spurious_of doc c = ∅)) by done;
    repeat split; try done; tauto.
Qed.
