(* ===== verification/Mutations.v ===== *)
(** * Rule-based mutations (scripts/mutations)

    The parsing helpers of the package, the no-op remover, the list scheduler
    with its dependency edges and its heap, and the loop unrollers. *)

From Stdlib Require Import Ascii.
From S2P Require Import Prelude PyInt PyStr Regex AsmParse Abi.

(** ** Helpers (mutations/__init__.py) *)

Definition LABEL_LINE_RE : re := Eval vm_compute in rx "^[A-Za-z0-9_.$]+:\s*$".
Definition LABEL_START_RE : re := Eval vm_compute in rx "^[A-Za-z0-9_.$]+:".
Definition NUMERIC_LABEL_RE : re := Eval vm_compute in rx "^\s*(\d+):".

Fixpoint split_at_label (before lines : list string) : option (list string * string * list string) :=
  match lines with
  | [] => None
  | line :: lines => if matches LABEL_LINE_RE (strip line) then Some (before, line, lines)
                     else split_at_label (before ++ [line]) lines
  end.
(** [(preamble, label_line, body_lines)] *)
Definition split_function (function_text : string) : option (list string * string * list string) :=
  split_at_label [] (splitlines function_text).

Definition strip_insn (s : string) : string :=
  strip (for_each ["//"; "/*"] s (fun line marker => PyStr.before marker line)).

(** [while start in used: start += 1] *)
Fixpoint next_free (fuel : nat) (used : list Z) (start : Z) : Z :=
  match fuel with
  | O => start
  | S fuel => if bool_decide (start ∈ used) then next_free fuel used (start + 1) else start
  end.

Definition fresh_numeric_labels (body_lines : list string) (count : nat) : list Z :=
  let used := omap (fun line => (fun x => digits (group x 1)) <$> re_match NUMERIC_LABEL_RE line) body_lines in
  let start := next_free (S (length used)) used 1 in
  let '(out, _, _) := for_each (seq 0 count) ([], used, start) (fun '(out, used, start) _ =>
    let start := next_free (S (length used)) used start in
    (out ++ [start], start :: used, start)) in
  out.

(** The text of a rewritten function. *)
Definition rebuilt (preamble : list string) (label : string) (body : list string) : string :=
  join nl (preamble ++ [label] ++ body) +:+ nl.

(** ** [remove_redundant_mov] (mutations/scheduling.py) *)

Definition MOV_NOOP_RE : re := Eval vm_compute in rx "^(?:mov)\s+(x\d+|w\d+),\s*\1$".
Definition ALU_NOOP_RE : re := Eval vm_compute in rx "^(?:add|sub)\s+(x\d+|w\d+),\s*\1,\s*#0$".

Definition is_noop (line : string) : bool :=
  let stripped := strip_insn line in matches MOV_NOOP_RE stripped || matches ALU_NOOP_RE stripped.

Definition remove_redundant_mov (function_text : string) : option string :=
  '(preamble, label, body) ← split_function function_text;
  let '(out, removed) := for_each body ([], false) (fun '(out, removed) line =>
    if is_noop line then (out, true) else (out ++ [line], removed)) in
  if negb removed then None else Some (rebuilt preamble label out).

(** ** The list scheduler *)

Definition FLAG_MNEMONICS : list string := ["cmp"; "cmn"; "tst"; "fcmp"; "fcmpe"; "fccmp"; "fccmpe"].
Definition BASE_RE : re := Eval vm_compute in rx "\[(x\d+|w\d+|sp)\]".

Definition is_branch (mn : string) : bool := in_table ["b"; "br"; "ret"] mn || in_table COND_BRANCH mn.

Definition priority_class (mn : string) : nat :=
  if in_table LOAD_MNEMONICS mn then 0 else
  if is_branch mn then 5 else
  if in_table STORE_MNEMONICS mn then 2 else
  if in_table FLAG_MNEMONICS mn || (endswith "s" mn && negb (in_table STORE_MNEMONICS mn)) then 4 else 1.

Fixpoint memory_base_in (ops : list string) : option string :=
  match ops with
  | [] => None
  | o :: ops => match re_search BASE_RE o with Some x => Some (group x 1) | None => memory_base_in ops end
  end.
Definition memory_base (i : Instruction) : option string := memory_base_in (operands i).

Definition insn_defs (i : Instruction) : gset string :=
  list_to_set (normalise_reg <$> (e_loads (effect i) ++ e_dirtied (effect i))).
Definition insn_uses (i : Instruction) : gset string :=
  list_to_set (normalise_reg <$> regs i) ∖ insn_defs i.
Definition is_store (i : Instruction) : bool := in_table STORE_MNEMONICS (mnemonic i).
Definition is_load (i : Instruction) : bool := in_table LOAD_MNEMONICS (mnemonic i).

(** The edge test between an instruction [a] and a later one [b]. *)
Definition depends (a b : Instruction) : bool :=
  negb (bool_decide (insn_uses b ∩ insn_defs a = ∅)) || negb (bool_decide (insn_defs a ∩ insn_defs b = ∅))
  || match memory_base a, memory_base b with
     | Some x, Some y => (x =s? y) && (is_store a || is_store b) && (is_load a || is_load b)
     | _, _ => false
     end.

Section schedule.
Context (insns : list Instruction).

Definition edge (i j : nat) : bool := (i <? j)%nat && depends (insns !!! i) (insns !!! j).

Definition initial_preds : list (gset nat) :=
  (fun j => list_to_set (List.filter (fun i => edge i j) (seq 0 (length insns)))) <$> seq 0 (length insns).
(** [sorted(succs[i])] *)
Definition sorted_succs (i : nat) : list nat := List.filter (edge i) (seq 0 (length insns)).

(** The heap holds [(priority class, i, i)]. *)
Definition item (i : nat) : nat * nat := (priority_class (mnemonic (insns !!! i)), i).
Definition item_lt (x y : nat * nat) : bool := (x.1 <? y.1)%nat || ((x.1 =? y.1)%nat && (x.2 <? y.2)%nat).

(** [heapq.heappop]: the least item and the others. *)
Fixpoint heappop (heap : list (nat * nat)) : option (nat * nat * list (nat * nat)) :=
  match heap with
  | [] => None
  | x :: heap => match heappop heap with
                 | None => Some (x, [])
                 | Some (y, rest) => if item_lt y x then Some (y, x :: rest) else Some (x, y :: rest)
                 end
  end.

(** [for j in sorted(succs[i])] *)
Definition release (i : nat) (s : list (nat * nat) * list (gset nat)) : list (nat * nat) * list (gset nat) :=
  for_each (sorted_succs i) s (fun '(heap, preds) j =>
    let preds := <[j := preds !!! j ∖ {[i]}]> preds in
    (if decide (preds !!! j = ∅) then heap ++ [item j] else heap, preds)).

Fixpoint schedule_loop (fuel : nat) (heap : list (nat * nat)) (preds : list (gset nat)) (result : list nat) : list nat :=
  match fuel with
  | O => result
  | S fuel =>
      match heappop heap with
      | None => result
      | Some (x, heap) =>
          let '(heap, preds) := release x.2 (heap, preds) in
          schedule_loop fuel heap preds (result ++ [x.2])
      end
  end.

Definition schedule_order : list nat :=
  let n := length insns in
  let heap := item <$> List.filter (fun i => bool_decide (initial_preds !!! i = ∅)) (seq 0 n) in
  schedule_loop (S n) heap initial_preds [].

(** [_schedule_block] *)
Definition schedule_block : option (list string) :=
  let n := length insns in
  if (n <? 2)%nat then None else
  if bool_decide (schedule_order = seq 0 n) then None
  else Some ((fun i => text (insns !!! i)) <$> schedule_order).
End schedule.

(** A line that ends the current block: blank, a directive, a preprocessor
    line or a label. *)
Definition block_boundary (stripped : string) : bool :=
  (stripped =s? "") || startswith "." stripped || startswith "#" stripped || matches LABEL_START_RE stripped.

Definition block_insn (idx : nat) (s : string) : Instruction :=
  let stripped := strip_insn s in
  match split_ws1 stripped with
  | [] => mkInsn (idx + 1) s "" []
  | [mn] => mkInsn (idx + 1) s mn []
  | mn :: rest :: _ => mkInsn (idx + 1) s mn (strip <$> split_char "," rest)
  end.

(** [flush]: the body with the block rescheduled, if that changes it. *)
Definition flush (block : list (nat * Instruction)) (body_out : list string) : option (list string) :=
  if (2 <=? length block)%nat then
    (fun new_lines => for_each (zip (fst <$> block) new_lines) body_out (fun out '(idx, t) => <[idx := t]> out))
    <$> schedule_block (snd <$> block)
  else None.

(** The scan of [reschedule]; it stops at the first flush that changed the
    body, and a block the body ends with is never flushed. *)
Fixpoint resched (idx : nat) (lines : list string) (block : list (nat * Instruction)) (body : list string)
  : option (list string) :=
  match lines with
  | [] => None
  | s :: lines =>
      if block_boundary (strip_insn s) then
        match flush block body with Some out => Some out | None => resched (S idx) lines [] body end
      else
        let insn := block_insn idx s in
        let block := block ++ [(idx, insn)] in
        if is_branch (mnemonic insn) then
          match flush block body with Some out => Some out | None => resched (S idx) lines [] body end
        else resched (S idx) lines block body
  end.

Definition reschedule (function_text : string) : option string :=
  '(preamble, label, body) ← split_function function_text;
  rebuilt preamble label <$> resched 0 body [] body.

(** ** The loop unrollers (mutations/unroll.py, mutations/neon.py) *)

Definition LDP_RE : re := Eval vm_compute in rx "^ldp\s+(\w+),\s*(\w+),\s*\[(\w+)\],\s*#16$".
Definition STP_RE : re := Eval vm_compute in rx "^stp\s+(\w+),\s*(\w+),\s*\[(\w+)\],\s*#16$".
Definition SUB16_RE : re := Eval vm_compute in rx "^sub\s+(\w+),\s*(\w+),\s*#16$".
Definition CMP16_RE : re := Eval vm_compute in rx "^cmp\s+(\w+),\s*#16$".
Definition BHS_RE : re := Eval vm_compute in rx "^b\.hs\s+(\w+)$".
Definition CBZ_RE : re := Eval vm_compute in rx "^cbz\s+(\w+),\s*([\w.]+)$".
Definition BLO_RE : re := Eval vm_compute in rx "^b\.lo\s+([\w.]+)$".
Definition XW_RE : re := Eval vm_compute in rx "\b(x\d+|w\d+)\b".

Record Loop : Type := mkLoop {
  entry_body_idx : nat;
  loop_body_idx : nat;
  tail_body_idx : nat;
  l_ra : string;
  l_rb : string;
  l_src : string;
  l_dst : string;
  l_rlen : string;
  l_back : string;
  loop_lines : list string
}.

(** The instruction lines of a body: [(idx, line, stripped)]. *)
Definition loop_items (body : list string) : list (nat * string * string) :=
  '(idx, s) ← enumerate 0 body;
  if block_boundary (strip_insn s) then [] else [(idx, s, strip_insn s)].

(** The idiom at the head of [items], with the three items before it. *)
Definition loop_at (entry items : list (nat * string * string)) : option Loop :=
  match items with
  | (i0, s0, t0) :: (_, s1, t1) :: (_, s2, t2) :: (_, s3, t3) :: (i4, s4, t4) :: _ =>
      ldp ← re_match LDP_RE t0; stp ← re_match STP_RE t1; sub ← re_match SUB16_RE t2;
      cmp ← re_match CMP16_RE t3; bhs ← re_match BHS_RE t4;
      if negb (group ldp 1 =s? group stp 1) || negb (group ldp 2 =s? group stp 2) then None else
      if negb (group sub 1 =s? group sub 2) || negb (group sub 1 =s? group cmp 1) then None else
      if (group ldp 3 =s? group sub 1) || (group stp 3 =s? group sub 1) then None else
      match entry with
      | [(e0, _, u0); (_, _, u1); (_, _, u2)] =>
          cbz ← re_match CBZ_RE u0; cmp16 ← re_match CMP16_RE u1; _ ← re_match BLO_RE u2;
          if negb (group cbz 1 =s? group sub 1) || negb (group cmp16 1 =s? group sub 1) then None else
          Some (mkLoop e0 i0 (i4 + 1) (group ldp 1) (group ldp 2) (group ldp 3) (group stp 3) (group sub 1)
                  (group bhs 1) [s0; s1; s2; s3; s4])
      | _ => None
      end
  | _ => None
  end.

(** [for i in range(len(items) - 4)]; [entry] holds the last three items
    passed, and is shorter when there are fewer. *)
Fixpoint find_loop (entry items : list (nat * string * string)) : option Loop :=
  match items with
  | [] => None
  | x :: rest =>
      match loop_at entry items with
      | Some l => Some l
      | None => find_loop (match entry with [_; b; c] => [b; c; x] | _ => entry ++ [x] end) rest
      end
  end.

Definition detect_loop (function_text : string) : option (list string * string * list string * Loop) :=
  '(preamble, label, body) ← split_function function_text;
  (fun l => (preamble, label, body, l)) <$> find_loop [] (loop_items body).

Definition FRESH_PAIRS : list (string * string) :=
  [("x5", "x6"); ("x7", "x8"); ("x9", "x10"); ("x11", "x12"); ("x13", "x14"); ("x15", "x16"); ("x17", "x18")].

Definition fresh_regs (body_lines : list string) : option (string * string) :=
  let used := s ← body_lines; (fun x => group x 1) <$> re_finditer XW_RE (strip_insn s) in
  head (List.filter (fun '(ra, rb) => negb (in_table used ra) && negb (in_table used rb)) FRESH_PAIRS).

(** A line that is the loop's back branch. *)
Definition BACK_PREFIX_RE : re := Eval vm_compute in rx "^(\s*)b\.hs\s+".
Definition BLANKS_RE : re := Eval vm_compute in rx "\s*$".
Definition back_re (back : string) : re := RSeq BACK_PREFIX_RE (RSeq (re_literal back) BLANKS_RE).

(** [_expand] *)
Definition expand (function_text main_loop : string) : option string :=
  '(preamble, label, body, loop) ← detect_loop function_text;
  match fresh_numeric_labels body 2 with
  | [nloop; oldloop] =>
      Some (rebuilt preamble label (
        take (entry_body_idx loop) body
        ++ take (loop_body_idx loop - entry_body_idx loop) (drop (entry_body_idx loop) body)
        ++ ["    cmp " +:+ l_rlen loop +:+ ", #32";
            "    b.lo " +:+ str_z oldloop +:+ "f";
            str_z nloop +:+ ":";
            main_loop;
            "    sub " +:+ l_rlen loop +:+ ", " +:+ l_rlen loop +:+ ", #32";
            "    cmp " +:+ l_rlen loop +:+ ", #32";
            "    b.hs " +:+ str_z nloop +:+ "b";
            str_z oldloop +:+ ":"]
        ++ ((fun s => if matches (back_re (l_back loop)) s then "    b.hs " +:+ str_z oldloop +:+ "b" else s)
            <$> loop_lines loop)
        ++ drop (tail_body_idx loop) body))
  | _ => None
  end.

Definition pair_line (op ra rb base : string) : string :=
  "    " +:+ op +:+ " " +:+ ra +:+ ", " +:+ rb +:+ ", [" +:+ base +:+ "], #16".

Definition unroll_2x (function_text : string) : option string :=
  '(_, _, body, loop) ← detect_loop function_text;
  '(rc, rd) ← fresh_regs body;
  expand function_text (join nl
    [pair_line "ldp" (l_ra loop) (l_rb loop) (l_src loop); pair_line "ldp" rc rd (l_src loop);
     pair_line "stp" (l_ra loop) (l_rb loop) (l_dst loop); pair_line "stp" rc rd (l_dst loop)]).

Definition neon_32b (function_text : string) : option string :=
  '(_, _, _, loop) ← detect_loop function_text;
  expand function_text (join nl
    ["    ld1 {v0.16b, v1.16b}, [" +:+ l_src loop +:+ "], #32";
     "    st1 {v0.16b, v1.16b}, [" +:+ l_dst loop +:+ "], #32"]).

Definition MUTATIONS : list (string * string * (string -> option string)) :=
  [("scheduling:remove-redundant-mov", "drop `mov X, X` no-ops", remove_redundant_mov);
   ("scheduling:reschedule", "dependency-preserving instruction reorder", reschedule);
   ("unroll:2x", "unroll the 16-byte ldp/stp loop by 2", unroll_2x);
   ("neon:ld1-st1-32b", "32-byte NEON (ld1/st1) main loop", neon_32b)].

Definition list_mutations : list string := (fun x => x.1.1) <$> MUTATIONS.

Record MutationCandidate : Type := mkMutation {
  mc_name : string;
  mc_source : string;
  mc_explanation : string
}.

(** [apply_mutations]; the modelled mutations raise no exception, so its
    handler has nothing to do. *)
Definition apply_mutations (function_text : string) : list MutationCandidate :=
  '(n, explanation, fn) ← MUTATIONS;
  match fn function_text with
  | Some r => if strip r =s? strip function_text then [] else [mkMutation n r explanation]
  | None => []
  end.

(** ** scripts/_mutation_test.py *)

(** [re.compile("(?ms)...")]: the two flags, and the rest of the pattern. *)
Definition MEMCPY_RE : re := Eval vm_compute in
  the (re_compile (mkflags false true true) "^[ \t]*\.global[ \t]+memcpy.*?(?=^[ \t]*\.global[ \t]+|\Z)") eq_refl.

(** The script, on the text of the file: the texts it prints, one per [print]. *)
Definition mutation_test (source : string) : result (list string) :=
  match re_search MEMCPY_RE source with
  | None => Raise AttributeError
  | Some found =>
      let candidates := apply_mutations (group found 0) in
      Ret (("mutations produced: " +:+ str_nat (length candidates)) ::
           (candidates ≫= fun cand => [nl +:+ "===== " +:+ mc_name cand +:+ " ====="; mc_source cand]))%string
  end.

(** ** Lemmas: the heap *)

Lemma heappop_None h : heappop h = None <-> h = [].
Proof.
  destruct h as [|x h]; [done|]. cbn [heappop]. destruct (heappop h) as [[y r]|]; [|done].
  by destruct (item_lt y x).
Qed.

Lemma heappop_perm h x r : heappop h = Some (x, r) -> h ≡ₚ x :: r.
Proof.
  revert x r. induction h as [|y h IH]; intros x r; [done|]. cbn [heappop].
  destruct (heappop h) as [[z r']|] eqn:E.
  - specialize (IH z r' eq_refl). destruct (item_lt z y); intros [= <- <-]; rewrite IH; [|done].
    apply Permutation_swap.
  - intros [= <- <-]. apply heappop_None in E as ->. done.
Qed.

Lemma item_lt_false x y : item_lt x y = false <-> (y.1 < x.1 \/ y.1 = x.1 /\ y.2 <= x.2)%nat.
Proof.
  unfold item_lt. rewrite orb_false_iff, andb_false_iff, !Nat.ltb_ge, Nat.eqb_neq. lia.
Qed.

Lemma item_lt_trans x y z : item_lt x y = false -> item_lt y z = false -> item_lt x z = false.
Proof. rewrite !item_lt_false. lia. Qed.

Lemma heappop_min h x r : heappop h = Some (x, r) -> forall y, y ∈ r -> item_lt y x = false.
Proof.
  revert x r. induction h as [|y h IH]; intros x r; [done|]. cbn [heappop].
  destruct (heappop h) as [[z r']|] eqn:E.
  - specialize (IH z r' eq_refl). destruct (item_lt z y) eqn:Ez; intros [= <- <-]; intros w [->|Hw]%elem_of_cons.
    + apply item_lt_false. apply not_false_iff_true in Ez. rewrite item_lt_false in Ez. lia.
    + by apply IH.
    + done.
    + eapply item_lt_trans; [by apply IH|done].
  - intros [= <- <-] w Hw. by apply elem_of_nil in Hw.
Qed.

(** ** Lemmas: the schedule *)

Section schedule_lemmas.
Context (insns : list Instruction).
Let n := length insns.

(** Before [j] can go, every earlier instruction it depends on has gone. *)
Definition preds_now (result : list nat) (preds : list (gset nat)) : Prop :=
  length preds = n /\ forall j, (j < n)%nat -> forall i, i ∈ preds !!! j <-> edge insns i j = true /\ i ∉ result.

(** [j] is ready: it has not gone and all it depends on has. *)
Definition ready (result : list nat) (j : nat) : Prop :=
  (j < n)%nat /\ j ∉ result /\ forall i, edge insns i j = true -> i ∈ result.

Record scheduled (heap : list (nat * nat)) (preds : list (gset nat)) (result : list nat) : Prop := {
  sc_items : Forall (fun x => x = item insns x.2) heap;
  sc_nodup : NoDup (snd <$> heap);
  sc_ready : forall j, j ∈ snd <$> heap <-> ready result j;
  sc_preds : preds_now result preds;
  sc_range : Forall (fun i => (i < n)%nat) result;
  sc_done : NoDup result;
  sc_order : forall pre j post, result = pre ++ j :: post -> forall i, edge insns i j = true -> i ∈ pre
}.

Lemma edge_lt i j : edge insns i j = true -> (i < j)%nat.
Proof. unfold edge. intros [?%Nat.ltb_lt _]%andb_true_iff. done. Qed.

Lemma sorted_succs_spec i j : j ∈ sorted_succs insns i <-> (j < n)%nat /\ edge insns i j = true.
Proof. unfold sorted_succs. rewrite list_elem_of_In, filter_In, in_seq. intuition lia. Qed.

Lemma sorted_succs_nodup i : NoDup (sorted_succs insns i).
Proof. unfold sorted_succs. apply NoDup_ListNoDup, List.NoDup_filter, NoDup_ListNoDup, NoDup_seq. Qed.

(** The inner loop removes [x] from the waiting sets of its successors, and
    releases those that have none left. *)
Lemma release_loop x heap preds : length preds = n ->
  let '(heap', preds') := release insns x (heap, preds) in
  length preds' = n /\
  (forall j, (j < n)%nat -> preds' !!! j = if decide (j ∈ sorted_succs insns x) then preds !!! j ∖ {[x]} else preds !!! j) /\
  exists new, heap' = heap ++ (item insns <$> new) /\ NoDup new /\
    forall j, j ∈ new <-> j ∈ sorted_succs insns x /\ preds !!! j ∖ {[x]} = ∅.
Proof.
  intros Hl. unfold release.
  pose proof (for_each_ind (fun pre (s : list (nat * nat) * list (gset nat)) =>
    length s.2 = n /\
    (forall j, (j < n)%nat -> s.2 !!! j = if decide (j ∈ pre) then preds !!! j ∖ {[x]} else preds !!! j) /\
    exists new, s.1 = heap ++ (item insns <$> new) /\ NoDup new /\
      forall j, j ∈ new <-> j ∈ pre /\ preds !!! j ∖ {[x]} = ∅)
    (fun '(heap, preds) j =>
      let preds := <[j := preds !!! j ∖ {[x]}]> preds in
      (if decide (preds !!! j = ∅) then heap ++ [item insns j] else heap, preds))
    (sorted_succs insns x) (heap, preds)) as Hind.
  destruct (for_each _ _ _) as [h' p']. apply Hind; clear Hind.
  - split; [done|]. split; [intros j Hj; rewrite decide_False; [done|by intros ?%elem_of_nil]|].
    exists []. cbn. rewrite app_nil_r. split; [done|]. split; [constructor|].
    intros j. split; [by intros ?%elem_of_nil|by intros [?%elem_of_nil _]].
  - intros pre j post [h p] Hs (Hl1 & Hp1 & new & Eh & Hnd & Hnew). cbn [fst snd] in *. subst h.
    assert (j ∈ sorted_succs insns x) as Hj by (rewrite Hs; set_solver).
    apply sorted_succs_spec in Hj as [Hj _].
    assert (j ∉ pre) as Hjp.
    { pose proof (sorted_succs_nodup x) as Hnds. rewrite Hs in Hnds. apply list.NoDup_app in Hnds as (_ & Hd & _).
      intros Hin. apply (Hd j Hin). by left. }
    rewrite list_lookup_total_insert_eq by lia. rewrite Hp1, decide_False by done.
    split; [by rewrite length_insert|]. split.
    + intros k Hk. destruct (decide (j = k)) as [<-|Hne].
      * rewrite list_lookup_total_insert_eq by lia. rewrite decide_True by set_solver. done.
      * rewrite list_lookup_total_insert_ne by done. rewrite Hp1 by done.
        destruct (decide (k ∈ pre)); [rewrite decide_True by set_solver; done|].
        rewrite decide_False; [done|]. rewrite elem_of_app, list_elem_of_singleton. intros [?| ->]; done.
    + destruct (decide (preds !!! j ∖ {[x]} = ∅)) as [He|He].
      * exists (new ++ [j]). rewrite fmap_app, app_assoc. split; [done|]. split.
        { apply list.NoDup_app. split; [done|]. split; [|apply NoDup_singleton].
          intros k Hk ->%list_elem_of_singleton. by apply Hnew in Hk as [? _]. }
        intros k. rewrite !elem_of_app, !list_elem_of_singleton, Hnew. naive_solver.
      * exists new. split; [done|]. split; [done|]. intros k. rewrite elem_of_app, list_elem_of_singleton, Hnew.
        naive_solver.
Qed.

(** The inner loop releases exactly the successors that become ready. *)
Lemma release_spec x heap preds result : x ∉ result -> preds_now result preds ->
  let '(heap', preds') := release insns x (heap, preds) in
  preds_now (result ++ [x]) preds' /\
  exists new, heap' = heap ++ (item insns <$> new) /\ NoDup new /\
    forall j, j ∈ new <-> (j < n)%nat /\ edge insns x j = true /\
      forall i, edge insns i j = true -> i ∈ result ++ [x].
Proof.
  intros Hx [Hl Hp]. pose proof (release_loop x heap preds Hl) as H. destruct (release _ _ _) as [h' p'].
  destruct H as (Hl' & Hp' & new & -> & Hnd & Hnew).
  assert (forall j, (j < n)%nat -> forall i, i ∈ p' !!! j <-> edge insns i j = true /\ i ∉ result ++ [x]) as Hpn.
  { intros j Hj i. rewrite Hp' by done. rewrite elem_of_app, list_elem_of_singleton.
    destruct (decide (j ∈ sorted_succs insns x)) as [Hjs|Hjs].
    - rewrite elem_of_difference, elem_of_singleton, Hp by done. naive_solver.
    - rewrite Hp by done. split; [|naive_solver]. intros [He Hi]. split; [done|]. intros [?| ->]; [done|].
      apply Hjs. by apply sorted_succs_spec. }
  split; [by split|]. exists new. split; [done|]. split; [done|]. intros j. rewrite Hnew, sorted_succs_spec. split.
  - intros [[Hj He] Hemp]. split; [done|]. split; [done|]. intros i Hi.
    destruct (decide (i ∈ result ++ [x])) as [|Hn]; [done|]. exfalso.
    assert (i ∈ preds !!! j ∖ {[x]}) as Hin; [|rewrite Hemp in Hin; by apply elem_of_empty in Hin].
    rewrite elem_of_app, list_elem_of_singleton in Hn.
    apply elem_of_difference. split; [apply Hp; [done|]; tauto|]. rewrite elem_of_singleton. tauto.
  - intros (Hj & He & Hall). split; [done|]. apply leibniz_equiv, elem_of_equiv_empty. intros i Hi.
    apply elem_of_difference in Hi as [Hi Hix]. apply Hp in Hi as [Hi Hir]; [|done].
    apply Hall in Hi. rewrite elem_of_app, list_elem_of_singleton in Hi. rewrite elem_of_singleton in Hix. tauto.
Qed.

Lemma snoc_split {X} (l : list X) x pre y post : l ++ [x] = pre ++ y :: post ->
  (pre = l /\ y = x) \/ exists post', l = pre ++ y :: post'.
Proof.
  intros E. destruct (exists_last (l := y :: post)) as (post' & z & Ez); [done|].
  rewrite Ez, app_assoc in E. apply app_inj_tail in E as [-> ->].
  destruct post' as [|y' post']; cbn in Ez; [injection Ez as -> ->; left; by rewrite app_nil_r|].
  injection Ez as -> _. right. by exists post'.
Qed.

Lemma scheduled_step heap preds result x rest : scheduled heap preds result -> heappop heap = Some (x, rest) ->
  let '(heap', preds') := release insns x.2 (rest, preds) in scheduled heap' preds' (result ++ [x.2]).
Proof.
  intros [Hit Hnd Hre Hpr Hra Hdo Hor] Hpop. pose proof (heappop_perm _ _ _ Hpop) as Hperm.
  rewrite Hperm in Hit, Hnd. apply Forall_cons_iff in Hit as [Hx Hit]. cbn [fmap list_fmap] in Hnd.
  apply list.NoDup_cons in Hnd as [Hxr Hnd]. set (j := x.2) in *.
  assert (forall k, ready result k <-> k = j \/ k ∈ snd <$> rest) as Hre'.
  { intros k. rewrite <- Hre, Hperm. cbn [fmap list_fmap]. by rewrite elem_of_cons. }
  destruct (proj2 (Hre' j)) as (Hjn & Hjr & Hjp); [by left|].
  pose proof (release_spec j rest preds result Hjr Hpr) as Hrel.
  destruct (release insns j (rest, preds)) as [heap' preds']. destruct Hrel as (Hpr' & new & -> & Hnn & Hnew).
  assert (snd <$> (item insns <$> new) = new) as Esnd.
  { rewrite <- list_fmap_compose. rewrite <- (list_fmap_id new) at 2. by apply list_fmap_ext. }
  assert (forall k, edge insns j k = true -> k ∈ result -> False) as Hjk.
  { intros k He (pre & post & ->)%list_elem_of_split. apply Hjr. rewrite elem_of_app. left. by eapply Hor. }
  split.
  - apply Forall_app. split; [done|]. by apply Forall_fmap, List.Forall_forall.
  - rewrite fmap_app, Esnd. apply list.NoDup_app. split; [done|]. split; [|done]. intros k Hk Hkn.
    apply Hnew in Hkn as (_ & He & _). destruct (proj2 (Hre' k) (or_intror Hk)) as (_ & _ & Hp). auto.
  - intros k. rewrite fmap_app, Esnd, elem_of_app, Hnew. unfold ready. setoid_rewrite elem_of_app.
    setoid_rewrite list_elem_of_singleton. split.
    + intros [Hk|(Hk & He & Hp)].
      * destruct (proj2 (Hre' k) (or_intror Hk)) as (Hkn & Hkr & Hp). split; [done|].
        split; [intros [?| ->]; done|]. intros i Hi. left. by apply Hp.
      * split; [done|]. split; [|done]. intros [?| ->]; [by eapply Hjk|]. apply edge_lt in He. lia.
    + intros (Hkn & Hkr & Hp). destruct (edge insns j k) eqn:He; [by right|]. left.
      destruct (proj1 (Hre' k)) as [->|?]; [|tauto|done]. split; [done|]. split; [tauto|].
      intros i Hi. destruct (Hp i Hi) as [?| ->]; [done|]. by rewrite He in Hi.
  - done.
  - apply Forall_app. split; [done|]. by constructor.
  - apply list.NoDup_app. split; [done|]. split; [|apply NoDup_singleton]. intros k Hk ->%list_elem_of_singleton. done.
  - intros pre k post E i Hi. apply snoc_split in E as [[-> ->]|[post' ->]]; [by apply Hjp|by eapply Hor].
Qed.

(** With an empty heap everything has gone. *)
Lemma scheduled_all preds result : scheduled [] preds result -> result ≡ₚ seq 0 n.
Proof.
  intros [_ _ Hre _ Hra Hdo _].
  assert (forall j, (j < n)%nat -> j ∈ result) as Hall.
  { intros j. induction j as [j IH] using lt_wf_ind. intros Hj. destruct (decide (j ∈ result)) as [|Hn]; [done|].
    exfalso. apply (not_elem_of_nil j), (Hre j). split; [done|]. split; [done|]. intros i Hi.
    apply edge_lt in Hi. apply IH; [done|]. unfold n in *. lia. }
  apply NoDup_Permutation; [done|apply NoDup_seq|]. intros j. rewrite elem_of_seq. split; [|intros ?; apply Hall; lia].
  intros Hj. rewrite List.Forall_forall in Hra. split; [lia|]. apply Hra. by apply list_elem_of_In.
Qed.

Lemma schedule_loop_spec fuel heap preds result : scheduled heap preds result ->
  (fuel + length result = S n)%nat ->
  exists preds', scheduled [] preds' (schedule_loop insns fuel heap preds result).
Proof.
  revert heap preds result. induction fuel as [|fuel IH]; intros heap preds result Hs Hf; cbn [schedule_loop].
  { exfalso. destruct Hs as [_ _ _ _ Hra Hdo _].
    assert (length result <= length (seq 0 n))%nat as Hle; [|rewrite length_seq in Hle; lia].
    apply submseteq_length, NoDup_submseteq; [done|]. intros j Hj. apply elem_of_seq.
    rewrite List.Forall_forall in Hra. specialize (Hra j). rewrite <- list_elem_of_In in Hra. specialize (Hra Hj). lia. }
  destruct (heappop heap) as [[x rest]|] eqn:E.
  - pose proof (scheduled_step heap preds result x rest Hs E) as Hstep.
    destruct (release insns x.2 (rest, preds)) as [heap' preds']. apply (IH _ _ _ Hstep).
    rewrite length_app. cbn [length]. lia.
  - apply heappop_None in E as ->. by exists preds.
Qed.

Lemma initial_preds_lookup j : (j < n)%nat -> initial_preds insns !!! j =
  list_to_set (List.filter (fun i => edge insns i j) (seq 0 n)).
Proof.
  intros Hj. apply list_lookup_total_correct. unfold initial_preds. rewrite list_lookup_fmap.
  by rewrite lookup_seq_lt.
Qed.

Lemma initial_preds_elem i j : (j < n)%nat -> i ∈ initial_preds insns !!! j <-> edge insns i j = true.
Proof.
  intros Hj. rewrite initial_preds_lookup by done.
  rewrite elem_of_list_to_set, list_elem_of_In, filter_In, in_seq.
  split; [tauto|]. intros He. pose proof (edge_lt _ _ He). split; [lia|done].
Qed.

Lemma schedule_order_spec : exists preds, scheduled [] preds (schedule_order insns).
Proof.
  unfold schedule_order. fold n.
  set (ready0 := List.filter (fun i => bool_decide (initial_preds insns !!! i = ∅)) (seq 0 n)).
  assert (snd <$> (item insns <$> ready0) = ready0) as Esnd.
  { rewrite <- list_fmap_compose. rewrite <- (list_fmap_id ready0) at 2. by apply list_fmap_ext. }
  apply schedule_loop_spec; [|cbn; lia]. split.
  - by apply Forall_fmap, List.Forall_forall.
  - rewrite Esnd. apply NoDup_ListNoDup, List.NoDup_filter, NoDup_ListNoDup, NoDup_seq.
  - intros j. rewrite Esnd. unfold ready0. rewrite list_elem_of_In, filter_In, in_seq, bool_decide_eq_true. split.
    + intros [Hj He]. split; [lia|]. split; [by intros ?%elem_of_nil|]. intros i Hi. exfalso.
      apply (initial_preds_elem i j) in Hi; [|lia]. rewrite He in Hi. by apply elem_of_empty in Hi.
    + intros (Hj & _ & Hp). split; [lia|]. apply leibniz_equiv, elem_of_equiv_empty. intros i Hi.
      apply initial_preds_elem, Hp in Hi; [|done]. by apply elem_of_nil in Hi.
  - split; [unfold initial_preds; by rewrite length_fmap, length_seq|]. intros j Hj i.
    rewrite initial_preds_elem by done. split; [intros ?; split; [done|by intros ?%elem_of_nil]|tauto].
  - constructor.
  - constructor.
  - intros pre j post E. by destruct pre.
Qed.
End schedule_lemmas.

(** ** Lemmas: the scan *)

(** The instructions of a block whose first line has index [start]. *)
Definition block_insns (start : nat) (blk : list string) : list Instruction :=
  (fun '(i, s) => block_insn i s) <$> enumerate start blk.
Definition block_of (start : nat) (blk : list string) : list (nat * Instruction) :=
  (fun '(i, s) => (i, block_insn i s)) <$> enumerate start blk.

(** A schedule of a block: a permutation that keeps every recorded dependency. *)
Record respects (insns : list Instruction) (order : list nat) : Prop := {
  rs_perm : order ≡ₚ seq 0 (length insns);
  rs_order : forall pre j post, order = pre ++ j :: post -> forall i, edge insns i j = true -> i ∈ pre
}.

Lemma block_insn_text i s : text (block_insn i s) = s.
Proof. unfold block_insn. by destruct (split_ws1 (strip_insn s)) as [|? [|? ?]]. Qed.

Lemma block_insns_length start blk : length (block_insns start blk) = length blk.
Proof. unfold block_insns. by rewrite length_fmap, enumerate_length. Qed.

Lemma block_of_snd start blk : snd <$> block_of start blk = block_insns start blk.
Proof. unfold block_of, block_insns. rewrite <- list_fmap_compose. apply list_fmap_ext. by intros _ [i s] _. Qed.

Lemma block_of_snoc start blk s :
  block_of start blk ++ [((start + length blk)%nat, block_insn (start + length blk) s)] = block_of start (blk ++ [s]).
Proof. unfold block_of. rewrite enumerate_app, fmap_app. done. Qed.

Lemma block_text start blk i : (i < length blk)%nat -> text (block_insns start blk !!! i) = blk !!! i.
Proof.
  intros Hi. unfold block_insns.
  destruct (blk !! i) as [s|] eqn:E; [|apply lookup_ge_None in E; lia].
  rewrite (list_lookup_total_correct _ _ _ E). erewrite list_lookup_total_correct; [|].
  2: { rewrite list_lookup_fmap, enumerate_lookup, E. reflexivity. }
  apply block_insn_text.
Qed.

(** Writing the new lines over the block. *)
Lemma overwrite new blk a rest : length new = length blk ->
  for_each (zip (fst <$> block_of (length a) blk) new) (a ++ blk ++ rest) (fun out '(idx, t) => <[idx := t]> out)
  = a ++ new ++ rest.
Proof.
  revert new a. induction blk as [|s blk IH]; intros [|t new] a Hl; try done.
  change (for_each ((length a, t) :: zip (fst <$> block_of (S (length a)) blk) new) (a ++ s :: blk ++ rest)
    (fun out '(idx, t) => <[idx := t]> out) = a ++ t :: new ++ rest).
  cbn [for_each foldl]. rewrite insert_app_r_alt, Nat.sub_diag by lia. cbn [list_insert insert].
  assert (forall l : list string, a ++ t :: l = (a ++ [t]) ++ l) as Ha by (intros l; by rewrite <- app_assoc).
  rewrite (Ha (blk ++ rest)), (Ha (new ++ rest)). rewrite <- (IH new (a ++ [t])) by (cbn in Hl; lia).
  rewrite length_app. cbn [length]. by rewrite Nat.add_1_r.
Qed.

Lemma flush_spec a blk rest out : flush (block_of (length a) blk) (a ++ blk ++ rest) = Some out ->
  exists order, respects (block_insns (length a) blk) order /\ order <> seq 0 (length blk) /\
    out = a ++ ((fun i => blk !!! i) <$> order) ++ rest.
Proof.
  unfold flush. destruct (2 <=? _)%nat; [|done]. rewrite block_of_snd. unfold schedule_block.
  destruct (_ <? 2)%nat; [done|]. set (insns := block_insns (length a) blk).
  destruct (schedule_order_spec insns) as (preds & Hs). pose proof (scheduled_all _ _ _ Hs) as Hperm.
  destruct (decide (schedule_order insns = seq 0 (length insns))) as [|Hne]; [by rewrite bool_decide_true|].
  rewrite bool_decide_false by done. intros [= <-]. exists (schedule_order insns).
  assert (length insns = length blk) as Hlen by apply block_insns_length.
  split; [split; [done|apply (sc_order _ _ _ _ Hs)]|]. split; [by rewrite <- Hlen|].
  assert ((fun i => text (insns !!! i)) <$> schedule_order insns = (fun i => blk !!! i) <$> schedule_order insns) as ->.
  { apply list_fmap_ext. intros k i Hi. apply block_text.
    assert (i ∈ seq 0 (length insns)) as Hin by (rewrite <- Hperm; by eapply list_elem_of_lookup_2).
    apply elem_of_seq in Hin. lia. }
  apply overwrite. by rewrite length_fmap, Hperm, length_seq.
Qed.

(** Where [resched] changes the body. *)
Definition one_block_moved (body out : list string) : Prop :=
  exists a blk z order, body = a ++ blk ++ z /\ out = a ++ ((fun i => blk !!! i) <$> order) ++ z /\
    Forall (fun s => block_boundary (strip_insn s) = false) blk /\
    respects (block_insns (length a) blk) order /\ order <> seq 0 (length blk).

Lemma resched_spec lines a blk out : Forall (fun s => block_boundary (strip_insn s) = false) blk ->
  resched (length a + length blk) lines (block_of (length a) blk) (a ++ blk ++ lines) = Some out ->
  one_block_moved (a ++ blk ++ lines) out.
Proof.
  revert a blk. induction lines as [|s lines IH]; intros a blk Hb; cbn [resched]; [done|].
  assert (forall blk, flush (block_of (length a) blk) (a ++ blk ++ lines) = Some out ->
    Forall (fun s => block_boundary (strip_insn s) = false) blk -> one_block_moved (a ++ blk ++ lines) out) as Hfl.
  { intros b H Hbb. apply flush_spec in H as (order & Hr & Hne & ->). by exists a, b, lines, order. }
  assert (forall blk, resched (length (a ++ blk)) lines [] (a ++ blk ++ lines) = Some out ->
    one_block_moved (a ++ blk ++ lines) out) as Hnext.
  { intros b H. pose proof (IH (a ++ b) [] (Forall_nil_2 _)) as Hi. rewrite <- app_assoc, Nat.add_0_r in Hi. by apply Hi. }
  destruct (block_boundary (strip_insn s)) eqn:Es.
  - destruct (flush _ _) as [o|] eqn:Ef.
    + intros [= ->]. apply flush_spec in Ef as (order & Hr & Hne & ->). by exists a, blk, (s :: lines), order.
    + intros H. specialize (Hnext (blk ++ [s])). rewrite <- app_assoc in Hnext. apply Hnext.
      rewrite !length_app. cbn [length app]. by replace (length a + (length blk + 1))%nat with (S (length a + length blk)) by lia.
  - assert (Forall (fun s => block_boundary (strip_insn s) = false) (blk ++ [s])) as Hb'
      by (apply Forall_app; split; [done|by constructor]).
    assert (a ++ blk ++ s :: lines = a ++ (blk ++ [s]) ++ lines) as Ebody by (by rewrite <- app_assoc).
    rewrite block_of_snoc, Ebody. destruct (is_branch _).
    + destruct (flush _ _) as [o|] eqn:Ef; [intros [= ->]; by apply Hfl|]. intros H. apply Hnext.
      rewrite !length_app. cbn [length]. by replace (length a + (length blk + 1))%nat with (S (length a + length blk)) by lia.
    + intros H. apply IH; [done|]. rewrite length_app. cbn [length].
      by replace (length a + (length blk + 1))%nat with (S (length a + length blk)) by lia.
Qed.

(** ** The properties *)

(** C22: the scheduler changes one block and keeps its dependencies: when
    [reschedule] returns a candidate, the function differs from the original
    only in one run of instruction lines, which is permuted; the permutation
    is not the identity, and every instruction still comes after all the
    earlier ones the scheduler records it depends on. *)
Theorem reschedule_sound t t' : reschedule t = Some t' ->
  exists preamble label body out, split_function t = Some (preamble, label, body) /\
    t' = rebuilt preamble label out /\ one_block_moved body out /\ out ≡ₚ body.
Proof.
  unfold reschedule. destruct (split_function t) as [[[preamble label] body]|]; [|done]. cbn [mbind option_bind].
  destruct (resched 0 body [] body) as [out|] eqn:E; [|done]. intros [= <-].
  exists preamble, label, body, out. split; [done|]. split; [done|].
  assert (one_block_moved body out) as Hm by (by apply (resched_spec body [] [] out)). split; [exact Hm|].
  destruct Hm as (a & blk & z & order & -> & -> & _ & [Hperm _] & _). rewrite block_insns_length in Hperm.
  rewrite Hperm. do 2 f_equiv.
  assert ((fun i => blk !!! i) <$> seq 0 (length blk) = blk) as ->; [|done].
  apply list_eq. intros i. rewrite list_lookup_fmap. destruct (decide (i < length blk)%nat) as [Hi|Hi].
  - rewrite lookup_seq_lt by done. cbn. symmetry. by apply list_lookup_lookup_total_lt.
  - rewrite (proj2 (lookup_ge_None _ _)), (proj2 (lookup_ge_None blk i)) by (rewrite ?length_seq; lia). done.
Qed.

Definition sched_demo : string := join nl ["f:"; "add x1, x0, #1"; "ldr x3, [x1]"; "ldr x4, [x2]"; "ret"].

Lemma reschedule_sound_witness : exists t', reschedule sched_demo = Some t' /\
  t' = join nl ["f:"; "ldr x4, [x2]"; "add x1, x0, #1"; "ldr x3, [x1]"; "ret"; ""] /\
  exists preamble label body out, split_function sched_demo = Some (preamble, label, body) /\
    t' = rebuilt preamble label out /\ one_block_moved body out /\ out ≡ₚ body.
Proof.
  destruct (reschedule sched_demo) as [t'|] eqn:E; [|vm_compute in E; discriminate E].
  exists t'. split; [reflexivity|]. split; [|exact (reschedule_sound sched_demo t' E)].
  vm_compute in E. injection E as <-. vm_compute. reflexivity.
Defined.

(** ** What the recorded dependencies leave out *)

(** A write moves before an earlier read of the same register. *)
Lemma write_after_read_moved : reschedule (join nl ["f:"; "add x1, x0, #1"; "ldr x0, [x2]"; "ret"])
  = Some (join nl ["f:"; "ldr x0, [x2]"; "add x1, x0, #1"; "ret"; ""]).
Proof. vm_compute. reflexivity. Qed.

(** A flag reader moves before the comparison it reads. *)
Lemma flag_reader_moved : reschedule (join nl ["f:"; "cmp x1, x2"; "cset x0, eq"; "ret"])
  = Some (join nl ["f:"; "cset x0, eq"; "cmp x1, x2"; "ret"; ""]).
Proof. vm_compute. reflexivity. Qed.

(** A load moves before an earlier call. *)
Lemma load_moved_over_call : reschedule (join nl ["f:"; "bl g"; "ldr x1, [x2]"; "ret"])
  = Some (join nl ["f:"; "ldr x1, [x2]"; "bl g"; "ret"; ""]).
Proof. vm_compute. reflexivity. Qed.

(** Two stores to the same address swap. *)
Lemma stores_swapped : reschedule (join nl ["f:"; "adds x1, x3, x4"; "str x1, [x0]"; "str x2, [x0]"; "ret"])
  = Some (join nl ["f:"; "str x2, [x0]"; "adds x1, x3, x4"; "str x1, [x0]"; "ret"; ""]).
Proof. vm_compute. reflexivity. Qed.

(** [mov w0, w0], which clears the upper half of [x0], is dropped as a no-op. *)
Lemma zero_extension_dropped : remove_redundant_mov (join nl ["f:"; "mov w0, w0"; "ret"])
  = Some (join nl ["f:"; "ret"; ""]).
Proof. vm_compute. reflexivity. Qed.

(** ** The unrolled copy loop

    A meter for copy routines: the program counter, the 64-bit length
    register, the operands of the last comparison and the bytes stored so far,
    stepped over parsed instructions.  Enough of the instruction set to run
    [memcpy]. *)
Record meter : Type := mkMeter { mt_pc : nat; mt_len : Z; mt_cmp : Z; mt_bytes : Z }.

Definition immediate (o : string) : Z := digits (drop_str 1 o).

Definition meter_step (insns : list Instruction) (labels : labels_map) (s : meter) : option meter :=
  let '(mkMeter pc len c bytes) := s in
  insn ← insns !! pc;
  let target := list.last (operands insn) ≫= (fun o => resolve_target o labels pc) in
  let goto (taken : bool) := if taken then (fun t => mkMeter t len c bytes) <$> target
                             else Some (mkMeter (S pc) len c bytes) in
  let imm := immediate (default "" (list.last (operands insn))) in
  let mn := mnemonic insn in
  if mn =s? "sub" then Some (mkMeter (S pc) ((len - imm) mod 2 ^ 64) c bytes) else
  if mn =s? "cmp" then Some (mkMeter (S pc) len imm bytes) else
  if mn =s? "b.lo" then goto (len <? c) else
  if mn =s? "b.hs" then goto (c <=? len) else
  if mn =s? "cbz" then goto (len =? 0) else
  if mn =s? "b" then goto true else
  if mn =s? "stp" then Some (mkMeter (S pc) len c (bytes + 16)) else
  if mn =s? "strb" then Some (mkMeter (S pc) len c (bytes + 1)) else
  if in_table ["ldp"; "ldrb"] mn then Some (mkMeter (S pc) len c bytes) else None.

(** The bytes stored in at most [fuel] steps, and whether the routine stopped. *)
Fixpoint metered (fuel : nat) (insns : list Instruction) (labels : labels_map) (s : meter) : Z * bool :=
  match fuel with
  | O => (mt_bytes s, false)
  | S fuel => match meter_step insns labels s with
              | Some s => metered fuel insns labels s
              | None => (mt_bytes s, true)
              end
  end.
Definition bytes_copied (fuel : nat) (source : string) (len : Z) : Z * bool :=
  let '(insns, labels) := parse_instructions source in metered fuel insns labels (mkMeter 0 len 0 0).

Definition memcpy : string := join nl [".global memcpy"; "memcpy:"; "    cbz x2, 1f"; "    cmp x2, #16";
  "    b.lo 3f"; "2:"; "    ldp x3, x4, [x1], #16"; "    stp x3, x4, [x0], #16"; "    sub x2, x2, #16";
  "    cmp x2, #16"; "    b.hs 2b"; "3:"; "    cbz x2, 1f"; "    ldrb w3, [x1], #1"; "    strb w3, [x0], #1";
  "    sub x2, x2, #1"; "    b 3b"; "1:"; "    ret"].

(** The unrolled [memcpy] falls from the 32-byte loop into the 16-byte one
    without comparing the length again: for a length of 32 it has stored more
    than that after 60 steps and is still running, while the original stops at
    32 bytes. *)
Lemma unrolled_overruns :
  bytes_copied 60 memcpy 32 = (32, true) /\
  exists t, unroll_2x memcpy = Some t /\ bytes_copied 60 t 48 = (48, true) /\
    32 < (bytes_copied 60 t 32).1 /\ (bytes_copied 60 t 32).2 = false.
Proof.
  split; [vm_compute; reflexivity|].
  destruct (unroll_2x memcpy) as [t|] eqn:E; [|vm_compute in E; discriminate E].
  exists t. split; [reflexivity|]. vm_compute in E. injection E as <-. vm_compute. done.
Qed.
