(* ===== verification/PyFloat.v ===== *)
(** * Python floats

    IEEE binary64 numbers on the Standard Library's [SpecFloat] operations
    (53 bits, exponents up to 1024, round to nearest even), the conversions
    from integers and decimal strings, exact comparison, and the fixed-point
    formats [{x:.3f}] and [{x:+.3f}]. *)

From Stdlib Require Import Ascii SpecFloat.
From S2P Require Import Prelude PyStr.

Abbreviation float := spec_float.
Definition fprec : Z := 53.
Definition femax : Z := 1024.

Definition fzero : float := S754_zero false.
Definition fadd : float -> float -> float := SFadd fprec femax.
Definition fsub : float -> float -> float := SFsub fprec femax.
Definition fmul : float -> float -> float := SFmul fprec femax.

Definition in_strings (l : list string) (x : string) : bool := existsb (String.eqb x) l.

(** The nearest double of an integer; [float(n)] raises when it overflows. *)
Definition round_int (n : Z) : float := binary_normalize fprec femax n 0 false.
Definition float_of_int (n : Z) : result float :=
  match round_int n with S754_infinity _ => Raise OverflowError | x => Ret x end.

(** [n * 10^e] rounded to a double *)
Definition of_scaled (neg : bool) (n : N) (e : Z) : float :=
  let x := match n with
           | N0 => fzero
           | Npos p => if 0 <=? e then round_int (Z.pos p * 10 ^ e)
                       else SFdiv fprec femax (S754_finite false p 0) (S754_finite false (Z.to_pos (10 ^ (- e))) 0)
           end in
  if neg then SFopp x else x.

(** The double written [n / 10^k]: a literal of the source. *)
Definition of_decimal (n : N) (k : nat) : float := of_scaled false n (- Z.of_nat k).

(** *** [float(s)] *)

Fixpoint span_digits (s : string) : string * string :=
  match s with
  | String c s' => if is_digit c then let '(d, r) := span_digits s' in (String c d, r) else ("", s)
  | "" => ("", "")
  end.

(** An exponent part, when there is one. *)
Definition exponent (s : string) : option (Z * string) :=
  match s with
  | String c r =>
      if Ascii.eqb c "e" || Ascii.eqb c "E" then
        let '(neg, r) := match r with
          | String d r' => if Ascii.eqb d "-" then (true, r') else if Ascii.eqb d "+" then (false, r') else (false, r)
          | "" => (false, "")
          end in
        match span_digits r with
        | ("", _) => None
        | (ds, r) => Some ((if (neg : bool) then - digits ds else digits ds), r)
        end
      else None
  | "" => None
  end.

(** Underscores are allowed between two digits. *)
Fixpoint underscores_ok (prev : bool) (s : string) : bool :=
  match s with
  | "" => true
  | String c s' =>
      if Ascii.eqb c "_" then prev && match s' with String d _ => is_digit d | "" => false end && underscores_ok false s'
      else underscores_ok (is_digit c) s'
  end.
Fixpoint drop_underscores (s : string) : string :=
  match s with
  | "" => ""
  | String c s => if Ascii.eqb c "_" then drop_underscores s else String c (drop_underscores s)
  end.

Definition unsigned_float (neg : bool) (s : string) : option float :=
  let signed_float (x : float) := if neg then SFopp x else x in
  if in_strings ["inf"; "infinity"] (lower s) then Some (signed_float (S754_infinity false)) else
  if lower s =s? "nan" then Some S754_nan else
  let '(i, r) := span_digits s in
  let '(f, r) := match r with
    | String c r' => if Ascii.eqb c "." then span_digits r' else ("", r)
    | "" => ("", "")
    end in
  if i +:+ f =s? "" then None else
  let '(e, r) := match exponent r with Some (e, r) => (e, r) | None => (0, r) end in
  if r =s? "" then Some (of_scaled neg (Z.to_N (digits (i +:+ f))) (e - Z.of_nat (String.length f))) else None.

(** [float(s)]; [None] stands for [ValueError]. *)
Definition py_float (s : string) : option float :=
  let s := strip s in
  if negb (underscores_ok false s) then None else
  match drop_underscores s with
  | "" => None
  | String c r as t => if Ascii.eqb c "-" then unsigned_float true r
                       else if Ascii.eqb c "+" then unsigned_float false r
                       else unsigned_float false t
  end.
Definition float_of_string (s : string) : result float :=
  match py_float s with
  | Some x => Ret x
  | None => Raise (ValueError ("could not convert string to float: " +:+ s))
  end.

(** Comparison of the exact values; [nan] is unordered. *)
Definition signed (s : bool) (m : Z) : Z := if s then - m else m.
Definition fcompare (x y : float) : option comparison :=
  match x, y with
  | S754_finite sx mx ex, S754_finite sy my ey =>
      let e := Z.min ex ey in
      Some (signed sx (Z.pos mx * 2 ^ (ex - e)) ?= signed sy (Z.pos my * 2 ^ (ey - e)))
  | _, _ => SFcompare x y
  end.
Definition fltb (x y : float) : bool := match fcompare x y with Some Lt => true | _ => false end.
Definition fleb (x y : float) : bool := match fcompare x y with Some (Lt | Eq) => true | _ => false end.
Definition feqb (x y : float) : bool := match fcompare x y with Some Eq => true | _ => false end.

(** [x / y] raises on a zero divisor. *)
Definition fdiv (x y : float) : result float :=
  if feqb y fzero then Raise ZeroDivisionError else Ret (SFdiv fprec femax x y).

(** [max(x, y)] keeps its first argument unless the second is greater. *)
Definition fmax (x y : float) : float := if fltb x y then y else x.

Definition is_nan (x : float) : bool := match x with S754_nan => true | _ => false end.
Definition positive_float (x : float) : bool :=
  match x with S754_finite false _ _ | S754_infinity false => true | _ => false end.

(** [round(num / den)], halves to even, for [num >= 0] and [den > 0] *)
Definition div_half_even (num den : Z) : Z :=
  let q := num / den in
  let r := num mod den in
  if (den <? 2 * r) || ((den =? 2 * r) && Z.odd q) then q + 1 else q.

Definition pad_zeros (n : nat) (s : string) : string :=
  Nat.iter (n - String.length s) (String "0") s.

(** The digits of [m * 2^e] with [k] decimals *)
Definition fixed_digits (k : nat) (m e : Z) : string :=
  let p := 10 ^ Z.of_nat k in
  let q := div_half_even (m * p * 2 ^ Z.max e 0) (2 ^ Z.max (- e) 0) in
  str_z (q / p) +:+ (if (k =? 0)%nat then "" else "." +:+ pad_zeros k (str_z (q mod p))).

(** [f"{x:.kf}"] and, with [plus], [f"{x:+.kf}"] *)
Definition fmt_fixed (plus : bool) (k : nat) (x : float) : string :=
  let sign (s : bool) := if s then "-" else if plus then "+" else "" in
  match x with
  | S754_zero s => sign s +:+ fixed_digits k 0 0
  | S754_infinity s => sign s +:+ "inf"
  | S754_nan => (if plus then "+" else "") +:+ "nan"
  | S754_finite s m e => sign s +:+ fixed_digits k (Z.pos m) e
  end.

(** ** Examples *)

Example parse_tenth : float_of_string "0.1" = Ret (S754_finite false 7205759403792794 (-56)).
Proof. vm_compute. reflexivity. Qed.
Example parse_forms : py_float " -1_0.5e-1 " = Some (SFopp (of_decimal 105 2)) /\ py_float "1.2.3" = None
  /\ py_float "1__0" = None /\ py_float "." = None /\ py_float "5." = Some (round_int 5) /\ py_float "-Inf" = Some (S754_infinity true).
Proof. vm_compute. done. Qed.
Example fmt_demo : fmt_fixed true 3 (of_decimal 125 2) = "+1.250".
Proof. vm_compute. reflexivity. Qed.
Example fmt_half_even : fmt_fixed false 2 (of_decimal 125 3) = "0.12".
Proof. vm_compute. reflexivity. Qed.
Example round_2_53 : float_of_int (2 ^ 53 + 1) = float_of_int (2 ^ 53).
Proof. vm_compute. reflexivity. Qed.
Example int_overflow : float_of_int (10 ^ 309) = Raise OverflowError.
Proof. vm_compute. reflexivity. Qed.

(** ** Signs *)

Lemma round_aux_sign s m e l x : binary_round_aux fprec femax s m e l = x -> positive_float x = true -> s = false.
Proof.
  unfold binary_round_aux. destruct (shr_fexp _ _ _ _ _) as [mrs e']. destruct (shr_fexp _ _ _ _ _) as [mrs' e''].
  intros <-. by destruct (shr_m mrs'), s; cbn; try destruct (_ <=? _).
Qed.

Lemma normalize_sign n e z x : binary_normalize fprec femax n e z = x -> positive_float x = true -> 0 < n.
Proof.
  destruct n as [|p|p]; cbn [binary_normalize]; [by intros <-|lia|].
  unfold binary_round. destruct (shl_align _ _ _) as [mz ez]. intros E H. by apply round_aux_sign in E.
Qed.

Lemma iter_xO m d : Z.pos (Pos.iter xO m d) = Z.pos m * 2 ^ Z.pos d.
Proof.
  induction d as [|d IH] using Pos.peano_ind; [cbn; lia|].
  rewrite Pos.iter_succ. rewrite Pos2Z.inj_succ, Z.pow_succ_r by lia. lia.
Qed.

Lemma shl_align_value m e e' : e' <= e -> Z.pos (shl_align m e e').1 = Z.pos m * 2 ^ (e - e').
Proof.
  intros H. unfold shl_align. destruct (e' - e) eqn:E; cbn [fst].
  - replace (e - e') with 0 by lia. lia.
  - lia.
  - rewrite iter_xO. f_equal. f_equal. lia.
Qed.

(** A positive difference: the first operand is the greater one. *)
Lemma fsub_positive x y : positive_float (fsub x y) = true -> fltb y x = true.
Proof.
  unfold fsub, fltb, fcompare, SFsub.
  intros H. destruct x as [sx|sx| |sx mx ex], y as [sy|sy| |sy my ey]; try discriminate H;
    try (by destruct sx, sy); try (by destruct sx); try (by destruct sy).
  set (e := Z.min ex ey) in *. eapply normalize_sign in H; [|reflexivity].
  unfold cond_Zopp in H. rewrite !shl_align_value in H by lia. fold e in H.
  unfold signed. rewrite (Z.min_comm ey ex). fold e.
  destruct (Z.compare_spec (if sy then - (Z.pos my * 2 ^ (ey - e)) else Z.pos my * 2 ^ (ey - e))
              (if sx then - (Z.pos mx * 2 ^ (ex - e)) else Z.pos mx * 2 ^ (ex - e))); [lia|done|lia].
Qed.

Lemma fdiv_positive x y q : fdiv x y = Ret q -> positive_float y = true -> positive_float q = true -> positive_float x = true.
Proof.
  unfold fdiv. destruct (feqb y fzero); [done|]. intros [= <-] Hy. unfold SFdiv.
  destruct y as [?|[]| |[] my ey]; try done; destruct x as [[]|[]| |[] mx ex]; try done.
  destruct (SFdiv_core_binary _ _ _ _ _ _) as [[mz ez] lz]. intros H. by eapply round_aux_sign in H.
Qed.

Lemma fmul_positive x y : positive_float y = true -> positive_float (fmul x y) = true -> positive_float x = true.
Proof.
  unfold fmul, SFmul. destruct y as [?|[]| |[] my ey]; try done; destruct x as [[]|[]| |[] mx ex]; try done.
  intros _ H. by eapply round_aux_sign in H.
Qed.

Lemma fltb_positive x y : fleb fzero x = true -> fltb x y = true -> positive_float y = true.
Proof.
  unfold fleb, fltb, fcompare, fzero. destruct x as [sx|sx| |sx mx ex], y as [sy|sy| |sy my ey]; cbn; try done;
    try (by destruct sx); try (by destruct sy); try (by destruct sx, sy).
  destruct sx; [done|]. destruct sy; [|done]. intros _. unfold signed.
  destruct (Z.compare_spec (Z.pos mx * 2 ^ (ex - Z.min ex ey)) (- (Z.pos my * 2 ^ (ey - Z.min ex ey)))); try done.
  assert (0 <= 2 ^ (ex - Z.min ex ey)) by (apply Z.pow_nonneg; lia).
  assert (0 <= 2 ^ (ey - Z.min ex ey)) by (apply Z.pow_nonneg; lia). nia.
Qed.

Lemma fltb_irrefl x : fltb x x = false.
Proof.
  unfold fltb, fcompare. destruct x as [[]|[]| |s m e]; try done. by rewrite Z.compare_refl.
Qed.

(** ** The order of the floats that are numbers *)

(** The value of a number, scaled by [2^-e], with the infinities outside. *)
Definition fkey (e : Z) (x : float) : Z * Z :=
  match x with
  | S754_zero _ => (0, 0)
  | S754_infinity s => (signed s 1, 0)
  | S754_nan => (0, 0)
  | S754_finite s m ex => (0, signed s (Z.pos m * 2 ^ (ex - e)))
  end.
Definition fexp_of (x : float) : Z := match x with S754_finite _ _ e => e | _ => 0 end.
Definition lex_compare (a b : Z * Z) : comparison :=
  match a.1 ?= b.1 with Eq => a.2 ?= b.2 | c => c end.

Lemma rescale_compare a b k : 0 <= k -> (a * 2 ^ k ?= b * 2 ^ k) = (a ?= b).
Proof. intros Hk. rewrite !(Z.mul_comm _ (2 ^ k)). symmetry. apply Zmult_compare_compat_l, Z.lt_gt, Z.pow_pos_nonneg; lia. Qed.

Lemma signed_mul s a b : signed s (a * b) = signed s a * b.
Proof. destruct s; cbn; lia. Qed.

Lemma fcompare_key e x y :
  is_nan x = false -> is_nan y = false -> e <= fexp_of x -> e <= fexp_of y ->
  fcompare x y = Some (lex_compare (fkey e x) (fkey e y)).
Proof.
  destruct x as [sx|sx| |sx mx ex], y as [sy|sy| |sy my ey]; try done; intros _ _ Hx Hy; cbn in Hx, Hy;
    try (by destruct sx, sy); try (by destruct sx); try (by destruct sy);
    unfold fcompare, lex_compare, fkey, SFcompare; cbn [fst snd]; rewrite ?Z.compare_refl.
  - assert (0 < 2 ^ (ey - e)) by (apply Z.pow_pos_nonneg; lia). destruct sy; cbn [signed];
      f_equal; symmetry; [apply Z.compare_gt_iff|apply Z.compare_lt_iff]; nia.
  - assert (0 < 2 ^ (ex - e)) by (apply Z.pow_pos_nonneg; lia). destruct sx; cbn [signed];
      f_equal; symmetry; [apply Z.compare_lt_iff|apply Z.compare_gt_iff]; nia.
  - f_equal. set (m := Z.min ex ey).
    replace (2 ^ (ex - e)) with (2 ^ (ex - m) * 2 ^ (m - e)) by (rewrite <- Z.pow_add_r by lia; f_equal; lia).
    replace (2 ^ (ey - e)) with (2 ^ (ey - m) * 2 ^ (m - e)) by (rewrite <- Z.pow_add_r by lia; f_equal; lia).
    rewrite !Z.mul_assoc, !(signed_mul _ _ (2 ^ (m - e))). symmetry. apply rescale_compare. lia.
Qed.

Lemma lex_compare_antisym a b : lex_compare b a = CompOpp (lex_compare a b).
Proof.
  unfold lex_compare. rewrite (Z.compare_antisym a.1 b.1), (Z.compare_antisym a.2 b.2).
  by destruct (a.1 ?= b.1), (a.2 ?= b.2).
Qed.

Lemma lex_le_trans a b c : lex_compare a b <> Gt -> lex_compare b c <> Gt -> lex_compare a c <> Gt.
Proof.
  unfold lex_compare. destruct (Z.compare_spec a.1 b.1), (Z.compare_spec b.1 c.1), (Z.compare_spec a.1 c.1); try lia; try done;
    destruct (Z.compare_spec a.2 b.2), (Z.compare_spec b.2 c.2), (Z.compare_spec a.2 c.2); try lia; done.
Qed.

Lemma fleb_key e x y :
  is_nan x = false -> is_nan y = false -> e <= fexp_of x -> e <= fexp_of y ->
  fleb x y = true <-> lex_compare (fkey e x) (fkey e y) <> Gt.
Proof. intros. unfold fleb. rewrite (fcompare_key e) by done. by destruct (lex_compare _ _). Qed.

Lemma fleb_trans x y z :
  is_nan x = false -> is_nan y = false -> is_nan z = false -> fleb x y = true -> fleb y z = true -> fleb x z = true.
Proof.
  intros Hx Hy Hz. set (e := Z.min (fexp_of x) (Z.min (fexp_of y) (fexp_of z))).
  rewrite !(fleb_key e) by (done || lia). apply lex_le_trans.
Qed.

(** Either [x < y] or [y <= x]. *)
Lemma fltb_false x y : is_nan x = false -> is_nan y = false -> fltb x y = false -> fleb y x = true.
Proof.
  intros Hx Hy. set (e := Z.min (fexp_of x) (fexp_of y)). unfold fltb, fleb.
  rewrite !(fcompare_key e) by (done || lia). rewrite (lex_compare_antisym (fkey e x)). by destruct (lex_compare _ _).
Qed.

Lemma fltb_fleb x y : fltb x y = true -> fleb x y = true.
Proof. unfold fltb, fleb. by destruct (fcompare x y) as [[]|]. Qed.

Lemma fltb_trans x y z :
  is_nan x = false -> is_nan y = false -> is_nan z = false -> fltb x y = true -> fltb y z = true -> fltb x z = true.
Proof.
  intros Hx Hy Hz H1 H2. destruct (fltb x z) eqn:E; [done|]. apply fltb_false in E; [|done..].
  assert (fleb z y = true) as H by (eapply (fleb_trans z x y); try done; by apply fltb_fleb).
  revert H H2. set (e := Z.min (fexp_of z) (fexp_of y)). unfold fleb, fltb.
  rewrite !(fcompare_key e) by (done || lia). rewrite (lex_compare_antisym (fkey e y)). by destruct (lex_compare _ _).
Qed.

(** ** Finite doubles as integers *)

Definition finite (x : float) : bool := match x with S754_zero _ | S754_finite _ _ _ => true | _ => false end.

(** The rank of a double among the multiples of [2^e]. *)
Definition rank (e : Z) (x : float) : Z := (fkey e x).2.

Lemma rank_lt e x y : finite x = true -> finite y = true -> e <= fexp_of x -> e <= fexp_of y ->
  fltb x y = true <-> rank e x < rank e y.
Proof.
  intros Hx Hy Hex Hey. unfold fltb. rewrite (fcompare_key e) by (done || (by destruct x) || (by destruct y)).
  unfold lex_compare, rank. assert (forall z, finite z = true -> (fkey e z).1 = 0) as Hz by by intros [].
  rewrite (Hz x Hx), (Hz y Hy). cbn [Z.compare]. rewrite <- Z.compare_lt_iff. by destruct (_ ?= _).
Qed.
Lemma rank_le e x y : finite x = true -> finite y = true -> e <= fexp_of x -> e <= fexp_of y ->
  fleb x y = true <-> rank e x <= rank e y.
Proof.
  intros Hx Hy Hex Hey. rewrite (fleb_key e) by (done || (by destruct x) || (by destruct y)).
  unfold lex_compare, rank. assert (forall z, finite z = true -> (fkey e z).1 = 0) as Hz by by intros [].
  rewrite (Hz x Hx), (Hz y Hy). cbn [Z.compare]. by rewrite <- Z.compare_le_iff.
Qed.

(** ** Sums and differences of finite doubles are numbers *)

Lemma shr_nonneg mrs e n : 0 <= shr_m mrs -> 0 <= shr_m (shr mrs e n).1.
Proof.
  assert (forall m, 0 <= shr_m m -> 0 <= shr_m (shr_1 m)) as H1 by (intros [[|[]|p] r s]; cbn; lia).
  intros H. destruct n as [|p|p]; [exact H| |exact H]. cbn [shr fst]. revert mrs H.
  induction p as [p IH|p IH|]; intros mrs H; cbn [iter_pos].
  - apply IH, IH, H1, H.
  - apply IH, IH, H.
  - apply H1, H.
Qed.
Lemma round_aux_number s m e l : 0 <= m -> is_nan (binary_round_aux fprec femax s m e l) = false.
Proof.
  intros Hm. unfold binary_round_aux, shr_fexp.
  match goal with |- context [shr (shr_record_of_loc m l) e ?k] => pose proof (shr_nonneg (shr_record_of_loc m l) e k) as H1; destruct (shr (shr_record_of_loc m l) e k) as [mrs e'] end.
  assert (0 <= shr_m mrs) as H2 by (apply H1; by destruct l as [|[]]). cbn [fst] in H1.
  set (m' := round_nearest_even _ _). assert (0 <= m') as H3 by (subst m'; destruct (loc_of_shr_record mrs) as [|[]]; cbn; try case_match; lia).
  match goal with |- context [shr (shr_record_of_loc m' loc_Exact) e' ?k] => pose proof (shr_nonneg (shr_record_of_loc m' loc_Exact) e' k) as H4;
    destruct (shr (shr_record_of_loc m' loc_Exact) e' k) as [mrs' e''] end.
  specialize (H4 H3). cbn [fst] in H4. destruct (shr_m mrs'); [done| |lia]. by destruct (_ <=? _).
Qed.
Lemma normalize_number m e z : is_nan (binary_normalize fprec femax m e z) = false.
Proof.
  destruct m as [|p|p]; [done| |]; cbn [binary_normalize]; unfold binary_round; destruct (shl_align _ _ _); by apply round_aux_number.
Qed.
Lemma fsub_number x y : finite x = true -> finite y = true -> is_nan (fsub x y) = false.
Proof.
  unfold fsub, SFsub. destruct x as [sx| | |sx mx ex], y as [sy| | |sy my ey]; try done.
  - by destruct sx, sy.
  - intros _ _. apply normalize_number.
Qed.
Lemma not_below_zero x : is_nan x = false -> fleb x fzero = false -> positive_float x = true.
Proof. by destruct x as [[]|[]| |[] m e]. Qed.
