(* ===== verification/Json.v ===== *)
(** * JSON texts

    [json.loads] of the Python standard library, which the benchmark and model
    modules apply to the text of other programs: the values, the decoder (its
    fuel is the length of the text, since every recursive call is on a
    shorter one), and the balanced-brace scan both modules use to find an
    object in a larger text.  Escaped code points above 127 are stored as
    their UTF-8 bytes. *)

From Stdlib Require Import Ascii SpecFloat.
From S2P Require Import Prelude PyInt PyStr PyFloat.

Inductive json : Type :=
| JNull
| JBool (b : bool)
| JInt (n : Z)
| JFloat (x : float)
| JStr (s : string)
| JList (l : list json)
| JObj (d : list (string * json)).

(** ** Lexical parts *)

Definition is_ws (c : ascii) : bool := mem_char c (String " " (String TAB (String NL (String "013" "")))).
Definition skip_ws : string -> string := lstrip_by is_ws.

Definition hex_val (c : ascii) : option Z :=
  if is_digit c then Some (digit_val c)
  else if in_range 97 102 c then Some (Z.of_N (code c) - 87)
  else if in_range 65 70 c then Some (Z.of_N (code c) - 55)
  else None.

Definition hex4 (s : string) : option (Z * string) :=
  match s with
  | String a (String b (String c (String d r))) =>
      x ← hex_val a; y ← hex_val b; z ← hex_val c; w ← hex_val d;
      Some (((x * 16 + y) * 16 + z) * 16 + w, r)
  | _ => None
  end.

Definition chr8 (n : Z) : ascii := ascii_of_N (Z.to_N n).
Definition utf8 (cp : Z) : string :=
  if cp <? 128 then String (chr8 cp) "" else
  if cp <? 2048 then String (chr8 (192 + cp / 64)) (String (chr8 (128 + cp mod 64)) "") else
  if cp <? 65536 then
    String (chr8 (224 + cp / 4096)) (String (chr8 (128 + cp / 64 mod 64)) (String (chr8 (128 + cp mod 64)) ""))
  else String (chr8 (240 + cp / 262144)) (String (chr8 (128 + cp / 4096 mod 64))
         (String (chr8 (128 + cp / 64 mod 64)) (String (chr8 (128 + cp mod 64)) ""))).

(** One escape, after the backslash: the text it stands for and the rest. *)
Definition simple_escape (c : ascii) : option ascii :=
  if Ascii.eqb c QUOTE || Ascii.eqb c "\" || Ascii.eqb c "/" then Some c else
  if Ascii.eqb c "b" then Some "008"%char else
  if Ascii.eqb c "f" then Some "012"%char else
  if Ascii.eqb c "n" then Some NL else
  if Ascii.eqb c "r" then Some "013"%char else
  if Ascii.eqb c "t" then Some TAB else None.
Definition unicode_escape (s : string) : option (string * string) :=
  '(u, r) ← hex4 s;
  match r with
  | String b1 (String b2 r') =>
      if (55296 <=? u) && (u <? 56320) && Ascii.eqb b1 "\" && Ascii.eqb b2 "u" then
        match hex4 r' with
        | Some (v, r'') => if (56320 <=? v) && (v <? 57344)
                           then Some (utf8 (65536 + (u - 55296) * 1024 + (v - 56320)), r'')
                           else Some (utf8 u, r)
        | None => None
        end
      else Some (utf8 u, r)
  | _ => Some (utf8 u, r)
  end.

(** [scanstring] after the opening quote. *)
Fixpoint scanstring (fuel : nat) (s : string) : option (string * string) :=
  match fuel, s with
  | S fuel, String c s =>
      if Ascii.eqb c QUOTE then Some ("", s) else
      if Ascii.eqb c "\" then
        match s with
        | String e s =>
            if Ascii.eqb e "u" then
              '(t, s) ← unicode_escape s; '(u, r) ← scanstring fuel s; Some (t +:+ u, r)
            else
              t ← simple_escape e; '(u, r) ← scanstring fuel s; Some (String t u, r)
        | "" => None
        end
      else if (code c <? 32)%N then None
      else '(u, r) ← scanstring fuel s; Some (String c u, r)
  | _, _ => None
  end.

(** The fraction of a number, when there is one. *)
Definition fraction (s : string) : option (string * string) :=
  match s with
  | String c r => if Ascii.eqb c "." then
                    match span_digits r with ("", _) => None | x => Some x end
                  else None
  | "" => None
  end.

Definition number (s : string) : option (json * string) :=
  let '(neg, s) := match s with
    | String c r => if Ascii.eqb c "-" then (true, r) else (false, s)
    | "" => (false, s)
    end in
  let int_part := match s with
    | String c r => if Ascii.eqb c "0" then Some ("0", r)
                    else if is_digit c then Some (span_digits s) else None
    | "" => None
    end in
  '(ds, r) ← int_part;
  match fraction r, exponent (match fraction r with Some (_, r) => r | None => r end) with
  | None, None => Some (JInt (if (neg : bool) then - digits ds else digits ds), r)
  | fr, ex =>
      let '(fs, r) := match fr with Some (fs, r) => (fs, r) | None => ("", r) end in
      let '(e, r) := match ex with Some (e, r) => (e, r) | None => (0, r) end in
      Some (JFloat (of_scaled neg (Z.to_N (digits (ds +:+ fs))) (e - Z.of_nat (String.length fs))), r)
  end.

(** A constant name *)
Definition keyword (p : string) (v : json) (s : string) : option (json * string) :=
  if startswith p s then Some (v, drop_str (String.length p) s) else None.
Definition constant (s : string) : option (json * string) :=
  match keyword "null" JNull s with Some x => Some x | None =>
  match keyword "true" (JBool true) s with Some x => Some x | None =>
  match keyword "false" (JBool false) s with Some x => Some x | None =>
  match number s with Some x => Some x | None =>
  match keyword "NaN" (JFloat S754_nan) s with Some x => Some x | None =>
  match keyword "Infinity" (JFloat (S754_infinity false)) s with Some x => Some x | None =>
  keyword "-Infinity" (JFloat (S754_infinity true)) s
  end end end end end end.

(** The dict of a list of pairs: a later pair replaces an earlier one. *)
Definition dict_of (l : list (string * json)) : list (string * json) :=
  for_each l [] (fun d '(k, v) => dict_set d k v).

(** [c] at the head of the text *)
Definition expect (c : ascii) (s : string) : option string :=
  match s with String d r => if Ascii.eqb d c then Some r else None | "" => None end.

(** ** The decoder *)

(** [scan_once]; [members] starts at a key, [elements] at a value. *)
Fixpoint value (fuel : nat) (s : string) : option (json * string) :=
  match fuel with
  | O => None
  | S fuel =>
      match s with
      | "" => None
      | String c r =>
          if Ascii.eqb c QUOTE then '(t, r) ← scanstring (S (String.length r)) r; Some (JStr t, r)
          else if Ascii.eqb c "{" then
            match expect "}" (skip_ws r) with
            | Some r => Some (JObj [], r)
            | None => '(l, r) ← members fuel (skip_ws r); Some (JObj (dict_of l), r)
            end
          else if Ascii.eqb c "[" then
            match expect "]" (skip_ws r) with
            | Some r => Some (JList [], r)
            | None => '(l, r) ← elements fuel (skip_ws r); Some (JList l, r)
            end
          else constant s
      end
  end
with members (fuel : nat) (s : string) : option (list (string * json) * string) :=
  match fuel with
  | O => None
  | S fuel =>
      r ← expect QUOTE s;
      '(k, r) ← scanstring (S (String.length r)) r;
      r ← expect ":" (skip_ws r);
      '(v, r) ← value fuel (skip_ws r);
      match expect "}" (skip_ws r) with
      | Some r => Some ([(k, v)], r)
      | None => r ← expect "," (skip_ws r);
                '(l, r) ← members fuel (skip_ws r); Some ((k, v) :: l, r)
      end
  end
with elements (fuel : nat) (s : string) : option (list json * string) :=
  match fuel with
  | O => None
  | S fuel =>
      '(v, r) ← value fuel s;
      match expect "]" (skip_ws r) with
      | Some r => Some ([v], r)
      | None => r ← expect "," (skip_ws r);
                '(l, r) ← elements fuel (skip_ws r); Some (v :: l, r)
      end
  end.

(** [json.loads]; [None] stands for [JSONDecodeError]. *)
Definition loads (s : string) : option json :=
  '(v, r) ← value (S (String.length s)) (skip_ws s);
  if skip_ws r =s? "" then Some v else None.

(** ** [str] and [repr] of a decoded value *)

(** The [k] significant digits at and above [x = m * 2^e], with their decimal
    exponent: [d * 10^(x10 - k + 1)] for the two neighbours. *)
Definition pow_ratio (b e : Z) : Z * Z := (b ^ Z.max e 0, b ^ Z.max (- e) 0).
Definition decimal_exponent (m e : Z) : Z :=
  let est := (Z.log2 m + e) * 30103 / 100000 in
  let at_least k := let '(n2, d2) := pow_ratio 2 e in let '(n10, d10) := pow_ratio 10 k in
                    n10 * d2 <=? m * n2 * d10 in
  if at_least (est + 1) then est + 1 else if at_least est then est else est - 1.

(** The digits of the shortest decimal that reads back as [x], and its exponent. *)
Fixpoint shortest (fuel : nat) (k : Z) (x : float) (m e : Z) : Z * Z :=
  let x10 := decimal_exponent m e in
  let '(n2, d2) := pow_ratio 2 e in
  let '(n10, d10) := pow_ratio 10 (k - 1 - x10) in
  let num := m * n2 * n10 in
  let den := d2 * d10 in
  let lo := num / den in
  let back d := feqb (of_scaled false (Z.to_N d) (x10 - k + 1)) x in
  let near := if 2 * (num mod den) <? den then lo else lo + 1 in
  let far := if 2 * (num mod den) <? den then lo + 1 else lo in
  if back near then (near, x10 - k + 1) else if back far then (far, x10 - k + 1) else
  match fuel with
  | O => (near, x10 - k + 1)
  | S fuel => shortest fuel (k + 1) x m e
  end.

(** [d] without trailing zeros *)
Fixpoint trim_zeros (fuel : nat) (d e : Z) : Z * Z :=
  match fuel with
  | O => (d, e)
  | S fuel => if d mod 10 =? 0 then trim_zeros fuel (d / 10) (e + 1) else (d, e)
  end.

Definition zeros (n : Z) : string := pad_zeros (Z.to_nat n) "".
Definition repr_positive (m e : Z) : string :=
  let '(d, ex) := shortest 17 1 (S754_finite false (Z.to_pos m) e) m e in
  let '(d, ex) := trim_zeros 20 d ex in
  let ds := str_z d in
  let n := Z.of_nat (String.length ds) in
  let point := n + ex in
  if (-4 <? point) && (point <=? 16) then
    if point <=? 0 then "0." +:+ zeros (- point) +:+ ds
    else if n <=? point then ds +:+ zeros (point - n) +:+ ".0"
    else take_str (Z.to_nat point) ds +:+ "." +:+ drop_str (Z.to_nat point) ds
  else
    let x := point - 1 in
    take_str 1 ds +:+ (if n =? 1 then "" else "." +:+ drop_str 1 ds) +:+ "e" +:+ (if x <? 0 then "-" else "+")
    +:+ pad_zeros 2 (str_z (Z.abs x)).
Definition repr_float (x : float) : string :=
  match x with
  | S754_zero s => if s then "-0.0" else "0.0"
  | S754_infinity s => if s then "-inf" else "inf"
  | S754_nan => "nan"
  | S754_finite s m e => (if s then "-" else "") +:+ repr_positive (Z.pos m) e
  end.

Fixpoint py_repr (v : json) : string :=
  match v with
  | JNull => "None"
  | JBool b => if b then "True" else "False"
  | JInt n => str_z n
  | JFloat x => repr_float x
  | JStr s => repr s
  | JList l => "[" +:+ join ", " (py_repr <$> l) +:+ "]"
  | JObj d => "{" +:+ join ", " ((fun kv : string * json => repr kv.1 +:+ ": " +:+ py_repr kv.2) <$> d) +:+ "}"
  end.
Definition py_str (v : json) : string := match v with JStr s => s | v => py_repr v end.

(** [json.dumps(v, indent=2)] of UTF-8 strings; [d] is the depth *)
Definition dump_char (c : ascii) : string :=
  if Ascii.eqb c QUOTE || Ascii.eqb c "\" then String "\" (String c "") else
  if Ascii.eqb c NL then "\n" else if Ascii.eqb c "013" then "\r" else if Ascii.eqb c TAB then "\t" else
  if Ascii.eqb c "008" then "\b" else if Ascii.eqb c "012" then "\f" else
  if (code c <? 32)%N || (code c =? 127)%N then "\u00" +:+ String (hex_digit (code c / 16)) (String (hex_digit (code c mod 16)) "")
  else String c "".
(** A character beyond ASCII, given by its code point: one escape or a pair of
    surrogates. *)
Definition escape4 (u : Z) : string :=
  "\u" +:+ join "" ((fun k => String (hex_digit (Z.to_N ((u / 16 ^ k) mod 16))) "") <$> [3; 2; 1; 0]).
Definition dump_code (cp : Z) : string :=
  if cp <? 65536 then escape4 cp
  else escape4 (55296 + (cp - 65536) / 1024) +:+ escape4 (56320 + (cp - 65536) mod 1024).
(** The six low bits of a continuation byte *)
Definition low6 (c : ascii) : Z := Z.of_N (code c) mod 64.
Fixpoint dump_body (s : string) : string :=
  match s with
  | "" => String QUOTE ""
  | String c t =>
      if (code c <? 128)%N then dump_char c +:+ dump_body t else
      let x := Z.of_N (code c) in
      match t with
      | String c1 t1 =>
          if x <? 224 then dump_code ((x - 192) * 64 + low6 c1) +:+ dump_body t1 else
          match t1 with
          | String c2 t2 =>
              if x <? 240 then dump_code (((x - 224) * 64 + low6 c1) * 64 + low6 c2) +:+ dump_body t2 else
              match t2 with
              | String c3 t3 =>
                  dump_code ((((x - 240) * 64 + low6 c1) * 64 + low6 c2) * 64 + low6 c3) +:+ dump_body t3
              | "" => String QUOTE ""          (* no text ends here *)
              end
          | "" => String QUOTE ""
          end
      | "" => String QUOTE ""
      end
  end.
Definition dump_string (s : string) : string := String QUOTE (dump_body s).
Definition dump_float (x : float) : string :=
  match x with
  | S754_nan => "NaN"
  | S754_infinity s => if s then "-Infinity" else "Infinity"
  | x => repr_float x
  end.
Definition indent (d : nat) : string := nl +:+ spaces (2 * d).
Fixpoint dumps (d : nat) (v : json) : string :=
  match v with
  | JNull => "null"
  | JBool b => if b then "true" else "false"
  | JInt n => str_z n
  | JFloat x => dump_float x
  | JStr s => dump_string s
  | JList [] => "[]"
  | JList l => "[" +:+ indent (S d) +:+ join ("," +:+ indent (S d)) (dumps (S d) <$> l) +:+ indent d +:+ "]"
  | JObj [] => "{}"
  | JObj l => "{" +:+ indent (S d)
      +:+ join ("," +:+ indent (S d)) ((fun kv : string * json => dump_string kv.1 +:+ ": " +:+ dumps (S d) kv.2) <$> l)
      +:+ indent d +:+ "}"
  end.

(** [bool(v)] *)
Definition truthy (v : json) : bool :=
  match v with
  | JNull => false
  | JBool b => b
  | JInt n => negb (n =? 0)
  | JFloat x => negb (feqb x fzero)
  | JStr s => negb (s =? "")%string
  | JList l => match l with [] => false | _ => true end
  | JObj d => match d with [] => false | _ => true end
  end.

Example repr_floats :
  (fun s => repr_float (default fzero (py_float s))) <$> ["0.1"; "100"; "1e16"; "123456789012345680"; "5e-324"; "0.0001"; "1e-5"; "2.5"; "1.7976931348623157e308"; "9007199254740993"; "0.3"]
  = ["0.1"; "100.0"; "1e+16"; "1.2345678901234568e+17"; "5e-324"; "0.0001"; "1e-05"; "2.5"; "1.7976931348623157e+308"; "9007199254740992.0"; "0.3"].
Proof. vm_compute. reflexivity. Qed.

(** ** The balanced-brace scan *)

(** [for i in range(start, len(text))]: the number of characters up to the
    brace that closes the first one. *)
Fixpoint balanced (s : string) (depth : Z) (in_string escape : bool) (n : nat) : option nat :=
  match s with
  | "" => None
  | String ch s =>
      if in_string then
        if escape then balanced s depth true false (S n)
        else if Ascii.eqb ch "\" then balanced s depth true true (S n)
        else if Ascii.eqb ch QUOTE then balanced s depth false false (S n)
        else balanced s depth true false (S n)
      else if Ascii.eqb ch QUOTE then balanced s depth true escape (S n)
      else if Ascii.eqb ch "{" then balanced s (depth + 1) false escape (S n)
      else if Ascii.eqb ch "}" then
        if depth - 1 =? 0 then Some (S n) else balanced s (depth - 1) false escape (S n)
      else balanced s depth false escape (S n)
  end.

Definition balanced_object (s : string) : option string :=
  (fun n => take_str n s) <$> balanced s 0 false false 0.

(** [start = text.find("{")] repeated: the first object for which [f] returns. *)
Fixpoint scan_objects {X : Type} (f : json -> option X) (s : string) : option X :=
  match s with
  | "" => None
  | String c r =>
      if Ascii.eqb c "{" then
        match (t ← balanced_object s; v ← loads t; f v) with
        | Some x => Some x
        | None => scan_objects f r
        end
      else scan_objects f r
  end.

Definition q (s : string) : string := String QUOTE s +:+ String QUOTE "".
Example loads_demo : loads ("{ " +:+ q "a" +:+ ": [1, -2.5, true], " +:+ q "b}" +:+ ": {}, " +:+ q "a" +:+ " : " +:+ q "\u0041\n" +:+ "} ")
  = Some (JObj [("a", JStr (String "A" nl)); ("b}", JObj [])]).
Proof. vm_compute. reflexivity. Qed.
Example loads_bad : loads "{1: 2}" = None /\ loads "[1,]" = None /\ loads "01" = None /\ loads "1 2" = None.
Proof. vm_compute. done. Qed.

(** ** The scan follows the decoder *)

(** Reading [p] takes the scan at depth [d] from being inside a string or not
    ([b]) to [b'], without closing a brace of depth [d]. *)
Definition steps (b b' : bool) (s r : string) : Prop :=
  exists p, s = p +:+ r /\
  forall d n, 0 < d -> balanced s d b false n = balanced r d b' false (n + String.length p).

Lemma steps_refl b s : steps b b s s.
Proof. exists "". split; [done|]. intros d n _. by rewrite Nat.add_0_r. Qed.

Lemma steps_trans b1 b2 b3 s t r : steps b1 b2 s t -> steps b2 b3 t r -> steps b1 b3 s r.
Proof.
  intros (p & -> & Hp) (p' & -> & Hq). exists (p +:+ p'). split; [by rewrite string_app_assoc|].
  intros d n Hd. rewrite Hp, Hq by done. rewrite string_length_app. f_equal. lia.
Qed.

Definition plain (c : ascii) : bool := negb (Ascii.eqb c QUOTE) && negb (Ascii.eqb c "{") && negb (Ascii.eqb c "}").

Lemma steps_cons b b' c s :
  (forall d n, 0 < d -> balanced (String c s) d b false n = balanced s d b' false (S n)) -> steps b b' (String c s) s.
Proof. intros H. exists (String c ""). split; [done|]. intros d n Hd. rewrite H by done. f_equal. cbn. lia. Qed.

Lemma steps_plain c s : plain c = true -> steps false false (String c s) s.
Proof.
  unfold plain. rewrite !andb_true_iff, !negb_true_iff. intros [[H1 H2] H3]. apply steps_cons. intros d n _.
  cbn [balanced]. by rewrite H1, H2, H3.
Qed.

Lemma steps_in_string c s : Ascii.eqb c "\" = false -> Ascii.eqb c QUOTE = false -> steps true true (String c s) s.
Proof. intros H1 H2. apply steps_cons. intros d n _. cbn [balanced]. by rewrite H1, H2. Qed.

Lemma steps_open s : steps false true (String QUOTE s) s.
Proof. by apply steps_cons. Qed.
Lemma steps_close s : steps true false (String QUOTE s) s.
Proof. by apply steps_cons. Qed.

(** A backslash and the character after it *)
Lemma steps_escape e s : steps true true (String "\" (String e s)) s.
Proof. exists (String "\" (String e "")). split; [done|]. intros d n _. cbn. f_equal. lia. Qed.

Lemma steps_prefix p s : sforall plain p = true -> steps false false (p +:+ s) s.
Proof.
  induction p as [|c p IH]; [intros _; apply steps_refl|]. cbn [sforall]. intros [Hc Hp]%andb_true_iff.
  rewrite string_app_cons. eapply steps_trans; [by apply steps_plain|by apply IH].
Qed.

Lemma is_ws_plain c : is_ws c = true -> plain c = true.
Proof. destruct c as [[] [] [] [] [] [] [] []]; vm_compute; congruence. Qed.
Lemma is_digit_plain c : is_digit c = true -> plain c = true.
Proof. destruct c as [[] [] [] [] [] [] [] []]; vm_compute; congruence. Qed.

Lemma steps_skip_ws s : steps false false s (skip_ws s).
Proof.
  induction s as [|c s IH]; [apply steps_refl|]. unfold skip_ws in *. cbn [lstrip_by].
  destruct (is_ws c) eqn:E; [|apply steps_refl]. eapply steps_trans; [by apply steps_plain, is_ws_plain|exact IH].
Qed.

Lemma steps_expect c s r : plain c = true -> expect c s = Some r -> steps false false s r.
Proof.
  intros Hc. destruct s as [|d s]; [done|]. cbn [expect]. destruct (Ascii.eqb_spec d c) as [->|]; [|done].
  intros [= ->]. by apply steps_plain.
Qed.

(** *** Strings *)

Lemma hex_val_string c x : hex_val c = Some x -> Ascii.eqb c "\" = false /\ Ascii.eqb c QUOTE = false.
Proof. destruct c as [[] [] [] [] [] [] [] []]; vm_compute; split; congruence. Qed.

Lemma steps_hex4 s u r : hex4 s = Some (u, r) -> steps true true s r.
Proof.
  destruct s as [|a [|b [|c [|d s]]]]; try done. cbn [hex4].
  destruct (hex_val a) eqn:Ea; [|done]. destruct (hex_val b) eqn:Eb; [|done].
  destruct (hex_val c) eqn:Ec; [|done]. destruct (hex_val d) eqn:Ed; [|done]. cbn. intros [= _ <-].
  repeat (eapply steps_trans; [eapply steps_in_string; by eapply hex_val_string|]). apply steps_refl.
Qed.

Lemma steps_unicode_escape s t r : unicode_escape s = Some (t, r) -> steps true true s r.
Proof.
  unfold unicode_escape. destruct (hex4 s) as [[u r1]|] eqn:E; [|done]. cbn [mbind option_bind].
  pose proof (steps_hex4 _ _ _ E) as Hs. destruct r1 as [|b1 [|b2 r1]]; try (by intros [= _ <-]).
  destruct (_ && Ascii.eqb b2 "u") eqn:Eb; [|by intros [= _ <-]].
  apply andb_true_iff in Eb as [[_ E1%Ascii.eqb_eq]%andb_true_iff E2%Ascii.eqb_eq]. subst b1 b2.
  destruct (hex4 r1) as [[v r2]|] eqn:E2; [|done]. destruct (_ && _); intros [= _ <-]; [|done].
  eapply steps_trans; [exact Hs|]. eapply steps_trans; [apply steps_escape|]. by eapply steps_hex4.
Qed.

Lemma steps_scanstring fuel : forall s t r, scanstring fuel s = Some (t, r) -> steps true false s r.
Proof.
  induction fuel as [|fuel IH]; intros s t r; [by destruct s|]. destruct s as [|c s]; [done|]. cbn [scanstring].
  destruct (Ascii.eqb_spec c QUOTE) as [->|Hq]; [intros [= _ <-]; apply steps_close|].
  destruct (Ascii.eqb_spec c "\") as [->|Hb].
  - destruct s as [|e s]; [done|]. destruct (Ascii.eqb_spec e "u") as [->|He].
    + destruct (unicode_escape s) as [[x s1]|] eqn:Eu; [|done]. cbn [mbind option_bind].
      destruct (scanstring fuel s1) as [[y r1]|] eqn:Es; [|done]. cbn. intros [= _ <-].
      eapply steps_trans; [apply steps_escape|]. eapply steps_trans; [by eapply steps_unicode_escape|]. by eapply IH.
    + destruct (simple_escape e); [|done]. cbn [mbind option_bind].
      destruct (scanstring fuel s) as [[y r1]|] eqn:Es; [|done]. cbn. intros [= _ <-].
      eapply steps_trans; [apply steps_escape|]. by eapply IH.
  - destruct (code c <? 32)%N; [done|]. destruct (scanstring fuel s) as [[y r1]|] eqn:Es; [|done]. cbn.
    intros [= _ <-]. eapply steps_trans; [apply steps_in_string; by apply Ascii.eqb_neq|]. by eapply IH.
Qed.

(** *** Numbers and names *)

Lemma steps_span_digits s d r : span_digits s = (d, r) -> steps false false s r.
Proof.
  revert d. induction s as [|c s IH]; intros d; cbn [span_digits]; [intros [= _ <-]; apply steps_refl|].
  destruct (is_digit c) eqn:E; [|intros [= _ <-]; apply steps_refl].
  destruct (span_digits s) as [d' r']. intros [= _ <-].
  eapply steps_trans; [by apply steps_plain, is_digit_plain|]. by eapply IH.
Qed.

Lemma steps_fraction s f r : fraction s = Some (f, r) -> steps false false s r.
Proof.
  destruct s as [|c s]; [done|]. cbn [fraction]. destruct (Ascii.eqb_spec c ".") as [->|]; [|done].
  destruct (span_digits s) as [[|d ds] r'] eqn:E; [done|]. intros [= _ <-].
  eapply steps_trans; [by apply steps_plain|]. by eapply steps_span_digits.
Qed.

Lemma steps_exponent s e r : exponent s = Some (e, r) -> steps false false s r.
Proof.
  destruct s as [|c s]; [done|]. cbn [exponent]. destruct (Ascii.eqb c "e" || Ascii.eqb c "E") eqn:Ec; [|done].
  assert (plain c = true) as Hc.
  { apply orb_true_iff in Ec as [->%Ascii.eqb_eq| ->%Ascii.eqb_eq]; done. }
  intros H. eapply steps_trans; [by apply steps_plain|]. revert H.
  assert (forall (b : bool) t, steps false false s t ->
    match span_digits t with
    | ("", _) => None
    | (ds, r) => Some ((if b then - digits ds else digits ds), r)
    end = Some (e, r) -> steps false false s r) as Hd.
  { intros b t Ht. destruct (span_digits t) as [[|d ds] r'] eqn:E; [done|]. intros [= _ <-].
    eapply steps_trans; [exact Ht|]. by eapply steps_span_digits. }
  destruct s as [|d s]; [apply (Hd false), steps_refl|].
  destruct (Ascii.eqb_spec d "-") as [->|]; [apply (Hd true); by apply steps_plain|].
  destruct (Ascii.eqb_spec d "+") as [->|]; [apply (Hd false); by apply steps_plain|]. apply (Hd false), steps_refl.
Qed.

Lemma steps_number s v r : number s = Some (v, r) -> steps false false s r.
Proof.
  unfold number. intros H.
  assert (exists b t, steps false false s t /\
    match s with "" => (false, s) | String c r => if Ascii.eqb c "-" then (true, r) else (false, s) end = (b, t)) as (b & t & Hst & E).
  { destruct s as [|c s]; [by exists false, ""; split; [apply steps_refl|]|].
    destruct (Ascii.eqb_spec c "-") as [->|]; eexists _, _; (split; [|reflexivity]); [by apply steps_plain|apply steps_refl]. }
  rewrite E in H. clear E. eapply steps_trans; [exact Hst|]. clear Hst.
  destruct (match t with "" => None | String c r => if Ascii.eqb c "0" then Some ("0", r) else if is_digit c then Some (span_digits t) else None end)
    as [[ds r1]|] eqn:Ei; [|done]. cbn [mbind option_bind] in H.
  assert (steps false false t r1) as Hi.
  { destruct t as [|c t]; [done|]. destruct (Ascii.eqb_spec c "0") as [->|]; [injection Ei as <- <-; by apply steps_plain|].
    destruct (is_digit c) eqn:Ed; [|done]. injection Ei as Ei. by eapply steps_span_digits. }
  eapply steps_trans; [exact Hi|]. clear Hi Ei. revert H.
  destruct (fraction r1) as [[fs r2]|] eqn:Ef.
  - assert (steps false false r1 r2) as Hf by (by eapply steps_fraction).
    destruct (exponent r2) as [[e r3]|] eqn:Ee; intros [= _ <-]; [|done].
    eapply steps_trans; [exact Hf|by eapply steps_exponent].
  - destruct (exponent r1) as [[e r3]|] eqn:Ee; intros [= _ <-]; [by eapply steps_exponent|apply steps_refl].
Qed.

Lemma startswith_drop p s : startswith p s = true -> s = p +:+ drop_str (String.length p) s.
Proof.
  intros [t ->]%startswith_spec. f_equal. induction p as [|c p IH]; [done|]. exact IH.
Qed.

Lemma steps_constant s v r : constant s = Some (v, r) -> steps false false s r.
Proof.
  assert (forall p w, sforall plain p = true -> forall v r, keyword p w s = Some (v, r) -> steps false false s r) as Hk.
  { intros p w Hp v' r'. unfold keyword. destruct (startswith p s) eqn:E; [|done]. intros [= _ <-].
    rewrite (startswith_drop p s E) at 1. by apply steps_prefix. }
  unfold constant. intros H.
  repeat match type of H with
  | match keyword ?p ?w s with _ => _ end = _ =>
      let E := fresh in destruct (keyword p w s) as [[? ?]|] eqn:E; [injection H as -> ->; by eapply (Hk p w)|clear E]
  | match number s with _ => _ end = _ =>
      let E := fresh in destruct (number s) as [[? ?]|] eqn:E; [injection H as -> ->; by eapply steps_number|clear E]
  end. by eapply (Hk "-Infinity").
Qed.

(** *** Values *)

(** Reading the members of an object at depth [d] ends with its brace. *)
Definition closes (s r : string) : Prop :=
  exists p, s = p +:+ r /\
  forall d n, 0 <= d -> balanced s (d + 1) false false n
    = if d =? 0 then Some (n + String.length p)%nat else balanced r d false false (n + String.length p).

Lemma closes_brace r : closes (String "}" r) r.
Proof.
  exists "}". split; [done|]. intros d n Hd. cbn [balanced String.length]. rewrite Nat.add_1_r.
  replace (d + 1 - 1) with d by lia. done.
Qed.

Lemma steps_closes s t r : steps false false s t -> closes t r -> closes s r.
Proof.
  intros (p & -> & Hp) (p' & -> & Hq). exists (p +:+ p'). split; [by rewrite string_app_assoc|]. intros d n Hd.
  rewrite Hp, Hq by lia. rewrite string_length_app, Nat.add_assoc. done.
Qed.

Lemma closes_steps s r : closes s r -> steps false false (String "{" s) r.
Proof.
  intros (p & -> & Hp). exists (String "{" p). split; [done|]. intros d n Hd. cbn [balanced String.length].
  change (balanced (p +:+ r) (d + 1) false false (S n) = balanced r d false false (n + S (String.length p))).
  rewrite Hp by lia. destruct (Z.eqb_spec d 0); [lia|]. f_equal. lia.
Qed.

Lemma expect_eq c s r : expect c s = Some r -> s = String c r.
Proof. destruct s as [|d s]; [done|]. cbn [expect]. destruct (Ascii.eqb_spec d c) as [->|]; [by intros [= ->]|done]. Qed.

(** A string literal *)
Lemma steps_literal s t r : scanstring (S (String.length s)) s = Some (t, r) -> steps false false (String QUOTE s) r.
Proof. intros H. eapply steps_trans; [apply steps_open|]. by eapply steps_scanstring. Qed.

Lemma decoder_steps fuel :
  (forall s v r, value fuel s = Some (v, r) -> steps false false s r)
  /\ (forall s l r, members fuel s = Some (l, r) -> closes s r)
  /\ (forall s l r, elements fuel s = Some (l, r) -> steps false false s r).
Proof.
  induction fuel as [|fuel (IHv & IHm & IHe)]; [done|]. split; [|split].
  - intros s v r. destruct s as [|c s]; [done|]. cbn [value].
    destruct (Ascii.eqb_spec c QUOTE) as [->|].
    { destruct (scanstring _ s) as [[t r']|] eqn:E; [|done]. cbn. intros [= _ <-]. by eapply steps_literal. }
    destruct (Ascii.eqb_spec c "{") as [->|].
    { destruct (expect "}" (skip_ws s)) as [r'|] eqn:E.
      - intros [= _ <-]. apply closes_steps. eapply steps_closes; [apply steps_skip_ws|].
        rewrite (expect_eq _ _ _ E). apply closes_brace.
      - destruct (members fuel (skip_ws s)) as [[l r']|] eqn:Em; [|done]. cbn. intros [= _ <-].
        apply closes_steps. eapply steps_closes; [apply steps_skip_ws|]. by eapply IHm. }
    destruct (Ascii.eqb_spec c "[") as [->|]; [|apply steps_constant].
    destruct (expect "]" (skip_ws s)) as [r'|] eqn:E.
    + intros [= _ <-]. eapply steps_trans; [by apply steps_plain|]. eapply steps_trans; [apply steps_skip_ws|].
      by apply (steps_expect "]").
    + destruct (elements fuel (skip_ws s)) as [[l r']|] eqn:Em; [|done]. cbn. intros [= _ <-].
      eapply steps_trans; [by apply steps_plain|]. eapply steps_trans; [apply steps_skip_ws|]. by eapply IHe.
  - intros s l r. cbn [members]. destruct (expect QUOTE s) as [r1|] eqn:E1; [|done]. cbn [mbind option_bind].
    rewrite (expect_eq _ _ _ E1). destruct (scanstring _ r1) as [[k r2]|] eqn:E2; [|done]. cbn [mbind option_bind].
    destruct (expect ":" (skip_ws r2)) as [r3|] eqn:E3; [|done]. cbn [mbind option_bind].
    destruct (value fuel (skip_ws r3)) as [[v r4]|] eqn:E4; [|done]. cbn [mbind option_bind].
    intros H. eapply steps_closes; [by eapply steps_literal|]. eapply steps_closes; [apply steps_skip_ws|].
    eapply steps_closes; [by apply (steps_expect ":") in E3|]. eapply steps_closes; [apply steps_skip_ws|].
    eapply steps_closes; [by eapply IHv|]. eapply steps_closes; [apply steps_skip_ws|]. revert H.
    destruct (expect "}" (skip_ws r4)) as [r5|] eqn:E5.
    + intros [= _ <-]. rewrite (expect_eq _ _ _ E5). apply closes_brace.
    + destruct (expect "," (skip_ws r4)) as [r6|] eqn:E6; [|done]. cbn [mbind option_bind].
      destruct (members fuel (skip_ws r6)) as [[l' r7]|] eqn:E7; [|done]. cbn. intros [= _ <-].
      eapply steps_closes; [by apply (steps_expect ",") in E6|]. eapply steps_closes; [apply steps_skip_ws|].
      by eapply IHm.
  - intros s l r. cbn [elements]. destruct (value fuel s) as [[v r1]|] eqn:E1; [|done]. cbn [mbind option_bind].
    intros H. eapply steps_trans; [by eapply IHv|]. eapply steps_trans; [apply steps_skip_ws|]. revert H.
    destruct (expect "]" (skip_ws r1)) as [r2|] eqn:E2; [intros [= _ <-]; by apply (steps_expect "]") in E2|].
    destruct (expect "," (skip_ws r1)) as [r3|] eqn:E3; [|done]. cbn [mbind option_bind].
    destruct (elements fuel (skip_ws r3)) as [[l' r4]|] eqn:E4; [|done]. cbn. intros [= _ <-].
    eapply steps_trans; [by apply (steps_expect ",") in E3|]. eapply steps_trans; [apply steps_skip_ws|]. by eapply IHe.
Qed.

(** The scan of an object's text ends with it. *)
Lemma balanced_decoded s v :
  value (S (String.length s)) s = Some (v, "") -> is_Some (expect "{" s) ->
  balanced s 0 false false 0 = Some (String.length s).
Proof.
  intros H [r Hr]. apply expect_eq in Hr as ->. cbn [value] in H. revert H.
  change (Ascii.eqb "{" QUOTE) with false. change (Ascii.eqb "{" "{") with true.
  change (balanced (String "{" r) 0 false false 0) with (balanced r 1 false false 1). cbn [String.length].
  assert (forall t, closes r t -> t = "" -> balanced r 1 false false 1 = Some (S (String.length r))) as Hc.
  { intros t (p & -> & Hp) ->. specialize (Hp 0 1%nat ltac:(lia)). rewrite string_app_nil_r in *. exact Hp. }
  destruct (expect "}" (skip_ws r)) as [r'|] eqn:E.
  - intros [= _ ->]. apply (Hc ""); [|done]. eapply steps_closes; [apply steps_skip_ws|].
    rewrite (expect_eq _ _ _ E). apply closes_brace.
  - destruct (members _ (skip_ws r)) as [[l r']|] eqn:Em; [|done]. cbn. intros [= _ ->].
    apply (Hc ""); [|done]. eapply steps_closes; [apply steps_skip_ws|]. by eapply decoder_steps.
Qed.

Lemma balanced_app s t : forall d b e n k,
  balanced s d b e n = Some k -> balanced (s +:+ t) d b e n = Some k.
Proof.
  induction s as [|c s IH]; intros d b e n k; [done|]. rewrite string_app_cons. cbn [balanced].
  destruct b; [destruct e; [apply IH|]; destruct (Ascii.eqb c "\"); [apply IH|]; destruct (Ascii.eqb c QUOTE); apply IH|].
  destruct (Ascii.eqb c QUOTE); [apply IH|]. destruct (Ascii.eqb c "{"); [apply IH|].
  destruct (Ascii.eqb c "}"); [|apply IH]. destruct (d - 1 =? 0); [done|apply IH].
Qed.

Lemma take_str_app s t : take_str (String.length s) (s +:+ t) = s.
Proof. induction s as [|c s IH]; [by destruct t|]. rewrite string_app_cons. cbn [String.length take_str]. by rewrite IH. Qed.

Lemma loads_value s v : value (S (String.length s)) s = Some (v, "") -> is_Some (expect "{" s) -> loads s = Some v.
Proof.
  intros H [r Hr]. apply expect_eq in Hr as ->. unfold loads.
  change (skip_ws (String "{" r)) with (String "{" r). by rewrite H.
Qed.

(** An object embedded in a text with no brace before it is found. *)
Lemma scan_objects_found {X} (f : json -> option X) p s t v x :
  mem_char "{" p = false -> value (S (String.length s)) s = Some (v, "") -> is_Some (expect "{" s) ->
  f v = Some x -> scan_objects f (p +:+ s +:+ t) = Some x.
Proof.
  intros Hp Hv Hs Hf. induction p as [|c p IH].
  - change ("" +:+ s +:+ t) with (s +:+ t). pose proof (balanced_decoded s v Hv Hs) as Hb.
    pose proof (loads_value s v Hv Hs) as Hl. pose proof (balanced_app s t _ _ _ _ _ Hb) as Ha.
    assert (balanced_object (s +:+ t) = Some s) as Ho.
    { unfold balanced_object. rewrite Ha. cbn. by rewrite take_str_app. }
    destruct Hs as [r Hr]. apply expect_eq in Hr. destruct (s +:+ t) as [|c u] eqn:E; [by subst s|].
    assert (c = "{"%char) as -> by (subst s; by injection E). cbn [scan_objects].
    change (Ascii.eqb "{" "{") with true. cbv iota. rewrite Ho. cbn [mbind option_bind]. rewrite Hl. cbn. by rewrite Hf.
  - rewrite string_app_cons. cbn [mem_char] in Hp. apply orb_false_iff in Hp as [Hc Hp].
    cbn [scan_objects]. rewrite Ascii.eqb_sym, Hc. by apply IH.
Qed.
