(* ===== verification/JsonText.v ===== *)
(** * Printed values read back

    [json.loads] after [json.dumps(v, indent=2)], for every value whose strings
    are 7-bit texts, whose objects have distinct keys and whose doubles are
    read back from their [repr].  The program writes its calibrations this way
    and reads them again. *)

From Stdlib Require Import Ascii SpecFloat.
From stdpp Require Import pretty.
From S2P Require Import Prelude PyInt PyStr PyFloat Json.

#[global] Instance float_eq_dec : EqDecision spec_float.
Proof. solve_decision. Defined.

(** A finite double is read back from its text. *)
Definition reads_back (x : float) : bool :=
  match x with
  | S754_finite _ _ _ => match number (dump_float x) with Some (JFloat y, "") => bool_decide (y = x) | _ => false end
  | _ => true
  end.
Definition ascii7 (s : string) : bool := sforall (fun c => (code c <? 128)%N) s.

Fixpoint printable (v : json) : bool :=
  match v with
  | JNull | JBool _ | JInt _ => true
  | JFloat x => reads_back x
  | JStr s => ascii7 s
  | JList l => forallb printable l
  | JObj d => bool_decide (base.NoDup d.*1) && forallb (fun kv => ascii7 kv.1 && printable kv.2) d
  end.

(** What may follow a printed value *)
Definition ends (r : string) : bool :=
  match r with "" => true | String c _ => Ascii.eqb c "," || Ascii.eqb c NL end.

Lemma ends_head r c t : ends r = true -> r = String c t -> c = ","%char \/ c = NL.
Proof. intros H ->. cbn in H. apply orb_true_iff in H as [H|H]; apply Ascii.eqb_eq in H; auto. Qed.

(** ** Strings *)

Lemma unicode_small s u r : hex4 s = Some (u, r) -> u < 55296 -> unicode_escape s = Some (utf8 u, r).
Proof.
  intros H Hu. unfold unicode_escape. rewrite H. cbn [mbind option_bind].
  destruct r as [|b1 [|b2 r]]; try done. by replace (55296 <=? u) with false by lia.
Qed.

(** The three ways a character is written *)
Inductive written (c : ascii) : string -> Prop :=
| as_itself : Ascii.eqb c QUOTE = false -> Ascii.eqb c "\" = false -> (code c <? 32)%N = false -> written c (String c "")
| as_escape e : Ascii.eqb e "u" = false -> simple_escape e = Some c -> written c (String "\" (String e ""))
| as_code h1 h2 x y : hex_val h1 = Some x -> hex_val h2 = Some y -> 16 * x + y < 128 -> 0 <= 16 * x + y ->
    chr8 (16 * x + y) = c -> written c ("\u00" +:+ String h1 (String h2 "")).

Lemma dump_char_written c : (code c < 128)%N -> written c (dump_char c).
Proof.
  destruct c as [[] [] [] [] [] [] [] []]; intros H; try (exfalso; revert H; vm_compute; done); clear H;
    match goal with |- written ?c _ => let t := eval vm_compute in (dump_char c) in change (dump_char c) with t end;
    first [by apply as_itself | by apply as_escape | eapply as_code; [reflexivity|reflexivity|vm_compute; done..]].
Qed.

Lemma hex4_low h1 h2 x y s : hex_val h1 = Some x -> hex_val h2 = Some y ->
  hex4 (String "0" (String "0" (String h1 (String h2 s)))) = Some (16 * x + y, s).
Proof.
  intros Hx Hy. unfold hex4. change (hex_val "0") with (Some 0). rewrite Hx, Hy. cbn [mbind option_bind]. do 2 f_equal. lia.
Qed.

Lemma scan_written c t fuel s : written c t ->
  scanstring (S fuel) (t +:+ s) = '(u, r) ← scanstring fuel s; Some (String c u, r).
Proof.
  intros [H1 H2 H3|e H1 H2|h1 h2 x y Hx Hy Hlt H0 Hc].
  - rewrite string_app_cons. cbn [scanstring]. by rewrite H1, H2, H3.
  - rewrite !string_app_cons. cbn [scanstring]. change (Ascii.eqb "\" QUOTE) with false. rewrite Ascii.eqb_refl, H1, H2.
    done.
  - rewrite !string_app_cons. cbn [scanstring]. change (Ascii.eqb "\" QUOTE) with false. rewrite Ascii.eqb_refl.
    change (Ascii.eqb "u" "u") with true. cbn iota.
    rewrite (unicode_small _ (16 * x + y) s); [|by apply hex4_low|lia].
    cbn [mbind option_bind]. unfold utf8. replace (16 * x + y <? 128) with true by lia. rewrite Hc. done.
Qed.

Lemma written_length c t : written c t -> (1 <= String.length t)%nat.
Proof. intros H. destruct H; apply le_n_S, Nat.le_0_l. Qed.

Lemma dump_body_ascii c s : (code c < 128)%N -> dump_body (String c s) = dump_char c +:+ dump_body s.
Proof. intros H. cbn [dump_body]. by rewrite (proj2 (N.ltb_lt _ _) H). Qed.

Lemma scan_dump_body s : forall r fuel, ascii7 s = true -> (String.length (dump_body s) <= fuel)%nat ->
  scanstring fuel (dump_body s +:+ r) = Some (s, r).
Proof.
  induction s as [|c s IH]; intros r fuel Ha Hf; (destruct fuel as [|fuel]).
  - cbn in Hf. lia.
  - done.
  - cbn in Ha. apply andb_true_iff in Ha as [Ha%N.ltb_lt _]. rewrite (dump_body_ascii _ _ Ha), string_length_app in Hf.
    apply dump_char_written, written_length in Ha. lia.
  - cbn in Ha. apply andb_true_iff in Ha as [Hc%N.ltb_lt Ha]. rewrite (dump_body_ascii _ _ Hc) in *. apply dump_char_written in Hc.
    rewrite string_app_assoc, (scan_written c _ _ _ Hc). rewrite string_length_app in Hf. pose proof (written_length _ _ Hc).
    rewrite IH by (done || lia). done.
Qed.

Lemma scan_literal s r : ascii7 s = true ->
  scanstring (S (String.length (dump_body s +:+ r))) (dump_body s +:+ r) = Some (s, r).
Proof. intros H. apply scan_dump_body; [done|]. rewrite string_length_app. lia. Qed.

(** ** Numbers *)

Lemma ends_not_digit r c t : ends r = true -> r = String c t -> is_digit c = false /\ Ascii.eqb c "." = false
  /\ Ascii.eqb c "e" = false /\ Ascii.eqb c "E" = false /\ Ascii.eqb c "-" = false /\ Ascii.eqb c "+" = false.
Proof. intros H E. by destruct (ends_head r c t H E) as [-> | ->]. Qed.

Lemma span_digits_ends r : ends r = true -> span_digits r = ("", r).
Proof. intros H. destruct r as [|c r]; [done|]. cbn. by destruct (ends_not_digit _ c r H eq_refl) as [-> _]. Qed.

Lemma span_digits_app s r d t : ends r = true -> span_digits s = (d, t) -> span_digits (s +:+ r) = (d, t +:+ r).
Proof.
  intros Hr. revert d t. induction s as [|c s IH]; intros d t.
  - intros [= <- <-]. by apply span_digits_ends.
  - rewrite string_app_cons. cbn [span_digits]. destruct (is_digit c); [|by intros [= <- <-]].
    destruct (span_digits s) as [d' t']. intros [= <- <-]. by rewrite (IH _ _ eq_refl).
Qed.

Lemma fraction_app s r : ends r = true -> fraction (s +:+ r) = (fun '(f, t) => (f, t +:+ r)) <$> fraction s.
Proof.
  intros Hr. destruct s as [|c s].
  - change ("" +:+ r) with r. destruct r as [|c r]; [done|]. cbn [fraction].
    by destruct (ends_not_digit _ c r Hr eq_refl) as (_ & -> & _).
  - rewrite string_app_cons. cbn [fraction]. destruct (Ascii.eqb c "."); [|done].
    destruct (span_digits s) as [d t] eqn:E. rewrite (span_digits_app _ _ _ _ Hr E). by destruct d.
Qed.

Lemma exponent_app s r : ends r = true -> exponent (s +:+ r) = (fun '(e, t) => (e, t +:+ r)) <$> exponent s.
Proof.
  intros Hr. destruct s as [|c s].
  - change ("" +:+ r) with r. destruct r as [|c r]; [done|]. cbn [exponent].
    by destruct (ends_not_digit _ c r Hr eq_refl) as (_ & _ & -> & -> & _).
  - rewrite string_app_cons. cbn [exponent]. destruct (Ascii.eqb c "e" || Ascii.eqb c "E"); [|done].
    assert (forall (b : bool) u,
      match span_digits (u +:+ r) with ("", _) => None | (ds, t) => Some ((if b then - digits ds else digits ds), t) end
      = (fun '(e, t) => (e, t +:+ r)) <$>
        match span_digits u with ("", _) => None | (ds, t) => Some ((if b then - digits ds else digits ds), t) end) as Hd.
    { intros b u. destruct (span_digits u) as [d t] eqn:E. rewrite (span_digits_app _ _ _ _ Hr E). by destruct d. }
    destruct s as [|d s].
    + change ("" +:+ r) with r. destruct r as [|d r]; [done|].
      destruct (ends_not_digit _ d r Hr eq_refl) as (_ & _ & _ & _ & -> & ->). apply (Hd false "").
    + rewrite string_app_cons. destruct (Ascii.eqb d "-"); [apply (Hd true)|]. destruct (Ascii.eqb d "+"); [apply (Hd false)|].
      rewrite <- string_app_cons. apply (Hd false (String d s)).
Qed.

Lemma number_app s r v t : ends r = true -> number s = Some (v, t) -> number (s +:+ r) = Some (v, t +:+ r).
Proof.
  intros Hr. destruct s as [|c s]; [done|]. rewrite string_app_cons. unfold number.
  set (rest := fun (neg : bool) '(ds, r0) => match fraction r0, exponent (match fraction r0 with Some (_, r1) => r1 | None => r0 end) with
    | None, None => Some (JInt (if neg then - digits ds else digits ds), r0)
    | fr, ex =>
        let '(fs, r1) := match fr with Some (fs, r1) => (fs, r1) | None => ("", r0) end in
        let '(e, r2) := match ex with Some (e, r2) => (e, r2) | None => (0, r1) end in
        Some (JFloat (of_scaled neg (Z.to_N (digits (ds +:+ fs))) (e - Z.of_nat (String.length fs))), r2)
    end).
  assert (forall neg ds r0, rest neg (ds, r0) = Some (v, t) -> rest neg (ds, r0 +:+ r) = Some (v, t +:+ r)) as Hrest.
  { intros neg ds r0. unfold rest. rewrite (fraction_app r0 r Hr).
    destruct (fraction r0) as [[fs r1]|]; cbn [fmap option_fmap option_map];
      (rewrite exponent_app by done); (destruct (exponent _) as [[e r2]|]; cbn [fmap option_fmap option_map]);
      by intros [= <- <-]. }
  assert (forall neg u, u <> "" ->
    (x ← match u with String c r => if Ascii.eqb c "0" then Some ("0", r) else if is_digit c then Some (span_digits u) else None
         | "" => None end; rest neg x) = Some (v, t) ->
    (x ← match u +:+ r with String c w => if Ascii.eqb c "0" then Some ("0", w) else if is_digit c then Some (span_digits (u +:+ r)) else None
         | "" => None end; rest neg x) = Some (v, t +:+ r)) as Hint.
  { intros neg [|d u]; [done|]. intros _. rewrite string_app_cons. destruct (Ascii.eqb d "0"); [apply Hrest|].
    destruct (is_digit d); [|done]. cbn [mbind option_bind]. rewrite <- string_app_cons.
    destruct (span_digits (String d u)) as [ds r0] eqn:E. rewrite (span_digits_app _ _ _ _ Hr E). apply Hrest. }
  destruct (Ascii.eqb c "-").
  - destruct s as [|d s]; [done|]. exact (Hint true (String d s) ltac:(done)).
  - rewrite <- string_app_cons. exact (Hint false (String c s) ltac:(done)).
Qed.

Lemma keyword_head p v s x c t : keyword p v s = Some x -> p = String c t -> exists u, s = String c u.
Proof.
  unfold keyword. destruct (startswith p s) eqn:E; [|done]. intros _ ->. apply startswith_drop in E. rewrite E.
  by eexists.
Qed.

(** Where a number or a name starts *)
Definition starts (c : ascii) : bool :=
  negb (is_ws c) && negb (Ascii.eqb c QUOTE) && negb (Ascii.eqb c "{") && negb (Ascii.eqb c "[") && negb (Ascii.eqb c "]").

Lemma number_head s x : number s = Some x -> exists c t, s = String c t /\ (c = "-"%char \/ is_digit c = true).
Proof.
  destruct s as [|c s]; [done|]. intros H. exists c, s. split; [done|]. unfold number in H.
  destruct (Ascii.eqb_spec c "-") as [->|]; [by left|]. right.
  destruct (Ascii.eqb_spec c "0") as [->|]; [done|]. by destruct (is_digit c).
Qed.

Lemma constant_head s x : constant s = Some x -> exists c t, s = String c t /\ starts c = true.
Proof.
  assert (forall p v c t, p = String c t -> starts c = true -> keyword p v s <> None -> exists c t, s = String c t /\ starts c = true) as Hk.
  { intros p v c t -> Hc H. destruct (keyword _ v s) eqn:E; [|done].
    destruct (keyword_head _ _ _ _ _ _ E eq_refl) as [u ->]. by exists c, u. }
  intros H. unfold constant in H.
  destruct (keyword "null" _ s) eqn:E1; [by eapply (Hk "null"); [..|rewrite E1]|].
  destruct (keyword "true" _ s) eqn:E2; [by eapply (Hk "true"); [..|rewrite E2]|].
  destruct (keyword "false" _ s) eqn:E3; [by eapply (Hk "false"); [..|rewrite E3]|].
  destruct (number s) eqn:E4.
  { apply number_head in E4 as (c & t & -> & Hc). exists c, t. split; [done|].
    destruct Hc as [->|Hc]; [done|]. revert Hc. by destruct c as [[] [] [] [] [] [] [] []]. }
  destruct (keyword "NaN" _ s) eqn:E5; [by eapply (Hk "NaN"); [..|rewrite E5]|].
  destruct (keyword "Infinity" _ s) eqn:E6; [by eapply (Hk "Infinity"); [..|rewrite E6]|].
  eapply (Hk "-Infinity"); [done|done|]. rewrite H. done.
Qed.

Lemma constant_number s x : number s = Some x -> constant s = Some x.
Proof.
  intros H. destruct (number_head _ _ H) as (c & t & Hs & Hc). unfold constant.
  assert (forall p v d u, p = String d u -> d <> "-"%char -> is_digit d = false -> keyword p v s = None) as Hk.
  { intros p v d u Hp H1 H2. destruct (keyword p v s) eqn:E; [|done].
    destruct (keyword_head _ _ _ _ _ _ E Hp) as [w ->]. injection Hs as -> _. destruct Hc; congruence. }
  rewrite (Hk "null" JNull "n"%char "ull"), (Hk "true" _ "t"%char "rue"), (Hk "false" _ "f"%char "alse") by done.
  by rewrite H.
Qed.

Lemma startswith_app p s r : startswith p s = true -> startswith p (s +:+ r) = true.
Proof. intros [t ->]%startswith_spec. apply startswith_spec. exists (t +:+ r). by rewrite string_app_assoc. Qed.
Lemma drop_str_app p t : drop_str (String.length p) (p +:+ t) = t.
Proof. induction p as [|c p IH]; [by destruct t|exact IH]. Qed.

(** ** Integers *)

Lemma pretty_N_char_digit x : (x < 10)%N -> is_digit (pretty_N_char x) = true /\ digit_val (pretty_N_char x) = Z.of_N x
  /\ (Ascii.eqb (pretty_N_char x) "0" = (x =? 0)%N).
Proof.
  intros H. assert (x = 0 \/ x = 1 \/ x = 2 \/ x = 3 \/ x = 4 \/ x = 5 \/ x = 6 \/ x = 7 \/ x = 8 \/ x = 9)%N as Hx by lia.
  by destruct_or! Hx; subst x.
Qed.

Lemma sforall_snoc f s c : sforall f (s +:+ String c "") = sforall f s && f c.
Proof.
  induction s as [|d s IH]; [by change (f c && true = f c); destruct (f c)|]. rewrite string_app_cons. cbn [sforall]. by rewrite IH, andb_assoc.
Qed.

Lemma pretty_N_go_digits x : (0 < x)%N -> forall s, exists c t,
  pretty_N_go x s = String c t +:+ s /\ Ascii.eqb c "0" = false /\ sforall is_digit (String c t) = true
  /\ forall acc, digits_aux (String c t) acc = acc * 10 ^ Z.of_nat (S (String.length t)) + Z.of_N x.
Proof.
  induction (N.lt_wf_0 x) as [x _ IH]; intros Hx s. rewrite pretty_N_go_step by done.
  pose proof (N.mod_lt x 10 ltac:(lia)) as Hm. destruct (pretty_N_char_digit _ Hm) as (H1 & H2 & H3).
  destruct (decide (x < 10)%N) as [Hs|Hs].
  - rewrite N.div_small by done. rewrite pretty_N_go_0. rewrite N.mod_small in * by done.
    exists (pretty_N_char x), "". split; [done|]. split; [rewrite H3; by apply N.eqb_neq; lia|]. split; [cbn; by rewrite H1|].
    intros acc. cbn [digits_aux String.length]. rewrite H2. change (10 ^ Z.of_nat 1) with 10. lia.
  - assert (x / 10 <> 0)%N as Hd by (intros E%N.div_small_iff; lia).
    destruct (IH (x / 10)%N (N.div_lt x 10 Hx eq_refl) (proj1 (N.neq_0_lt_0 _) Hd) (String (pretty_N_char (x mod 10)) s)) as (c & t & -> & Hc & Hf & Hv).
    exists c, (t +:+ String (pretty_N_char (x mod 10)) ""). split; [|split; [done|split]].
    + rewrite <- !string_app_cons, string_app_assoc. done.
    + rewrite <- string_app_cons, sforall_snoc, Hf, H1. done.
    + intros acc. assert (forall u a b, digits_aux (u +:+ String a "") b = 10 * digits_aux u b + digit_val a) as Happ.
      { intros u a. induction u as [|d u IHu]; intros b; [done|]. rewrite string_app_cons. cbn [digits_aux]. apply IHu. }
      rewrite <- string_app_cons, Happ, Hv, H2, string_length_app. cbn [String.length].
      rewrite Nat.add_1_r, (Nat2Z.inj_succ (S (String.length t))), Z.pow_succ_r by lia.
      pose proof (N.div_mod x 10 ltac:(lia)). nia.
Qed.

Lemma span_digits_all s : sforall is_digit s = true -> span_digits s = (s, "").
Proof.
  induction s as [|c s IH]; [done|]. cbn [sforall span_digits]. intros [-> H]%andb_true_iff. by rewrite (IH H).
Qed.

Lemma number_str_z n : number (str_z n) = Some (JInt n, "").
Proof.
  assert (forall p, exists c t, str_z (Z.pos p) = String c t /\ Ascii.eqb c "0" = false /\ Ascii.eqb c "-" = false /\ is_digit c = true
    /\ span_digits (String c t) = (String c t, "") /\ digits (String c t) = Z.pos p) as Hp.
  { intros p. destruct (pretty_N_go_digits (N.pos p) ltac:(lia) "") as (c & t & E & Hc & Hf & Hv).
    exists c, t. rewrite string_app_nil_r in E. split; [exact E|]. split; [done|].
    pose proof Hf as Hd. cbn [sforall] in Hd. apply andb_true_iff in Hd as [Hd _].
    split; [revert Hd; by destruct c as [[] [] [] [] [] [] [] []]|]. split; [done|].
    split; [by apply span_digits_all|]. unfold digits. by rewrite Hv, Z.mul_0_l. }
  destruct n as [|p|p]; [done| |].
  - destruct (Hp p) as (c & t & -> & H0 & Hm & Hd & Hs & Hv). unfold number. rewrite Hm, H0, Hd, Hs. cbn [mbind option_bind].
    cbn [fraction exponent]. by rewrite Hv.
  - destruct (Hp p) as (c & t & E & H0 & Hm & Hd & Hs & Hv).
    assert (str_z (Z.neg p) = String "-" (String c t)) as -> by (change (String "-" (str_z (Z.pos p)) = String "-" (String c t)); by rewrite E).
    unfold number. change (Ascii.eqb "-" "-") with true. cbn iota. rewrite H0, Hd, Hs. cbn [mbind option_bind].
    cbn [fraction exponent]. by rewrite Hv.
Qed.

(** ** Values *)

Lemma constant_int n r : ends r = true -> constant (str_z n +:+ r) = Some (JInt n, r).
Proof. intros H. apply constant_number. by rewrite (number_app _ _ _ _ H (number_str_z n)). Qed.

Lemma constant_float x r : ends r = true -> reads_back x = true -> constant (dump_float x +:+ r) = Some (JFloat x, r).
Proof.
  intros Hr Hx. destruct x as [z|[]| |b m e].
  - apply constant_number. rewrite (number_app _ _ (JFloat (S754_zero z)) "" Hr) by (by destruct z). done.
  - vm_compute; destruct r; reflexivity.
  - vm_compute; destruct r; reflexivity.
  - vm_compute; destruct r; reflexivity.
  - unfold reads_back in Hx. destruct (number (dump_float (S754_finite b m e))) as [[[| | |y| | |] [|]]|] eqn:En; try done.
    apply bool_decide_eq_true in Hx as ->. apply constant_number. by rewrite (number_app _ _ _ _ Hr En).
Qed.

Lemma skip_ws_starts s c t : s = String c t -> is_ws c = false -> skip_ws s = s.
Proof. intros -> H. unfold skip_ws. cbn [lstrip_by]. by rewrite H. Qed.
Lemma skip_ws_app w s : sforall is_ws w = true -> skip_ws (w +:+ s) = skip_ws s.
Proof.
  intros Hw. induction w as [|c w IH]; [done|]. cbn [sforall] in Hw. apply andb_true_iff in Hw as [Hc Hw].
  rewrite string_app_cons. unfold skip_ws in *. cbn [lstrip_by]. rewrite Hc. by apply IH.
Qed.
Lemma indent_ws d : sforall is_ws (indent d) = true.
Proof. unfold indent. change (sforall is_ws (spaces (2 * d)) = true). by induction (2 * d)%nat. Qed.
Lemma indent_ends d r : ends (indent d +:+ r) = true.
Proof. done. Qed.

(** The head of a printed value *)
Lemma dumps_head d v : printable v = true -> exists c t, dumps d v = String c t /\ is_ws c = false /\ Ascii.eqb c "]" = false.
Proof.
  assert (forall s x, constant (s +:+ "") = Some x -> exists c t, s = String c t /\ is_ws c = false /\ Ascii.eqb c "]" = false) as Hc.
  { intros s x H. rewrite string_app_nil_r in H. destruct (constant_head _ _ H) as (c & t & -> & Hs). exists c, t. split; [done|].
    unfold starts in Hs. destruct (is_ws c), (Ascii.eqb c "]"); try done; by rewrite andb_false_r in Hs. }
  destruct v as [|[]|n|x|s|[|v l]|[|kv l]]; intros Hp; try by eexists _, _.
  - by eapply Hc, (constant_int n "").
  - by eapply Hc, (constant_float x "").
Qed.

Lemma value_constant fuel s v r : constant s = Some (v, r) -> value (S fuel) s = Some (v, r).
Proof.
  intros H. destruct (constant_head _ _ H) as (c & t & -> & Hs). unfold starts in Hs. cbn [value].
  destruct (Ascii.eqb c QUOTE), (Ascii.eqb c "{"), (Ascii.eqb c "["); try done; by destruct (is_ws c).
Qed.

Lemma dict_of_distinct (l : list (string * json)) : base.NoDup l.*1 -> dict_of l = l.
Proof.
  unfold dict_of. intros H. change l with ([] ++ l) at 2. change l.*1 with ((@nil (string * json)).*1 ++ l.*1) in H. revert H.
  generalize (@nil (string * json)) as acc. induction l as [|[k v] l IH]; intros acc H; [by rewrite app_nil_r|].
  change (for_each l (dict_set acc k v) (fun d '(k, v) => dict_set d k v) = acc ++ (k, v) :: l).
  assert (dict_set acc k v = acc ++ [(k, v)]) as ->.
  { apply dict_set_fresh. apply list.NoDup_app in H as (_ & H & _). intros E. eapply H; [exact E|left]. }
  rewrite IH; [by rewrite <- app_assoc|]. rewrite fmap_app, <- app_assoc. exact H.
Qed.

(** The text of the members of an object at depth [d], and of the elements of
    a list, with what closes them. *)
Definition member_text (d : nat) (kv : string * json) : string := dump_string kv.1 +:+ ": " +:+ dumps (S d) kv.2.
Definition members_text (d : nat) (l : list (string * json)) : string :=
  join ("," +:+ indent (S d)) (member_text d <$> l) +:+ indent d +:+ "}".
Definition elements_text (d : nat) (l : list json) : string :=
  join ("," +:+ indent (S d)) (dumps (S d) <$> l) +:+ indent d +:+ "]".

(** After an element: a closing bracket, or a comma and the next one. *)
Definition tail_text (d : nat) (close : string) (more : option string) : string :=
  match more with None => indent d +:+ close | Some t => "," +:+ indent (S d) +:+ t end.

Lemma members_text_cons d kv l :
  members_text d (kv :: l) = member_text d kv +:+ tail_text d "}" (match l with [] => None | _ => Some (members_text d l) end).
Proof.
  unfold members_text. destruct l as [|kv' l]; [done|].
  change (member_text d <$> kv :: kv' :: l) with (member_text d kv :: member_text d kv' :: (member_text d <$> l)).
  rewrite join_cons. cbn [tail_text]. by rewrite !string_app_assoc.
Qed.
Lemma elements_text_cons d v l :
  elements_text d (v :: l) = dumps (S d) v +:+ tail_text d "]" (match l with [] => None | _ => Some (elements_text d l) end).
Proof.
  unfold elements_text. destruct l as [|v' l]; [done|].
  change (dumps (S d) <$> v :: v' :: l) with (dumps (S d) v :: dumps (S d) v' :: (dumps (S d) <$> l)).
  rewrite join_cons. cbn [tail_text]. by rewrite !string_app_assoc.
Qed.

Lemma tail_ends d close more r : ends (tail_text d close more +:+ r) = true.
Proof. by destruct more. Qed.
Lemma tail_close d c r : is_ws c = false -> expect c (skip_ws (tail_text d (String c "") None +:+ r)) = Some r.
Proof.
  intros Hc. cbn [tail_text]. rewrite string_app_assoc, skip_ws_app by apply indent_ws.
  change (String c "" +:+ r) with (String c r). rewrite (skip_ws_starts _ c r) by done. cbn [expect]. by rewrite Ascii.eqb_refl.
Qed.
Lemma tail_more d c close t r : Ascii.eqb "," c = false ->
  expect c (skip_ws (tail_text d close (Some t) +:+ r)) = None
  /\ expect "," (skip_ws (tail_text d close (Some t) +:+ r)) = Some (indent (S d) +:+ t +:+ r).
Proof.
  intros Hc. cbn [tail_text]. rewrite !string_app_assoc.
  rewrite (skip_ws_starts _ "," (indent (S d) +:+ t +:+ r)) by done.
  set (x := indent (S d) +:+ t +:+ r). change ("," +:+ x) with (String "," x). cbn [expect]. by rewrite Hc.
Qed.

Definition printable_member (kv : string * json) : bool := ascii7 kv.1 && printable kv.2.

Section decode.
Context (fuel : nat).
Context (IHv : forall v d r, printable v = true -> ends r = true -> (String.length (dumps d v) <= fuel)%nat ->
  value fuel (dumps d v +:+ r) = Some (v, r)).
Context (IHm : forall l d r, l <> [] -> forallb printable_member l = true -> (String.length (members_text d l) <= fuel)%nat ->
  members fuel (members_text d l +:+ r) = Some (l, r)).
Context (IHe : forall l d r, l <> [] -> forallb printable l = true -> (String.length (elements_text d l) <= fuel)%nat ->
  elements fuel (elements_text d l +:+ r) = Some (l, r)).

Lemma members_step l d r : l <> [] -> forallb printable_member l = true ->
  (String.length (members_text d l) <= S fuel)%nat -> members (S fuel) (members_text d l +:+ r) = Some (l, r).
Proof.
  intros Hl Hp Hf. destruct l as [|[k v] l]; [done|]. cbn [forallb] in Hp. apply andb_true_iff in Hp as [Hkv Hp].
  unfold printable_member in Hkv. cbn [fst snd] in Hkv. apply andb_true_iff in Hkv as [Hk Hv].
  rewrite members_text_cons in *. rewrite !string_length_app in Hf. cbn [member_text fst snd] in *.
  unfold member_text, dump_string in *. cbn [fst snd] in *. rewrite !string_length_app in Hf. cbn [String.length] in Hf.
  set (tl := tail_text d "}" _) in *.
  rewrite !string_app_assoc, string_app_cons. cbn [members expect]. rewrite Ascii.eqb_refl. cbn [mbind option_bind].
  rewrite (scan_literal k _ Hk). cbn [mbind option_bind].
  change (": " +:+ dumps (S d) v +:+ tl +:+ r) with (String ":" (" " +:+ dumps (S d) v +:+ tl +:+ r)).
  rewrite (skip_ws_starts _ ":" _ eq_refl) by done. cbn [expect]. rewrite Ascii.eqb_refl. cbn [mbind option_bind].
  rewrite skip_ws_app by done. destruct (dumps_head (S d) v Hv) as (c & t & Hc & Hws & Hbr).
  rewrite (skip_ws_starts (dumps (S d) v +:+ tl +:+ r) c (t +:+ tl +:+ r)) by (by rewrite ?Hc). 
  rewrite (IHv v (S d) (tl +:+ r) Hv) by (apply tail_ends || lia). cbn [mbind option_bind]. subst tl.
  destruct l as [|kv l]; [by rewrite tail_close|].
  destruct (tail_more d "}" "}" (members_text d (kv :: l)) r eq_refl) as [-> ->]. cbn [mbind option_bind].
  rewrite skip_ws_app by apply indent_ws.
  assert (skip_ws (members_text d (kv :: l) +:+ r) = members_text d (kv :: l) +:+ r) as ->.
  { rewrite members_text_cons. unfold member_text, dump_string. rewrite !string_app_assoc. by eapply skip_ws_starts. }
  cbn [tail_text] in Hf. rewrite !string_length_app in Hf. rewrite IHm by (done || (cbn in Hf; lia)). done.
Qed.

Lemma elements_step l d r : l <> [] -> forallb printable l = true ->
  (String.length (elements_text d l) <= S fuel)%nat -> elements (S fuel) (elements_text d l +:+ r) = Some (l, r).
Proof.
  intros Hl Hp Hf. destruct l as [|v l]; [done|]. cbn [forallb] in Hp. apply andb_true_iff in Hp as [Hv Hp].
  rewrite elements_text_cons in *. rewrite !string_length_app in Hf.
  set (tl := tail_text d "]" _) in *. assert (1 <= String.length tl)%nat as Htl by (subst tl; by destruct l; apply le_n_S, Nat.le_0_l).
  rewrite !string_app_assoc. cbn [elements].
  rewrite (IHv v (S d) (tl +:+ r) Hv) by (apply tail_ends || lia). cbn [mbind option_bind]. subst tl.
  destruct l as [|v' l]; [by rewrite tail_close|].
  destruct (tail_more d "]" "]" (elements_text d (v' :: l)) r eq_refl) as [-> ->]. cbn [mbind option_bind].
  rewrite skip_ws_app by apply indent_ws.
  assert (skip_ws (elements_text d (v' :: l) +:+ r) = elements_text d (v' :: l) +:+ r) as ->.
  { rewrite elements_text_cons. cbn [forallb] in Hp. apply andb_true_iff in Hp as [Hv' _].
    destruct (dumps_head (S d) v' Hv') as (c & t & -> & Hws & _). rewrite !string_app_assoc. by eapply skip_ws_starts. }
  cbn [tail_text] in Hf. rewrite !string_length_app in Hf. rewrite IHe by (done || (cbn in Hf; lia)). done.
Qed.

Lemma value_step v d r : printable v = true -> ends r = true -> (String.length (dumps d v) <= S fuel)%nat ->
  value (S fuel) (dumps d v +:+ r) = Some (v, r).
Proof.
  intros Hp Hr Hf. destruct v as [|[]|n|x|s|[|v l]|[|kv l]].
  - apply value_constant. vm_compute. by destruct r.
  - apply value_constant. vm_compute. by destruct r.
  - apply value_constant. vm_compute. by destruct r.
  - by apply value_constant, constant_int.
  - by apply value_constant, constant_float.
  - cbn [dumps]. unfold dump_string. rewrite string_app_cons. cbn [value]. rewrite Ascii.eqb_refl.
    by rewrite (scan_literal s r Hp).
  - done.
  - assert (dumps d (JList (v :: l)) = String "[" (indent (S d) +:+ elements_text d (v :: l))) as E by done.
    rewrite E in *. rewrite string_app_cons, string_app_assoc. cbn [value].
    change (Ascii.eqb "[" QUOTE) with false. change (Ascii.eqb "[" "{") with false. rewrite Ascii.eqb_refl. cbv iota.
    rewrite skip_ws_app by apply indent_ws. cbn [String.length] in Hf. rewrite string_length_app in Hf.
    pose proof Hp as Hl. cbn [printable forallb] in Hp. apply andb_true_iff in Hp as [Hv _].
    destruct (dumps_head (S d) v Hv) as (c & t & Hc & Hws & Hbr).
    assert (elements_text d (v :: l) +:+ r = String c (t +:+ tail_text d "]" (match l with [] => None | _ => Some (elements_text d l) end) +:+ r)) as Et
      by (rewrite elements_text_cons, Hc; by rewrite !string_app_assoc).
    rewrite (skip_ws_starts _ _ _ Et Hws).
    assert (expect "]" (elements_text d (v :: l) +:+ r) = None) as ->.
    { rewrite Et. cbn [expect]. by rewrite Hbr. }
    rewrite IHe by (done || lia). done.
  - done.
  - assert (dumps d (JObj (kv :: l)) = String "{" (indent (S d) +:+ members_text d (kv :: l))) as E by done.
    rewrite E in *. rewrite string_app_cons, string_app_assoc. cbn [value].
    change (Ascii.eqb "{" QUOTE) with false. rewrite Ascii.eqb_refl. cbv iota.
    rewrite skip_ws_app by apply indent_ws. cbn [String.length] in Hf. rewrite string_length_app in Hf.
    cbn [printable] in Hp. apply andb_true_iff in Hp as [Hd%bool_decide_eq_true Hp].
    assert (exists t, members_text d (kv :: l) +:+ r = String QUOTE t) as [t Et]
      by (rewrite members_text_cons; unfold member_text, dump_string; rewrite !string_app_assoc; by eexists).
    rewrite (skip_ws_starts _ _ _ Et) by done. assert (expect "}" (members_text d (kv :: l) +:+ r) = None) as -> by (by rewrite Et).
    rewrite IHm by (done || lia). cbn [mbind option_bind]. by rewrite dict_of_distinct.
Qed.
End decode.

Lemma decode_dumps fuel :
  (forall v d r, printable v = true -> ends r = true -> (String.length (dumps d v) <= fuel)%nat ->
     value fuel (dumps d v +:+ r) = Some (v, r))
  /\ (forall l d r, l <> [] -> forallb printable_member l = true -> (String.length (members_text d l) <= fuel)%nat ->
     members fuel (members_text d l +:+ r) = Some (l, r))
  /\ (forall l d r, l <> [] -> forallb printable l = true -> (String.length (elements_text d l) <= fuel)%nat ->
     elements fuel (elements_text d l +:+ r) = Some (l, r)).
Proof.
  induction fuel as [|fuel (IHv & IHm & IHe)].
  - split; [|split].
    + intros v d r Hp _ Hf. destruct (dumps_head d v Hp) as (c & t & E & _). rewrite E in Hf. exfalso; inversion Hf.
    + intros [|kv l] d r Hl _ Hf; [done|]. rewrite members_text_cons in Hf. unfold member_text, dump_string in Hf. exfalso; inversion Hf.
    + intros [|v l] d r Hl Hp Hf; [done|]. cbn [forallb] in Hp. apply andb_true_iff in Hp as [Hp _].
      destruct (dumps_head (S d) v Hp) as (c & t & E & _). rewrite elements_text_cons, E in Hf. exfalso; inversion Hf.
  - split; [|split]; intros *; [by apply value_step|intros; by apply members_step|intros; by apply elements_step].
Qed.

(** What [json.dumps(v, indent=2)] wrote, alone in a text or on its lines,
    [json.loads] reads as [v]. *)
Lemma loads_dumps v w : printable v = true -> w = "" \/ w = nl -> loads (dumps 0 v +:+ w) = Some v.
Proof.
  intros Hp Hw. destruct (dumps_head 0 v Hp) as (c & t & E & Hws & _). unfold loads.
  rewrite (skip_ws_starts _ c (t +:+ w)) by (by rewrite ?E).
  destruct (decode_dumps (S (String.length (dumps 0 v +:+ w)))) as [H _].
  rewrite H; [|done|by destruct Hw; subst w|rewrite string_length_app; lia]. cbn [mbind option_bind]. by destruct Hw; subst w.
Qed.

Example loads_dumps_demo :
  let v := JObj [("noise_floor_pct", JFloat (of_decimal 12345 4)); ("rounds", JInt (-20)); ("machine", JStr (String NL (String "127" "M")));
                 ("raw", JList [JNull; JFloat (S754_infinity true); JList []; JObj []; JBool false])] in
  printable v = true /\ loads (dumps 0 v +:+ nl) = Some v.
Proof. vm_compute. done. Qed.
