(* ===== verification/Reports.v ===== *)
(** * Printed reports (scripts/regpressure.py, scripts/validate_clobbers.py)

    What the two command lines print: the pressure table and its aggregates,
    the details of a region and its callers, the comparison of documented with
    computed clobbers, and the machine-readable form of each.  A command is
    the list of the lines it prints and how it ends; its arguments are parsed
    by a library. *)

From Stdlib Require Import Ascii Sorted.
From S2P Require Import Prelude PyInt PyStr Regex AsmParse Abi RegPressure Clobbers Json JsonText.

(** ** Formats *)

(** [f"{s:<n}"], [f"{s:>n}"], [s * n] *)
Definition ljust (n : nat) (s : string) : string := s +:+ spaces (n - String.length s).
Definition rjust (n : nat) (s : string) : string := spaces (n - String.length s) +:+ s.
Fixpoint times (n : nat) (s : string) : string := match n with O => "" | S n => s +:+ times n s end.

(** [s or t] *)
Definition or_else (s t : string) : string := if s =s? "" then t else s.

(** What a command printed, and what it raised. *)
Definition output : Type := list string * option exn.

Definition count_of {X} (f : X -> bool) (l : list X) : string := str_nat (count_if f l).
Definition sum_of {X} (f : X -> nat) (l : list X) : nat := foldr (fun x n => f x + n)%nat 0%nat l.

(** ** regpressure: the report *)

Definition RANK_ORDER : list (string * nat) := [("HIGH", 0); ("MEDIUM", 1); ("LOW", 2); ("NONE", 3)]%nat.
Definition rank_of (r : FunctionInfo) : nat := default 0%nat (dict_get RANK_ORDER (opportunity r).1).

(** The sort key [(rank, -save_restore, -peak)], compared as tuples are. *)
Definition row_before (a b : FunctionInfo) : bool :=
  (rank_of a <? rank_of b)%nat
  || (rank_of a =? rank_of b)%nat
     && ((save_restore b <? save_restore a)%nat
         || (save_restore a =? save_restore b)%nat && (peak b <? peak a)%nat).

Definition REPORT_HEADER : string :=
  ljust 7 "Rank" +:+ ljust 34 "Function" +:+ rjust 5 "Peak" +:+ rjust 5 "Loop" +:+ rjust 5 "Save"
  +:+ rjust 5 "Just" +:+ rjust 5 "S/R" +:+ rjust 5 "Call" +:+ rjust 7 "Stack" +:+ "  Opportunity".

Definition report_row (r : FunctionInfo) : string :=
  let '(rank, reason) := opportunity r in
  ljust 7 rank +:+ ljust 34 (fi_name r) +:+ rjust 5 (str_nat (peak r)) +:+ rjust 5 (str_nat (peak_loop r))
  +:+ rjust 5 (str_nat (length (callee_used r))) +:+ rjust 5 (str_nat (length (callee_justified r)))
  +:+ rjust 5 (str_nat (save_restore r)) +:+ rjust 5 (str_nat (fi_call_sites r))
  +:+ rjust 6 (str_z (frame r)) +:+ "B  " +:+ reason.

(** [max(..)] and [sorted(..)[len // 2]]; the maximum of nothing is an error. *)
Definition max_median (l : list nat) : option (nat * nat) :=
  match l with [] => None | _ => Some (max_of l, nth (length l / 2) (sort_nat l) 0%nat) end.

Definition ranked_rows (rows : list FunctionInfo) : list FunctionInfo := sort_by row_before rows.
Definition shown_rows (rows : list FunctionInfo) : list FunctionInfo :=
  List.filter (fun r => negb ((opportunity r).1 =s? "NONE")) (ranked_rows rows).

Definition report (rows : list FunctionInfo) : output :=
  let ranked := ranked_rows rows in
  let table := REPORT_HEADER :: times 128 "-" :: (report_row <$> shown_rows rows)
    ++ [""; times 128 "="; "AGGREGATE"; times 128 "=";
        "regions analysed                          : " +:+ str_nat (length ranked);
        "  ...reached only via a local .L label    : " +:+ count_of (fun r => negb (fi_is_global r)) ranked] in
  match max_median (peak <$> ranked) with
  | None => (table, Some (ValueError "max() iterable argument is empty"))
  | Some (mx, median) =>
      (table ++ [
        "peak GPR pressure (max / median)          : " +:+ str_nat mx +:+ " / " +:+ str_nat median;
        "functions with peak >= 24 (spill risk)    : " +:+ count_of (fun r => (24 <=? peak r)%nat) ranked;
        "regions containing a loop                 : " +:+ count_of (fun r => negb (loops r =? 0)%nat) ranked;
        "total save/restore instructions           : " +:+ str_nat (sum_of save_restore ranked);
        "functions preserving callee-saved GPRs    : " +:+ count_of (fun r => negb (bool_decide (callee_used r = []))) ranked;
        "  ...with a register never live across a call: " +:+ count_of (fun r => negb (bool_decide (unjustified r = []))) ranked;
        "regions using the carry-flag return ABI   : " +:+ count_of uses_flags_abi ranked;
        "  ...with NZCV live at ret                : " +:+ count_of flags_live_at_ret ranked;
        "exported symbols with no in-tree caller   : "
          +:+ count_of (fun r => fi_is_global r && (fi_call_sites r =? 0)%nat) ranked;
        "  ...and whose address is never taken     : "
          +:+ count_of (fun r => fi_is_global r && (fi_call_sites r =? 0)%nat && is_reachable_dead r) ranked;
        "register-to-register movs                 : " +:+ str_nat (sum_of movs ranked)], None)
  end.

(** ** regpressure: one region *)

Definition yes_no (b : bool) : string := if b then "yes" else "no".
Definition in_parens (l : list string) : string := if bool_decide (l = []) then "" else "  (" +:+ join ", " l +:+ ")".

Definition region_kind (r : FunctionInfo) : string :=
  if fi_is_global r then "exported symbol"
  else "private region (local label" +:+ match fi_enclosing r with
       | Some e => if e =s? "" then "" else ", nested in " +:+ e
       | None => "" end +:+ ")".

Definition detail (r : FunctionInfo) : list string :=
  let '(rank, reason) := opportunity r in
  [fi_name r +:+ "  (" +:+ fi_file r +:+ ")";
   "  kind                    : " +:+ region_kind r;
   "  call sites in src/      : " +:+ str_nat (fi_call_sites r) +:+ in_parens (caller_names r);
   "  instructions            : " +:+ str_nat (fi_insns r);
   "  loops (back edges)      : " +:+ str_nat (loops r);
   "  peak live GPRs          : " +:+ str_nat (peak r) +:+ "  (in loops: " +:+ str_nat (peak_loop r) +:+ ")";
   "  callee-saved used       : " +:+ or_else (join ", " (callee_used r)) "none";
   "  ...justified across call: " +:+ or_else (join ", " (callee_justified r)) "none";
   "  ...unjustified          : " +:+ or_else (join ", " (unjustified r)) "none";
   "  save/restore insns      : " +:+ str_nat (save_restore r);
   "  stack frame             : " +:+ str_z (frame r) +:+ " bytes";
   "  loads / stores          : " +:+ str_nat (RegPressure.loads r) +:+ " / " +:+ str_nat (stores r);
   "  reg-to-reg movs         : " +:+ str_nat (movs r);
   "  call sites out          : " +:+ str_nat (fi_calls r) +:+ in_parens (callees r);
   "  carry-flag return ABI   : " +:+ yes_no (uses_flags_abi r);
   "  NZCV live at ret        : " +:+ yes_no (flags_live_at_ret r);
   "  NZCV writers / readers  : " +:+ str_nat (flag_writers r) +:+ " / " +:+ str_nat (flag_readers r);
   "  clobbers (transitive)   : " +:+ fmt_regs (clobbers r);
   "  preserved (saved+restored): " +:+ or_else (fmt_regs (preserved r)) "none";
   "  opportunity             : " +:+ rank +:+ " -- " +:+ reason].

(** ** regpressure: the command *)

Definition names_json (l : list string) : json := JList (JStr <$> l).
Definition nat_json (n : nat) : json := JInt (Z.of_nat n).

Definition row_json (r : FunctionInfo) : json :=
  JObj [("function", JStr (fi_name r)); ("file", JStr (fi_file r)); ("instructions", nat_json (fi_insns r));
        ("global", JBool (fi_is_global r)); ("local_label", JBool (fi_is_local_label r));
        ("enclosing", match fi_enclosing r with Some e => JStr e | None => JNull end);
        ("call_sites", nat_json (fi_call_sites r)); ("callers", names_json (caller_names r));
        ("loops", nat_json (loops r));
        ("peak_pressure", nat_json (peak r)); ("peak_pressure_loop", nat_json (peak_loop r));
        ("callee_saved_used", names_json (callee_used r));
        ("callee_saved_justified", names_json (callee_justified r));
        ("callee_saved_unjustified", names_json (unjustified r));
        ("save_restore_insns", nat_json (save_restore r)); ("stack_bytes", JInt (frame r));
        ("loads", nat_json (RegPressure.loads r)); ("stores", nat_json (stores r)); ("movs", nat_json (movs r));
        ("calls", nat_json (fi_calls r)); ("carry_flag_abi", JBool (uses_flags_abi r));
        ("flags_live_at_ret", JBool (flags_live_at_ret r));
        ("clobbers", JStr (fmt_regs (clobbers r)));
        ("preserved", JStr (fmt_regs (preserved r)));
        ("opportunity", JStr (opportunity r).1);
        ("reason", JStr (opportunity r).2)].

(** The arguments: [None] or the empty text when absent. *)
Record PressureArgs : Type := { a_function : option string; a_callers : option string; a_json : bool; a_linux : bool }.

(** [if args.x] *)
Definition given (x : option string) : option string :=
  match x with Some s => if s =s? "" then None else Some s | None => None end.

Definition find_row (rows : list FunctionInfo) (n : string) : option FunctionInfo :=
  List.find (fun r => fi_name r =s? n) rows.

Definition callers_report (rows : list FunctionInfo) (n : string) : output :=
  match find_row rows n with
  | None => ([], Some (SystemExit ("region " +:+ repr n +:+ " not found")))
  | Some target =>
      (detail target
       ++ [""; "--- real caller context (" +:+ str_nat (length (caller_names target)) +:+ " caller(s)) ---"]
       ++ (name ← caller_names target;
           match find_row rows name with Some caller => "" :: detail caller | None => [] end), None)
  end.

(** [regpressure.main] after the tree is analysed. *)
Definition pressure_main (args : PressureArgs) (rows : list FunctionInfo) : output :=
  match given (a_callers args) with
  | Some n => callers_report rows n
  | None =>
      let chosen := match given (a_function args) with
                    | Some n => List.filter (fun r => fi_name r =s? n) rows
                    | None => rows end in
      match given (a_function args), chosen with
      | Some n, [] => ([], Some (SystemExit ("function " +:+ repr n +:+ " not found")))
      | f, _ =>
          if a_json args then ([dumps 0 (JList (row_json <$> chosen))], None)
          else match f, chosen with
               | Some _, r :: _ => (detail r, None)
               | _, _ => report chosen
               end
      end
  end.

(** ** validate_clobbers: the command *)

Definition result_json (r : Result) : json :=
  JObj [("function", JStr (r_name r)); ("file", JStr (r_file r)); ("verdict", JStr (verdict r));
        ("documented", JStr (fmt_regs (documented r)));
        ("computed", JStr (fmt_regs (computed r))); ("basis", JStr (basis r));
        ("missing_from_header", JStr (fmt_regs (missing r)));
        ("not_actually_clobbered", JStr (fmt_regs (spurious r)));
        ("flags_documented", JBool (flags_documented r));
        ("flags_computed", JBool (flags_computed r));
        ("header", JStr (r_raw r))].

Definition VERDICT_ORDER : list string := ["UNDERSTATES"; "BOTH"; "OVERSTATES"; "UNPARSED"; "AGREE"].

Definition result_lines (r : Result) : list string :=
  [r_name r +:+ "  (" +:+ r_file r +:+ ")";
   "    header  : " +:+ r_raw r;
   "    computed: " +:+ or_else (fmt_regs (computed r)) "(none)" +:+ "  [" +:+ basis r +:+ "]"]
  ++ (if bool_decide (missing r = ∅) then [] else ["    MISSING from header : " +:+ fmt_regs (missing r)])
  ++ (if bool_decide (spurious r = ∅) then [] else ["    not actually written: " +:+ fmt_regs (spurious r)]).

Definition of_verdict (v : string) (l : list Result) : list Result := List.filter (fun r => verdict r =s? v) l.

(** The results a verdict's group prints, in their order; the group of those
    that agree is left out. *)
Definition group_of_verdict (shown : list Result) (v : string) : list Result :=
  if v =s? "AGREE" then [] else sort_by (fun a b => String.ltb (r_file a) (r_file b)) (of_verdict v shown).

Definition group_lines (shown : list Result) (v : string) : list string :=
  let group := group_of_verdict shown v in
  if bool_decide (group = []) then [] else
  ["===== " +:+ v +:+ " (" +:+ str_nat (length group) +:+ ") " +:+ times 60 "="]
  ++ (group ≫= result_lines) ++ [""].

Definition filter_shown (only : option string) (results : list Result) : list Result :=
  match only with
  | None => results
  | Some v => List.filter (fun r => verdict r =s? upper v) results
  end.

Definition summary_lines (results : list Result) : list string :=
  let claimed := List.filter (fun r => flags_documented r && negb (flags_computed r)) results in
  let silent := List.filter (fun r => flags_computed r && negb (flags_documented r)) results in
  [times 78 "="; ljust 34 "headers checked" +:+ ": " +:+ str_nat (length results)]
  ++ ((fun v => ljust 34 ("  " +:+ v) +:+ ": " +:+ str_nat (length (of_verdict v results))) <$> VERDICT_ORDER)
  ++ [ljust 34 "  header basis: direct" +:+ ": " +:+ count_of (fun r => basis r =s? "direct") results;
      ljust 34 "  header basis: transitive" +:+ ": " +:+ count_of (fun r => basis r =s? "transitive") results;
      ljust 34 "NZCV claimed but never written" +:+ ": " +:+ str_nat (length claimed) +:+ in_parens (r_name <$> claimed);
      ljust 34 "NZCV written but not annotated" +:+ ": " +:+ str_nat (length silent)
        +:+ " (convention gap, not a defect)"].

(** [validate_clobbers.main] *)
Definition clobbers_main (only : option string) (as_json : bool) (results : list Result) : list string :=
  if as_json then [dumps 0 (JList (result_json <$> results))]
  else (VERDICT_ORDER ≫= group_lines (filter_shown only results)) ++ summary_lines results.

(** ** Lemmas: the pressure report *)

(** Not after, in the order of the report. *)
Definition row_le (a b : FunctionInfo) : Prop := row_before b a = false.

Lemma row_le_iff a b : row_le a b <->
  (rank_of a < rank_of b)%nat \/ rank_of a = rank_of b /\
  ((save_restore b < save_restore a)%nat \/ save_restore a = save_restore b /\ (peak b <= peak a)%nat).
Proof.
  unfold row_le, row_before. rewrite !orb_false_iff, !andb_false_iff, !orb_false_iff, !andb_false_iff,
    !Nat.ltb_ge, !Nat.eqb_neq. lia.
Qed.

Lemma ranked_sorted rows : StronglySorted row_le (ranked_rows rows).
Proof.
  apply (sort_by_sorted _ (fun _ => True)).
  - intros x y z _ _ _. rewrite !row_le_iff. lia.
  - intros x y _ _ H. rewrite row_le_iff. unfold row_before in H.
    rewrite !orb_true_iff, !andb_true_iff, !orb_true_iff, !andb_true_iff, !Nat.ltb_lt, !Nat.eqb_eq in H. lia.
  - by intros ????.
  - by apply Forall_true.
Qed.

Lemma sorted_filter {A} (R : relation A) f l : StronglySorted R l -> StronglySorted R (List.filter f l).
Proof.
  induction 1 as [|x l Hs IH Hx]; [constructor|]. cbn [List.filter]. destruct (f x); [|done]. constructor; [done|].
  rewrite list.Forall_forall in *. intros y [Hy _]%list_elem_of_In%filter_In. apply Hx. by apply list_elem_of_In.
Qed.

(** The table has a row for every region with something to report, each once,
    in the order of the sort key; and the report fails only on no regions. *)
Lemma report_table rows :
  shown_rows rows ≡ₚ List.filter (fun r => negb ((opportunity r).1 =s? "NONE")) rows /\
  StronglySorted row_le (shown_rows rows) /\
  (exists rest, (report rows).1 = REPORT_HEADER :: times 128 "-" :: (report_row <$> shown_rows rows) ++ rest) /\
  ((report rows).2 <> None <-> rows = []).
Proof.
  split; [|split; [|split]].
  - unfold shown_rows, ranked_rows. generalize (sort_by_perm row_before rows). generalize (sort_by row_before rows).
    intros l H. induction H as [|x l1 l2 _ IH|x y l1|l1 l2 l3 _ IH1 _ IH2]; [done| | |by etransitivity];
      cbn [List.filter]; repeat case_match; try done; by constructor.
  - apply sorted_filter, ranked_sorted.
  - unfold report. destruct (max_median _) as [[mx median]|]; cbn [fst app]; rewrite <- ?app_assoc; eauto.
  - unfold report, max_median. pose proof (sort_by_perm row_before rows) as Hp. fold (ranked_rows rows) in Hp.
    destruct (ranked_rows rows) as [|r rs]; cbn [fmap list_fmap snd].
    + apply Permutation_nil in Hp as ->. done.
    + split; [done|]. intros ->. by apply Permutation_sym, Permutation_nil in Hp.
Qed.

(** What [--json] prints, [json.loads] reads back. *)
Lemma pressure_json rows args : given (a_callers args) = None -> given (a_function args) = None ->
  a_json args = true -> forallb printable (row_json <$> rows) = true ->
  exists text, pressure_main args rows = ([text], None) /\ Json.loads text = Some (JList (row_json <$> rows)).
Proof.
  intros Hc Hf Hj Hp. unfold pressure_main. rewrite Hc, Hf, Hj. eexists. split; [reflexivity|].
  rewrite <- (string_app_nil_r (dumps _ _)). apply loads_dumps; [exact Hp|by left].
Qed.

(** ** Lemmas: the clobber report *)

Lemma verdict_known region doc info : verdict (judge region doc info) ∈ VERDICT_ORDER.
Proof.
  unfold judge. destruct (d_parsed doc); cbn [negb]; [|by apply (bool_decide_unpack _)].
  destruct (score doc (direct_of info) <=? score doc (transitive_of info))%nat; cbn [verdict];
    repeat case_bool_decide; by apply (bool_decide_unpack _).
Qed.

Lemma validate_judged files linux r : r ∈ validate files linux -> exists region doc info, r = judge region doc info.
Proof.
  unfold validate. destruct (collect files linux) as [rows ix]. cbn zeta. intros (region & Hr & _)%list_elem_of_bind.
  destruct (dict_get _ _) as [doc|]; [|by apply elem_of_nil in Hr].
  destruct (dict_get _ _) as [info|]; [|by apply elem_of_nil in Hr].
  apply list_elem_of_singleton in Hr as ->. eauto.
Qed.

(** An element of a list printed in full is printed somewhere. *)
Lemma bind_infix {A B} (f : A -> list B) l x : x ∈ l -> exists pre post, l ≫= f = pre ++ f x ++ post.
Proof.
  intros (l1 & l2 & ->)%list_elem_of_split. exists (l1 ≫= f), (l2 ≫= f). by rewrite bind_app, bind_cons.
Qed.

Lemma group_infix shown r : r ∈ shown -> verdict r ∈ VERDICT_ORDER -> verdict r <> "AGREE" ->
  exists pre post, VERDICT_ORDER ≫= group_lines shown = pre ++ result_lines r ++ post.
Proof.
  intros Hr Hv Hna. destruct (bind_infix (group_lines shown) VERDICT_ORDER _ Hv) as (pre & post & ->).
  assert (r ∈ group_of_verdict shown (verdict r)) as Hg.
  { unfold group_of_verdict. apply seqb_false in Hna. rewrite Hna, elem_of_sort_by. unfold of_verdict.
    apply list_elem_of_In, filter_In. rewrite seqb_refl. split; [by apply list_elem_of_In|done]. }
  unfold group_lines. rewrite bool_decide_eq_false_2 by (intros E; rewrite E in Hg; by apply elem_of_nil in Hg).
  destruct (bind_infix result_lines _ _ Hg) as (p2 & q2 & ->). set (h := "===== " +:+ _).
  exists (pre ++ [h] ++ p2), (q2 ++ [""] ++ post). by rewrite <- !app_assoc.
Qed.

(** The verdicts' counts add up to the number of headers. *)
Lemma counts_add_up results : Forall (fun r => verdict r ∈ VERDICT_ORDER) results ->
  length results = sum_of (fun v => length (of_verdict v results)) VERDICT_ORDER.
Proof.
  induction 1 as [|r l Hr _ IH]; [done|]. cbn [length]. rewrite IH. unfold VERDICT_ORDER in *. unfold of_verdict, sum_of.
  cbn [foldr List.filter].
  repeat (apply elem_of_cons in Hr as [->|Hr]; [cbn -[List.filter]; lia|]). by apply elem_of_nil in Hr.
Qed.

(** C16: no undocumented clobber goes unreported: for every header the
    validator compares, when some register is written both directly and
    counting callees, and the header neither lists it nor names it as an
    output, the printed report contains that header's entry, with a line
    giving a set of missing registers that the register belongs to. *)
Theorem undocumented_clobber_reported files linux region doc info x :
  let results := validate files linux in
  judge region doc info ∈ results -> d_parsed doc = true ->
  x ∈ direct_of info -> x ∈ transitive_of info -> x ∉ d_clobbers doc -> x ∉ d_outputs doc ->
  let r := judge region doc info in
  x ∈ missing r /\
  ("    MISSING from header : " +:+ fmt_regs (missing r)) ∈ result_lines r /\
  (exists pre post, clobbers_main None false results = pre ++ result_lines r ++ post) /\
  length results = sum_of (fun v => length (of_verdict v results)) VERDICT_ORDER.
Proof.
  intros results Hin Hp Hd Ht Hc Ho r. pose proof (judge_verdict region doc info) as H. fold r in H. cbv zeta in H.
  rewrite Hp in H. destruct H as (Hcomp & _ & _ & Hm & Hs & _ & _ & _ & _ & _).
  assert (x ∈ missing r) as Hx.
  { rewrite Hm. unfold missing_of. rewrite !elem_of_difference. destruct Hcomp as [-> | ->]; done. }
  assert (missing r <> ∅) as Hne by (intros E; rewrite E in Hx; by apply elem_of_empty in Hx).
  split; [done|]. split; [|split].
  - unfold result_lines. rewrite (bool_decide_eq_false_2 _ Hne). set_solver.
  - assert (verdict r <> "AGREE") as Hv.
    { intros E. pose proof (judge_verdict region doc info) as H. fold r in H. cbv zeta in H. rewrite Hp in H.
      destruct H as (_ & _ & _ & _ & _ & _ & Hu & _ & Hb & _).
      destruct (decide (spurious r = ∅)) as [Es|Es]; [apply proj2 in Hu|apply proj2 in Hb];
        [specialize (Hu (conj Hne Es))|specialize (Hb (conj Hne Es))]; congruence. }
    destruct (group_infix results r Hin (verdict_known region doc info) Hv) as (pre & post & E).
    unfold clobbers_main, filter_shown. rewrite E, <- !app_assoc. eauto.
  - apply counts_add_up. apply list.Forall_forall. intros r' (region' & doc' & info' & ->)%validate_judged.
    apply verdict_known.
Qed.

(** A function whose header leaves [x9] out. *)
Definition demo_tree : tree :=
  [("src/a.S", join nl ["// Function Name: f"; "//"; "// Clobbered Registers: x0"; ".global f"; "f:";
                        "    mov x0, #1"; "    mov x9, x0"; "    ret"; ""])].

Definition demo_case : option (Region * Documented * FunctionInfo) :=
  let '(rows, ix) := collect demo_tree true in
  region ← head (regions ix);
  doc ← dict_get (resolve_references (header_docs (regions ix))) "f";
  info ← head rows;
  Some (region, doc, info).

Lemma demo_case_ok : match demo_case with
  | Some (region, doc, info) =>
      validate demo_tree true = [judge region doc info] /\
      (d_parsed doc && bool_decide ("x9" ∈ direct_of info) && bool_decide ("x9" ∈ transitive_of info)
       && bool_decide ("x9" ∉ d_clobbers doc) && bool_decide ("x9" ∉ d_outputs doc)) = true
  | None => False
  end.
Proof. vm_compute. split; reflexivity. Qed.

Lemma undocumented_clobber_reported_witness : exists r, "x9" ∈ missing r /\
  exists pre post, clobbers_main None false (validate demo_tree true) = pre ++ result_lines r ++ post.
Proof.
  pose proof demo_case_ok as H. destruct demo_case as [[[region doc] info]|]; [|destruct H].
  destruct H as [E H]. rewrite !andb_true_iff, !bool_decide_eq_true in H. destruct H as ((((H1 & H2) & H3) & H4) & H5).
  destruct (undocumented_clobber_reported demo_tree true region doc info "x9") as (Hx & _ & Hout & _);
    [rewrite E; left|exact H1|exact H2|exact H3|exact H4|exact H5|].
  exists (judge region doc info). split; [exact Hx|exact Hout].
Defined.

(** Asking for the headers that agree shows none of them. *)
Lemma agree_shows_nothing results : clobbers_main (Some "AGREE") false results = summary_lines results.
Proof.
  unfold clobbers_main, filter_shown.
  assert (forall v, v ∈ VERDICT_ORDER -> group_lines (List.filter (fun r => verdict r =s? upper "AGREE") results) v = []) as H.
  { intros v Hv. unfold group_lines. rewrite bool_decide_eq_true_2; [done|]. unfold group_of_verdict.
    destruct (v =s? "AGREE") eqn:E; [done|]. apply seqb_false in E.
    assert (of_verdict v (List.filter (fun r => verdict r =s? upper "AGREE") results) = []) as ->; [|done].
    unfold of_verdict. induction results as [|r l IH]; [done|]. cbn [List.filter].
    destruct (verdict r =s? upper "AGREE") eqn:E1; [|done]. cbn [List.filter]. apply seqb_true in E1.
    destruct (verdict r =s? v) eqn:E2; [|done]. apply seqb_true in E2. exfalso. apply E. by rewrite <- E2, E1. }
  by rewrite (proj2 (bind_nil _ _) H).
Qed.
