(* ===== verification/Vectors.v ===== *)
(** * Generated test vectors

    The C test files the derivations print for the assembly: the vectors of
    [p256_reduce], [p256_fe_mul], [p256_scalar_mont_mul], [p256_scalar_inv],
    [p256_point_add_affine], [p256_point_mul_base], and the CTR length sweep.
    Random draws and OpenSSL are arguments.  A reference reader takes the
    hexadecimal literals out of a text again; what it finds is what the
    register-faithful models of the routines under test compute. *)

From Stdlib Require Import Ascii.
From stdpp Require Import pretty.
From S2P Require Import Prelude Json JsonText PyInt Words Reduce PrimeField Comb FeMul ScalarInv PyStr Emitted GcmCtr.

(** In the fixed lines below a tilde stands for a double quote. *)
Definition quote : string -> string := smap (fun c => if Ascii.eqb c "~" then QUOTE else c).

(** [f"0x{v:016x}ULL"], and limbs joined with commas *)
Definition c_hex (v : Z) : string := "0x" +:+ hex_pad 16 v +:+ "ULL".
Definition hex_list (ws : list Z) : string := join ", " (c_hex <$> ws).

(** ** p256_reduce *)

Definition reduce_head : list string := quote <$>
  ["// Unit tests for p256_reduce (P-256 Solinas-style folding reduction)";
   "//";
   "// Vectors generated by scripts/p256_reduce_derivation.py gen-test, a";
   "// Python arbitrary-precision reference (pow(x, 1, p) against the real";
   "// NIST P-256 prime) -- not derived from this repo's assembly -- so a";
   "// shared bug would not hide itself. See scripts/p256_reduce_derivation.py.";
   "";
   "#include ~test_harness.h~";
   "";
   "extern void p256_reduce(uint64_t out[4], const uint64_t T[8])";
   "    __asm__(~p256_reduce~);";
   "";
   "struct reducevec { uint64_t T[8]; uint64_t r[4]; };"]%string.

Definition reduce_foot : list string := quote <$>
  ["};";
   "";
   "static void test_reduce(void) {";
   "    TEST_SUITE(~p256_reduce — T mod p, canonical, against a Python oracle~);";
   "";
   "    for (int i = 0; i < NVECS; i++) {";
   "        uint64_t out[4];";
   "        p256_reduce(out, VECS[i].T);";
   "        ASSERT_EQ(~T mod p~, 0, memcmp(out, VECS[i].r, sizeof(out)));";
   "    }";
   "}";
   "";
   "int main(void) {";
   "    test_reduce();";
   "    test_summary();";
   "    return 0;";
   "}"]%string.

(** [emit] *)
Definition reduce_T (x : Z) : list Z := (fun k : nat => Z.land (Z.shiftr x (64 * Z.of_nat k)) MASK) <$> seq 0 8.
Definition reduce_R (x : Z) : list Z := (fun k : nat => Z.land (Z.shiftr (x mod P) (64 * Z.of_nat k)) MASK) <$> seq 0 4.
Definition emit_vector (x : Z) : string :=
  let x := Z.land x (Z.shiftl 1 512 - 1) in
  "    { { " +:+ hex_list (reduce_T x) +:+ " }, { " +:+ hex_list (reduce_R x) +:+ " } },".

(** [cmd_gen_test]; [rnd] are the random 512-bit values. *)
Definition reduce_vecs (rnd : list Z) : list Z := edge_cases ++ rnd.
Definition reduce_test (rnd : list Z) : string :=
  let vecs := reduce_vecs rnd in
  join nl (reduce_head ++ ["#define NVECS " +:+ str_nat (length vecs); "static const struct reducevec VECS[NVECS] = {"]
           ++ (emit_vector <$> vecs) ++ reduce_foot) +:+ nl.

(** ** p256_fe_mul *)

Definition FE_MUL_CMD : string := "python3 scripts/p256_fe_mul_derivation.py".

Definition fe_mul_head : list string := quote <$>
  ["// Unit tests for p256_fe_mul's unrolled 4x4 product";
   "//";
   "// GENERATED FILE -- do not edit by hand. Regenerate with:";
   "//   " ++ FE_MUL_CMD ++ " gen-test > tests/unit/test_p256/mul_carry.c";
   "//";
   "// tests/unit/test_p256/mul.c already covers p256_fe_mul on";
   "// ordinary values. This file exists for the *carry chain*: when";
   "// p256_fe_mul stopped calling p256_bn_mul's generic loop and";
   "// grew its own unrolled product, the risk moved from the";
   "// algorithm (unchanged -- schoolbook) to the hand-written carry";
   "// propagation, so the vectors here are chosen to drive that:";
   "// operands that maximise every row's carry-out, operands whose";
   "// product occupies only the high or only the low limbs, and";
   "// inputs at and above the modulus.";
   "//";
   "// Expected values come from Python's arbitrary-precision";
   "// integers ((a*b) % p), which share no limb-splitting or carry";
   "// logic with the assembly under test. The generator additionally";
   "// cross-checks itself against `cryptography` (OpenSSL) by";
   "// computing whole public keys through the modelled carry chain";
   "// -- see " ++ FE_MUL_CMD ++ " interop.";
   "//";
   "// Aliasing is tested explicitly: the unrolled product reads both";
   "// operands into registers before it writes anything, so out may";
   "// alias a, b, or both -- p256_point_add_affine and p256_fe_inv";
   "// both rely on that (`p256_fe_sqr(x, x)`).";
   "";
   "#include ~test_harness.h~";
   "";
   "extern void p256_fe_mul(uint64_t out[4], const uint64_t a[4],";
   "                        const uint64_t b[4])";
   "    __asm__(~p256_fe_mul~);";
   "extern void p256_fe_sqr(uint64_t out[4], const uint64_t a[4])";
   "    __asm__(~p256_fe_sqr~);";
   "";
   "struct mulvec { uint64_t a[4], b[4], prod[4]; const char *why; };";
   "";
   "static const struct mulvec VECS[] = {"]%string.

Definition fe_mul_mid : list string := quote <$>
  ["};";
   "#define NVECS ((int)(sizeof VECS / sizeof VECS[0]))";
   "";
   "// p256_fe_sqr is a trampoline into p256_fe_mul (it sets b = a";
   "// and falls through), so it shares the product entirely. These";
   "// pin that down rather than assuming it.";
   "static const struct { uint64_t a[4], sq[4]; } SQRS[] = {"]%string.

Definition fe_mul_foot : list string := quote <$>
  ["};";
   "#define NSQRS ((int)(sizeof SQRS / sizeof SQRS[0]))";
   "";
   "static void test_fe_mul_carry(void) {";
   "    TEST_SUITE(~p256_fe_mul carry chain~);";
   "";
   "    for (int i = 0; i < NVECS; i++) {";
   "        uint64_t out[4], t[4];";
   "        p256_fe_mul(out, VECS[i].a, VECS[i].b);";
   "        ASSERT_EQ(VECS[i].why, 0, memcmp(out, VECS[i].prod, 32));";
   "";
   "        // out aliases a: the product reads both operands into";
   "        // registers before writing anything.";
   "        memcpy(t, VECS[i].a, 32);";
   "        p256_fe_mul(t, t, VECS[i].b);";
   "        ASSERT_EQ(~out == a~, 0, memcmp(t, VECS[i].prod, 32));";
   "";
   "        // out aliases b";
   "        memcpy(t, VECS[i].b, 32);";
   "        p256_fe_mul(t, VECS[i].a, t);";
   "        ASSERT_EQ(~out == b~, 0, memcmp(t, VECS[i].prod, 32));";
   "    }";
   "";
   "    for (int i = 0; i < NSQRS; i++) {";
   "        uint64_t out[4], t[4];";
   "        p256_fe_sqr(out, SQRS[i].a);";
   "        ASSERT_EQ(~p256_fe_sqr~, 0, memcmp(out, SQRS[i].sq, 32));";
   "";
   "        // squaring in place -- p256_fe_inv does exactly this";
   "        memcpy(t, SQRS[i].a, 32);";
   "        p256_fe_sqr(t, t);";
   "        ASSERT_EQ(~p256_fe_sqr in place~, 0,";
   "                  memcmp(t, SQRS[i].sq, 32));";
   "";
   "        // out == a == b through p256_fe_mul itself";
   "        memcpy(t, SQRS[i].a, 32);";
   "        p256_fe_mul(t, t, t);";
   "        ASSERT_EQ(~out == a == b~, 0, memcmp(t, SQRS[i].sq, 32));";
   "    }";
   "}";
   "";
   "int main(void) {";
   "    test_fe_mul_carry();";
   "    test_summary();";
   "    return 0;";
   "}"]%string.

Definition fe_limbs (v : Z) : string := "{" +:+ hex_list (words v) +:+ "}".

(** [add]: a pair of operands, reduced to 256 bits and not repeated. *)
Definition fe_case : Type := Z * Z * string.
Definition add_case (s : list fe_case * gset (Z * Z)) (c : fe_case) : list fe_case * gset (Z * Z) :=
  let '(cases, seen) := s in
  let '(a, b, why) := c in
  let key := (a mod Z.shiftl 1 256, b mod Z.shiftl 1 256) in
  if decide (key ∈ seen) then s else (cases ++ [(key, why)], {[key]} ∪ seen).

Definition FE_CASES : list fe_case :=
  let top := Z.shiftl 1 256 - 1 in
  [(top, top, "all-ones squared: every row carry maximal");
   (top, 1, "all-ones x 1: row 0 only, t[4] = 0");
   (1, top, "1 x all-ones: one limb product per row");
   (P - 1, P - 1, "(p-1)^2: the largest canonical field element");
   (P - 1, 2, "(p-1)*2: reduction must fire");
   (0, top, "0 x all-ones: whole product zero");
   (top, 0, "all-ones x 0: aliasing of the zero case");
   (Z.shiftl 1 255, Z.shiftl 1 255, "2^255 squared: single high bit into t[7]");
   (Z.shiftl MASK 192, Z.shiftl MASK 192, "top limbs only: product lives in t[6..7]");
   (MASK, MASK, "low limbs only: product lives in t[0..1]");
   (Z.lor (Z.shiftl MASK 192) MASK, Z.lor (Z.shiftl MASK 192) MASK, "sparse limbs, both ends");
   (P, P, "p x p: input at the modulus, not below it");
   (P + 1, P + 1, "(p+1)^2: input above the modulus");
   (Z.shiftl 1 192, Z.shiftl 1 64, "pure limb shift: t[4] set with no carry in");
   (0xAAAAAAAAAAAAAAAA, 0x5555555555555555, "alternating bit patterns")]%string.

Definition fe_cases (rnd : list (Z * Z)) : list fe_case :=
  (for_each (FE_CASES ++ ((fun '(a, b) => (a, b, "random"%string)) <$> rnd)) ([], ∅) add_case).1.

Definition fe_vector (c : fe_case) : list string :=
  let '(a, b, why) := c in
  ["    { " +:+ fe_limbs a +:+ ","; "      " +:+ fe_limbs b +:+ ","; "      " +:+ fe_limbs ((a * b) mod P) +:+ ",";
   quote "      ~" +:+ why +:+ quote "~ },"].
Definition sqr_vector (a : Z) : list string :=
  ["    { " +:+ fe_limbs a +:+ ","; "      " +:+ fe_limbs ((a * a) mod P) +:+ " },"].

Definition sqr_cases (cases : list fe_case) : list Z := (fun c : fe_case => c.1.1) <$> take 20 cases.

(** [gen_test]; [rnd] are the random pairs. *)
Definition fe_mul_test (rnd : list (Z * Z)) : string :=
  let cases := fe_cases rnd in
  join nl (fe_mul_head ++ (cases ≫= fe_vector) ++ fe_mul_mid
           ++ (sqr_cases cases ≫= sqr_vector) ++ fe_mul_foot) +:+ nl.

(** ** p256_scalar_mont_mul and p256_scalar_inv *)

Definition mont_head : list string := quote <$>
  ["// Unit tests for p256_scalar_mont_mul -- Montgomery multiplication";
   "// mod n (out = a * b * R^-1 mod n, R = 2^256).";
   "//";
   "// GENERATED FILE -- do not edit by hand. Regenerate with:";
   "//   " ++ GEN_CMD ++ " gen-test-mont \";
   "//       > tests/unit/test_p256_scalar/mont_mul.c";
   "//";
   "// Expected values come from Python big-integer arithmetic against";
   "// the published order n, not from the assembly under test. The";
   "// vectors deliberately include the operand pairs that stress the";
   "// carry chains -- both operands near n-1, values above 2^255, and";
   "// the R^2 constant the real entry-to-Montgomery step uses.";
   "";
   "#include ~test_harness.h~";
   "";
   "extern void p256_scalar_mont_mul(uint64_t out[4], const uint64_t a[4],";
   "                                 const uint64_t b[4])";
   "    __asm__(~p256_scalar_mont_mul~);";
   "extern void p256_fe_frombytes(uint64_t out[4], const uint8_t in[32])";
   "    __asm__(~p256_fe_frombytes~);";
   "extern void p256_fe_tobytes(uint8_t out[32], const uint64_t in[4])";
   "    __asm__(~p256_fe_tobytes~);";
   "";
   "struct mmvec { uint8_t a[32], b[32], want[32]; };"]%string.

Definition mont_foot : list string := quote <$>
  ["};";
   "";
   "static void test_mont_mul(void) {";
   "    TEST_SUITE(~p256_scalar_mont_mul — a*b*R^-1 mod n~);";
   "    for (int i = 0; i < NMM; i++) {";
   "        uint64_t a[4], b[4], out[4];";
   "        uint8_t outb[32];";
   "        p256_fe_frombytes(a, MMS[i].a);";
   "        p256_fe_frombytes(b, MMS[i].b);";
   "        p256_scalar_mont_mul(out, a, b);";
   "        p256_fe_tobytes(outb, out);";
   "        ASSERT_EQ(~a*b*R^-1 mod n~, 0, memcmp(outb, MMS[i].want, 32));";
   "    }";
   "";
   "    // out may alias either input: the routine loads both operands";
   "    // into registers up front and stores only at the end.";
   "    for (int i = 0; i < NMM; i++) {";
   "        uint64_t a[4], b[4];";
   "        uint8_t outb[32];";
   "        p256_fe_frombytes(a, MMS[i].a);";
   "        p256_fe_frombytes(b, MMS[i].b);";
   "        p256_scalar_mont_mul(a, a, b);";
   "        p256_fe_tobytes(outb, a);";
   "        ASSERT_EQ(~aliasing out == a~, 0, memcmp(outb, MMS[i].want, 32));";
   "        p256_fe_frombytes(a, MMS[i].a);";
   "        p256_fe_frombytes(b, MMS[i].b);";
   "        p256_scalar_mont_mul(b, a, b);";
   "        p256_fe_tobytes(outb, b);";
   "        ASSERT_EQ(~aliasing out == b~, 0, memcmp(outb, MMS[i].want, 32));";
   "        p256_fe_frombytes(a, MMS[i].a);";
   "        p256_scalar_mont_mul(a, a, a);";
   "        p256_fe_tobytes(outb, a);";
   "        uint64_t sq[4], a2[4];";
   "        p256_fe_frombytes(a2, MMS[i].a);";
   "        p256_scalar_mont_mul(sq, a2, a2);";
   "        uint8_t sqb[32];";
   "        p256_fe_tobytes(sqb, sq);";
   "        ASSERT_EQ(~aliasing out == a == b~, 0, memcmp(outb, sqb, 32));";
   "    }";
   "}";
   "";
   "int main(void) {";
   "    test_mont_mul();";
   "    test_summary();";
   "    return 0;";
   "}"]%string.

(** [c_bytes]: the big-endian bytes, eight to a line *)
Definition byte_token (x : Z) : string := "0x" +:+ hex_pad 2 x +:+ ",".
Definition byte_row (row : list Z) : string := "      " +:+ join " " (byte_token <$> row).
Definition c_bytes (v : Z) : result string :=
  b ← py_to_bytes 32 v;
  Ret (join nl ((fun i => byte_row (bytes_slice (8 * i) (8 * i + 8) b)) <$> seq 0 4)).

Definition mont_cases (rnd : list (Z * Z)) : list (Z * Z) :=
  let n := ScalarInv.N in
  ((fun '(a, b) => (a mod n, b mod n)) <$>
    [(0, 0); (1, 1); (1, RR); (0, RR); (n - 1, n - 1); (n - 1, RR);
     (RR, RR); (2, RR); (n - 1, 1); (1, n - 1); (n / 2, n / 2);
     (n - 1, n - 2); (Z.shiftl 1 255, RR); (MASK, RR)]) ++ rnd.

Definition mont_vector (ab : Z * Z) : result (list string) :=
  let '(a, b) := ab in
  rinv ← py_inv_mod R ScalarInv.N;
  let want := (a * b * rinv) mod ScalarInv.N in
  ta ← c_bytes a; tb ← c_bytes b; tw ← c_bytes want;
  Ret (["    { {"; ta; "    }, {"; tb; "    }, {"; tw; "    } },"]).

(** The loop over the cases, in any of the generators. *)
Definition vectors_of {A} (f : A -> result (list string)) (cases : list A) : result (list string) :=
  for_result cases [] (fun out c => ls ← f c; Ret (out ++ ls)).

(** [gen_test_mont]; [rnd] are the random pairs below the order. *)
Definition mont_test (rnd : list (Z * Z)) : result string :=
  let cases := mont_cases rnd in
  rows ← vectors_of mont_vector cases;
  Ret (join nl (mont_head ++ ["#define NMM " +:+ str_nat (length cases); "static const struct mmvec MMS[NMM] = {"]
                ++ rows ++ mont_foot)).

Definition inv_head : list string := quote <$>
  ["// Unit tests for p256_scalar_inv — scalar inversion mod n, the";
   "// P-256 group order.";
   "//";
   "// GENERATED FILE -- do not edit by hand. Regenerate with:";
   "//   " ++ GEN_CMD ++ " gen-test-inv \";
   "//       > tests/unit/test_p256_scalar/inv.c";
   "//";
   "// Expected values are computed independently in Python against the";
   "// real published order n, not derived from the assembly under test.";
   "// The inputs cover the whole 4-limb range rather than just [1, n-1]:";
   "// p256_ecdsa_sign_with_k feeds its nonce straight from";
   "// p256_fe_frombytes without reducing mod n first, so 0, n, n+1 and";
   "// 2^256-1 are all reachable and must behave as (a mod n)^(n-2).";
   "";
   "#include ~test_harness.h~";
   "";
   "extern void p256_scalar_inv(uint64_t out[4], const uint64_t a[4])";
   "    __asm__(~p256_scalar_inv~);";
   "extern void p256_scalar_mul(uint64_t out[4], const uint64_t a[4],";
   "                            const uint64_t b[4])";
   "    __asm__(~p256_scalar_mul~);";
   "extern void p256_fe_frombytes(uint64_t out[4], const uint8_t in[32])";
   "    __asm__(~p256_fe_frombytes~);";
   "extern void p256_fe_tobytes(uint8_t out[32], const uint64_t in[4])";
   "    __asm__(~p256_fe_tobytes~);";
   "";
   "struct scinvvec { uint8_t a[32], inv[32]; };"]%string.

Definition inv_foot : list string := quote <$>
  ["};";
   "";
   "static void test_inv(void) {";
   "    TEST_SUITE(~p256_scalar_inv — a^-1 mod n~);";
   "    for (int i = 0; i < NSCINV; i++) {";
   "        uint64_t a[4], out[4];";
   "        uint8_t outb[32];";
   "        p256_fe_frombytes(a, SCINVS[i].a);";
   "        p256_scalar_inv(out, a);";
   "        p256_fe_tobytes(outb, out);";
   "        ASSERT_EQ(~a^-1 mod n~, 0, memcmp(outb, SCINVS[i].inv, 32));";
   "    }";
   "";
   "    // Independent of the vectors above: a * a^-1 must be 1 mod n,";
   "    // checked through p256_scalar_mul, which shares no code with";
   "    // the Montgomery path p256_scalar_inv now runs on.";
   "    for (int i = 0; i < NSCINV; i++) {";
   "        uint64_t a[4], ainv[4], one[4];";
   "        uint8_t oneb[32];";
   "        p256_fe_frombytes(a, SCINVS[i].a);";
   "        int zero = 1;";
   "        for (int j = 0; j < 32; j++) if (SCINVS[i].inv[j]) zero = 0;";
   "        if (zero) continue;          // a == 0 mod n has no inverse";
   "        p256_scalar_inv(ainv, a);";
   "        p256_scalar_mul(one, a, ainv);";
   "        p256_fe_tobytes(oneb, one);";
   "        int ok = (oneb[31] == 1);";
   "        for (int j = 0; j < 31; j++) if (oneb[j] != 0) ok = 0;";
   "        ASSERT_EQ(~a * a^-1 == 1~, 1, ok);";
   "    }";
   "}";
   "";
   "int main(void) {";
   "    test_inv();";
   "    test_summary();";
   "    return 0;";
   "}"]%string.

Definition inv_vals (rnd : list Z) : list Z :=
  let n := ScalarInv.N in
  [1; 2; 3; 4; 7; 0x10; 0xFF; n - 1; n - 2; n - 3; n / 2; n / 2 + 1; 0; n; n + 1; n + 2;
   R - 1; Z.shiftl 1 255; Z.shiftl 1 255 - 1; RR; N0INV] ++ rnd.

Definition inv_vector (a : Z) : result (list string) :=
  let inv := py_pow_mod (a mod ScalarInv.N) (ScalarInv.N - 2) ScalarInv.N in
  ta ← c_bytes (a mod Z.shiftl 1 256); ti ← c_bytes inv;
  Ret (["    { {"; ta; "    }, {"; ti; "    } },"]).

(** [gen_test_inv]; [rnd] are the random scalars. *)
Definition inv_test (rnd : list Z) : result string :=
  let vals := inv_vals rnd in
  rows ← vectors_of inv_vector vals;
  Ret (join nl (inv_head ++ ["#define NSCINV " +:+ str_nat (length vals);
                             "static const struct scinvvec SCINVS[NSCINV] = {"] ++ rows ++ inv_foot)).

(** ** p256_point_add_affine and p256_point_mul_base *)

Definition madd_head : list string := quote <$>
  ["// Unit tests for src/crypto/p256_point/add_affine.S";
   "//";
   "// GENERATED by scripts/p256_comb_derivation.py gen-test-madd.";
   "// Do not hand-edit: every expected value below came from the same";
   "// validated Python reference the assembly was ported from, and";
   "// each was independently checked against the affine oracle";
   "// (to_affine(madd(...)) == aff_add(...)) before emission.";
   "//";
   "// P1 is deliberately in non-normalized Jacobian form (random Z),";
   "// which is what p256_point_mul_base's accumulator actually is;";
   "// a formula that only handled Z == 1 would pass a naive test.";
   "";
   "#include ~test_harness.h~";
   "";
   "extern void p256_point_add_affine(uint64_t out[12], const uint64_t p1[12],";
   "                                  const uint64_t aff[8])";
   "    __asm__(~p256_point_add_affine~);";
   "";
   "struct madd_vec {";
   "    uint64_t p1[12];";
   "    uint64_t aff[8];";
   "    uint64_t want[12];";
   "};";
   ""]%string.

Definition madd_foot : list string := quote <$>
  ["};";
   "";
   "static int eq12(const uint64_t a[12], const uint64_t b[12]) {";
   "    for (int i = 0; i < 12; i++)";
   "        if (a[i] != b[i])";
   "            return 0;";
   "    return 1;";
   "}";
   "";
   "int main(void) {";
   "    TEST_SUITE(~p256_point_add_affine~);";
   "";
   "    for (int i = 0; i < NMADD; i++) {";
   "        uint64_t out[12];";
   "        p256_point_add_affine(out, VECS[i].p1, VECS[i].aff);";
   "        ASSERT_EQ(~Jacobian + affine matches reference~, 1,";
   "                  eq12(out, VECS[i].want));";
   "    }";
   "";
   "    // out aliasing p1 must work: mul_base adds into its accumulator";
   "    // in place.";
   "    {";
   "        uint64_t buf[12];";
   "        for (int i = 0; i < 12; i++)";
   "            buf[i] = VECS[0].p1[i];";
   "        p256_point_add_affine(buf, buf, VECS[0].aff);";
   "        ASSERT_EQ(~out aliasing p1 matches reference~, 1,";
   "                  eq12(buf, VECS[0].want));";
   "    }";
   "";
   "    test_summary();";
   "    return 0;";
   "}"]%string.

Definition flat (cs : list Z) : string := join ", " (cs ≫= fun c => c_hex <$> limbs c).

Definition madd_row : Type := jac * (Z * Z) * jac.

Section madd_rows.
(** [rnd.randrange(lo, hi)], with the state of the generator *)
Context {St : Type} (randrange : Z -> Z -> St -> Z * St).

(** One turn of the loop: a row, or nothing when the points share [x]. *)
Definition madd_turn (first : bool) (s : St) : result (option madd_row) * St :=
  let '(k1, s) := randrange 1 Comb.N s in
  let '(k2, s) := randrange 1 Comb.N s in
  match aff_mul k1 G, aff_mul k2 G with
  | Ret (Some (x1, y1)), Ret (Some (x2, y2)) =>
      if x1 =? x2 then (Ret None, s) else
      let '(z, s) := if first then (1, s) else randrange 1 P s in
      let p1 := ((x1 * z) mod P * z mod P, (y1 * z) mod P * z mod P * z mod P, z) in
      let got := madd p1 x2 y2 in
      ((want ← aff_add (Some (x1, y1)) (Some (x2, y2));
        _ ← py_assert (bool_decide (Some (to_affine got) = want)) "madd disagrees with the oracle";
        Ret (Some (p1, (x2, y2), got))), s)
  | Raise e, _ => (Raise e, s)
  | Ret _, Raise e => (Raise e, s)
  | Ret None, Ret _ => (Raise TypeError, s)
  | Ret (Some _), Ret None => (Raise TypeError, s)
  end.

(** [while len(rows) < 24] *)
Fixpoint madd_rows (fuel : nat) (rows : list madd_row) (s : St) : result (list madd_row) :=
  if (24 <=? length rows)%nat then Ret rows else
  match fuel with
  | O => Raise OutOfFuel
  | S fuel =>
      let '(r, s) := madd_turn (bool_decide (rows = [])) s in
      row ← r;
      madd_rows fuel (rows ++ match row with Some row => [row] | None => [] end) s
  end.

Definition madd_vector (row : madd_row) : list string :=
  let '(p1, p2, want) := row in
  let list3 := fun '((x, y, z) : jac) => [x; y; z] in
  ["    {"; "        {" +:+ flat (list3 p1) +:+ "},"; "        {" +:+ flat [p2.1; p2.2] +:+ "},";
   "        {" +:+ flat (list3 want) +:+ "},"; "    },"].

(** [gen_test_madd] *)
Definition madd_test (fuel : nat) (s : St) : result string :=
  rows ← madd_rows fuel [] s;
  Ret (join nl (madd_head ++ ["#define NMADD " +:+ str_nat (length rows);
                              "static const struct madd_vec VECS[NMADD] = {"]
                ++ (rows ≫= madd_vector) ++ madd_foot) +:+ nl)%string.
End madd_rows.

Definition mulb_head : list string := quote <$>
  ["// Unit tests for src/crypto/p256_point/mul_base.S";
   "//";
   "// GENERATED by scripts/p256_comb_derivation.py gen-test-mulb.";
   "// Do not hand-edit. Every expected value was produced by the";
   "// hardware-faithful Python reference and independently checked";
   "// against the textbook affine double-and-add oracle, which is in";
   "// turn cross-checked against the `cryptography` package (OpenSSL)";
   "// by `p256_comb_derivation.py interop`.";
   "//";
   "// Includes the cases only the comb has: k = 0 and k = n (product";
   "// is infinity -> (0,0)), scalars with many leading zero nibbles";
   "// (the infinity-masking path), and k >= n unreduced -- which is";
   "// what p256_ecdsa_sign_with_k actually passes, since it feeds the";
   "// nonce straight from p256_fe_frombytes.";
   "";
   "#include ~test_harness.h~";
   "";
   "extern void p256_point_mul_base(uint64_t outx[4], uint64_t outy[4],";
   "                                const uint64_t k[4])";
   "    __asm__(~p256_point_mul_base~);";
   "extern void p256_point_mul(uint64_t outx[4], uint64_t outy[4],";
   "                           const uint64_t k[4], const uint64_t inx[4],";
   "                           const uint64_t iny[4])";
   "    __asm__(~p256_point_mul~);";
   ""]%string.

Definition mulb_struct : list string := quote <$>
  ["";
   "struct mulb_vec {";
   "    uint64_t k[4];";
   "    uint64_t x[4];";
   "    uint64_t y[4];";
   "};";
   ""]%string.

Definition mulb_foot : list string := quote <$>
  ["};";
   "";
   "static int eq4(const uint64_t a[4], const uint64_t b[4]) {";
   "    for (int i = 0; i < 4; i++)";
   "        if (a[i] != b[i])";
   "            return 0;";
   "    return 1;";
   "}";
   "";
   "int main(void) {";
   "    TEST_SUITE(~p256_point_mul_base — k*G against the validated reference~);";
   "";
   "    for (int i = 0; i < NMULB; i++) {";
   "        uint64_t x[4], y[4];";
   "        p256_point_mul_base(x, y, VECS[i].k);";
   "        ASSERT_EQ(~k*G x matches reference~, 1, eq4(x, VECS[i].x));";
   "        ASSERT_EQ(~k*G y matches reference~, 1, eq4(y, VECS[i].y));";
   "    }";
   "";
   "    TEST_SUITE(~p256_point_mul_base — agrees with generic p256_point_mul~);";
   "";
   "    for (int i = 0; i < NMULB; i++) {";
   "        uint64_t bx[4], by[4], gx[4], gy[4];";
   "        p256_point_mul_base(bx, by, VECS[i].k);";
   "        p256_point_mul(gx, gy, VECS[i].k, GX, GY);";
   "        ASSERT_EQ(~comb x == double-and-add x~, 1, eq4(bx, gx));";
   "        ASSERT_EQ(~comb y == double-and-add y~, 1, eq4(by, gy));";
   "    }";
   "";
   "    test_summary();";
   "    return 0;";
   "}"]%string.

Definition mulb_ks (rnd : list Z) : list Z :=
  [0; 1; 2; 15; 16; 17; 255; Comb.N - 1; Comb.N; 2 ^ 256 - 1;
   0x0F0F0F0F0F0F0F0F0F0F0F0F0F0F0F0F0F0F0F0F0F0F0F0F0F0F0F0F0F0F0F0F;
   0xF0F0F0F0F0F0F0F0F0F0F0F0F0F0F0F0F0F0F0F0F0F0F0F0F0F0F0F0F0F0F0F0] ++ rnd.

Definition mulb_vector (table : list (list point)) (k : Z) : result (list string) :=
  got ← comb_mul_base k table;
  want ← oracle_mul_base k;
  _ ← py_assert (bool_decide (got = want)) "comb disagrees with the oracle";
  Ret ["    {"; "        {" +:+ hex_list (limbs k) +:+ "},"; "        {" +:+ hex_list (limbs got.1) +:+ "},";
       "        {" +:+ hex_list (limbs got.2) +:+ "},"; "    },"].

(** [gen_test_mulb]; [rnd] are the random scalars. *)
Definition mulb_test (rnd : list Z) : result string :=
  let ks := mulb_ks rnd in
  table ← build_table;
  rows ← vectors_of (mulb_vector table) ks;
  Ret (join nl (mulb_head ++ ["static const uint64_t GX[4] = {" +:+ hex_list (limbs GX) +:+ "};";
                              "static const uint64_t GY[4] = {" +:+ hex_list (limbs GY) +:+ "};"]
                ++ mulb_struct ++ ["#define NMULB " +:+ str_nat (length ks);
                                   "static const struct mulb_vec VECS[NMULB] = {"]
                ++ rows ++ mulb_foot) +:+ nl)%string.

(** ** The CTR length sweep *)

Definition sweep_head : list string := quote <$>
  ["// ── CTR length sweep ─────────────────────────────────────────────────";
   "// Generated by scripts/gcm_ctr_sweep_derivation.py -- do not hand-edit.";
   "//";
   "// The NIST vectors above cover plaintext lengths 0, 16, 60 and 64 only.";
   "// encrypt.S runs the CTR keystream four blocks at a time, so correctness";
   "// turns on the number of leftover full blocks (0-3) after the last";
   "// complete group and on the partial-tail size, independently. These";
   "// lengths cover that grid. Expected values come from a reference";
   "// cross-checked against OpenSSL for every length 0..300.";
   ""]%string.

Definition sweep_struct : list string := quote <$>
  ["struct sweep_vec {";
   "    const char *name;";
   "    const uint8_t *aad; uint64_t aad_len;";
   "    const uint8_t *pt;  uint64_t pt_len;";
   "    const uint8_t *ct;  const uint8_t *tag;";
   "};";
   "";
   "static const struct sweep_vec SWEEP[] = {"]%string.

Definition LENGTHS : list nat :=
  [0; 1; 15; 16; 17; 31; 32; 33; 47; 48; 63; 64; 65; 79; 80; 95; 96; 112; 127; 128; 129; 160; 176; 191; 192]%nat.

(** [bytes.fromhex] of the key and the nonce *)
Definition KEY : list Z := to_bytes_be 16 0xfeffe9928665731c6d6a8f9467308308.
Definition IV : list Z := to_bytes_be 12 0xcafebabefacedbaddecaf888.

(** [carr]: an array of bytes, wrapped at 74 columns *)
Definition carr_step (s : list string * string) (x : Z) : list string * string :=
  let '(lines, cur) := s in
  let tok := byte_token x in
  let '(lines, cur) := if (74 <? String.length cur + String.length tok)%nat
                       then (lines ++ [rstrip cur], "    "%string) else (lines, cur) in
  (lines, cur +:+ tok +:+ " ").
Definition carr (name : string) (b : list Z) : string :=
  match b with
  | [] => "static const uint8_t " +:+ name +:+ "[1] = { 0 };  // len 0, unused"
  | _ =>
      let '(lines, cur) := for_each b ([], "    "%string) carr_step in
      "static const uint8_t " +:+ name +:+ "[" +:+ str_nat (length b) +:+ "] = {" +:+ nl
      +:+ join nl (lines ++ [rstrip_chars "," (rstrip cur)]) +:+ nl +:+ "};"
  end.

Section sweep.
Context (ek : list Z -> list Z -> list Z).
Context (openssl_seal : list Z -> list Z -> list Z -> list Z -> list Z * list Z).

Definition sweep_arrays (n : nat) : result (list string) :=
  let '(pt, aad) := (sweep_pt n, sweep_aad n) in
  let '(ct, tag) := seal ek KEY IV aad pt in
  _ ← py_assert (bool_decide ((ct, tag) = openssl_seal KEY IV aad pt)) "ref differs";
  Ret (((fun '(suffix, data) => carr ("SW" +:+ str_nat n +:+ "_" +:+ suffix) data) <$>
         [("AAD", aad); ("PT", pt); ("CT", ct); ("TAG", tag)]%string) ++ [""%string]).

Definition sweep_row (n : nat) : string :=
  let N := str_nat n in
  quote "    { ~len=" +:+ N +:+ quote "~, SW" +:+ N +:+ "_AAD, " +:+ str_nat (n mod 37) +:+ ", SW" +:+ N +:+ "_PT, "
  +:+ N +:+ ", SW" +:+ N +:+ "_CT, SW" +:+ N +:+ "_TAG },".

(** [emit] *)
Definition sweep_test : result string :=
  arrays ← vectors_of sweep_arrays LENGTHS;
  Ret (join nl (sweep_head ++ [carr "SWEEP_KEY" KEY; carr "SWEEP_IV" IV; ""] ++ arrays
                ++ sweep_struct ++ (sweep_row <$> LENGTHS) ++ ["};"]))%string.
End sweep.

(** ** A reference reader

    The hexadecimal literals of a C text, in order. *)
Inductive lex : Type := Plain | Zero | Hex (acc : Z).
#[export] Instance lex_eq_dec : EqDecision lex.
Proof. solve_decision. Defined.

Definition after_char (c : ascii) : lex := if Ascii.eqb c "0" then Zero else Plain.
Fixpoint read_hex (st : lex) (s : string) : list Z * lex :=
  match s with
  | "" => ([], st)
  | String c s =>
      match st with
      | Plain => read_hex (after_char c) s
      | Zero => if Ascii.eqb c "x" then read_hex (Hex 0) s else read_hex (after_char c) s
      | Hex acc => match Emitted.hex_val c with
                   | Some d => read_hex (Hex (16 * acc + d)) s
                   | None => let '(l, st) := read_hex Plain s in (acc :: l, st)
                   end
      end
  end.
Definition literals (text : string) : list Z :=
  let '(l, st) := read_hex Plain text in match st with Hex acc => l ++ [acc] | _ => l end.

(** ** Lemmas: reading *)

Lemma read_hex_app st a b : read_hex st (a +:+ b) =
  let '(l1, st1) := read_hex st a in let '(l2, st2) := read_hex st1 b in (l1 ++ l2, st2).
Proof.
  revert st. induction a as [|c a IH]; intros st; [change ("" +:+ b) with b; cbn [read_hex]; by destruct (read_hex st b)|].
  rewrite string_app_cons. cbn [read_hex]. destruct st as [| |acc]; [apply IH|destruct (Ascii.eqb c "x"); apply IH|].
  destruct (Emitted.hex_val c); [apply IH|]. rewrite IH. destruct (read_hex Plain a) as [l1 st1].
  by destruct (read_hex st1 b).
Qed.

(** [s] has the literals [vs], and leaves the reader between words. *)
Definition emits (s : string) (vs : list Z) : Prop := read_hex Plain s = (vs, Plain).
Definition line_emits (s : string) (vs : list Z) : Prop := emits (s +:+ nl) vs.

Lemma emits_app a b xs ys : emits a xs -> emits b ys -> emits (a +:+ b) (xs ++ ys).
Proof. unfold emits. intros Ha Hb. by rewrite read_hex_app, Ha, Hb. Qed.

Lemma emits_quiet s vs : bool_decide (read_hex Plain s = (vs, Plain)) = true -> emits s vs.
Proof. apply bool_decide_eq_true. Qed.

Lemma literals_line s vs : line_emits s vs -> literals s = vs /\ literals (s +:+ nl) = vs.
Proof.
  unfold line_emits, emits, literals. intros H. rewrite H. split; [|done]. rewrite read_hex_app in H.
  destruct (read_hex Plain s) as [l st]. destruct st as [| |acc]; cbn in H; injection H as <-; by rewrite ?app_nil_r.
Qed.

Lemma emits_join sep l vss : emits sep [] -> Forall2 emits l vss -> emits (join sep l) (concat vss).
Proof.
  intros Hs H. induction H as [|x v l vss Hx H IH]; [done|]. destruct H as [|y w l vss Hy H].
  - cbn [concat]. by rewrite app_nil_r.
  - rewrite join_cons. cbn [concat] in *. rewrite <- (app_nil_l (w ++ _)). by repeat apply emits_app.
Qed.

Lemma lines_emit l vss : l <> [] -> Forall2 line_emits l vss -> line_emits (join nl l) (concat vss).
Proof.
  intros Hne H. induction H as [|x v l vss Hx H IH]; [done|]. destruct H as [|y w l vss Hy H].
  - cbn [concat]. by rewrite app_nil_r.
  - unfold line_emits in *. rewrite join_cons, !string_app_assoc, <- string_app_assoc. cbn [concat].
    apply emits_app; [exact Hx|]. by apply IH.
Qed.

(** Lines without a literal *)
Definition quiet_lines (l : list string) : bool :=
  forallb (fun s => bool_decide (read_hex Plain (s +:+ nl) = ([], Plain))) l.

Lemma quiet_emit l : quiet_lines l = true -> Forall2 line_emits l (replicate (length l) []).
Proof.
  unfold quiet_lines. induction l as [|s l IH]; [constructor|]. cbn [forallb]. intros [Hs Hl]%andb_true_iff.
  cbn [length replicate]. constructor; [|by apply IH]. by apply emits_quiet.
Qed.

Lemma concat_quiet {A} n : concat (replicate n ([] : list A)) = [].
Proof. induction n as [|n IH]; [done|exact IH]. Qed.

(** Numbers: hexadecimal digits are read, decimal ones are not. *)
Lemma read_hex_low k v acc : read_hex (Hex acc) (hex_low k v) = ([], Hex (acc * 16 ^ Z.of_nat k + v mod 16 ^ Z.of_nat k)).
Proof.
  revert v. induction k as [|k IH]; intros v; cbn [hex_low].
  - change (([] : list Z, Hex acc) = ([], Hex (acc * 1 + v mod 1))). by rewrite Z.mod_1_r, Z.add_0_r, Z.mul_1_r.
  - rewrite read_hex_app, IH. cbn [read_hex].
    destruct (hex_digit_ok (v mod 16)) as [-> _]; [apply Z.mod_pos_bound; lia|]. cbn [app]. do 2 f_equal.
    rewrite Nat2Z.inj_succ, Z.pow_succ_r, (Z.rem_mul_r v 16) by lia. lia.
Qed.

Lemma read_literal k v : 0 <= v < 16 ^ Z.of_nat k -> read_hex Plain ("0x" +:+ hex_low k v) = ([], Hex v).
Proof.
  intros Hv. change (read_hex Plain ("0x" +:+ hex_low k v)) with (read_hex (Hex 0) (hex_low k v)).
  rewrite read_hex_low, Z.mod_small by done. by rewrite Z.mul_0_l.
Qed.

Lemma c_hex_emits v : word v -> emits (c_hex v) [v].
Proof.
  intros Hv. unfold c_hex. destruct (hex_pad_word v Hv) as [-> _]. unfold emits.
  rewrite <- string_app_assoc, read_hex_app, read_literal; [done|].
  unfold word in Hv. change (16 ^ Z.of_nat 16) with (2 ^ 64). lia.
Qed.

Lemma emits_words {A} (f : A -> string) (g : A -> Z) (P : A -> Prop) sep l : emits sep [] ->
  (forall x, P x -> emits (f x) [g x]) -> Forall P l -> emits (join sep (f <$> l)) (g <$> l).
Proof.
  intros Hs Hf H. assert (concat ((fun x => [g x]) <$> l) = g <$> l) as <-.
  { clear H. induction l as [|x l IH]; [done|]. cbn. by rewrite <- IH. }
  apply emits_join; [done|]. induction H as [|x l Hx _ IH]; cbn; constructor; auto.
Qed.

Lemma hex_list_emits ws : Forall word ws -> emits (hex_list ws) ws.
Proof.
  intros H. rewrite <- (list_fmap_id ws) at 2. apply (emits_words c_hex id word); [done|exact c_hex_emits|exact H].
Qed.

Lemma digits_quiet s st : sforall is_digit s = true -> st = Plain \/ st = Zero ->
  exists st', read_hex st s = ([], st') /\ (st' = Plain \/ st' = Zero).
Proof.
  revert st. induction s as [|c s IH]; intros st; [intros _ H; by exists st|]. cbn [sforall]. intros [Hc Hs]%andb_true_iff Hst.
  assert (Ascii.eqb c "x" = false) as Hx by (destruct (Ascii.eqb_spec c "x") as [->|]; done).
  assert (after_char c = Plain \/ after_char c = Zero) as Ha by (unfold after_char; destruct (Ascii.eqb c "0"); auto).
  destruct Hst as [-> | ->]; cbn [read_hex]; rewrite ?Hx; by apply IH.
Qed.

Lemma str_nat_digits n : sforall is_digit (str_nat n) = true.
Proof.
  destruct n as [|n]; [done|]. destruct (pretty_N_go_digits (N.of_nat (S n)) ltac:(lia) "") as (c & t & E & _ & Hd & _).
  rewrite string_app_nil_r in E. change (str_nat (S n)) with (pretty_N_go (N.of_nat (S n)) ""). by rewrite E.
Qed.

Lemma number_quiet a n t : emits a [] -> emits t [] -> read_hex Zero t = ([], Plain) -> emits (a +:+ str_nat n +:+ t) [].
Proof.
  intros Ha Ht Hz. unfold emits in *. rewrite !read_hex_app, Ha, read_hex_app.
  destruct (digits_quiet (str_nat n) Plain (str_nat_digits n) (or_introl eq_refl)) as (st & -> & Hst).
  by destruct Hst; subst st; rewrite ?Ht, ?Hz.
Qed.

(** [#define NAME 24] *)
Lemma define_quiet a n : emits a [] -> line_emits (a +:+ str_nat n) [].
Proof. intros Ha. unfold line_emits. rewrite string_app_assoc. by apply number_quiet. Qed.

(** *** Blocks of lines *)

Definition block_emits (ls : list string) (vs : list Z) : Prop := exists vss, Forall2 line_emits ls vss /\ concat vss = vs.

Lemma block_quiet ls : quiet_lines ls = true -> block_emits ls [].
Proof. intros H. exists (replicate (length ls) []). split; [by apply quiet_emit|apply concat_quiet]. Qed.
Lemma block_line s vs : line_emits s vs -> block_emits [s] vs.
Proof. intros H. exists [vs]. split; [by repeat constructor|apply app_nil_r]. Qed.
Lemma block_both l1 l2 v1 v2 : block_emits l1 v1 -> block_emits l2 v2 -> block_emits (l1 ++ l2) (v1 ++ v2).
Proof. intros (w1 & H1 & <-) (w2 & H2 & <-). exists (w1 ++ w2). split; [by apply Forall2_app|apply concat_app]. Qed.
Lemma block_cons s l v vs : line_emits s v -> block_emits l vs -> block_emits (s :: l) (v ++ vs).
Proof. intros Hs. apply (block_both [s]). by apply block_line. Qed.
Lemma block_bind {A} (f : A -> list string) (g : A -> list Z) l :
  Forall (fun x => block_emits (f x) (g x)) l -> block_emits (l ≫= f) (l ≫= g).
Proof. induction 1 as [|x l Hx _ IH]; [by exists []|]. cbn. by apply block_both. Qed.

Lemma block_map {A} (f : A -> string) (g : A -> list Z) l : (forall x, line_emits (f x) (g x)) -> block_emits (f <$> l) (l ≫= g).
Proof. intros H. induction l as [|x l IH]; [by exists []|]. cbn. by apply block_cons. Qed.

Lemma block_quiet_app l1 l2 vs : quiet_lines l1 = true -> block_emits l2 vs -> block_emits (l1 ++ l2) vs.
Proof. intros H. apply (block_both l1 l2 []). by apply block_quiet. Qed.
Lemma block_framed s t ls v vs : quiet_lines [s] = true -> line_emits t v -> block_emits ls vs -> block_emits (s :: t :: ls) (v ++ vs).
Proof. intros Hs Ht Hl. apply (block_quiet_app [s]); [done|]. by apply block_cons. Qed.
Lemma block_framed_last s t foot v : quiet_lines [s] = true -> line_emits t v -> quiet_lines foot = true -> block_emits (s :: t :: foot) v.
Proof. intros Hs Ht Hf. rewrite <- (app_nil_r v). apply block_framed; [done|done|by apply block_quiet]. Qed.
Lemma block_before ls foot vs : block_emits ls vs -> quiet_lines foot = true -> block_emits (ls ++ foot) vs.
Proof. intros H Hf. rewrite <- (app_nil_r vs). apply block_both; [done|by apply block_quiet]. Qed.

(** A file of vectors: a heading, the number of vectors, the vectors, the test. *)
Lemma block_counted head a n decl rows foot vs : quiet_lines head = true -> emits a [] -> quiet_lines [decl] = true ->
  block_emits rows vs -> quiet_lines foot = true -> block_emits (head ++ [a +:+ str_nat n; decl] ++ rows ++ foot) vs.
Proof.
  intros Hh Ha Hd Hr Hf. apply block_quiet_app; [done|]. apply (block_cons _ _ []); [by apply define_quiet|].
  apply (block_quiet_app [decl]); [done|]. by apply block_before.
Qed.

Lemma block_join ls vs : ls <> [] -> block_emits ls vs -> line_emits (join nl ls) vs.
Proof. intros Hne (vss & H & <-). by apply lines_emit. Qed.
Lemma block_unended ls vs : ls <> [] -> block_emits ls vs -> literals (join nl ls) = vs.
Proof. intros Hne H. by apply literals_line, block_join. Qed.
Lemma block_file ls vs : ls <> [] -> block_emits ls vs -> literals (join nl ls +:+ nl) = vs.
Proof. intros Hne H. by apply literals_line, block_join. Qed.

Lemma vectors_block {A} (f : A -> result (list string)) (g : A -> list Z) l :
  Forall (fun x => exists ls, f x = Ret ls /\ block_emits ls (g x)) l ->
  exists rows, vectors_of f l = Ret rows /\ block_emits rows (l ≫= g).
Proof.
  intros H. apply (for_result_ind (fun pre out => block_emits out (pre ≫= g))); [by exists []|].
  intros pre x post out -> Hout. apply list.Forall_app in H as [_ [(ls & -> & Hb) _]%list.Forall_cons].
  eexists. split; [done|]. rewrite bind_app. cbn. rewrite app_nil_r. by apply block_both.
Qed.

(** ** Lemmas: what each generator writes *)

(** [text] lists [n] vectors, and [ok] holds of each. *)
Definition vectors_pass (text : string) (n : nat) (ok : list Z -> Prop) : Prop :=
  exists rows, length rows = n /\ literals text = concat rows /\ Forall ok rows.

Lemma bind_concat {A B} (g : A -> list B) l : l ≫= g = concat (g <$> l).
Proof. induction l as [|x l IH]; [done|]. cbn. by rewrite <- IH. Qed.

Lemma vectors_pass_map {A} text (g : A -> list Z) l ok : literals text = l ≫= g -> Forall (fun x => ok (g x)) l ->
  vectors_pass text (length l) ok.
Proof.
  intros H Hok. exists (g <$> l). rewrite length_fmap, H, bind_concat. split_and!; [done|done|].
  by apply list.Forall_fmap.
Qed.

Lemma hex_line a b ws : emits a [] -> line_emits b [] -> Forall word ws -> line_emits (a +:+ hex_list ws +:+ b) ws.
Proof.
  intros Ha Hb Hw. unfold line_emits in *. rewrite !string_app_assoc.
  replace ws with ([] ++ ws ++ []) at 2 by by rewrite app_nil_r.
  apply emits_app; [done|]. apply emits_app; [by apply hex_list_emits|done].
Qed.

(** *** p256_reduce *)

Definition limb (v : Z) (k : nat) : Z := Z.land (Z.shiftr v (64 * Z.of_nat k)) MASK.

Lemma limbs_word v a n : Forall word (limb v <$> seq a n).
Proof. apply list.Forall_fmap, list.Forall_true. intros k. apply word_land. Qed.

Lemma limbs_V v n a : V (limb v <$> seq a n) = Z.shiftr v (64 * Z.of_nat a) mod 2 ^ (64 * Z.of_nat n).
Proof.
  revert a. induction n as [|n IH]; intros a; [by rewrite Z.mod_1_r|]. cbn [seq fmap list_fmap V]. change (list_fmap _ _ (limb v)) with (fmap (limb v)).
  rewrite IH. unfold limb. rewrite land_MASK, !Nat2Z.inj_succ.
  replace (64 * Z.succ (Z.of_nat a)) with (64 * Z.of_nat a + 64) by lia.
  replace (64 * Z.succ (Z.of_nat n)) with (64 + 64 * Z.of_nat n) by lia.
  rewrite <- Z.shiftr_shiftr, shiftr_64, Z.pow_add_r, (Z.rem_mul_r _ (2 ^ 64)) by lia. lia.
Qed.

Lemma reduce_T_value x : 0 <= x < 2 ^ 512 -> value (reduce_T x) = x.
Proof. intros Hx. rewrite value_V. assert (reduce_T x = limb x <$> seq 0 8) as -> by done. rewrite limbs_V, Z.shiftr_0_r. by apply Z.mod_small. Qed.

Lemma reduce_R_words x : reduce_R x = words (x mod P).
Proof. done. Qed.

Lemma mod_P_u256 x : 0 <= x mod P < 2 ^ 256.
Proof. pose proof P_range. pose proof (Z.mod_pos_bound x P). lia. Qed.

Lemma emit_vector_emits x : line_emits (emit_vector x) (reduce_T (Z.land x (Z.shiftl 1 512 - 1)) ++ reduce_R (Z.land x (Z.shiftl 1 512 - 1))).
Proof.
  unfold emit_vector. set (y := Z.land _ _). cbv zeta. unfold line_emits. rewrite !string_app_assoc.
  apply (emits_app _ _ [] (reduce_T y ++ reduce_R y)); [done|].
  apply emits_app; [apply hex_list_emits, limbs_word|].
  apply (emits_app _ _ [] (reduce_R y)); [done|]. replace (reduce_R y) with (reduce_R y ++ []) at 2 by apply app_nil_r.
  apply emits_app; [apply hex_list_emits, limbs_word|done].
Qed.

(** A row of the reduction's vectors: what the model of the routine returns. *)
Definition reduce_row_ok (row : list Z) : Prop := exists T r, row = T ++ r /\ length T = 8%nat /\ length r = 4%nat /\
  reduce_full T = Ret (value r).

Lemma reduce_test_passes rnd : vectors_pass (reduce_test rnd) (length (reduce_vecs rnd)) reduce_row_ok.
Proof.
  apply (vectors_pass_map _ (fun x => let y := Z.land x (Z.shiftl 1 512 - 1) in reduce_T y ++ reduce_R y)).
  - unfold reduce_test. cbv zeta. apply block_file; [done|].
    apply block_counted; [done|done|done| |done]. apply block_map, emit_vector_emits.
  - apply list.Forall_true. intros x. cbv zeta. set (y := Z.land _ _).
    assert (0 <= y < 2 ^ 512) as Hy.
    { unfold y. change (Z.shiftl 1 512 - 1) with (Z.ones 512). rewrite Z.land_ones by lia. by apply Z.mod_pos_bound. }
    exists (reduce_T y), (reduce_R y). split_and!; [done|done|done|].
    rewrite (reduce_full_mod (reduce_T y)); [|done|apply limbs_word].
    by rewrite <- value_V, reduce_T_value, reduce_R_words, value_words by auto using mod_P_u256.
Qed.

(** *** p256_fe_mul *)

(** A comment string that holds no literal. *)
Definition why_quiet (why : string) : bool := quiet_lines [quote "      ~" +:+ why +:+ quote "~ },"].

Definition fe_case_ok (c : fe_case) : Prop := u256 c.1.1 /\ u256 c.1.2 /\ why_quiet c.2 = true.

Lemma FE_CASES_quiet : forallb (fun c : fe_case => why_quiet c.2) FE_CASES = true.
Proof. vm_compute. reflexivity. Qed.

(** The cases are 256-bit operands, and no pair occurs twice. *)
Lemma fe_cases_ok rnd : Forall fe_case_ok (fe_cases rnd) /\ base.NoDup (fst <$> fe_cases rnd).
Proof.
  unfold fe_cases. set (all := FE_CASES ++ _).
  assert (Forall (fun c : fe_case => why_quiet c.2 = true) all) as Hall.
  { apply list.Forall_app. split.
    - pose proof FE_CASES_quiet as H. rewrite forallb_forall in H. apply list.Forall_forall. intros c Hc. by apply H, list_elem_of_In.
    - apply list.Forall_fmap, list.Forall_true. by intros [a b]. }
  pose proof (for_each_ind (fun pre (s : list fe_case * gset (Z * Z)) =>
    Forall fe_case_ok s.1 /\ base.NoDup (fst <$> s.1) /\ forall k, k ∈ fst <$> s.1 <-> k ∈ s.2) add_case all ([], ∅)) as H.
  destruct H as (H1 & H2 & _); [by split_and!; [constructor|constructor|set_solver]| |by split].
  intros pre [[a b] why] post [cases seen] E (Hok & Hnd & Hin). cbn [fst snd] in *. unfold add_case. cbn zeta.
  set (key := (_, _)). case_decide as Hk; [by split_and!|]. cbn [fst snd]. rewrite fmap_app. change (fst <$> [(key, why)]) with [key].
  split; [apply list.Forall_app; split; [done|apply list.Forall_singleton]|split].
  - rewrite E in Hall. apply list.Forall_app in Hall as [_ [Hw _]%list.Forall_cons].
    split_and!; [| |exact Hw]; apply Z.mod_pos_bound; done.
  - apply list.NoDup_app. split_and!; [exact Hnd| |apply NoDup_singleton].
    intros k Hk1 Hk2%list_elem_of_singleton. subst k. by apply Hk, Hin.
  - intros k. rewrite elem_of_app, list_elem_of_singleton, Hin, elem_of_union, elem_of_singleton. tauto.
Qed.

Definition mul_row (c : fe_case) : list Z := words c.1.1 ++ words c.1.2 ++ words ((c.1.1 * c.1.2) mod P).
Definition sqr_row (a : Z) : list Z := words a ++ words ((a * a) mod P).

Lemma limbs_line a v b : emits a [] -> line_emits b [] -> line_emits (a +:+ fe_limbs v +:+ b) (words v).
Proof.
  intros Ha Hb. unfold fe_limbs. rewrite !string_app_assoc, <- string_app_assoc. apply hex_line; [| |apply words_word].
  - by apply (emits_app _ _ [] []).
  - unfold line_emits. rewrite string_app_assoc. by apply (emits_app _ _ [] []).
Qed.

Lemma fe_vector_emits c : fe_case_ok c -> block_emits (fe_vector c) (mul_row c).
Proof.
  destruct c as [[a b] why]. intros (_ & _ & Hw). unfold fe_vector, mul_row. cbn [fst snd].
  apply block_cons; [by apply limbs_line|]. apply block_cons; [by apply limbs_line|].
  rewrite <- (app_nil_r (words _)). apply block_cons; [by apply limbs_line|]. by apply block_quiet.
Qed.

Lemma sqr_vector_emits a : block_emits (sqr_vector a) (sqr_row a).
Proof.
  unfold sqr_vector, sqr_row. apply block_cons; [by apply limbs_line|]. apply block_line. by apply limbs_line.
Qed.

Definition mul_row_ok (row : list Z) : Prop :=
  (exists a b p au, row = words a ++ words b ++ words p /\ u256 a /\ u256 b /\ fe_mul_hw a b [] = Ret (p, au))
  \/ (exists a p au, row = words a ++ words p /\ u256 a /\ fe_mul_hw a a [] = Ret (p, au)).

Lemma fe_mul_test_passes rnd : let cases := fe_cases rnd in
  vectors_pass (fe_mul_test rnd) (length cases + length (sqr_cases cases)) mul_row_ok.
Proof.
  cbv zeta. destruct (fe_cases_ok rnd) as [Hok _]. exists ((mul_row <$> fe_cases rnd) ++ (sqr_row <$> sqr_cases (fe_cases rnd))).
  split_and!.
  - by rewrite length_app, !length_fmap.
  - rewrite concat_app, <- !bind_concat. unfold fe_mul_test. cbv zeta. apply block_file; [done|].
    apply block_quiet_app; [done|]. apply block_both.
    { apply block_bind. exact (list.Forall_impl _ _ _ Hok fe_vector_emits). }
    apply block_quiet_app; [done|]. apply block_before; [|done].
    apply block_bind, list.Forall_true, sqr_vector_emits.
  - apply list.Forall_app. split; apply list.Forall_fmap.
    + apply (list.Forall_impl _ _ _ Hok). intros [[a b] why] (Ha & Hb & _). cbn [fst snd] in *. left.
      destruct (mul_returns a b Ha Hb []) as [au E]. by exists a, b, ((a * b) mod P), au.
    + apply list.Forall_fmap. apply (list.Forall_take _ 20) in Hok. apply (list.Forall_impl _ _ _ Hok).
      intros [[a b] why] (Ha & _). cbn in *. right. destruct (mul_returns a a Ha Ha []) as [au E]. by exists a, ((a * a) mod P), au.
Qed.

(** *** Arrays of bytes *)

Lemma byte_literal x : 0 <= x < 256 -> read_hex Plain ("0x" +:+ hex_pad 2 x) = ([], Hex x).
Proof.
  intros Hx. unfold hex_pad. rewrite Nat.max_l; [by apply read_literal|].
  unfold hex_len. case_match eqn:E; [lia|]. apply Z.eqb_neq in E.
  assert (Z.log2 x < 8) by (apply Z.log2_lt_pow2; lia). assert (Z.log2 x / 4 < 2) by (apply Z.div_lt_upper_bound; lia). lia.
Qed.

Lemma byte_token_emits x : 0 <= x < 256 -> emits (byte_token x) [x].
Proof. intros Hx. unfold byte_token, emits. by rewrite <- string_app_assoc, read_hex_app, byte_literal. Qed.

Definition byte (x : Z) : Prop := 0 <= x < 256.

Lemma byte_row_emits row : Forall byte row -> line_emits (byte_row row) row.
Proof.
  intros H. unfold byte_row, line_emits. rewrite string_app_assoc.
  apply (emits_app _ _ [] row); [done|]. rewrite <- (app_nil_r row) at 2. apply emits_app; [|done].
  rewrite <- (list_fmap_id row) at 2. apply (emits_words byte_token id byte); [done|exact byte_token_emits|done].
Qed.

Lemma to_bytes_le_byte n v : Forall byte (to_bytes_le n v).
Proof. revert v. induction n as [|n IH]; intros v; cbn; constructor; [by apply Z.mod_pos_bound|apply IH]. Qed.
Lemma to_bytes_be_byte n v : Forall byte (to_bytes_be n v).
Proof. apply Forall_rev, to_bytes_le_byte. Qed.

Lemma slices_32 (b : list Z) : length b = 32%nat -> (seq 0 4 ≫= fun i => bytes_slice (8 * i) (8 * i + 8) b) = b.
Proof. intros Hb. do 32 (destruct b as [|? b]; [discriminate|]). destruct b; [reflexivity|discriminate]. Qed.

Lemma c_bytes_emits v : u256 v -> exists t, c_bytes v = Ret t /\ line_emits t (to_bytes_be 32 v).
Proof.
  intros Hv. unfold c_bytes, py_to_bytes. change (256 ^ Z.of_nat 32) with (2 ^ 256). unfold u256 in Hv.
  replace ((0 <=? v) && (v <? 2 ^ 256)) with true by (symmetry; apply andb_true_iff; split; [apply Z.leb_le|apply Z.ltb_lt]; lia).
  rewrite bind_Ret. eexists. split; [done|]. set (b := to_bytes_be 32 v).
  apply (eq_ind _ (line_emits _)) with (2 := slices_32 b (to_bytes_be_length 32 v)). rewrite bind_concat. apply lines_emit; [done|].
  apply Forall2_fmap, Forall_Forall2_diag, list.Forall_true. intros i. apply byte_row_emits.
  apply list.Forall_take, list.Forall_drop, to_bytes_be_byte.
Qed.

(** *** p256_scalar_mont_mul and p256_scalar_inv *)

Definition scalar_below (x : Z) : Prop := 0 <= x < ScalarInv.N.

Lemma scalar_u256 x : scalar_below x -> u256 x.
Proof. pose proof N_range. unfold scalar_below, u256. lia. Qed.
Lemma scalar_mod x : scalar_below (x mod ScalarInv.N).
Proof. pose proof N_range. apply Z.mod_pos_bound. lia. Qed.

(** [a], [b] and the Montgomery product, 32 bytes each *)
Definition mont_row (ab : Z * Z) : list Z :=
  to_bytes_be 32 ab.1 ++ to_bytes_be 32 ab.2 ++ to_bytes_be 32 ((ab.1 * ab.2 * RINV) mod ScalarInv.N).

Lemma mont_vector_emits ab : scalar_below ab.1 -> scalar_below ab.2 ->
  exists ls, mont_vector ab = Ret ls /\ block_emits ls (mont_row ab).
Proof.
  destruct ab as [a b]. unfold mont_row. cbn [fst snd]. intros Ha Hb. unfold mont_vector. rewrite (proj1 RINV_spec), bind_Ret. cbv zeta.
  destruct (c_bytes_emits a (scalar_u256 a Ha)) as (ta & -> & Ea).
  destruct (c_bytes_emits b (scalar_u256 b Hb)) as (tb & -> & Eb).
  destruct (c_bytes_emits _ (scalar_u256 _ (scalar_mod (a * b * RINV)))) as (tw & -> & Ew). rewrite !bind_Ret.
  eexists. split; [done|]. apply block_framed; [done|done|]. apply block_framed; [done|done|]. by apply block_framed_last.
Qed.

Definition mont_row_ok (row : list Z) : Prop := exists a b p,
  row = to_bytes_be 32 a ++ to_bytes_be 32 b ++ to_bytes_be 32 p /\ u256 a /\ u256 b /\ u256 p /\ mont_mul a b = Ret p.

Definition draws_below (rnd : list (Z * Z)) : Prop := Forall (fun ab => scalar_below ab.1 /\ scalar_below ab.2) rnd.

Lemma mont_cases_below rnd : draws_below rnd -> draws_below (mont_cases rnd).
Proof.
  intros H. apply list.Forall_app. split; [|done]. apply list.Forall_fmap, list.Forall_true.
  intros [a b]. split; apply scalar_mod.
Qed.

Lemma mont_test_passes rnd : draws_below rnd -> exists text, mont_test rnd = Ret text /\
  vectors_pass text (length (mont_cases rnd)) mont_row_ok.
Proof.
  intros H%mont_cases_below. unfold mont_test. cbv zeta.
  destruct (vectors_block mont_vector mont_row (mont_cases rnd)) as (rows & -> & Hrows).
  { apply (list.Forall_impl _ _ _ H). intros ab [Ha Hb]. by apply mont_vector_emits. }
  rewrite bind_Ret. eexists. split; [done|]. apply (vectors_pass_map _ mont_row).
  - apply block_unended; [done|]. by apply block_counted.
  - apply (list.Forall_impl _ _ _ H). intros [a b] [Ha Hb]. cbn [fst snd] in *.
    exists a, b, ((a * b * RINV) mod ScalarInv.N). split; [done|].
    split_and!; [by apply scalar_u256..|by apply scalar_u256, scalar_mod|].
    apply mont_mul_ok; [by apply scalar_u256..|by apply prod_room].
Qed.

Definition inv_row (a : Z) : list Z :=
  to_bytes_be 32 (a mod Z.shiftl 1 256) ++ to_bytes_be 32 ((a mod ScalarInv.N) ^ (ScalarInv.N - 2) mod ScalarInv.N).

Lemma inv_vector_emits a : exists ls, inv_vector a = Ret ls /\ block_emits ls (inv_row a).
Proof.
  unfold inv_vector, inv_row. cbv zeta. rewrite py_pow_mod_spec by (pose proof N_range; lia).
  destruct (c_bytes_emits (a mod Z.shiftl 1 256)) as (ta & -> & Ea); [by apply Z.mod_pos_bound|].
  destruct (c_bytes_emits _ (scalar_u256 _ (scalar_mod ((a mod ScalarInv.N) ^ (ScalarInv.N - 2))))) as (ti & -> & Ei).
  rewrite !bind_Ret. eexists. split; [done|]. apply block_framed; [done|done|]. by apply block_framed_last.
Qed.

Definition inv_row_ok (row : list Z) : Prop := exists a p,
  row = to_bytes_be 32 a ++ to_bytes_be 32 p /\ u256 a /\ u256 p /\ scalar_inv_hw a = Ret p.

Lemma inv_test_passes rnd : Forall u256 rnd -> exists text, inv_test rnd = Ret text /\
  vectors_pass text (length (inv_vals rnd)) inv_row_ok.
Proof.
  intros H. unfold inv_test. cbv zeta.
  destruct (vectors_block inv_vector inv_row (inv_vals rnd)) as (rows & -> & Hrows).
  { apply list.Forall_true. exact inv_vector_emits. }
  rewrite bind_Ret. eexists. split; [done|]. apply (vectors_pass_map _ inv_row).
  - apply block_unended; [done|]. by apply block_counted.
  - assert (Forall u256 (inv_vals rnd)) as Hv.
    { apply list.Forall_app. split; [|done]. repeat apply list.Forall_cons_2; [..|constructor]; by vm_compute. }
    apply (list.Forall_impl _ _ _ Hv). intros a Ha. exists (a mod Z.shiftl 1 256), ((a mod ScalarInv.N) ^ (ScalarInv.N - 2) mod ScalarInv.N).
    assert (a mod Z.shiftl 1 256 = a) as E by (apply Z.mod_small; exact Ha).
    split; [done|]. rewrite E. split_and!; [done|by apply scalar_u256, scalar_mod|]. apply scalar_inv_exact.
Qed.

(** *** p256_point_add_affine and p256_point_mul_base *)

Lemma comb_limbs v : Comb.limbs v = words v.
Proof. done. Qed.

Lemma flat_line cs a b : emits a [] -> line_emits b [] -> line_emits (a +:+ flat cs +:+ b) (cs ≫= Comb.limbs).
Proof.
  intros Ha Hb. unfold flat.
  assert ((cs ≫= fun c => c_hex <$> Comb.limbs c) = c_hex <$> (cs ≫= Comb.limbs)) as ->.
  { induction cs as [|c cs IH]; [done|]. cbn [mbind list_bind]. rewrite fmap_app. f_equal. exact IH. }
  apply hex_line; [done|done|]. induction cs as [|c cs IH]; [constructor|]. cbn [mbind list_bind].
  apply list.Forall_app. split; [apply words_word|exact IH].
Qed.

Definition jac_coords : jac -> list Z := fun '(x, y, z) => [x; y; z].
Definition madd_words (row : madd_row) : list Z :=
  let '(p1, p2, want) := row in
  (jac_coords p1 ≫= Comb.limbs) ++ ([p2.1; p2.2] ≫= Comb.limbs) ++ (jac_coords want ≫= Comb.limbs).

Lemma madd_vector_emits row : block_emits (madd_vector row) (madd_words row).
Proof.
  destruct row as [[p1 p2] want]. unfold madd_vector, madd_words.
  apply block_framed; [done|by apply flat_line|]. apply block_cons; [by apply flat_line|].
  rewrite <- (app_nil_r (jac_coords want ≫= _)). apply block_cons; [by apply flat_line|by apply block_quiet].
Qed.

(** A vector is an addition the mixed formula gets right: [p1] stands for an
    affine point with another abscissa than [p2], and [want] for their sum. *)
Definition madd_row_ok (row : madd_row) : Prop :=
  let '(p1, p2, want) := row in exists q s, valid (Some q) /\ valid (Some p2) /\ q.1 <> p2.1 /\ rep p1 (Some q) /\
    want = madd p1 p2.1 p2.2 /\ aff_add (Some q) (Some p2) = Ret (Some s) /\ rep want (Some s).

Section madd.
Context {St : Type} (randrange : Z -> Z -> St -> Z * St).
(** [randrange(lo, hi)] is in [[lo, hi)]. *)
Context (Hrange : forall lo hi s, lo < hi -> lo <= (randrange lo hi s).1 < hi).

Lemma scaled_rep x y z : 0 < z < P -> rep ((x * z) mod P * z mod P, (y * z) mod P * z mod P * z mod P, z) (Some (x, y)).
Proof.
  intros Hz. split; [lia|]. split; [intros H%eqP_small; lia|].
  split; rewrite !eqP_mod; apply eqP_iff; f_equal; lia.
Qed.

Lemma madd_turn_ok first s : match (madd_turn randrange first s).1 with
  | Ret (Some row) => madd_row_ok row
  | Ret None => True
  | Raise e => e = TypeError
  end.
Proof.
  unfold madd_turn. destruct (randrange 1 Comb.N s) as [k1 s1]. destruct (randrange 1 Comb.N s1) as [k2 s2].
  destruct (aff_mul_valid k1 G G_valid) as (q1 & -> & H1). destruct (aff_mul_valid k2 G G_valid) as (q2 & -> & H2).
  destruct q1 as [[x1 y1]|], q2 as [[x2 y2]|]; try done. destruct (Z.eqb_spec x1 x2) as [|Hne]; [done|].
  assert (exists z s3, (if first then (1, s2) else randrange 1 P s2) = (z, s3) /\ 0 < z < P) as (z & s3 & -> & Hz).
  { pose proof P_big. destruct first; [exists 1, s2; split; [done|lia]|].
    pose proof (Hrange 1 P s2 ltac:(lia)). destruct (randrange 1 P s2) as [z s3]. exists z, s3. split; [done|]. cbn [fst] in *. lia. }
  cbv zeta. set (p1 := (_, _, z)). pose proof (scaled_rep x1 y1 z Hz : rep p1 _) as Hp. clearbody p1.
  pose proof (proj1 H1) as [Hx1 Hy1]. pose proof (proj1 H2) as [Hx2 Hy2].
  destruct (madd_chord p1 x1 y1 x2 y2 Hp Hx1 Hx2 Hne) as ([x3 y3] & E & Hr & Hrep).
  rewrite E, bind_Ret, (to_affine_rep _ x3 y3 Hrep Hr), bool_decide_true, py_assert_true, bind_Ret by done.
  exists (x1, y1), (x3, y3). by split_and!.
Qed.

(** Whatever the draws, no assertion fails, and 24 rows are collected. *)
Lemma madd_rows_ok fuel rows s : Forall madd_row_ok rows -> (length rows <= 24)%nat ->
  match madd_rows randrange fuel rows s with
  | Ret rows => length rows = 24%nat /\ Forall madd_row_ok rows
  | Raise e => e = TypeError \/ e = OutOfFuel
  end.
Proof.
  revert rows s. induction fuel as [|fuel IH]; intros rows s Hr Hl; cbn [madd_rows];
    (destruct (Nat.leb_spec 24 (length rows)) as [H|H]; [split; [lia|done]|]); [by right|].
  pose proof (madd_turn_ok (bool_decide (rows = [])) s) as Ht.
  destruct (madd_turn randrange (bool_decide (rows = [])) s) as [[row|e] s']; cbn [fst] in Ht; [|by left].
  rewrite bind_Ret. apply IH.
  - apply list.Forall_app. split; [done|]. destruct row; by repeat constructor.
  - rewrite length_app. destruct row; cbn [length]; lia.
Qed.

Lemma madd_test_passes fuel s : match madd_test randrange fuel s with
  | Ret text => exists rows, length rows = 24%nat /\ Forall madd_row_ok rows /\ literals text = rows ≫= madd_words
  | Raise e => e = TypeError \/ e = OutOfFuel
  end.
Proof.
  unfold madd_test. pose proof (madd_rows_ok fuel [] s) as H. destruct (madd_rows _ _ _ _) as [rows|e]; [|apply H; [constructor|cbn; lia]].
  destruct H as [Hl Hr]; [constructor|cbn; lia|]. rewrite bind_Ret. exists rows. split_and!; [done|done|].
  apply block_file; [done|]. apply block_counted; [done|done|done| |done].
  apply block_bind, list.Forall_true, madd_vector_emits.
Qed.

End madd.

(** *** p256_point_mul_base *)

Definition mulb_row_ok (table : list (list point)) (row : list Z) : Prop := exists k x y,
  row = words k ++ words x ++ words y /\ comb_mul_base k table = Ret (x, y) /\ oracle_mul_base k = Ret (x, y).

Lemma mulb_vector_cases table k : match mulb_vector table k with
  | Ret ls => exists x y, comb_mul_base k table = Ret (x, y) /\ oracle_mul_base k = Ret (x, y)
      /\ block_emits ls (words k ++ words x ++ words y)
  | Raise _ => True
  end.
Proof.
  unfold mulb_vector. destruct (comb_mul_base k table) as [[x y]|e]; [|done]. rewrite bind_Ret.
  destruct (oracle_mul_base k) as [want|e]; [|done]. rewrite bind_Ret. case_bool_decide as E; [|done]. subst want.
  rewrite py_assert_true, bind_Ret by done. cbn [fst snd]. exists x, y. split_and!; [done|done|].
  apply block_framed; [done|by apply hex_line, words_word|]. apply block_cons; [by apply hex_line, words_word|].
  rewrite <- (app_nil_r (words y)). apply block_cons; [by apply hex_line, words_word|by apply block_quiet].
Qed.

Lemma vectors_returned {A} (f : A -> result (list string)) (ok : list Z -> Prop) l out rows :
  (forall x ls, f x = Ret ls -> exists row, ok row /\ block_emits ls row) ->
  for_result l out (fun out c => ls ← f c; Ret (out ++ ls)) = Ret rows ->
  exists news vss, rows = out ++ news /\ length vss = length l /\ Forall ok vss /\ block_emits news (concat vss).
Proof.
  intros Hf. revert out. induction l as [|x l IH]; intros out; cbn [for_result].
  - intros [= <-]. exists [], []. rewrite app_nil_r. split_and!; [done|done|constructor|by exists []].
  - destruct (f x) as [ls|e] eqn:E; [|done]. rewrite !bind_Ret. intros (news & vss & -> & Hl & Hok & Hb)%IH.
    destruct (Hf x ls E) as (row & Hrow & Hls). exists (ls ++ news), (row :: vss). rewrite app_assoc.
    split_and!; [done|by cbn [length]; f_equal|by constructor|by apply block_both].
Qed.

Lemma Ret_text (s t : string) : Ret s = Ret t -> s = t.
Proof. by intros [= ->]. Qed.

(** A text of the comb's vectors exists only when every scalar passed the
    comparison with the oracle; it then lists exactly those products. *)
Lemma mulb_test_passes rnd text : mulb_test rnd = Ret text -> exists table, build_table = Ret table /\ exists rows,
  length rows = length (mulb_ks rnd) /\ Forall (mulb_row_ok table) rows /\
  literals text = Comb.limbs GX ++ Comb.limbs GY ++ concat rows.
Proof.
  unfold mulb_test. cbv zeta. destruct build_table_valid as (table & -> & _). rewrite bind_Ret. cbv beta. intros H. exists table. split; [done|].
  destruct (vectors_of (mulb_vector table) (mulb_ks rnd)) as [ls|e] eqn:E; [|done].
  rewrite bind_Ret in H. apply Ret_text in H as <-. apply (vectors_returned _ (mulb_row_ok table)) in E as (news & rows & -> & Hl & Hok & Hb).
  2: { intros k ls' E'. pose proof (mulb_vector_cases table k) as H. rewrite E' in H. destruct H as (x & y & Hc & Ho & Hb).
       eexists. split; [by exists k, x, y|exact Hb]. }
  exists rows. split_and!; [done|done|]. 
  apply block_file; [discriminate|]. apply block_quiet_app; [done|].
  apply block_cons; [by apply hex_line, words_word|]. apply block_cons; [by apply hex_line, words_word|].
  apply block_quiet_app; [done|]. by apply (block_counted []).
Qed.

(** *** The CTR length sweep *)

(** A line of an array under construction: blank, or ending in a token. *)
Definition open_line (cur : string) (v : list Z) : Prop :=
  (cur = "    "%string /\ v = []) \/
  exists pre d w x, cur = (pre +:+ String d "") +:+ ", " /\ mem_char d "," = false
    /\ read_hex Plain (pre +:+ String d "") = (w, Hex x) /\ v = w ++ [x].

Lemma open_emits cur v : open_line cur v -> emits cur v.
Proof.
  intros [[-> ->]|(pre & d & w & x & -> & _ & Hr & ->)]; [done|]. unfold emits. by rewrite read_hex_app, Hr.
Qed.

Lemma open_rstrip cur v : open_line cur v -> line_emits (rstrip cur) v /\ line_emits (rstrip_chars "," (rstrip cur)) v.
Proof.
  intros [[-> ->]|(pre & d & w & x & -> & Hd & Hr & ->)]; [done|].
  assert (rstrip ((pre +:+ String d "") +:+ ", ") = (pre +:+ String d "") +:+ ",") as -> by exact (rstrip_app is_space _ "," " " eq_refl).
  unfold rstrip_chars. rewrite string_app_assoc. change (String d "" +:+ ",") with (String d ","). rewrite rstrip_app by done.
  change (String d ",") with (String d "" +:+ ","). change (rstrip_by _ ",") with "". rewrite <- string_app_assoc.
  unfold line_emits, emits. rewrite string_app_assoc, !(read_hex_app _ (pre +:+ String d "")), Hr. done.
Qed.

Lemma open_token cur v x : open_line cur v -> 0 <= x < 256 -> open_line (cur +:+ byte_token x +:+ " ") (v ++ [x]).
Proof.
  intros Hc Hx. pose proof (open_emits _ _ Hc) as He. pose proof (byte_literal x Hx) as Hb. unfold byte_token. right.
  assert (exists h d, hex_pad 2 x = h +:+ String d "" /\ mem_char d "," = false) as (h & d & E & Hd).
  { unfold hex_pad. destruct (Nat.max 2 (hex_len x)) as [|k] eqn:Ek; [lia|]. cbn [hex_low]. do 2 eexists. split; [done|].
    destruct (hex_digit_ok (x mod 16)) as [_ H]; [apply Z.mod_pos_bound; lia|]. revert H. unfold word_char.
    rewrite !andb_true_iff, !negb_true_iff. intros [[[_ H] _] _]. cbn [mem_char]. by rewrite H. }
  exists (cur +:+ "0x" +:+ h), d, v, x. rewrite E in *. rewrite !string_app_assoc. split_and!; [done|done| |done].
  unfold emits in He. by rewrite read_hex_app, He, Hb, app_nil_r.
Qed.

(** The state of the loop of [carr] after the bytes [v]. *)
Definition carr_inv (v : list Z) (s : list string * string) : Prop :=
  exists v1 v2, v = v1 ++ v2 /\ block_emits s.1 v1 /\ open_line s.2 v2.

Lemma carr_step_inv v s x : carr_inv v s -> byte x -> carr_inv (v ++ [x]) (carr_step s x).
Proof.
  destruct s as [lines cur]. intros (v1 & v2 & -> & Hl & Hc) Hx. cbn [fst snd] in *. unfold carr_step. cbv zeta.
  destruct (74 <? _)%nat.
  - exists (v1 ++ v2), [x]. split_and!; [done| |].
    + apply block_both; [done|]. by apply block_line, open_rstrip.
    + apply (open_token "    " [] x); [by left|done].
  - exists v1, (v2 ++ [x]). split_and!; [by rewrite app_assoc|done|by apply open_token].
Qed.

Lemma carr_reads name b : emits ("static const uint8_t " +:+ name) [] -> Forall byte b -> line_emits (carr name b) b.
Proof.
  intros Hn Hb. destruct (decide (b = [])) as [->|Hne].
  { unfold line_emits, carr. rewrite <- !string_app_assoc, string_app_assoc. by apply (emits_app _ _ [] []). }
  assert (carr_inv b (for_each b ([], "    "%string) carr_step)) as (v1 & v2 & E & Hl & Hc).
  { apply for_each_ind; [exists [], []; split; [done|split; [by exists []|by left]]|].
    intros pre x post s -> Hs. apply carr_step_inv; [done|]. by apply list.Forall_app in Hb as [_ [Hx _]%list.Forall_cons]. }
  destruct b as [|x0 b0]; [done|]. unfold carr. clear Hne. set (b := x0 :: b0) in *.
  destruct (for_each b _ _) as [lines cur]. cbn [fst snd] in *. clearbody b. unfold line_emits.
  rewrite <- (string_app_assoc "static const uint8_t "), !string_app_assoc.
  replace (_ +:+ _ +:+ _) with ((("static const uint8_t " +:+ name) +:+ "[" +:+ str_nat (length b) +:+ "] = {" +:+ nl)
     +:+ (join nl (lines ++ [rstrip_chars "," (rstrip cur)]) +:+ nl) +:+ ("};" +:+ nl)) by by rewrite !string_app_assoc.
  apply (emits_app _ _ [] b); [|rewrite <- (app_nil_r b); apply emits_app; [|done]].
  - rewrite <- string_app_assoc. apply number_quiet; [|done|done]. by apply (emits_app _ _ [] []).
  - rewrite E. apply block_join; [by destruct lines|]. apply block_both; [done|]. by apply block_line, open_rstrip.
Qed.

Section sweep.
Context (ek : list Z -> list Z -> list Z) (openssl_seal : list Z -> list Z -> list Z -> list Z -> list Z * list Z).
(** OpenSSL's result is two byte strings. *)
Context (Hbytes : forall key iv aad pt, Forall byte (openssl_seal key iv aad pt).1 /\ Forall byte (openssl_seal key iv aad pt).2).

Definition sweep_words (n : nat) : list Z :=
  let '(ct, tag) := openssl_seal KEY IV (sweep_aad n) (sweep_pt n) in sweep_aad n ++ sweep_pt n ++ ct ++ tag.

Lemma sweep_name n suffix : emits suffix [] -> read_hex Zero suffix = ([], Plain) ->
  emits ("static const uint8_t " +:+ "SW" +:+ str_nat n +:+ suffix) [].
Proof. intros H1 H2. rewrite <- string_app_assoc. by apply number_quiet. Qed.

Lemma low_bytes {A} (f : A -> Z) l : Forall byte ((fun i => Z.land (f i) 0xFF) <$> l).
Proof.
  apply list.Forall_fmap, list.Forall_true. intros i. cbn. change 0xFF with (Z.ones 8). rewrite Z.land_ones by lia.
  by apply Z.mod_pos_bound.
Qed.

Lemma sweep_arrays_emit n : seal ek KEY IV (sweep_aad n) (sweep_pt n) = openssl_seal KEY IV (sweep_aad n) (sweep_pt n) ->
  exists ls, sweep_arrays ek openssl_seal n = Ret ls /\ block_emits ls (sweep_words n).
Proof.
  intros E. unfold sweep_arrays, sweep_words. cbv zeta. rewrite E. destruct (Hbytes KEY IV (sweep_aad n) (sweep_pt n)) as [Hct Htag].
  destruct (openssl_seal _ _ _ _) as [ct tag]. cbn [fst snd] in *. rewrite bool_decide_true, py_assert_true, bind_Ret by done.
  eexists. split; [done|]. apply block_before; [|done]. cbn [fmap list_fmap].
  apply block_cons; [apply carr_reads; [by apply sweep_name|apply low_bytes]|].
  apply block_cons; [apply carr_reads; [by apply sweep_name|apply low_bytes]|].
  apply block_cons; [apply carr_reads; [by apply sweep_name|done]|].
  apply block_line, carr_reads; [by apply sweep_name|done].
Qed.

Lemma sweep_row_quiet : quiet_lines ((sweep_row <$> LENGTHS) ++ ["};"]) = true.
Proof. vm_compute. reflexivity. Qed.

(** When the model of the assembly and OpenSSL agree on the sweep, the text is
    printed and lists OpenSSL's results. *)
Lemma sweep_test_passes : Forall (fun n => seal ek KEY IV (sweep_aad n) (sweep_pt n) = openssl_seal KEY IV (sweep_aad n) (sweep_pt n)) LENGTHS ->
  exists text, sweep_test ek openssl_seal = Ret text /\ literals text = KEY ++ IV ++ (LENGTHS ≫= sweep_words).
Proof.
  intros H. unfold sweep_test.
  destruct (vectors_block (sweep_arrays ek openssl_seal) sweep_words LENGTHS) as (rows & -> & Hrows).
  { apply (list.Forall_impl _ _ _ H). exact sweep_arrays_emit. }
  rewrite bind_Ret. eexists. split; [done|]. apply block_unended; [done|]. apply block_quiet_app; [done|].
  apply block_cons; [apply carr_reads; [done|apply to_bytes_be_byte]|].
  apply block_cons; [apply carr_reads; [done|apply to_bytes_be_byte]|].
  apply (block_quiet_app [""%string]); [done|]. rewrite <- (app_nil_r (_ ≫= _)). apply block_both; [done|].
  apply block_quiet_app; [done|]. apply block_quiet, sweep_row_quiet.
Qed.
End sweep.

(** ** The property *)


