(* ===== verification/Interop.v ===== *)
(** * Comparisons with OpenSSL

    The [interop] commands of the P-256 derivations: public keys computed
    through the modelled carry chains and through the comb, and the ECDSA
    round trip through the modelled inversion.  OpenSSL's results are
    arguments.  The theorems say what a successful run establishes. *)

From S2P Require Import Prelude PyInt Words Reduce PrimeField Comb FeMul ScalarInv PyStr Emitted.

(** ** p256_fe_mul_derivation.py *)

Section public_keys.
(** [ec.derive_private_key(d, ...).public_key().public_numbers()] *)
Context (openssl_public : Z -> Z * Z).

(** [sum(len(v) for v in AUDIT.values()) // 4] *)
Definition audited_muls (au : audit) : nat := (foldr Nat.add 0 ((fun iv => length iv.2) <$> au) / 4)%nat.

Definition key_step (s : nat * audit) (d : Z) : result (nat * audit) :=
  let '(bad, au) := s in
  '(got, au) ← scalar_mul_hw d au;
  Ret ((if bool_decide (got = openssl_public d) then bad else S bad), au).

(** [interop] of the field multiplication, on the scalars [ds] *)
Definition fe_interop (ds : list Z) : result (list string) :=
  '(bad, au) ← for_result ds (0%nat, []) key_step;
  let printed :=
    [str_nat (length ds - bad) +:+ "/" +:+ str_nat (length ds) +:+ " public keys agree with `cryptography` (OpenSSL)";
     "  " +:+ str_nat (audited_muls au) +:+ " field multiplications went through the modelled carry chain"]%string in
  _ ← py_assert (bad =? 0)%nat "";
  Ret printed.

(** ** p256_comb_derivation.py *)

Definition comb_key_step (table : list (list point)) (s : nat * list string) (k : Z) : result (nat * list string) :=
  let '(bad, printed) := s in
  got ← comb_mul_base k table;
  Ret (if bool_decide (got = openssl_public k) then s
       else (S bad, printed ++ ["INTEROP MISMATCH k=0x" +:+ hex_pad 0 k]%string)).

(** [interop] of the comb; [rnd] are the random scalars *)
Definition comb_interop (rnd : list Z) : result (bool * list string) :=
  table ← build_table;
  let ks := [1; 2; 3; Comb.N - 1; 0x1234567890ABCDEF] ++ rnd in
  '(bad, printed) ← for_result ks (0%nat, []) (comb_key_step table);
  Ret ((bad =? 0)%nat, printed ++ ["comb vs `cryptography` (OpenSSL): " +:+ str_nat (length ks - bad) +:+ "/"
                                   +:+ str_nat (length ks) +:+ " agree"]%string).
End public_keys.

(** ** p256_scalar_inv_derivation.py *)

(** A signature OpenSSL made: the private key, the digest of the message
    reduced modulo [n], and the two halves of the signature. *)
Record signature := { sig_d : Z; sig_z : Z; sig_r : Z; sig_s : Z }.

(** One turn of the loop of [interop]. *)
Definition signature_step (ok : nat) (g : signature) : result nat :=
  sinv ← scalar_inv_hw (sig_s g);
  _ ← py_assert ((sinv * sig_s g) mod ScalarInv.N =? 1) "";
  let k := (sinv * (sig_z g + sig_r g * sig_d g)) mod ScalarInv.N in
  kinv ← scalar_inv_hw k;
  _ ← py_assert ((kinv * (sig_z g + sig_r g * sig_d g)) mod ScalarInv.N =? sig_s g) "model k^-1 does not rebuild s";
  Ret (S ok).

Definition inv_interop (sigs : list signature) : result (list string) :=
  ok ← for_result sigs 0%nat signature_step;
  Ret [str_nat ok +:+ " OpenSSL signatures round-tripped through the model's inversion"]%string.

(** ** Lemmas *)

(** Counting the elements that fail a decidable test. *)
Definition failures {A} (P : A -> Prop) `{HP : forall x, Decision (P x)} (l : list A) : nat :=
  length (filter (fun x => ~ P x) l).

Lemma failures_zero {A} (P : A -> Prop) `{HP : forall x, Decision (P x)} l : failures P l = 0%nat <-> Forall P l.
Proof.
  unfold failures. rewrite length_zero_iff_nil, filter_none, list.Forall_forall.
  split; intros H x Hx; [apply dec_stable|]; auto.
Qed.

Lemma failures_snoc {A} (P : A -> Prop) `{HP : forall x, Decision (P x)} l x :
  failures P (l ++ [x]) = if decide (P x) then failures P l else S (failures P l).
Proof.
  unfold failures. rewrite list.filter_app, length_app. case_decide as Hx.
  - rewrite filter_cons_False by auto. cbn. lia.
  - rewrite filter_cons_True by done. cbn. lia.
Qed.

(** The public key OpenSSL has for [d] is the one the ideal formulas give. *)
Definition key_agrees (pub : Z -> Z * Z) (d : Z) : Prop := scalar_mul_spec d = pub d.
#[export] Instance key_agrees_dec pub d : Decision (key_agrees pub d) := decide (scalar_mul_spec d = pub d).

Lemma fe_interop_loop pub ds : exists au, for_result ds (0%nat, []) (key_step pub) = Ret (failures (key_agrees pub) ds, au).
Proof.
  loop_invariant (fun (pre : list Z) (s : nat * audit) => s.1 = failures (key_agrees pub) pre) as ([bad au] & -> & E).
  - done.
  - intros pre d post [bad au] _ E. cbn [fst] in *. unfold key_step. destruct (scalar_mul_returns d au) as [au' ->].
    rewrite bind_Ret. eexists. split; [done|]. cbn [fst]. rewrite failures_snoc, E. unfold key_agrees.
    by repeat case_decide || case_bool_decide.
  - exists au. cbn [fst] in E. by rewrite E.
Qed.

(** The command succeeds exactly when OpenSSL's public keys are those of the
    ideal formulas; it raises nothing but its own last assertion. *)
Theorem fe_interop_passes_iff pub ds :
  (exists printed, fe_interop pub ds = Ret printed) <-> Forall (key_agrees pub) ds.
Proof.
  unfold fe_interop. destruct (fe_interop_loop pub ds) as [au ->]. rewrite bind_Ret. cbv zeta. rewrite <- (failures_zero (key_agrees pub)).
  destruct (failures (key_agrees pub) ds) as [|n]; (split; [intros [? H]|intros H]).
  - done.
  - eexists. rewrite py_assert_true by done. reflexivity.
  - discriminate H.
  - discriminate H.
Qed.

Lemma comb_keys_counted pub table ks bad printed bad' printed' :
  for_result ks (bad, printed) (comb_key_step pub table) = Ret (bad', printed') ->
  (bad <= bad')%nat /\ (bad' = bad -> printed' = printed /\ Forall (fun k => comb_mul_base k table = Ret (pub k)) ks).
Proof.
  revert bad printed. induction ks as [|k ks IH]; intros bad printed; cbn [for_result].
  - intros [= <- <-]. split; [lia|]. by intros _.
  - assert (comb_key_step pub table (bad, printed) k = (got ← comb_mul_base k table;
      Ret (if bool_decide (got = pub k) then (bad, printed) else (S bad, printed ++ ["INTEROP MISMATCH k=0x" +:+ hex_pad 0 k]%string)))) as -> by done.
    destruct (comb_mul_base k table) as [got|e] eqn:Ek; [|done]. rewrite !bind_Ret.
    case_bool_decide as E; intros [Hle H]%IH; (split; [lia|]); intros Hb; [|lia].
    destruct (H Hb) as [-> HF]. split; [done|]. constructor; [rewrite Ek; by f_equal|exact HF].
Qed.

(** A comparison of the comb that reports success has compared every product,
    and prints its summary alone. *)
Theorem comb_interop_passes pub rnd printed : comb_interop pub rnd = Ret (true, printed) ->
  length printed = 1%nat /\ exists table, build_table = Ret table /\
  Forall (fun k => comb_mul_base k table = Ret (pub k)) ([1; 2; 3; Comb.N - 1; 0x1234567890ABCDEF] ++ rnd).
Proof.
  unfold comb_interop. destruct build_table as [table|]; [|done]. rewrite bind_Ret. cbv zeta.
  destruct (for_result _ _ _) as [[bad lines]|] eqn:E; [|done]. rewrite bind_Ret. cbv beta iota.
  intros H. assert (bad = 0%nat /\ length printed = S (length lines)) as [-> Hl].
  { split; [destruct bad; [done|discriminate H]|]. injection H as _ <-. rewrite length_app. cbn. lia. }
  apply comb_keys_counted in E as [_ E]. destruct (E eq_refl) as [-> HF]. split; [exact Hl|]. by exists table.
Qed.

(** ** The signatures *)

#[local] Opaque ScalarInv.N.

(** [scalar_inv_hw] inverts modulo [n], and gives 0 where there is no inverse. *)
Lemma inv_value a : exists x, scalar_inv_hw a = Ret x /\ if decide (a mod ScalarInv.N = 0) then x = 0 else (x * a) mod ScalarInv.N = 1.
Proof. eexists. split; [exact (scalar_inv_exact a)|exact (fermat_inverse a)]. Qed.

(** A recovered nonce [k = x m] gives back [s], whatever the signature's [r]. *)
Lemma rebuild_s x s m y : (x * s) mod ScalarInv.N = 1 -> (y * ((x * m) mod ScalarInv.N)) mod ScalarInv.N = 1 ->
  (y * m) mod ScalarInv.N = s mod ScalarInv.N.
Proof.
  intros Hx Hy. rewrite Zmult_mod_idemp_r in Hy.
  rewrite <- (Z.mul_1_l (y * m)), <- Hx, Zmult_mod_idemp_l. replace (x * s * (y * m)) with (y * (x * m) * s) by lia.
  by rewrite <- Zmult_mod_idemp_l, Hy, Z.mul_1_l.
Qed.

Lemma recovered_zero x s m : (x * s) mod ScalarInv.N = 1 -> (x * m) mod ScalarInv.N = 0 <-> m mod ScalarInv.N = 0.
Proof.
  intros Hx. split; intros H.
  - rewrite <- (Z.mul_1_l m), <- Hx, Zmult_mod_idemp_l. replace (x * s * m) with (x * m * s) by lia.
    by rewrite <- Zmult_mod_idemp_l, H.
  - by rewrite <- Zmult_mod_idemp_r, H, Z.mul_0_r.
Qed.

Lemma signature_step_iff ok g : (signature_step ok g = Ret (S ok) <->
  0 < sig_s g < ScalarInv.N /\ (sig_z g + sig_r g * sig_d g) mod ScalarInv.N <> 0)
  /\ (signature_step ok g = Ret (S ok) \/ exists msg, signature_step ok g = Raise (AssertionError msg)).
Proof.
  destruct g as [d z r s]. unfold signature_step. cbn [sig_d sig_z sig_r sig_s]. set (m := z + r * d). pose proof N_range as HN.
  destruct (inv_value s) as (x & -> & Hx). rewrite bind_Ret. destruct (decide (s mod ScalarInv.N = 0)) as [Hs|Hs].
  { subst x. rewrite Z.mul_0_l, Z.mod_0_l by lia. split; [split; [discriminate|]|right; by eexists].
    intros [H _]. rewrite Z.mod_small in Hs; lia. }
  rewrite Hx, py_assert_true, bind_Ret by done. cbv zeta.
  destruct (inv_value ((x * m) mod ScalarInv.N)) as (y & -> & Hy). rewrite bind_Ret. rewrite Z.mod_mod in Hy by lia.
  destruct (decide ((x * m) mod ScalarInv.N = 0)) as [Hk|Hk].
  { subst y. rewrite Z.mul_0_l, Z.mod_0_l by lia. destruct (Z.eqb_spec 0 s) as [<-|_]; [by rewrite Z.mod_0_l in Hs by lia|].
    split; [split; [discriminate|]|right; by eexists]. intros [_ H]. by apply (recovered_zero x s m) in Hk. }
  rewrite (rebuild_s x s m y Hx Hy). pose proof (Z.mod_pos_bound s ScalarInv.N ltac:(lia)) as Hb.
  assert (m mod ScalarInv.N <> 0) as Hm by (intros H; apply Hk; by apply (recovered_zero x s m)).
  destruct (Z.eqb_spec (s mod ScalarInv.N) s) as [E|E].
  - split; [split; [|done]|by left]. intros _. split; [lia|done].
  - split; [split; [discriminate|]|right; by eexists]. intros [H _]. by rewrite Z.mod_small in E by lia.
Qed.

(** What the round trip checks of a signature: [s] is a non-zero residue and
    [z + r d] does not vanish.  Nothing ties the recovered nonce to [r]: any
    such four numbers pass, a signature or not. *)
Theorem inv_interop_passes_iff sigs : (exists printed, inv_interop sigs = Ret printed) <->
  Forall (fun g => 0 < sig_s g < ScalarInv.N /\ (sig_z g + sig_r g * sig_d g) mod ScalarInv.N <> 0) sigs.
Proof.
  unfold inv_interop.
  assert (forall ok, (exists ok', for_result sigs ok signature_step = Ret ok') <->
    Forall (fun g => 0 < sig_s g < ScalarInv.N /\ (sig_z g + sig_r g * sig_d g) mod ScalarInv.N <> 0) sigs) as H.
  { induction sigs as [|g sigs IH]; intros ok; cbn [for_result]; [split; eauto|].
    destruct (signature_step_iff ok g) as [Hi Hc]. rewrite list.Forall_cons, <- Hi.
    destruct Hc as [E|[msg E]]; rewrite E; cbn [mbind result_bind].
    - rewrite IH. split; [by split|by intros [_ ?]].
    - split; [by intros [? [=]]|by intros [[=] _]]. }
  rewrite <- (H 0%nat). split; intros [x E].
  - destruct (for_result sigs 0%nat signature_step); [eauto|done].
  - rewrite E. eauto.
Qed.
