(* ===== verification/Bench.v ===== *)
(** * Commands and benchmarks (scripts/common.py, compiler.py, benchmark.py)

    The result of a subprocess, how a command reaches it, the test gate, and
    the benchmark runner: its output protocol, the counters and the median
    over the rounds.  The processes are an interface: [spawn] is the only
    effect. *)

From Stdlib Require Import Ascii SpecFloat Sorted Permutation.
From S2P Require Import Prelude PyInt PyStr Regex PyFloat Json.

(** ** Subprocesses *)

Inductive outcome : Type :=
| Exited (returncode : Z) (stdout stderr : string)
| TimedOut (exc : string)
| NotFound (exc : string)
| Failed (exc : string).

(** [subprocess.run(argv, cwd=…, timeout=…, shell=…)]: what happened, the time
    it took in nanoseconds, and the world after it. *)
Class Processes (W : Type) := {
  spawn : bool -> list string -> option string -> Z -> W -> outcome * Z * W
}.

Record Result : Type := mkResult { success : bool; output : string; error : string; returncode : Z }.

(** [Result.summary] *)
Definition summary (r : Result) (limit : nat) : string :=
  let text := strip (output r +:+ nl +:+ error r) in
  if (limit <? String.length text)%nat then take_str limit text +:+ nl +:+ "... (truncated)" else text.

Definition SHELL_OPERATORS : list string := ["&&"; "||"; ";"; "|"; ">"; "<"; "&"; "`"; "$("].
Definition needs_shell (command : list string) : bool :=
  existsb (fun tok => existsb (fun op => contains op tok) SHELL_OPERATORS) command.

Inductive command : Type := Argv (argv : list string) | Text (s : string).

(** [shlex.quote] and [to_command] *)
Definition SAFE_RE : re := Eval vm_compute in rx "[^\w@%+=:,./-]".
Definition quote (s : string) : string :=
  if s =s? "" then "''"
  else if negb (searches SAFE_RE s) then s
  else "'" +:+ replace "'" ("'" +:+ String QUOTE ("'" +:+ String QUOTE "'")) s +:+ "'".
Definition to_command (c : command) : string :=
  match c with Text s => s | Argv l => join " " (quote <$> l) end.

(** The argument list and the shell flag of [run_command]. *)
Definition shell_argv (c : command) : bool * list string :=
  match c with
  | Text s => (true, [s])
  | Argv l => if needs_shell l then (true, [join " " l]) else (false, l)
  end.

(** ** The state and error monad of the effectful scripts

    An exception keeps the effects that happened before it. *)
Definition run (W A : Type) : Type := W -> result A * W.
#[global] Instance run_ret W : MRet (run W) := fun A a w => (Ret a, w).
#[global] Instance run_bind W : MBind (run W) := fun A B f m w =>
  match m w with
  | (Ret a, w) => f a w
  | (Raise e, w) => (Raise e, w)
  end.
Definition lift {W A} (r : result A) : run W A := fun w => (r, w).
Definition raise {W A} (e : exn) : run W A := fun w => (Raise e, w).

Section commands.
Context {W : Type} `{Processes W}.

Definition run_command (c : command) (cwd : option string) (timeout : Z) : run W (Result * Z) := fun w =>
  let '(shell, argv) := shell_argv c in
  let '(o, elapsed, w) := spawn shell argv cwd timeout w in
  (Ret (match o with
        | Exited rc out err => mkResult (rc =? 0) out err rc
        | TimedOut exc => mkResult false "" ("timeout after " +:+ str_z timeout +:+ "s (" +:+ exc +:+ ")") (-1)
        | NotFound exc => mkResult false "" ("command not found: " +:+ exc) (-1)
        | Failed exc => mkResult false "" ("failed to run command: " +:+ exc) (-1)
        end, elapsed), w).

(** ** compiler.py *)

Definition compiler_run (workdir : string) (c : command) (timeout : Z) : run W Result :=
  r ← run_command c (Some workdir) timeout; mret r.1.

(** [Compiler.test] on a list of commands: the first failure stops. *)
Fixpoint test (workdir : string) (commands : list command) : run W Result :=
  match commands with
  | [] => mret (mkResult true "(all test commands passed)" "" (-1))
  | c :: commands =>
      r ← compiler_run workdir c 1200;
      if success r then test workdir commands else mret r
  end.

Definition compile_command (source out : string) (include_dirs : list string) (arch opt debug : string) : list string :=
  ["cc"; debug; opt; "-arch"; arch]
  ++ (include_dirs ≫= fun inc => ["-I"; inc])
  ++ ["-c"; source; "-o"; out].
Definition compile_object (workdir source out : string) : run W Result :=
  compiler_run workdir (Argv (compile_command source out ["src"] "arm64" "-O2" "-g")) 900.
End commands.

(** ** benchmark.py: the result of a measurement *)

Definition COUNTER_KEYS : list string := ["cycles"; "instructions"; "branches"; "branch_misses"; "l1_misses"].

Record BenchmarkResult : Type := mkBench {
  runtime_ns : float;
  counters : list (string * float);   (* the attributes of [COUNTER_KEYS] that are not None *)
  extra : list (string * json);
  rounds : nat;
  raw_output : string
}.

Definition merge_counters (self other : BenchmarkResult) : BenchmarkResult :=
  mkBench (runtime_ns self)
    (for_each COUNTER_KEYS (counters self) (fun c key =>
       match dict_get (counters other) key with Some v => dict_set c key v | None => c end))
    (extra self) (rounds self) (raw_output self).

(** [f"{x:8.kf}"] *)
Definition fmt_width (w k : nat) (x : float) : string :=
  let s := fmt_fixed false k x in spaces (w - String.length s) +:+ s.

Definition evidence (b : BenchmarkResult) : string :=
  let line name key := match dict_get (counters b) key with
                       | Some v => [name +:+ fmt_width 8 1 v] | None => [] end in
  join nl (["runtime             " +:+ fmt_width 8 2 (runtime_ns b) +:+ " ns"]
           ++ line "cycles              " "cycles"
           ++ line "instructions        " "instructions"
           ++ line "branches            " "branches"
           ++ line "branch-misses       " "branch_misses"
           ++ line "L1-dcache-misses    " "l1_misses").

Definition to_dict (b : BenchmarkResult) : list (string * json) :=
  dict_set (for_each COUNTER_KEYS [("runtime_ns", JFloat (runtime_ns b))] (fun d key =>
      match dict_get (counters b) key with Some v => dict_set d key (JFloat v) | None => d end))
    "rounds" (JInt (Z.of_nat (rounds b))).

(** [float(v)] of a decoded value: [None] stands for the [TypeError] and the
    [ValueError] the callers catch; an integer too large raises. *)
Definition float_of_json (v : json) : result (option float) :=
  match v with
  | JBool b => Ret (Some (round_int (if b then 1 else 0)))
  | JInt n => Some <$> float_of_int n
  | JFloat x => Ret (Some x)
  | JStr s => Ret (py_float s)
  | JNull | JList _ | JObj _ => Ret None
  end.

Definition from_dict (data : list (string * json)) (out : string) : result BenchmarkResult :=
  cs ← for_result COUNTER_KEYS [] (fun c key =>
    match dict_get data key with
    | None => Ret c
    | Some v => x ← float_of_json v;
                Ret (match x with Some x => dict_set c key x | None => c end)
    end);
  runtime ← float_of_json (default JNull (dict_get data "runtime_ns"));
  Ret (mkBench (default S754_nan runtime) cs data 0 out).

Definition RESULT_NS_RE : re := Eval vm_compute in rx "RESULT_NS\s*=\s*([0-9.]+)".

(** The object of the sarm protocol *)
Definition protocol_object (v : json) : option (list (string * json)) :=
  match v with
  | JObj d => match dict_get d "runtime_ns" with Some _ => Some d | None => None end
  | _ => None
  end.

Definition parse_output (out : string) (wall_ns : float) : result BenchmarkResult :=
  match scan_objects protocol_object out with
  | Some data => from_dict data out
  | None =>
      match re_search RESULT_NS_RE out with
      | Some x => v ← float_of_string (group x 1); Ret (mkBench v [] [] 0 out)
      | None => Ret (mkBench wall_ns [] [] 0 out)
      end
  end.

(** ** Statistics *)

(** [sorted] of floats without [nan] (a stable insertion sort) *)
Definition sorted_f : list float -> list float := sort_by fltb.

(** [statistics.median] *)
Definition median (data : list float) : result float :=
  let data := sorted_f data in
  let n := length data in
  match data with
  | [] => Raise (ValueError "no median for empty data")
  | _ :: _ =>
      if Nat.odd n then Ret (nth (n / 2) data fzero)
      else fdiv (fadd (nth (n / 2 - 1) data fzero) (nth (n / 2) data fzero)) (round_int 2)
  end.

(** ** The runner *)

Section benchmark.
Context {W : Type} `{Processes W}.

(** One round: [None] when the run failed or its output has no number. *)
Definition bench_round (c : command) (timeout : Z) : run W (option BenchmarkResult) :=
  r ← run_command c None timeout;
  let '(r, elapsed) := (r : Result * Z) in
  if negb (success r) then mret None else
  wall ← lift (float_of_int elapsed);
  measured ← lift (parse_output (output r) wall);
  if is_nan (runtime_ns measured) then mret None else mret (Some measured).

Fixpoint bench_rounds (n : nat) (c : command) (timeout : Z) (samples : list float) (last : option BenchmarkResult)
  : run W (option (list float * option BenchmarkResult)) :=
  match n with
  | O => mret (Some (samples, last))
  | S n => measured ← bench_round c timeout;
           match measured with
           | None => mret None
           | Some b => bench_rounds n c timeout (samples ++ [runtime_ns b]) (Some b)
           end
  end.

(** [Benchmark(command, rounds, timeout).run()] *)
Definition bench_run (c : command) (rounds : Z) (timeout : Z) : run W (option BenchmarkResult) :=
  r ← bench_rounds (Z.to_nat (Z.max 1 rounds)) c timeout [] None;
  match r with
  | None => mret None
  | Some (samples, Some last) =>
      m ← lift (median samples);
      mret (Some (merge_counters (mkBench m [] (extra last) (length samples) (raw_output last)) last))
  | Some (_, None) => raise (AssertionError "")
  end.
End benchmark.

(** ** The median *)

Abbreviation fle := (fun x y => fleb x y = true).

Lemma sorted_f_perm l : sorted_f l ≡ₚ l.
Proof. apply sort_by_perm. Qed.

Notation number x := (is_nan x = false) (only parsing).

Lemma sorted_f_sorted l : Forall (fun y => number y) l -> StronglySorted fle (sorted_f l).
Proof.
  apply sort_by_sorted.
  - exact fleb_trans.
  - intros x y _ _. apply fltb_fleb.
  - intros x y. apply fltb_false.
Qed.

Lemma sorted_split lo x hi :
  StronglySorted fle (lo ++ x :: hi) -> Forall (fun y => fleb y x = true) lo /\ Forall (fun y => fleb x y = true) hi.
Proof.
  induction lo as [|y lo IH]; intros Hs; inversion Hs as [|? ? Hs' Hy]; subst; [by split|].
  destruct (IH Hs') as [H1 H2]. split; [|done]. constructor; [|done]. rewrite list.Forall_forall in Hy. apply Hy. set_solver.
Qed.

(** The median of an odd number of numbers splits them evenly. *)
Lemma median_odd l :
  Nat.odd (length l) = true -> Forall (fun x => number x) l ->
  exists m lo hi, median l = Ret m /\ l ≡ₚ lo ++ m :: hi /\ length lo = length hi
    /\ Forall (fun x => fleb x m = true) lo /\ Forall (fun x => fleb m x = true) hi.
Proof.
  intros Hodd Hn. unfold median. pose proof (sorted_f_perm l) as Hp. pose proof (sorted_f_sorted l Hn) as Hs.
  destruct (sorted_f l) as [|x0 s0] eqn:E; [by apply Permutation_nil in Hp; subst l|].
  rewrite (Permutation_length Hp), Hodd. rewrite <- E in *. clear E x0 s0.
  pose proof (Permutation_length Hp) as Hlen.
  set (k := (length l / 2)%nat).
  assert (length l = 2 * k + 1)%nat as Hk.
  { apply Nat.odd_spec in Hodd as [j Hj]. subst k. rewrite Hj. rewrite (Nat.mul_comm 2 j), Nat.div_add_l by lia.
    change (1 / 2)%nat with O. lia. }
  assert (k < length (sorted_f l))%nat as Hlt by lia.
  exists (nth k (sorted_f l) fzero), (take k (sorted_f l)), (drop (S k) (sorted_f l)).
  assert (sorted_f l = take k (sorted_f l) ++ nth k (sorted_f l) fzero :: drop (S k) (sorted_f l)) as Hsplit.
  { rewrite <- (take_drop_middle (sorted_f l) k (nth k (sorted_f l) fzero)) at 1; [done|].
    rewrite nth_lookup. destruct (lookup_lt_is_Some_2 _ _ Hlt) as [v Hv]. by rewrite Hv. }
  split; [done|]. split; [by rewrite <- Hsplit|]. split.
  - rewrite length_take, length_drop. rewrite Hlen. lia.
  - apply sorted_split. by rewrite <- Hsplit.
Qed.

(** ** The runner's result *)

Section runner.
Context {W : Type} `{Processes W}.

(** The rounds of a run, each with a successful command and a number. *)
Inductive measured_rounds (c : command) (timeout : Z) : W -> list BenchmarkResult -> W -> Prop :=
| rounds_nil w : measured_rounds c timeout w [] w
| rounds_cons w b w1 bs w2 :
    bench_round c timeout w = (Ret (Some b), w1) -> is_nan (runtime_ns b) = false ->
    measured_rounds c timeout w1 bs w2 -> measured_rounds c timeout w (b :: bs) w2.

Lemma bench_round_number c timeout w b w1 :
  bench_round c timeout w = (Ret (Some b), w1) -> is_nan (runtime_ns b) = false.
Proof.
  unfold bench_round, mbind, run_bind, lift, mret, run_ret. destruct (run_command c None timeout w) as [[[r t]|] w2]; [|done].
  destruct (negb (success r)); [done|]. destruct (float_of_int t) as [wall|]; [|done].
  destruct (parse_output (output r) wall) as [m|]; [|done]. destruct (is_nan (runtime_ns m)) eqn:E; [done|]. by intros [= <- _].
Qed.

Lemma bench_rounds_ok c timeout n : forall samples last w s l w',
  bench_rounds n c timeout samples last w = (Ret (Some (s, l)), w') ->
  exists bs, measured_rounds c timeout w bs w' /\ length bs = n /\ s = samples ++ (runtime_ns <$> bs)
    /\ l = match list.last bs with Some b => Some b | None => last end.
Proof.
  induction n as [|n IH]; intros samples last w s l w'; cbn [bench_rounds].
  - intros [= <- <- <-]. exists []. rewrite app_nil_r. repeat split. constructor.
  - unfold mbind at 1, run_bind at 1. destruct (bench_round c timeout w) as [[[b|]|] w1] eqn:E; try done.
    intros Hr. apply IH in Hr as (bs & Hm & Hl & -> & ->). exists (b :: bs). cbn [length fmap list_fmap].
    split; [econstructor; [exact E|by eapply bench_round_number|done]|]. split; [lia|].
    split; [by rewrite <- app_assoc|]. destruct bs as [|b' bs]; [done|]. cbn [list.last].
    destruct (list.last (b' :: bs)) eqn:El; [done|]. by apply last_None in El.
Qed.

(** A benchmark result stands for the whole run: there were exactly
    [max(1, rounds)] rounds, each a successful command whose output gave a
    number; and when their number is odd (the default is five) the runtime is
    one of the samples, with as many samples below or equal as above or equal,
    so outliers in fewer than half of the rounds cannot move it past the
    others. *)
Theorem bench_run_median c n timeout w b w' :
  bench_run c n timeout w = (Ret (Some b), w') ->
  exists bs, measured_rounds c timeout w bs w' /\ Z.of_nat (length bs) = Z.max 1 n /\ rounds b = length bs
  /\ (Nat.odd (length bs) = true ->
      exists lo hi, runtime_ns <$> bs ≡ₚ lo ++ runtime_ns b :: hi /\ length lo = length hi
        /\ Forall (fun x => fleb x (runtime_ns b) = true) lo /\ Forall (fun x => fleb (runtime_ns b) x = true) hi).
Proof.
  unfold bench_run. unfold mbind at 1, run_bind at 1.
  destruct (bench_rounds _ c timeout [] None w) as [[[[s [l|]]|]|] w1] eqn:E; try done.
  apply bench_rounds_ok in E as (bs & Hm & Hl & -> & _). unfold mbind, run_bind, lift. intros Hr.
  change ([] ++ (runtime_ns <$> bs)) with (runtime_ns <$> bs) in Hr.
  destruct (median (runtime_ns <$> bs)) as [m|] eqn:Em; [|done]. injection Hr as <- <-.
  exists bs. split; [done|]. split; [lia|]. cbn [rounds runtime_ns merge_counters].
  split; [by rewrite length_fmap|]. intros Hodd.
  destruct (median_odd (runtime_ns <$> bs)) as (m' & lo & hi & Em' & Hp & Hlen & Hlo & Hhi).
  - by rewrite length_fmap.
  - clear -Hm. induction Hm as [|w b w1 bs w2 _ Hb _ IH]; cbn; constructor; auto.
  - rewrite Em in Em'. injection Em' as <-. by exists lo, hi.
Qed.
End runner.

(** A world of canned outputs. *)
#[local] Instance canned : Processes (list string) := {
  spawn _ _ _ _ w := match w with
                     | o :: w => (Exited 0 o "", 1000, w)
                     | [] => (Exited 1 "" "no more runs", 1000, [])
                     end
}.

Lemma bench_run_median_witness :
  let w := ["RESULT_NS=12.5"; "RESULT_NS=90"; "RESULT_NS=11"] in
  exists b, bench_run (Argv ["./bench"]) 3 600 w = (Ret (Some b), []) /\ runtime_ns b = of_decimal 125 1 /\
  exists bs, measured_rounds (Argv ["./bench"]) 600 w bs [] /\ Z.of_nat (length bs) = Z.max 1 3 /\ rounds b = length bs
  /\ (Nat.odd (length bs) = true ->
      exists lo hi, runtime_ns <$> bs ≡ₚ lo ++ runtime_ns b :: hi /\ length lo = length hi
        /\ Forall (fun x => fleb x (runtime_ns b) = true) lo /\ Forall (fun x => fleb (runtime_ns b) x = true) hi).
Proof.
  eexists. split; [vm_compute; reflexivity|]. split; [vm_compute; reflexivity|].
  eapply (bench_run_median (Argv ["./bench"]) 3 600). vm_compute. reflexivity.
Defined.

(** ** The output protocol *)

(** The sarm protocol survives the text around it: when the output is any
    text without an opening brace, then an object that decodes and has a
    [runtime_ns] key, then anything, the measurement is that object, so a
    numeric [runtime_ns] is the runtime, and neither the [RESULT_NS] format
    nor the wall clock is used. *)
Theorem parse_output_protocol p s t wall data v x b :
  mem_char "{" p = false ->
  value (S (String.length s)) s = Some (JObj data, "") -> is_Some (expect "{" s) ->
  dict_get data "runtime_ns" = Some v -> float_of_json v = Ret (Some x) ->
  parse_output (p +:+ s +:+ t) wall = Ret b ->
  runtime_ns b = x /\ extra b = data.
Proof.
  intros Hp Hv Hs Hk Hx. unfold parse_output.
  rewrite (scan_objects_found protocol_object p s t (JObj data) data Hp Hv Hs) by (cbn; by rewrite Hk).
  unfold from_dict. destruct (for_result _ _ _) as [cs|]; cbn [mbind result_bind]; [|done].
  rewrite Hk. change (default JNull (Some v)) with v. rewrite Hx. cbn. by intros [= <-].
Qed.

Definition sample_object : string :=
  "{" +:+ q "runtime_ns" +:+ ": 12.5, " +:+ q "label" +:+ ": " +:+ q "a } brace" +:+ "}".
Lemma parse_output_protocol_witness :
  exists b, parse_output ("building... " +:+ sample_object +:+ " RESULT_NS=1") fzero = Ret b /\
  runtime_ns b = of_decimal 125 1 /\ extra b = [("runtime_ns", JFloat (of_decimal 125 1)); ("label", JStr "a } brace")].
Proof.
  eexists. split; [vm_compute; reflexivity|].
  eapply (parse_output_protocol "building... " sample_object " RESULT_NS=1" fzero _ (JFloat (of_decimal 125 1)));
    first [eexists; vm_compute; reflexivity|vm_compute; reflexivity].
Defined.
