(* ===== verification/Minimize.v ===== *)
(** * Shrinking a fuzzer finding (scripts/fuzz_minimize.py)

    Delta debugging over bytes against an oracle that replays them, the two
    passes, and the loop that repeats them until nothing changes.  The replay
    of the suite's binary is a parameter.  The [while] loops run on fuel, with
    the proof that the fuel is enough: they satisfy the equations of the
    source's loops. *)

From Stdlib Require Import Ascii.
From S2P Require Import Prelude PyStr Bench.

Notation bytes := (list Z) (only parsing).

(** [suite_of], on the base name of the binary *)
Definition suite_of (base : string) : string :=
  if startswith "test_fuzz_" base then drop_str 10 base
  else if startswith "test_" base then drop_str 5 base
  else base.

Section minimize.
Context {W : Type}.
(** Run the binary on the bytes: what happened to the process. *)
Context (replay : bytes -> W -> outcome * W).
Notation run := (run W).

(** [Oracle.fails] *)
Definition fails (data : bytes) : run bool := fun w =>
  let '(o, w) := replay data w in
  (match o with
   | TimedOut _ => Ret true
   | Exited rc out _ => if rc =? 2 then Raise (Unusable (strip out)) else Ret (negb (rc =? 0))
   | NotFound _ | Failed _ => Raise OSError
   end, w).

(** [data[:i] + data[i + chunk:]] *)
Definition without (i chunk : nat) (data : bytes) : bytes := take i data ++ drop (i + chunk) data.

(** [while i < len(data)] of [remove_pass] *)
Fixpoint drop_runs (fuel chunk i : nat) (data : bytes) (dropped : bool) : run (bytes * bool) :=
  match fuel with
  | O => mret (data, dropped)
  | S fuel =>
      if (i <? length data)%nat then
        let candidate := without i chunk data in
        hit ← (if decide (candidate = data) then mret false else fails candidate);
        if (hit : bool) then drop_runs fuel chunk i candidate true
        else drop_runs fuel chunk (i + chunk) data dropped
      else mret (data, dropped)
  end.

Definition chunk_size (len n : nat) : nat := Nat.max 1 (len / n).

(** The outer loop of [remove_pass] *)
Fixpoint remove_loop (fuel n : nat) (data : bytes) : run bytes :=
  match fuel with
  | O => mret data
  | S fuel =>
      if (2 <=? length data)%nat && (n <=? length data)%nat then
        r ← drop_runs (length data) (chunk_size (length data) n) 0 data false;
        let '(data, dropped) := (r : bytes * bool) in
        remove_loop fuel (if dropped then Nat.max 2 (n - 1) else n * 2) data
      else mret data
  end.
Definition remove_fuel (data : bytes) : nat := S (length data) * (length data + 3).
Definition remove_pass (data : bytes) : run bytes := remove_loop (remove_fuel data) 2 data.

Definition SIMPLIFY_TO : list Z := [0; 65].

(** The values tried for the byte [i]. *)
Fixpoint simplify_byte (i : nat) (values : list Z) (out : bytes) : run bytes :=
  match values with
  | [] => mret out
  | v :: values =>
      if decide (out !! i = Some v) then mret out else
      hit ← fails (<[i := v]> out);
      if (hit : bool) then mret (<[i := v]> out) else simplify_byte i values out
  end.
Fixpoint simplify_from (idx : list nat) (out : bytes) : run bytes :=
  match idx with
  | [] => mret out
  | i :: idx => out ← simplify_byte i SIMPLIFY_TO out; simplify_from idx out
  end.
Definition simplify_pass (data : bytes) : run bytes := simplify_from (seq 0 (length data)) data.

(** [while True] of [main]: the passes until a whole one changes nothing. *)
Fixpoint shrink_loop (fuel : nat) (data : bytes) : run bytes :=
  match fuel with
  | O => mret data
  | S fuel =>
      after ← remove_pass data;
      after ← simplify_pass after;
      if decide (after = data) then mret after else shrink_loop fuel after
  end.

(** How far a byte is from the simplest value; every change decreases the sum. *)
Definition rank (b : Z) : nat := if b =? 0 then 1 else if b =? 65 then 2 else 3.
Definition weight (data : bytes) : nat := sum_list (rank <$> data).
Definition shrink (data : bytes) : run bytes := shrink_loop (S (weight data)) data.

(** [main] up to the output file: the exit status when there is nothing to
    write, and the minimised bytes otherwise. *)
Definition minimize_main (data : bytes) : run (Z + bytes) := fun w =>
  match fails data w with
  | (Raise (Unusable _), w) => (Ret (inl 2), w)
  | (Raise e, w) => (Raise e, w)
  | (Ret false, w) => (Ret (inl 1), w)
  | (Ret true, w) =>
      match shrink data w with
      | (Raise (Unusable _), w) => (Ret (inl 2), w)
      | (Raise e, w) => (Raise e, w)
      | (Ret data, w) => (Ret (inr data), w)
      end
  end.
End minimize.

(** [hexdump] *)
Definition hex2 (b : Z) : string :=
  String (hex_digit (Z.to_N (b / 16))) (String (hex_digit (Z.to_N (b mod 16))) "").
Definition hex4_of (n : Z) : string := hex2 (n / 256) +:+ hex2 (n mod 256).
Definition pad_right (n : nat) (s : string) : string := s +:+ spaces (n - String.length s).
Definition shown (b : Z) : string := if (32 <=? b) && (b <? 127) then String (ascii_of_N (Z.to_N b)) "" else ".".
Definition hexdump_row (data : list Z) (off : nat) : string :=
  let row := take 16 (drop off data) in
  "  " +:+ hex4_of (Z.of_nat off) +:+ "  " +:+ pad_right 47 (join " " (hex2 <$> row)) +:+ "  " +:+ join "" (shown <$> row).
Definition hexdump (data : list Z) (limit : nat) : string :=
  let n := Nat.min (length data) limit in
  join nl ((hexdump_row data <$> ((fun k => k * 16)%nat <$> seq 0 ((n + 15) / 16)))
           ++ (if (limit <? length data)%nat then ["  ... " +:+ str_nat (length data - limit) +:+ " more bytes"] else [])).

Example hexdump_demo : hexdump [72; 105; 0; 255] 256
  = "  0000  48 69 00 ff" +:+ spaces 36 +:+ "  Hi..".
Proof. vm_compute. reflexivity. Qed.

(** ** Reasoning about runs *)

Section runs.
Context {W : Type}.

(** Every value a run can return satisfies [P]. *)
Definition holds {A} (m : run W A) (P : A -> Prop) : Prop := forall w a w', m w = (Ret a, w') -> P a.

Lemma holds_ret {A} (a : A) (P : A -> Prop) : P a -> holds (mret a) P.
Proof. by intros H w b w' [= <- _]. Qed.

Lemma holds_bind {A B} (m : run W A) (f : A -> run W B) P Q :
  holds m P -> (forall a, P a -> holds (f a) Q) -> holds (m ≫= f) Q.
Proof.
  intros Hm Hf w b w'. unfold mbind, run_bind. destruct (m w) as [[a|e] w1] eqn:E; [|done].
  eapply Hf. by eapply Hm.
Qed.

Lemma holds_weaken {A} (m : run W A) (P Q : A -> Prop) : holds m P -> (forall a, P a -> Q a) -> holds m Q.
Proof. intros H HPQ w a w' E. apply HPQ. by eapply H. Qed.

Lemma holds_and {A} (m : run W A) (P Q : A -> Prop) : holds m P -> holds m Q -> holds m (fun a => P a /\ Q a).
Proof. intros HP HQ w a w' E. split; [by eapply HP|by eapply HQ]. Qed.

Lemma bind_ext {A B} (m : run W A) (f g : A -> run W B) P w :
  holds m P -> (forall a w, P a -> f a w = g a w) -> (m ≫= f) w = (m ≫= g) w.
Proof.
  intros Hm Hfg. unfold mbind, run_bind. destruct (m w) as [[a|e] w1] eqn:E; [|done].
  apply Hfg. by eapply Hm.
Qed.
End runs.

(** ** Smaller inputs *)

Lemma without_length i chunk data : (i < length data)%nat -> (1 <= chunk)%nat ->
  (length (without i chunk data) < length data)%nat.
Proof. intros. unfold without. rewrite length_app, length_take, length_drop. lia. Qed.

(** [b] is [a] with bytes removed and others replaced by simple values. *)
Inductive simpler : list Z -> list Z -> Prop :=
| simpler_nil : simpler [] []
| simpler_skip x l l' : simpler l l' -> simpler (x :: l) l'
| simpler_keep x y l l' : y = x \/ y ∈ SIMPLIFY_TO -> simpler l l' -> simpler (x :: l) (y :: l').

Lemma simpler_refl l : simpler l l.
Proof. induction l; [constructor|apply simpler_keep; auto]. Qed.

Lemma simpler_trans a b c : simpler a b -> simpler b c -> simpler a c.
Proof.
  intros H. revert c. induction H as [|x l l' H IH|x y l l' Hy H IH]; intros c Hc; [done|constructor; auto|].
  inversion Hc as [|? ? ? Hc'|? z ? ? Hz Hc']; subst; [apply simpler_skip; auto|].
  apply simpler_keep; [|auto]. destruct Hz as [->|?]; [done|by right].
Qed.

Lemma simpler_drop n l : simpler l (drop n l).
Proof. revert l. induction n as [|n IH]; intros [|x l]; try apply simpler_refl. cbn [drop]. by constructor. Qed.

Lemma simpler_without i chunk l : simpler l (without i chunk l).
Proof.
  unfold without. revert i. induction l as [|x l IH]; intros i.
  - rewrite take_nil, drop_nil. constructor.
  - destruct i as [|i]; [apply simpler_drop|]. cbn. apply simpler_keep; [by left|apply IH].
Qed.

Lemma simpler_insert i v l : v ∈ SIMPLIFY_TO -> simpler l (<[i := v]> l).
Proof.
  intros Hv. revert i. induction l as [|x l IH]; intros i; [constructor|].
  destruct i as [|i]; cbn; apply simpler_keep; auto. apply simpler_refl.
Qed.

Lemma simpler_length a b : simpler a b -> (length b <= length a)%nat.
Proof. induction 1; cbn; lia. Qed.

Lemma rank_pos b : (1 <= rank b)%nat.
Proof. unfold rank. destruct (b =? 0), (b =? 65); lia. Qed.

Lemma weight_app a b : weight (a ++ b) = (weight a + weight b)%nat.
Proof. unfold weight. by rewrite fmap_app, sum_list_with_app. Qed.

Lemma weight_length l : (length l <= weight l)%nat.
Proof. induction l as [|x l IH]; cbn; [lia|]. pose proof (rank_pos x). unfold weight in IH. lia. Qed.

Lemma without_weight i chunk l : (i < length l)%nat -> (1 <= chunk)%nat -> (weight (without i chunk l) < weight l)%nat.
Proof.
  intros Hi Hc. rewrite <- (take_drop i l) at 2. rewrite <- (take_drop chunk (drop i l)). unfold without.
  rewrite !weight_app, drop_drop. pose proof (weight_length (take chunk (drop i l))) as H.
  rewrite length_take, length_drop in H. lia.
Qed.

Lemma insert_weight i v x l : l !! i = Some x -> (weight (<[i := v]> l) + rank x = weight l + rank v)%nat.
Proof.
  intros H. rewrite <- (take_drop_middle l i x H) at 2. rewrite insert_take_drop by (by eapply lookup_lt_Some).
  rewrite !weight_app. unfold weight. cbn. lia.
Qed.

(** ** The passes *)

Section passes.
Context {W : Type} (replay : list Z -> W -> outcome * W).
Abbreviation fails := (fails replay).
Abbreviation drop_runs := (drop_runs replay).
Abbreviation remove_loop := (remove_loop replay).
Abbreviation remove_pass := (remove_pass replay).
Abbreviation simplify_byte := (simplify_byte replay).
Abbreviation simplify_from := (simplify_from replay).
Abbreviation simplify_pass := (simplify_pass replay).
Abbreviation shrink_loop := (shrink_loop replay).
Abbreviation shrink := (shrink replay).

(** A replay of the bytes was seen to fail. *)
Definition observed (data : list Z) : Prop := exists w w', fails data w = (Ret true, w').

(** What a pass may turn its input into. *)
Definition reduced (data out : list Z) : Prop := simpler data out /\ (out = data \/ (observed out /\ (weight out < weight data)%nat)).

Lemma reduced_refl data : reduced data data.
Proof. split; [apply simpler_refl|by left]. Qed.

Lemma reduced_trans a b c : reduced a b -> reduced b c -> reduced a c.
Proof.
  intros [H1 H2] [H3 H4]. split; [by eapply simpler_trans|].
  destruct H4 as [->|[Ho Hw]]; [done|]. right. split; [done|]. destruct H2 as [->|[_ ?]]; [done|lia].
Qed.

(** An accepted candidate of [drop_runs] *)
Lemma holds_hit candidate data :
  holds (if decide (candidate = data) then mret false else fails candidate)
    (fun hit => hit = true -> candidate <> data /\ observed candidate).
Proof.
  case_decide as Hd; [by apply holds_ret|]. intros w b w' E ->. split; [done|]. by exists w, w'.
Qed.

Lemma drop_runs_reduced fuel chunk : (1 <= chunk)%nat -> forall i data d,
  holds (drop_runs fuel chunk i data d)
    (fun r => reduced data r.1 /\ (r.2 = false -> d = false /\ r.1 = data)
              /\ (r.2 = true -> d = true \/ (length r.1 < length data)%nat)).
Proof.
  intros Hc. induction fuel as [|fuel IH]; intros i data d; cbn [Minimize.drop_runs].
  - apply holds_ret. cbn. split; [apply reduced_refl|]. split; [done|by left].
  - destruct (Nat.ltb_spec i (length data)) as [Hi|Hi].
    2: { apply holds_ret. cbn. split; [apply reduced_refl|]. split; [done|by left]. }
    eapply holds_bind; [apply holds_hit|]. intros hit Hhit. destruct hit; [|apply IH].
    destruct (Hhit eq_refl) as [Hne Ho].
    eapply holds_weaken; [apply IH|]. intros [out b] ([H1 H2] & Hf & Ht). cbn [fst snd] in *.
    split; [eapply reduced_trans; [split; [apply simpler_without|right; split; [done|by apply without_weight]]|by split]|].
    split; [intros Hb; by destruct (Hf Hb)|]. intros _. right.
    pose proof (simpler_length _ _ H1). pose proof (without_length i chunk data Hi Hc). lia.
Qed.

Lemma drop_runs_fuel chunk : (1 <= chunk)%nat -> forall fuel fuel' i data d w,
  (length data - i <= fuel)%nat -> (length data - i <= fuel')%nat ->
  drop_runs fuel chunk i data d w = drop_runs fuel' chunk i data d w.
Proof.
  intros Hc. induction fuel as [|fuel IH]; intros fuel' i data d w H1 H2.
  - destruct fuel'; [done|]. cbn [Minimize.drop_runs]. by rewrite (proj2 (Nat.ltb_ge i (length data))) by lia.
  - destruct fuel' as [|fuel']; cbn [Minimize.drop_runs].
    + by rewrite (proj2 (Nat.ltb_ge i (length data))) by lia.
    + destruct (Nat.ltb_spec i (length data)) as [Hi|Hi]; [|done].
      eapply bind_ext; [apply holds_hit|]. intros hit w1 _.
      pose proof (without_length i chunk data Hi Hc). destruct hit; apply IH; lia.
Qed.

Lemma chunk_pos len n : (1 <= chunk_size len n)%nat.
Proof. unfold chunk_size. lia. Qed.

Lemma remove_loop_reduced fuel : forall n data, holds (remove_loop fuel n data) (reduced data).
Proof.
  induction fuel as [|fuel IH]; intros n data; cbn [Minimize.remove_loop]; [apply holds_ret, reduced_refl|].
  destruct (_ && _); [|apply holds_ret, reduced_refl].
  eapply holds_bind; [apply drop_runs_reduced, chunk_pos|]. intros [out b] (H & _ & _).
  eapply holds_weaken; [apply IH|]. intros a Ha. by eapply reduced_trans.
Qed.

(** The measure of the outer loop: a pass that drops shortens the input, one
    that does not doubles [n]. *)
Definition remaining (bound n : nat) (data : list Z) : nat := length data * (bound + 2) + (bound + 1 - n).

Lemma remove_loop_fuel bound : forall fuel fuel' n data w,
  (1 <= n)%nat -> (length data <= bound)%nat ->
  (remaining bound n data <= fuel)%nat -> (remaining bound n data <= fuel')%nat ->
  remove_loop fuel n data w = remove_loop fuel' n data w.
Proof.
  unfold remaining. induction fuel as [|fuel IH]; intros fuel' n data w Hn Hb H1 H2.
  - destruct fuel'; [done|]. cbn [Minimize.remove_loop]. destruct (length data) eqn:E; [done|cbn in H1; lia].
  - destruct fuel' as [|fuel']; cbn [Minimize.remove_loop].
    + destruct (length data) eqn:E; [done|cbn in H2; lia].
    + destruct ((2 <=? length data)%nat && (n <=? length data)%nat) eqn:Ec; [|done].
      apply andb_true_iff in Ec as [E1%Nat.leb_le E2%Nat.leb_le].
      eapply bind_ext; [apply drop_runs_reduced, chunk_pos|]. intros [out b] w1 ([Hs _] & Hf & Ht). cbn [fst snd] in *.
      pose proof (simpler_length _ _ Hs) as Hl. destruct b.
      * destruct (Ht eq_refl) as [?|Hlt]; [done|]. apply IH; nia.
      * destruct (Hf eq_refl) as [_ ->]. apply IH; nia.
Qed.

(** The equation of the source's loop, for any [n >= 1]. *)
Lemma remove_loop_eq fuel n data w :
  (1 <= n)%nat -> (remaining (length data) n data < fuel)%nat ->
  remove_loop fuel n data w =
    (if (2 <=? length data)%nat && (n <=? length data)%nat then
       r ← drop_runs (length data) (chunk_size (length data) n) 0 data false;
       let '(data, dropped) := (r : list Z * bool) in
       remove_loop fuel (if dropped then Nat.max 2 (n - 1) else n * 2)%nat data
     else mret data) w.
Proof.
  intros Hn Hf. rewrite (remove_loop_fuel (length data) fuel (S fuel) n data w) by lia.
  cbn [Minimize.remove_loop]. destruct ((2 <=? length data)%nat && (n <=? length data)%nat) eqn:Ec; [|done].
  apply andb_true_iff in Ec as [E1%Nat.leb_le E2%Nat.leb_le]. unfold remaining in Hf.
  eapply bind_ext; [apply drop_runs_reduced, chunk_pos|]. intros [out b] w1 ([Hs _] & Hff & Ht). cbn [fst snd] in *.
  pose proof (simpler_length _ _ Hs) as Hl. apply (remove_loop_fuel (length data)); unfold remaining; [destruct b; lia|lia|..].
  all: destruct b; [destruct (Ht eq_refl) as [?|Hlt]; [done|]|destruct (Hff eq_refl) as [_ ->]]; nia.
Qed.

Lemma simplify_byte_reduced i out :
  (i < length out)%nat -> holds (simplify_byte i SIMPLIFY_TO out) (reduced out).
Proof.
  intros Hi. destruct (lookup_lt_is_Some_2 _ _ Hi) as [x Hx].
  assert (forall v, v ∈ SIMPLIFY_TO -> (rank v < rank x)%nat ->
    holds (fails (<[i := v]> out)) (fun hit => hit = true -> reduced out (<[i := v]> out))) as Hh.
  { intros v Hv Hr w b w' E ->. split; [by apply simpler_insert|]. right. split; [by exists w, w'|].
    pose proof (insert_weight i v x out Hx). lia. }
  unfold SIMPLIFY_TO. cbn [Minimize.simplify_byte]. rewrite Hx.
  case_decide as H0; [apply holds_ret, reduced_refl|].
  assert (x <> 0) as Hx0 by congruence.
  eapply holds_bind; [apply (Hh 0)|].
  { left. } { unfold rank. destruct (Z.eqb_spec x 0); [done|]. cbn. destruct (x =? 65); lia. }
  intros hit Hhit. destruct hit; [apply holds_ret; auto|].
  case_decide as H65; [apply holds_ret, reduced_refl|]. assert (x <> 65) as Hx65 by congruence.
  eapply holds_bind; [apply (Hh 65)|].
  { right. left. } { unfold rank. destruct (Z.eqb_spec x 0), (Z.eqb_spec x 65); [done..|]. cbn. lia. }
  intros hit' Hhit'. destruct hit'; apply holds_ret; [auto|apply reduced_refl].
Qed.

Lemma simplify_length_from l : forall out, (forall i, i ∈ l -> (i < length out)%nat) ->
  holds (simplify_from l out) (fun r => reduced out r /\ length r = length out).
Proof.
  induction l as [|i l IH]; intros out Hin; cbn [Minimize.simplify_from];
    [apply holds_ret; split; [apply reduced_refl|done]|].
  assert (holds (simplify_byte i SIMPLIFY_TO out) (fun r => length r = length out)) as Hlen.
  { assert (forall vs, holds (simplify_byte i vs out) (fun r => length r = length out)) as H; [|apply H].
    induction vs as [|v vs IHv]; cbn [Minimize.simplify_byte]; [by apply holds_ret|].
    case_decide; [by apply holds_ret|]. apply (holds_bind _ _ (fun _ => True)); [done|]. intros [] _; [|done].
    apply holds_ret, length_insert. }
  eapply holds_bind; [apply (holds_and _ _ _ (simplify_byte_reduced i out (Hin i ltac:(left))) Hlen)|].
  intros r [Hr Hl]. eapply holds_weaken; [apply IH; intros j Hj; rewrite Hl; apply Hin; by right|].
  intros r' [Hr' Hl']. split; [by eapply reduced_trans|congruence].
Qed.

Lemma simplify_pass_reduced data : holds (simplify_pass data) (reduced data).
Proof.
  eapply holds_weaken; [apply simplify_length_from|by intros r []]. intros i Hi. apply elem_of_seq in Hi. lia.
Qed.

(** One turn of the loop of [main] *)
Definition turn (data : list Z) : run W (list Z) := after ← remove_pass data; simplify_pass after.

Lemma turn_reduced data : holds (turn data) (reduced data).
Proof.
  eapply holds_bind; [apply remove_loop_reduced|]. intros r Hr. eapply holds_weaken; [apply simplify_pass_reduced|].
  intros a Ha. by eapply reduced_trans.
Qed.

Lemma bind_assoc {A B C} (m : run W A) (f : A -> run W B) (g : B -> run W C) w :
  (m ≫= (fun x => f x ≫= g)) w = ((m ≫= f) ≫= g) w.
Proof. unfold mbind, run_bind. by destruct (m w) as [[] ?]. Qed.

Lemma shrink_loop_turn fuel data w :
  shrink_loop (S fuel) data w = (turn data ≫= (fun after => if decide (after = data) then mret after else shrink_loop fuel after)) w.
Proof. cbn [Minimize.shrink_loop]. unfold turn. by rewrite <- bind_assoc. Qed.

Lemma shrink_loop_fuel : forall fuel fuel' data w,
  (weight data < fuel)%nat -> (weight data < fuel')%nat -> shrink_loop fuel data w = shrink_loop fuel' data w.
Proof.
  induction fuel as [|fuel IH]; intros [|fuel'] data w H1 H2; [lia..|]. rewrite !shrink_loop_turn.
  eapply bind_ext; [apply turn_reduced|]. intros a w1 [_ [->|[_ Hw]]]; case_decide; try done; apply IH; lia.
Qed.

(** C26: the loops of the minimiser terminate: the [while True] of [main] and
    the outer [while] of [remove_pass] (for every input [d] and counter [n] it
    can reach from [data]) satisfy the equations of the source for the fuel
    they are given, so running out of fuel is never what ends them. *)
Theorem shrink_terminates data n d w :
  (1 <= n)%nat -> (length d <= length data)%nat ->
  shrink data w = (after ← remove_pass data; after ← simplify_pass after;
                   if decide (after = data) then mret after else shrink after) w
  /\ remove_loop (remove_fuel data) n d w =
       (if (2 <=? length d)%nat && (n <=? length d)%nat then
          r ← drop_runs (length d) (chunk_size (length d) n) 0 d false;
          let '(d, dropped) := (r : list Z * bool) in
          remove_loop (remove_fuel data) (if dropped then Nat.max 2 (n - 1) else n * 2)%nat d
        else mret d) w.
Proof.
  intros Hn Hd. split.
  - rewrite bind_assoc. change (remove_pass data ≫= simplify_pass) with (turn data). unfold Minimize.shrink.
    rewrite shrink_loop_turn. eapply bind_ext; [apply turn_reduced|]. intros a w1 [_ [->|[_ Hw]]]; case_decide; try done;
      apply shrink_loop_fuel; lia.
  - apply remove_loop_eq; [done|]. unfold remaining, remove_fuel. nia.
Qed.

(** *** The result *)

Lemma shrink_loop_reduced fuel : forall data, holds (shrink_loop fuel data) (reduced data).
Proof.
  induction fuel as [|fuel IH]; intros data; [apply holds_ret, reduced_refl|].
  intros w a w' E. rewrite shrink_loop_turn in E. revert w a w' E.
  eapply (holds_bind (turn data)); [apply turn_reduced|]. intros r Hr. case_decide; [by apply holds_ret|].
  eapply holds_weaken; [apply IH|]. intros b Hb. by eapply reduced_trans.
Qed.

(** what the minimiser writes still reproduces the finding: whenever it
    returns bytes, a replay of exactly those bytes was seen to fail (an exit
    status other than 0 and 2, or a hang), and they are the input with bytes
    removed and others replaced by 0x00 or 0x41, so never longer. *)
Theorem minimize_reproduces data w out w' :
  minimize_main replay data w = (Ret (inr out), w') ->
  observed out /\ simpler data out /\ (length out <= length data)%nat.
Proof.
  unfold minimize_main. destruct (fails data w) as [[[]|e] w1] eqn:E1; [|done|by destruct e].
  destruct (shrink data w1) as [[r|e] w2] eqn:E2; [|by destruct e]. intros [= <- _].
  destruct (shrink_loop_reduced _ _ _ _ _ E2) as [Hs Ho]. split; [|split; [done|by apply simpler_length]].
  destruct Ho as [->|[? _]]; [by exists w, w1|done].
Qed.

(** A run that returns its own input went only through steps that did. *)
Lemma reduced_antisym a b : reduced a b -> reduced b a -> a = b.
Proof. intros [_ [->|[_ H1]]] [_ [H|[_ H2]]]; [done..|lia]. Qed.

Lemma bind_ret_inv {A B} (m : run W A) (f : A -> run W B) w b w' :
  (m ≫= f) w = (Ret b, w') -> exists a w1, m w = (Ret a, w1) /\ f a w1 = (Ret b, w').
Proof. unfold mbind, run_bind. destruct (m w) as [[a|e] w1]; [eauto|done]. Qed.

Lemma shrink_loop_last fuel : forall data w out w', (weight data < fuel)%nat ->
  shrink_loop fuel data w = (Ret out, w') -> exists w1 w2, turn out w1 = (Ret out, w2).
Proof.
  induction fuel as [|fuel IH]; intros data w out w' Hf E; [lia|]. rewrite shrink_loop_turn in E.
  apply bind_ret_inv in E as (a & w1 & Et & E). destruct (turn_reduced data _ _ _ Et) as [_ Hr].
  case_decide as Hd.
  - injection E as <- <-. subst a. by exists w, w1.
  - destruct Hr as [->|[_ Hw]]; [done|]. eapply IH; [|exact E]. lia.
Qed.

(** With a deterministic oracle, the steps that kept the input are the
    candidates that do not fail. *)
Context (p : list Z -> bool) (deterministic : forall d w, (fails d w).1 = Ret (p d)).

Lemma fails_false d w w' : fails d w = (Ret false, w') -> p d = false.
Proof. intros E. pose proof (deterministic d w) as H. rewrite E in H. cbn in H. congruence. Qed.

Lemma drop_runs_kept fuel : forall i data w r w', (length data - i <= fuel)%nat ->
  drop_runs fuel 1 i data false w = (Ret (r, false), w') ->
  forall j, (i <= j < length data)%nat -> p (without j 1 data) = false.
Proof.
  induction fuel as [|fuel IH]; intros i data w r w' Hf E j Hj; [lia|]. cbn [Minimize.drop_runs] in E.
  rewrite (proj2 (Nat.ltb_lt i (length data))) in E by lia. apply bind_ret_inv in E as (hit & w1 & Eh & E).
  destruct hit.
  - exfalso. pose proof (drop_runs_reduced fuel 1 ltac:(lia) i (without i 1 data) true w1 _ _ E) as (_ & H & _).
    by destruct (H eq_refl).
  - destruct (decide (j = i)) as [->|]; [|eapply IH; [|exact E|]; lia].
    case_decide as Hd; [|by eapply fails_false].
    pose proof (without_length i 1 data ltac:(lia) ltac:(lia)) as Hl. rewrite Hd in Hl. lia.
Qed.

Lemma remove_loop_kept fuel : forall n data w w',
  (1 <= n <= length data)%nat -> (2 <= length data)%nat -> (length data - n < fuel)%nat ->
  remove_loop fuel n data w = (Ret data, w') ->
  forall j, (j < length data)%nat -> p (without j 1 data) = false.
Proof.
  induction fuel as [|fuel IH]; intros n data w w' Hn Hl Hf E j Hj; [lia|]. cbn [Minimize.remove_loop] in E.
  rewrite (proj2 (Nat.leb_le 2 _)), (proj2 (Nat.leb_le n _)) in E by lia. cbn [andb] in E.
  apply bind_ret_inv in E as ([out b] & w1 & Ed & E).
  destruct (drop_runs_reduced _ _ (chunk_pos _ n) _ _ _ _ _ _ Ed) as (_ & Hk & Ht). cbn [fst snd] in Hk, Ht.
  destruct (remove_loop_reduced _ _ _ _ _ _ E) as [Hs _]. pose proof (simpler_length _ _ Hs).
  destruct b; [destruct (Ht eq_refl); [done|lia]|]. destruct (Hk eq_refl) as [_ ->].
  destruct (decide (length data < 2 * n)%nat) as [Hlt|Hge].
  - assert (chunk_size (length data) n = 1%nat) as Hc.
    { unfold chunk_size. assert (length data / n < 2)%nat by (apply Nat.div_lt_upper_bound; lia). lia. }
    rewrite Hc in Ed. eapply (drop_runs_kept _ 0); [|exact Ed|]; lia.
  - eapply (IH (n * 2)%nat); [| | |exact E|done]; lia.
Qed.

Lemma simplify_byte_kept i out w w' x :
  out !! i = Some x -> simplify_byte i SIMPLIFY_TO out w = (Ret out, w') ->
  (x <> 0 -> p (<[i := 0]> out) = false) /\ (x <> 0 -> x <> 65 -> p (<[i := 65]> out) = false).
Proof.
  intros Hx. assert (forall v, x <> v -> <[i := v]> out <> out) as Hne.
  { intros v Hv Heq. apply (f_equal (fun l => l !! i)) in Heq.
    rewrite Hx, list_lookup_insert_eq in Heq by (by eapply lookup_lt_Some). congruence. }
  unfold SIMPLIFY_TO. cbn [Minimize.simplify_byte]. rewrite Hx.
  case_decide as H0; [intros _; split; congruence|]. intros E. apply bind_ret_inv in E as (hit & w1 & E1 & E).
  assert (x <> 0) as Hx0 by congruence. destruct hit; [injection E as E _; by destruct (Hne 0 Hx0)|].
  split; [intros _; by eapply fails_false|]. intros _ Hx65. rewrite decide_False in E by congruence.
  apply bind_ret_inv in E as (hit & w2 & E2 & E). destruct hit; [injection E as E _; by destruct (Hne 65 Hx65)|].
  by eapply fails_false.
Qed.

Lemma simplify_from_kept l : forall out w w',
  (forall i, i ∈ l -> (i < length out)%nat) -> simplify_from l out w = (Ret out, w') ->
  forall i, i ∈ l -> exists w1 w2, simplify_byte i SIMPLIFY_TO out w1 = (Ret out, w2).
Proof.
  induction l as [|j l IH]; intros out w w' Hin E i Hi; [by apply elem_of_nil in Hi|]. cbn [Minimize.simplify_from] in E.
  apply bind_ret_inv in E as (o & w1 & Ej & E).
  pose proof (simplify_byte_reduced j out (Hin j ltac:(left)) _ _ _ Ej) as Hr.
  assert (length o = length out) as Hlo.
  { assert (length out <= length o)%nat; [|pose proof (simpler_length _ _ (proj1 Hr)); lia].
    destruct Hr as [_ [->|_]]; [done|]. revert Ej. clear. revert out w w1 o. generalize SIMPLIFY_TO.
    induction l as [|v vs IHv]; intros out w w1 o; cbn [Minimize.simplify_byte]; [by intros [= <- _]|].
    case_decide; [by intros [= <- _]|]. intros E. apply bind_ret_inv in E as ([] & w2 & _ & E); [|by eapply IHv].
    injection E as <- _. by rewrite length_insert. }
  assert (reduced o out) as Hr'.
  { eapply (simplify_length_from l o); [|exact E]. intros k Hk. rewrite Hlo. apply Hin. by right. }
  assert (o = out) as -> by (by apply reduced_antisym).
  apply elem_of_cons in Hi as [->|Hi]; [by exists w, w1|]. eapply IH; [|exact E|done]. intros k Hk. apply Hin. by right.
Qed.

(** C27: with an oracle that answers the same question the same way, the result
    is minimal under the operations tried: with two bytes or more, removing
    any single byte no longer fails, no byte but 0x00 can become 0x00, and no
    other byte can become 0x41. *)
Theorem minimize_one_minimal data w out w' :
  shrink data w = (Ret out, w') ->
  ((2 <= length out)%nat -> forall j, (j < length out)%nat -> p (without j 1 out) = false)
  /\ forall i x, out !! i = Some x ->
       (x <> 0 -> p (<[i := 0]> out) = false) /\ (x <> 0 -> x <> 65 -> p (<[i := 65]> out) = false).
Proof.
  intros E. apply shrink_loop_last in E as (w1 & w2 & E); [|lia].
  apply bind_ret_inv in E as (r & w3 & Er & Es).
  assert (r = out) as ->.
  { apply reduced_antisym; [by eapply simplify_pass_reduced|by eapply remove_loop_reduced]. }
  split.
  - intros Hl j Hj. eapply (remove_loop_kept (remove_fuel out) 2); [| | |exact Er|done]; unfold remove_fuel; nia.
  - intros i x Hx. assert (i < length out)%nat as Hi by (by eapply lookup_lt_Some).
    destruct (simplify_from_kept (seq 0 (length out)) out _ _ (fun k Hk => proj2 (proj1 (elem_of_seq _ _ _) Hk)) Es i) as (w4 & w5 & Ei).
    { apply elem_of_seq. lia. }
    by eapply simplify_byte_kept.
Qed.
End passes.

(** ** A concrete finding

    A suite that crashes when a 7 is followed later by a 9. *)

Fixpoint has_after_seven (seen : bool) (l : list Z) : bool :=
  match l with
  | [] => false
  | b :: l => (seen && (b =? 9)) || has_after_seven (seen || (b =? 7)) l
  end.
Definition crash (data : list Z) (w : unit) : outcome * unit :=
  (Exited (if has_after_seven false data then 139 else 0) "" "", w).
Definition finding : list Z := [1; 7; 3; 200; 9; 9; 4].

Example finding_shrinks : minimize_main crash finding () = (Ret (inr [7; 9]), ()).
Proof. vm_compute. reflexivity. Qed.
(** A one-byte input is never reduced to none. *)
Example one_byte_kept : minimize_main (fun _ w => (Exited 1 "" "", w)) [65] () = (Ret (inr [0]), ()).
Proof. vm_compute. reflexivity. Qed.

Lemma shrink_terminates_witness :
  shrink crash finding () = (after ← remove_pass crash finding; after ← simplify_pass crash after;
                   if decide (after = finding) then mret after else shrink crash after) ()
  /\ remove_loop crash (remove_fuel finding) 2 finding () =
       (if (2 <=? length finding)%nat && (2 <=? length finding)%nat then
          r ← drop_runs crash (length finding) (chunk_size (length finding) 2) 0 finding false;
          let '(d, dropped) := (r : list Z * bool) in
          remove_loop crash (remove_fuel finding) (if dropped then Nat.max 2 (2 - 1) else 2 * 2)%nat d
        else mret finding) ().
Proof. apply (shrink_terminates crash finding 2 finding ()); cbn; lia. Defined.

Lemma minimize_reproduces_witness :
  observed crash [7; 9] /\ simpler finding [7; 9] /\ (length [7; 9] <= length finding)%nat.
Proof. apply (minimize_reproduces crash finding () [7; 9] ()). vm_compute. reflexivity. Defined.

Lemma minimize_one_minimal_witness :
  ((2 <= length [7; 9])%nat -> forall j, (j < length [7; 9])%nat -> has_after_seven false (without j 1 [7; 9]) = false)
  /\ forall i x, [7; 9] !! i = Some x ->
       (x <> 0 -> has_after_seven false (<[i := 0]> [7; 9]) = false)
       /\ (x <> 0 -> x <> 65 -> has_after_seven false (<[i := 65]> [7; 9]) = false).
Proof.
  apply (minimize_one_minimal crash (has_after_seven false)
           ltac:(intros d []; unfold fails, crash; by destruct (has_after_seven false d)) finding () [7; 9] ()).
  vm_compute. reflexivity.
Defined.

(** ** The command

    Where the result goes.  Paths are POSIX paths; writing succeeds. *)

(** [os.path.basename], [dirname], [join] and [normpath] *)
Definition basename (p : string) : string := default "" (list.last (split_char "/" p)).
Definition dirname (p : string) : string :=
  let head := match removelast (split_char "/" p) with [] => "" | l => join "/" l +:+ "/" end in
  if sforall (fun c => Ascii.eqb c "/") head then head else rstrip_chars "/" head.
Definition path_join (a b : string) : string :=
  if startswith "/" b then b else if (a =s? "") || endswith "/" a then a +:+ b else a +:+ "/" +:+ b.
Definition norm_step (slashes : string) (comps : list string) (comp : string) : list string :=
  if (comp =s? "") || (comp =s? ".") then comps
  else if negb (comp =s? "..") || ((slashes =s? "") && bool_decide (comps = []))
          || bool_decide (list.last comps = Some "..") then comps ++ [comp]
  else removelast comps.
Definition normpath (p : string) : string :=
  if p =s? "" then "." else
  let slashes := if startswith "///" p then "/" else if startswith "//" p then "//" else if startswith "/" p then "/" else "" in
  let out := slashes +:+ join "/" (for_each (split_char "/" p) [] (norm_step slashes)) in
  if out =s? "" then "." else out.

Record MinimizeArgs : Type := mkMinimizeArgs {
  m_binary : string; m_campaign : string; m_input : string; m_out : option string; m_keep : option string
}.
Definition given_str (o : option string) : option string := match o with Some "" => None | o => o end.
Definition out_path (a : MinimizeArgs) : string := default (m_input a +:+ ".min") (given_str (m_out a)).
(** The corpus entry of [--keep name]; [absolute] is [os.path.abspath]. *)
Definition kept_dir (absolute : string -> string) (a : MinimizeArgs) : string :=
  let root := path_join (path_join (dirname (absolute (m_binary a))) "..") "corpus" in
  normpath (path_join (path_join root (suite_of (basename (m_binary a)))) (m_campaign a)).
Definition kept_path (absolute : string -> string) (a : MinimizeArgs) (name : string) : string :=
  path_join (kept_dir absolute a) (name +:+ ".bin").

(** [open(..., "rb").read()], writing a file, [os.makedirs] and
    [shutil.copyfile] *)
Class Files (W : Type) := {
  read_bytes : string -> W -> option bytes;
  write_bytes : string -> bytes -> W -> W;
  make_dirs : string -> W -> W;
  copy_file : string -> string -> W -> W
}.
Class FileLaws (W : Type) `{Files W} : Prop := {
  read_written p b w : read_bytes p (write_bytes p b w) = Some b;
  read_made d p w : read_bytes p (make_dirs d w) = read_bytes p w;
  read_copied p q w : read_bytes q (copy_file p q w) = read_bytes p w;
  read_beside p q r w : q <> r -> read_bytes r (copy_file p q w) = read_bytes r w
}.

Section command.
Context {W : Type} `{HF : Files W} (absolute : string -> string) (replay : bytes -> W -> outcome * W).

Definition minimize_command (a : MinimizeArgs) : run W Z := fun w =>
  match read_bytes (m_input a) w with
  | None => (Raise OSError, w)
  | Some data =>
      match minimize_main replay data w with
      | (Raise e, w) => (Raise e, w)
      | (Ret (inl status), w) => (Ret status, w)
      | (Ret (inr small), w) =>
          let out := out_path a in
          let w := write_bytes out small w in
          (Ret 0, match given_str (m_keep a) with
                  | Some name => copy_file out (kept_path absolute a name) (make_dirs (kept_dir absolute a) w)
                  | None => w
                  end)
      end
  end.

(** A run that exits with 0 found the input to fail, and leaves the shrunk
    bytes in the output file and, with [--keep], in the suite's corpus. *)
Lemma minimize_command_leaves `{HL : !FileLaws W} a w w' : minimize_command a w = (Ret 0, w') ->
  exists data w1 small w2, read_bytes (m_input a) w = Some data /\ fails replay data w = (Ret true, w1)
  /\ shrink replay data w1 = (Ret small, w2) /\ read_bytes (out_path a) w' = Some small
  /\ forall name, given_str (m_keep a) = Some name -> read_bytes (kept_path absolute a name) w' = Some small.
Proof.
  unfold minimize_command, minimize_main. destruct (read_bytes (m_input a) w) as [data|] eqn:Er; [|done].
  destruct (fails replay data w) as [[[]|e] w1] eqn:Ef; [|done|by destruct e].
  destruct (shrink replay data w1) as [[small|e] w2] eqn:Es; [|by destruct e]. intros [= <-].
  exists data, w1, small, w2. do 3 (split; [done|]). destruct (given_str (m_keep a)) as [name|] eqn:Ek.
  - assert (read_bytes (out_path a) (make_dirs (kept_dir absolute a) (write_bytes (out_path a) small w2)) = Some small) as Hout
      by (by rewrite read_made, read_written).
    split; [|intros name' [= <-]; by rewrite read_copied].
    destruct (decide (kept_path absolute a name = out_path a)) as [E|Hne]; [rewrite E, read_copied; done|by rewrite read_beside].
  - split; [by rewrite read_written|done].
Qed.
End command.

Example kept_demo :
  kept_path id (mkMinimizeArgs "/r/tests/security/_obj/test_fuzz_http" "path" "x" None (Some "slash")) "slash"
  = "/r/tests/security/corpus/http/path/slash.bin".
Proof. vm_compute. reflexivity. Qed.
