(* ===== verification/WidthGuard.v ===== *)
(** * The width guard (scripts/width_guard.py)

    The scan of one file for composition instructions, the declared premises,
    and the list of failures over a tree. *)

From Stdlib Require Import Ascii.
From S2P Require Import Prelude PyInt PyStr Regex AsmParse Abi.

Definition WIRE_DIRS : list string :=
  ["src/tls/record"; "src/tls/handshake"; "src/tls/server";
   "src/h2"; "src/hpack"; "src/parse"; "src/http1"; "src/file"].

(** A file, its widest shift, its number of composition instructions, and the
    note that goes with them. *)
Record Declared : Type := mkDeclared { d_path : string; d_shift : Z; d_ops : nat; d_note : string }.

Definition SEC : string := String "194" (String "167" "").   (* the section sign, in UTF-8 *)
Definition DASH : string := String "226" (String "128" (String "148" "")).
Definition DECLARED : list Declared :=
  [mkDeclared "src/tls/record/parse.S" 8 2
     ("legacy_record_version and the fragment length, both 2-octet (" +:+ SEC +:+ "3.1)");
   mkDeclared "src/tls/server/handshake.S" 16 4
     ("the ClientHello's and the client Finished's own 3-octet handshake lengths, read as of " +:+ SEC +:+ "14 A1 " +:+ DASH
      +:+ " both are compared against a record fragment length in an x register, so the 24-bit field cannot reach the comparison wrapped");
   mkDeclared "src/tls/handshake/client_hello.S" 8 14
     ("every ClientHello list length is 2-octet " +:+ DASH +:+ " " +:+ SEC
      +:+ "3.5 calls this the width argument in its purest and most fragile form");
   mkDeclared "src/h2/h2_parse_frame_header.S" 24 5
     ("the 3-octet frame length and the 4-octet stream id (" +:+ SEC +:+ "3.3)");
   mkDeclared "src/h2/h2_handle_settings.S" 24 4 ("the 2-octet setting id and its 4-octet value (" +:+ SEC +:+ "3.3)");
   mkDeclared "src/h2/h2_handle_window_update.S" 24 3 ("the 4-octet window increment (" +:+ SEC +:+ "3.3)");
   mkDeclared "src/h2/h2_handle_goaway.S" 24 3 ("the 4-octet last-stream-id (" +:+ SEC +:+ "3.3)")].

Definition ORR_SHIFT : re := Eval vm_compute in
  rx_i "^\s*orr\s+([wx])(\d+)\s*,\s*[wx]\d+\s*,\s*[wx]\d+\s*,\s*lsl\s*#(\d+)".
Definition LSL_IMM : re := Eval vm_compute in rx_i "^\s*lsl\s+([wx])(\d+)\s*,\s*[wx]\d+\s*,\s*#(\d+)".

(** [(max_shift, ops, wide)] *)
Definition scan_state : Type := Z * nat * list (nat * string).

Definition scan_pattern (lineno : nat) (code : string) (s : scan_state) (pat : re * bool) : scan_state :=
  let '(max_shift, ops, wide) := s in
  match re_match pat.1 code with
  | None => s
  | Some x =>
      (Z.max max_shift (digits (group x 3)), S ops,
       if (lower (group x 1) =s? "x") && pat.2 then wide ++ [(lineno, strip code)] else wide)
  end.

Definition scan_line (s : scan_state) (l : nat * string) : scan_state :=
  let code := PyStr.before "//" l.2 in
  for_each [(ORR_SHIFT, true); (LSL_IMM, false)] s (scan_pattern l.1 code).

Definition scan (text : string) : scan_state := for_each (enumerate 1 (splitlines text)) (0, O, []) scan_line.

(** *** The failures over a tree

    [dirs d] is the sorted list of the [.S] files below the directory [d] with
    their texts, if it is a directory; [files p] the text of a file. *)

Definition wide_failure (rel : string) (x : nat * string) : string :=
  rel +:+ ":" +:+ str_nat x.1 +:+ ": a field is composed in a 64-bit register " +:+ DASH +:+ " `" +:+ x.2 +:+ "`. " +:+ SEC
  +:+ "3.5's width verdicts assume this arithmetic is 32-bit".

Definition swept_failures (dirs : string -> option (list (string * string))) (d : string) : list string :=
  match dirs d with
  | None => [d +:+ ": declared a wire-parsing directory but missing " +:+ DASH +:+ " the sweep has nothing to sweep"]
  | Some fs => f ← fs; wide_failure f.1 <$> (scan f.2).2
  end.

Definition shift_failure (d : Declared) (shift : Z) : string :=
  d_path d +:+ ": widest composition is " +:+ str_z shift +:+ " bits, declared " +:+ str_z (d_shift d) +:+ " " +:+ DASH
  +:+ " a field grew. (" +:+ d_note d +:+ ")".
Definition ops_failure (d : Declared) (ops : nat) : string :=
  d_path d +:+ ": " +:+ str_nat ops +:+ " composition instruction(s), declared " +:+ str_nat (d_ops d) +:+ " " +:+ DASH
  +:+ " a field was added, removed or changed width, so there is a site with no verdict. (" +:+ d_note d +:+ ")".

Definition declared_failures (files : string -> option string) (d : Declared) : list string :=
  match files (d_path d) with
  | None => [d_path d +:+ ": declared here but missing " +:+ DASH +:+ " " +:+ SEC +:+ "3.5's verdict for it has nothing to guard"]
  | Some text =>
      let '(shift, ops, _) := scan text in
      (if d_shift d <? shift then [shift_failure d shift] else [])
      ++ (if (ops =? d_ops d)%nat then [] else [ops_failure d ops])
  end.

(** [sorted(DECLARED.items())] *)
Definition sorted_declared : list Declared := sort_by (fun x y => String.ltb (d_path x) (d_path y)) DECLARED.

Definition guard_failures (dirs : string -> option (list (string * string))) (files : string -> option string) : list string :=
  (WIRE_DIRS ≫= swept_failures dirs) ++ (sorted_declared ≫= declared_failures files).

(** The exit status of [main]; [--report] only prints more. *)
Definition guard_main (dirs : string -> option (list (string * string))) (files : string -> option string) : Z :=
  if bool_decide (guard_failures dirs files = []) then 0 else 1.

(** ** What the scan finds *)

(** The shifts of the composition instructions of a line, and whether it
    composes a field in an [x] register. *)
Definition pattern_shift (pat : re) (line : string) : list Z :=
  match re_match pat (PyStr.before "//" line) with Some x => [digits (group x 3)] | None => [] end.
Definition shifts_of (line : string) : list Z := pattern_shift ORR_SHIFT line ++ pattern_shift LSL_IMM line.
Definition composes_wide (line : string) : bool :=
  match re_match ORR_SHIFT (PyStr.before "//" line) with
  | Some x => lower (group x 1) =s? "x"
  | None => false
  end.

Lemma scan_line_spec mx ops wide n line :
  scan_line (mx, ops, wide) (n, line)
  = (foldl Z.max mx (shifts_of line), (ops + length (shifts_of line))%nat,
     wide ++ if composes_wide line then [(n, strip (PyStr.before "//" line))] else []).
Proof.
  unfold scan_line, shifts_of, pattern_shift, composes_wide, for_each. cbn [foldl fst snd]. unfold scan_pattern. cbn [fst snd].
  destruct (re_match ORR_SHIFT _) as [x|], (re_match LSL_IMM _) as [y|]; cbn [foldl app length];
    rewrite ?andb_true_r, ?andb_false_r, ?app_nil_r; try (destruct (lower (group x 1) =s? "x"));
    rewrite ?app_nil_r; f_equal; f_equal; lia.
Qed.

Lemma scan_spec text :
  let shifts := splitlines text ≫= shifts_of in
  scan text = (foldl Z.max 0 shifts, length shifts,
    l ← enumerate 1 (splitlines text); if composes_wide l.2 then [(l.1, strip (PyStr.before "//" l.2))] else []).
Proof.
  cbv zeta. unfold scan, for_each.
  assert (forall lines n mx ops wide,
    foldl scan_line (mx, ops, wide) (enumerate n lines)
    = (foldl Z.max mx (lines ≫= shifts_of), (ops + length (lines ≫= shifts_of))%nat,
       wide ++ (l ← enumerate n lines; if composes_wide l.2 then [(l.1, strip (PyStr.before "//" l.2))] else []))) as H.
  { induction lines as [|line lines IH]; intros n mx ops wide; cbn [enumerate foldl].
    - cbn. by rewrite app_nil_r, Nat.add_0_r.
    - rewrite scan_line_spec, IH. cbn [mbind list_bind fst snd]. rewrite foldl_app, length_app, Nat.add_assoc, app_assoc. done. }
  by rewrite H.
Qed.

Lemma foldl_max_le mx l k : foldl Z.max mx l <= k <-> mx <= k /\ Forall (fun x => x <= k) l.
Proof.
  revert mx. induction l as [|x l IH]; intros mx; cbn [foldl]; [naive_solver|].
  rewrite IH, list.Forall_cons. pose proof (Z.max_lub_iff mx x k). tauto.
Qed.

Lemma enumerate_snd {X} (P : X -> Prop) n (l : list X) :
  (forall x, x ∈ l -> P x) <-> (forall x, x ∈ enumerate n l -> P x.2).
Proof.
  revert n. induction l as [|y l IH]; intros n; cbn [enumerate].
  - split; intros _ x Hx; by apply elem_of_nil in Hx.
  - split; intros H.
    + intros x [->|Hx]%elem_of_cons; [apply H; left|]. apply (proj1 (IH (S n))); [|done]. intros z Hz. apply H. by right.
    + intros x [->|Hx]%elem_of_cons; [apply (H (n, y)); left|]. apply (proj2 (IH (S n))); [|done]. intros z Hz. apply H. by right.
Qed.

Lemma scan_wide_nil text : (scan text).2 = [] <-> forall line, line ∈ splitlines text -> composes_wide line = false.
Proof.
  rewrite scan_spec. cbn [snd]. rewrite bind_nil. symmetry.
  etransitivity; [apply (enumerate_snd (fun l => composes_wide l = false) 1)|].
  split; intros H x Hx; specialize (H x Hx); destruct (composes_wide x.2); done.
Qed.

Lemma swept_nil dirs d : swept_failures dirs d = [] <->
  exists fs, dirs d = Some fs /\ forall f, f ∈ fs -> forall line, line ∈ splitlines f.2 -> composes_wide line = false.
Proof.
  unfold swept_failures. destruct (dirs d) as [fs|]; [|naive_solver]. rewrite bind_nil. split.
  - intros H. exists fs. split; [done|]. intros f Hf. apply scan_wide_nil. specialize (H f Hf). by apply fmap_nil_inv in H.
  - intros (? & [= <-] & H) f Hf. apply (proj2 (scan_wide_nil f.2)) in H; [|done]. rewrite H. done.
Qed.

Lemma declared_nil files d : 0 <= d_shift d ->
  declared_failures files d = [] <-> exists text, files (d_path d) = Some text
    /\ length (splitlines text ≫= shifts_of) = d_ops d
    /\ Forall (fun s => s <= d_shift d) (splitlines text ≫= shifts_of).
Proof.
  intros H0. unfold declared_failures. destruct (files (d_path d)) as [text|]; [|naive_solver].
  rewrite scan_spec. pose proof (foldl_max_le 0 (splitlines text ≫= shifts_of) (d_shift d)) as Hm.
  destruct (Z.ltb_spec (d_shift d) (foldl Z.max 0 (splitlines text ≫= shifts_of))) as [Hlt|Hle].
  - split; [done|]. intros (? & [= <-] & _ & Hf). pose proof (proj2 Hm (conj H0 Hf)). lia.
  - destruct (Nat.eqb_spec (length (splitlines text ≫= shifts_of)) (d_ops d)); split; try done.
    + intros _. exists text. split; [done|]. split; [done|]. by apply Hm.
    + intros (? & [= <-] & ? & _). congruence.
Qed.

Lemma sorted_declared_perm : sorted_declared ≡ₚ DECLARED.
Proof. apply sort_by_perm. Qed.

Lemma declared_shifts d : d ∈ DECLARED -> 0 <= d_shift d.
Proof. intros Hd. unfold DECLARED in Hd. repeat (apply elem_of_cons in Hd as [->|Hd]; [cbn; lia|]). by apply elem_of_nil in Hd. Qed.

(** the guard's exit status is zero exactly when the premises hold: every
    wire-parsing directory is there and no line of a file below it composes a
    field with [orr x.., lsl]; and every declared file is there, its
    composition instructions are as many as declared and none shifts by more
    than the declared width. *)
Theorem guard_passes_iff dirs files :
  guard_main dirs files = 0 <->
  (forall d, d ∈ WIRE_DIRS -> exists fs, dirs d = Some fs
     /\ forall f, f ∈ fs -> forall line, line ∈ splitlines f.2 -> composes_wide line = false)
  /\ (forall d, d ∈ DECLARED -> exists text, files (d_path d) = Some text
     /\ length (splitlines text ≫= shifts_of) = d_ops d
     /\ Forall (fun s => s <= d_shift d) (splitlines text ≫= shifts_of)).
Proof.
  unfold guard_main. transitivity (guard_failures dirs files = []); [case_bool_decide; naive_solver|].
  unfold guard_failures. split.
  - intros [Hs Hd]%app_eq_nil. rewrite bind_nil in Hs. rewrite bind_nil in Hd. split.
    + intros d Hin. by apply swept_nil, Hs.
    + intros d Hin. apply declared_nil; [by apply declared_shifts|]. apply Hd. by rewrite sorted_declared_perm.
  - intros [Hs Hd].
    rewrite (proj2 (bind_nil (swept_failures dirs) WIRE_DIRS)) by (intros d Hin; by apply swept_nil, Hs). cbn [app].
    apply bind_nil. intros d Hin. rewrite sorted_declared_perm in Hin. apply declared_nil; [by apply declared_shifts|]. by apply Hd.
Qed.

Example scan_demo : scan (join nl ["  orr w1, w2, w3, lsl #8"; "  lsl w4, w5, #16 // len"; "  ORR X1, x2, x3, LSL #24"; "// orr x1, x2, x3, lsl #8"])
  = (24, 3%nat, [(3%nat, "ORR X1, x2, x3, LSL #24")]).
Proof. vm_compute. reflexivity. Qed.
