(* ===== verification/SyscallAudit.v ===== *)
(** * The syscall audit (scripts/syscall_audit.py)

    The number tables of [defs.S], the allowlist, the call sites of the
    source, the linear scan of a disassembly, and the audit's failures.  The
    disassembler's output and the files are arguments. *)

From Stdlib Require Import Ascii.
From S2P Require Import Prelude PyInt PyStr Regex AsmParse Abi Json.

Definition FORBIDDEN : list string :=
  ["open"; "openat"; "creat"; "unlink"; "unlinkat"; "rename"; "renameat"; "renameatx_np"; "mkdir"; "mkdirat"; "rmdir";
   "execve"; "execveat"; "chdir"; "chroot"; "getdents64"; "getdirentries64"; "stat64"; "newfstatat"; "link"; "symlink";
   "mount"; "ptrace"].

(** [for line in f]: the lines of a file, without their newlines. *)
Definition file_lines (text : string) : list string :=
  let l := split_char NL text in
  match list.last l with Some "" => take (length l - 1) l | _ => l end.

(** ** The number tables *)

Inductive platform : Type := Linux | Macos.

(** The two tables, number to name, and the two inverse ones. *)
Record Tables : Type := mkTables {
  linux_names : list (Z * string);
  macos_names : list (Z * string);
  linux_numbers : list (string * Z);
  macos_numbers : list (string * Z)
}.
Definition names_of (t : Tables) (p : platform) : list (Z * string) :=
  match p with Linux => linux_names t | Macos => macos_names t end.

Definition EQU_RE : re := Eval vm_compute in rx "\.equ\s+SYS_(\w+)\s*,\s*(\d+)".

(** The loop's state: the tables, the arm, the depth and the depth of the
    top-level conditional. *)
Record defs_state : Type := mkDefs { ds_tables : Tables; ds_arm : option platform; ds_depth : Z; ds_top : option Z }.

Definition at_top (s : defs_state) : bool :=
  match ds_top s with Some d => ds_depth s =? d | None => false end.

Definition add_number (t : Tables) (p : platform) (name : string) (num : Z) : Tables :=
  match p with
  | Linux => mkTables (dict_set (linux_names t) num name) (macos_names t) (dict_set (linux_numbers t) name num) (macos_numbers t)
  | Macos => mkTables (linux_names t) (dict_set (macos_names t) num name) (linux_numbers t) (dict_set (macos_numbers t) name num)
  end.

Definition defs_line (s : defs_state) (line : string) : defs_state :=
  let l := strip line in
  if startswith "#if" l then
    let depth := ds_depth s + 1 in
    match ds_top s with
    | None => if startswith "#ifdef __linux__" l then mkDefs (ds_tables s) (Some Linux) depth (Some depth)
              else mkDefs (ds_tables s) (ds_arm s) depth None
    | top => mkDefs (ds_tables s) (ds_arm s) depth top
    end
  else if startswith "#else" l then
    if at_top s then mkDefs (ds_tables s) (Some Macos) (ds_depth s) (ds_top s) else s
  else if startswith "#endif" l then
    if at_top s then mkDefs (ds_tables s) None (ds_depth s - 1) None
    else mkDefs (ds_tables s) (ds_arm s) (ds_depth s - 1) (ds_top s)
  else match re_match EQU_RE l, ds_arm s with
       | Some x, Some arm => mkDefs (add_number (ds_tables s) arm (group x 1) (digits (group x 2))) (Some arm) (ds_depth s) (ds_top s)
       | _, _ => s
       end.

Definition parse_defs (path text : string) : result Tables :=
  let t := ds_tables (for_each (file_lines text) (mkDefs (mkTables [] [] [] []) None 0 None) defs_line) in
  match linux_names t, macos_names t with
  | _ :: _, _ :: _ => Ret t
  | _, _ => Raise (SystemExit ("syscall_audit: no SYS_ table found in " +:+ path))
  end.

(** ** The allowlist *)

Definition parse_allowlist (text : string) : list string :=
  for_each (file_lines text) [] (fun allowed line =>
    let s := strip (PyStr.before "#" line) in
    if s =s? "" then allowed else set_add allowed s).

(** ** The source *)

Definition SCWINUM_RE : re := Eval vm_compute in rx "\bSCWINUM\s+SYS_(\w+)".

(** [files] are the files below the source directory in the order of the walk:
    path and text. *)
Definition scan_source (files : list (string * string)) (defs : string) : list (string * string * nat) :=
  '(path, text) ← files;
  if negb (endswith ".S" path) || (path =s? defs) then [] else
  '(n, line) ← enumerate 1 (file_lines text);
  match re_search SCWINUM_RE line with
  | Some x => [(group x 1, path, n)]
  | None => []
  end.

(** ** The binary *)

Definition NUM_REG (p : platform) : string := match p with Linux => "x8" | Macos => "x16" end.

Definition INSN_RE : re := Eval vm_compute in
  rx "^\s*(?:[0-9a-fA-F]+)[:\t ]\s*(?:[0-9a-fA-F]{8}\s+)?(\w[\w.]*)\s*(.*)$".
Definition LABEL_RE : re := Eval vm_compute in rx "^([_A-Za-z][\w.$]*)\s*:\s*$|^[0-9a-fA-F]+\s+<([^>]+)>:\s*$".
Definition IMM_RE : re := Eval vm_compute in rx "#(0x[0-9a-fA-F]+|\d+)".
Definition ADDR_RE : re := Eval vm_compute in rx "^\s*([0-9a-fA-F]+)".

Fixpoint hex_digits (s : string) (acc : Z) : Z :=
  match s with "" => acc | String c s => hex_digits s (16 * acc + default 0 (hex_val c)) end.
(** [int(v, 0)] of a match of [IMM_RE]: a decimal with a leading zero is refused. *)
Definition int_auto (v : string) : result Z :=
  if startswith "0x" v then Ret (hex_digits (drop_str 2 v) 0)
  else if startswith "0" v && negb (sforall (fun c => Ascii.eqb c "0") v)
  then Raise (ValueError ("invalid literal for int() with base 0: " +:+ repr v))
  else Ret (digits v).

(** What a line of the disassembly is to the scan. *)
Inductive event : Type :=
| Label (func : string)
| Write (value : option Z)       (* the number register, with an immediate or not *)
| Svc (addr : string)
| Nothing.

Definition line_event (reg line : string) : result event :=
  match re_match LABEL_RE (strip line) with
  | Some x => Ret (Label (match group_opt x 1 with
                          | Some s => s
                          | None => group x 2
                          end))
  | None =>
      match re_match INSN_RE line with
      | None => Ret Nothing
      | Some x =>
          let op := group x 1 in
          let args := group x 2 in
          if startswith (reg +:+ ",") args then
            if in_table ["mov"; "movz"] op then
              match re_search IMM_RE args with
              | Some v => n ← int_auto (group v 1); Ret (Write (Some n))
              | None => Ret (Write None)
              end
            else Ret (Write None)
          else if op =s? "svc" then
            Ret (Svc (match re_match ADDR_RE line with Some a => group a 1 | None => "" end))
          else Ret Nothing
      end
  end.

(** A site: the number, the function, the address. *)
Definition site : Type := option Z * string * string.

Definition scan_event (s : list site * string * option Z) (e : event) : list site * string * option Z :=
  let '(sites, func, last) := s in
  match e with
  | Label f => (sites, f, None)
  | Write v => (sites, func, v)
  | Svc addr => (sites ++ [(last, func, addr)], func, last)
  | Nothing => s
  end.

Fixpoint events (reg : string) (lines : list string) : result (list event) :=
  match lines with
  | [] => Ret []
  | l :: lines => e ← line_event reg l; es ← events reg lines; Ret (e :: es)
  end.

Definition scan_events (es : list event) : list site := (for_each es ([], "?", None) scan_event).1.1.
Definition scan_binary (text reg : string) : result (list site) :=
  es ← events reg (splitlines text); Ret (scan_events es).

(** ** The failures *)

Definition EM : string := String "226" (String "128" (String "148" "")).

Definition source_uses (sites : list (string * string * nat)) : list (string * list string) :=
  for_each sites [] (fun d '(name, path, line) => append_to d name (path +:+ ":" +:+ str_nat line)).

Definition source_failures (allowed : list string) (used : list (string * list string)) : list string :=
  name ← sorted_str (dict_keys used);
  let first := default "" (head (default [] (dict_get used name))) in
  (if bool_decide (name ∈ allowed) then []
   else ["source: SYS_" +:+ name +:+ " is called from " +:+ first +:+ " but is not on the allowlist"])
  ++ (if bool_decide (name ∈ FORBIDDEN) then ["source: forbidden syscall " +:+ name +:+ " is called from " +:+ first] else []).

Definition site_name (names : list (Z * string)) (num : Z) : string :=
  default ("unknown(" +:+ str_z num +:+ ")") (dict_get names num).

Definition site_failures (allowed : list string) (names : list (Z * string)) (reg : string) (s : site) : list string :=
  let '(num, func, addr) := s in
  match num with
  | None => ["binary: svc at " +:+ addr +:+ " (in " +:+ func +:+ ") has no resolvable syscall number in " +:+ reg +:+ " "
             +:+ EM +:+ " the static allowlist claim no longer holds"]
  | Some num =>
      let name := site_name names num in
      (if bool_decide (name ∈ allowed) then []
       else ["binary: syscall " +:+ name +:+ " (" +:+ str_z num +:+ ") at " +:+ addr +:+ " in " +:+ func +:+ " is not on the allowlist"])
      ++ (if bool_decide (name ∈ FORBIDDEN)
          then ["binary: forbidden syscall " +:+ name +:+ " (" +:+ str_z num +:+ ") at " +:+ addr +:+ " in " +:+ func] else [])
  end.

(** The names the binary calls, each once, in the order of the sites. *)
Definition binary_names (names : list (Z * string)) (sites : list site) : list string :=
  set_of (s ← sites; match s.1.1 with Some num => [site_name names num] | None => [] end).

Definition unasked (used : list (string * list string)) (name : string) : list string :=
  if bool_decide (name ∈ dict_keys used) || startswith "unknown(" name then []
  else ["binary: syscall " +:+ name +:+ " appears in the binary but no SCWINUM site in src/ asks for it"].

Definition binary_failures (allowed : list string) (names : list (Z * string)) (reg : string)
  (used : list (string * list string)) (sites : list site) : list string :=
  (match sites with
   | [] => ["binary: no svc instruction found at all " +:+ EM +:+ " is this the right binary?"]
   | _ => []
   end)
  ++ (sites ≫= site_failures allowed names reg)
  ++ (binary_names names sites ≫= unasked used).

(** [main], up to the report: the failures.  [binary] is the disassembly, or
    [None] with [--skip-binary]. *)
Definition audit (p : platform) (defs_path defs allowlist : string) (files : list (string * string))
  (binary : option string) : result (list string) :=
  t ← parse_defs defs_path defs;
  let allowed := parse_allowlist allowlist in
  let used := source_uses (scan_source files defs_path) in
  let from_source := source_failures allowed used in
  match binary with
  | None => Ret from_source
  | Some text =>
      sites ← scan_binary text (NUM_REG p);
      Ret (from_source ++ binary_failures allowed (names_of t p) (NUM_REG p) used sites)
  end.

(** ** What the scan attributes to a site *)

(** The last write of the number register since the last label. *)
Fixpoint known_rev (l : list event) : option Z :=
  match l with
  | [] => None
  | Label _ :: _ => None
  | Write v :: _ => v
  | _ :: l => known_rev l
  end.
Definition known (before : list event) : option Z := known_rev (rev before).
Fixpoint owner_rev (l : list event) : string :=
  match l with
  | [] => "?"
  | Label f :: _ => f
  | _ :: l => owner_rev l
  end.
Definition owner (before : list event) : string := owner_rev (rev before).

Lemma known_snoc pre e : known (pre ++ [e]) =
  match e with Label _ => None | Write v => v | _ => known pre end.
Proof. unfold known. rewrite rev_app_distr. by destruct e. Qed.
Lemma owner_snoc pre e : owner (pre ++ [e]) = match e with Label f => f | _ => owner pre end.
Proof. unfold owner. rewrite rev_app_distr. by destruct e. Qed.

(** The scan's state after [pre], and the sites it has reported. *)
Lemma scan_state pre :
  exists sites, for_each pre ([], "?", None) scan_event = (sites, owner pre, known pre)
  /\ forall s, s ∈ sites <-> exists a addr b, pre = a ++ Svc addr :: b /\ s = (known a, owner a, addr).
Proof.
  induction pre as [|e pre IH] using rev_ind.
  - exists []. split; [done|]. intros s. split; [intros H; by apply elem_of_nil in H|].
    intros (a & addr & b & H & _). by destruct a.
  - destruct IH as (sites & Hs & Hin). rewrite for_each_app, Hs, known_snoc, owner_snoc.
    assert (forall s, (exists a addr b, pre ++ [e] = a ++ Svc addr :: b /\ s = (known a, owner a, addr))
      <-> (exists a addr b, pre = a ++ Svc addr :: b /\ s = (known a, owner a, addr))
          \/ exists addr, e = Svc addr /\ s = (known pre, owner pre, addr)) as Hsplit.
    { intros s. split.
      - intros (a & addr & b & H & ->). destruct b as [|y b _] using rev_ind.
        + apply app_inj_tail in H as [<- ->]. right. eauto.
        + rewrite app_comm_cons, app_assoc in H. apply app_inj_tail in H as [-> _]. left. eauto.
      - intros [(a & addr & b & -> & ->)|(addr & -> & ->)].
        + exists a, addr, (b ++ [e]). by rewrite <- app_assoc.
        + by exists pre, addr, []. }
    destruct e as [f|v|addr|]; cbn [for_each foldl scan_event]; eexists; (split; [reflexivity|]); intros s; rewrite Hsplit, <- Hin.
    3: { rewrite elem_of_app, list_elem_of_singleton. split; (intros [H|H]; [by left|right]); [by exists addr|].
         by destruct H as (? & [= <-] & ->). }
    all: split; [by left|]; intros [H|(? & H & _)]; [done|discriminate H].
Qed.

Lemma scan_events_elem es s :
  s ∈ scan_events es <-> exists a addr b, es = a ++ Svc addr :: b /\ s = (known a, owner a, addr).
Proof.
  unfold scan_events. destruct (scan_state es) as (sites & -> & H). cbn [fst snd]. apply H.
Qed.

(** ** The audit *)

Lemma append_to_keys {X} (d : list (string * list X)) k v x :
  x ∈ dict_keys (append_to d k v) <-> x = k \/ x ∈ dict_keys d.
Proof. unfold append_to. apply dict_set_keys. Qed.

Lemma source_uses_keys sites name :
  name ∈ dict_keys (source_uses sites) <-> exists path line, (name, path, line) ∈ sites.
Proof.
  unfold source_uses. induction sites as [|[[n p] l] sites IH] using rev_ind.
  - split; [intros H; by apply elem_of_nil in H|]. intros (? & ? & H). by apply elem_of_nil in H.
  - rewrite for_each_app. cbn [for_each foldl]. rewrite append_to_keys, IH. split.
    + intros [->|(path & line & H)]; [exists p, l|exists path, line]; set_solver.
    + intros (path & line & [H|H%list_elem_of_singleton]%elem_of_app); [right; eauto|]. injection H as -> -> ->. by left.
Qed.

Lemma ifs_nil (b1 b2 : bool) (x y : list string) : x <> [] -> y <> [] ->
  (if b1 then [] else x) ++ (if b2 then y else []) = [] <-> b1 = true /\ b2 = false.
Proof.
  intros Hx Hy. destruct b1, b2; cbn [app]; rewrite ?app_nil_r; (split; [intros H|intros [? ?]]); try done.
  by apply app_eq_nil in H as [? _].
Qed.

Lemma source_failures_nil allowed used :
  source_failures allowed used = [] <-> forall name, name ∈ dict_keys used -> name ∈ allowed /\ name ∉ FORBIDDEN.
Proof.
  unfold source_failures. rewrite bind_nil. split; intros H name Hn.
  - specialize (H name). cbv zeta in H. rewrite ifs_nil in H by done.
    rewrite bool_decide_eq_true, bool_decide_eq_false in H. apply H. by rewrite elem_of_sorted_str.
  - rewrite elem_of_sorted_str in Hn. rewrite ifs_nil by done. rewrite bool_decide_eq_true, bool_decide_eq_false. by apply H.
Qed.

(** The name the tables give a number is permitted. *)
Definition permitted (allowed : list string) (names : list (Z * string)) (s : site) : Prop :=
  exists num, s.1.1 = Some num /\ site_name names num ∈ allowed /\ site_name names num ∉ FORBIDDEN.

Lemma site_failures_nil allowed names reg s : site_failures allowed names reg s = [] <-> permitted allowed names s.
Proof.
  destruct s as [[[num|] func] addr]; unfold site_failures, permitted; cbn [fst].
  - cbv zeta. rewrite ifs_nil by done. rewrite bool_decide_eq_true, bool_decide_eq_false. split.
    + intros H. by exists num.
    + by intros (? & [= <-] & H).
  - split; [done|]. by intros (? & [=] & _).
Qed.

Lemma unasked_nil used name : unasked used name = [] <-> name ∈ dict_keys used \/ startswith "unknown(" name = true.
Proof.
  unfold unasked. destruct (startswith "unknown(" name); [rewrite orb_true_r; naive_solver|]. rewrite orb_false_r.
  case_bool_decide; naive_solver.
Qed.

Lemma binary_failures_nil allowed names reg used es :
  binary_failures allowed names reg used (scan_events es) = [] <->
  (exists a addr b, es = a ++ Svc addr :: b)
  /\ forall a addr b, es = a ++ Svc addr :: b -> exists num, known a = Some num
     /\ let name := site_name names num in
        name ∈ allowed /\ name ∉ FORBIDDEN /\ (name ∈ dict_keys used \/ startswith "unknown(" name = true).
Proof.
  unfold binary_failures. pose proof (scan_events_elem es) as Hel. set (sites := scan_events es) in *. clearbody sites.
  assert (sites <> [] <-> exists a addr b, es = a ++ Svc addr :: b) as Hne.
  { split.
    - destruct sites as [|s l]; [done|]. intros _. destruct (proj1 (Hel s) ltac:(left)) as (a & addr & b & H & _). eauto.
    - intros (a & addr & b & H) ->. assert ((known a, owner a, addr) ∈ ([] : list site)) as Hin by (apply Hel; eauto).
      by apply elem_of_nil in Hin. }
  rewrite <- Hne. split.
  - intros [H1 [H2 H3]%app_eq_nil]%app_eq_nil. rewrite bind_nil in H2. rewrite bind_nil in H3.
    split; [by destruct sites|]. intros a addr b He.
    assert ((known a, owner a, addr) ∈ sites) as Hin by (apply Hel; eauto).
    destruct (proj1 (site_failures_nil _ _ _ _) (H2 _ Hin)) as (num & Hk & Ha & Hf). exists num. split; [done|].
    split; [done|]. split; [done|]. apply unasked_nil, H3, elem_of_set_of, list_elem_of_bind.
    exists (known a, owner a, addr). split; [|done]. cbn [fst] in *. rewrite Hk. left.
  - intros [Hs H].
    assert (sites ≫= site_failures allowed names reg = []) as ->.
    { apply bind_nil. intros s (a & addr & b & He & ->)%Hel. apply site_failures_nil.
      destruct (H a addr b He) as (num & Hk & Ha & Hf & _). by exists num. }
    assert (binary_names names sites ≫= unasked used = []) as ->; [|by destruct sites].
    apply bind_nil. intros name Hn. apply elem_of_set_of, list_elem_of_bind in Hn as (s & Hs' & (a & addr & b & He & ->)%Hel).
    destruct (H a addr b He) as (num & Hk & _ & _ & Hu). cbn [fst] in Hs'. rewrite Hk in Hs'.
    apply list_elem_of_singleton in Hs' as ->. by apply unasked_nil.
Qed.


(** ** Routes the linear scan does not see *)

Definition objdump_line (addr text : string) : string := "  " +:+ addr +:+ ": d2800ba8 " +:+ String TAB text.

(** A write through the 32-bit name of the number register, and a branch that
    skips the [mov], keep the number of the last [mov]. *)
Lemma scan_misses :
  scan_binary (join nl [objdump_line "1000" "mov x8, #0x5d"; objdump_line "1004" "mov w8, #0x38"; objdump_line "1008" "svc #0x0"]) "x8"
  = Ret [(Some 93, "?", "1008")]
  /\ scan_binary (join nl [objdump_line "1000" "mov x8, #0x38"; objdump_line "1004" "b.eq 100c"; objdump_line "1008" "mov x8, #0x5d";
                           objdump_line "100c" "svc #0x0"]) "x8"
  = Ret [(Some 93, "?", "100c")].
Proof. split; vm_compute; reflexivity. Qed.

Definition tiny_defs : string := join nl ["#ifdef __linux__"; ".equ SYS_exit, 93"; ".equ SYS_openat, 56"; "#else"; ".equ SYS_exit, 1"; "#endif"].
Example audit_demo :
  audit Linux "src/defs.S" tiny_defs ("exit # leave" +:+ nl) [("src/a.S", "    SCWINUM SYS_exit")]
    (Some (join nl ["0000 <f>:"; objdump_line "1000" "mov x8, #0x5d"; objdump_line "1004" "svc #0x0"])) = Ret []
  /\ audit Linux "src/defs.S" tiny_defs ("exit # leave" +:+ nl) [("src/a.S", "    SCWINUM SYS_openat")] None
     = Ret ["source: SYS_openat is called from src/a.S:1 but is not on the allowlist"; "source: forbidden syscall openat is called from src/a.S:1"].
Proof. split; vm_compute; reflexivity. Qed.
