(* ===== verification/Samples.v ===== *)
(** * Sampled profiles (scripts/profile_samples.py, scripts/count_calls.py)

    From [nm] and [sample] output to a cost breakdown: the symbol table and
    its binary search, the call-graph lines and what each costs by itself and
    with what it calls, the report's groups; and the call counts read from
    lldb.  Running [nm], [sample] and lldb is left to their callers: the texts
    are arguments. *)

From Stdlib Require Import Ascii SpecFloat Sorted Permutation.
From Stdlib Require Import Structures.OrdersEx.
From S2P Require Import Prelude PyInt PyStr Regex PyFloat Json AsmParse Abi.

(** ** The symbol table *)

(** [int(s, 16)]: an optional sign and prefix, digits with single underscores. *)
Definition is_hex (c : ascii) : bool := match hex_val c with Some _ => true | None => false end.
Fixpoint hex_ok (prev : bool) (s : string) : bool :=
  match s with
  | "" => prev
  | String c s => if Ascii.eqb c "_" then prev && hex_ok false s else is_hex c && hex_ok true s
  end.
Definition hex_number (s : string) : Z :=
  (fix go s acc := match s with String c s => go s (16 * acc + default 0 (hex_val c)) | "" => acc end)
    (drop_underscores s) 0.
Definition unprefixed (s : string) : string :=
  if startswith "0x" s || startswith "0X" s
  then let s := drop_str 2 s in if startswith "_" s then drop_str 1 s else s
  else s.
Definition int_hex (s : string) : result Z :=
  let t := strip s in
  let '(neg, t) := if startswith "-" t then (true, drop_str 1 t)
                   else if startswith "+" t then (false, drop_str 1 t) else (false, t) in
  let t := unprefixed t in
  if hex_ok false t then Ret (if neg then - hex_number t else hex_number t)
  else Raise (ValueError ("invalid literal for int() with base 16: " +:+ repr s)).

Definition TEXT_VMADDR : Z := 0x100000000.
Definition LOCAL_FUNCTIONS : list string := ["p256_reduce"; "p256_scalar_reduce_wide"; ".Lgcm_gf_mul"].
Definition NAME_ALIASES : list (string * string) := [(".Lgcm_gf_mul", "ghash (inlined gcm block)")].
Definition IDLE_SYMBOLS : list string := ["skip_argv"].

Definition symbol : Type := Z * string.

(** [parts[i]] *)
Definition part (parts : list string) (i : nat) : result string :=
  match parts !! i with Some x => Ret x | None => Raise IndexError end.

(** One line of [nm -n]: the symbol it adds, if any. *)
Definition nm_line (line : string) : result (option symbol) :=
  let parts := split_ws line in
  kind ← part parts 1;
  keep ← (if kind =s? "T" then Ret true
          else if kind =s? "t" then name ← part parts 2; Ret (in_table LOCAL_FUNCTIONS name)
          else Ret false);
  match parts with
  | [a; _; name] =>
      if (keep : bool) && negb (strip_chars "0" a =s? "")
      then addr ← int_hex a; Ret (if TEXT_VMADDR <=? addr then Some (addr, name) else None)
      else Ret None
  | _ => Ret None
  end.

(** The order of tuples, [sort], and the loop that drops aliases. *)
Definition sym_lt (x y : symbol) : bool := (x.1 <? y.1) || ((x.1 =? y.1) && String.ltb x.2 y.2).
Definition sort_syms : list symbol -> list symbol := sort_by sym_lt.

Definition dedupe_step (deduped : list symbol) (x : symbol) : list symbol :=
  match list.last deduped with
  | Some y => if y.1 =? x.1 then deduped else deduped ++ [x]
  | None => deduped ++ [x]
  end.
Definition dedupe (l : list symbol) : list symbol := for_each l [] dedupe_step.

Definition text_symbols (binary out err : string) : result (list symbol) :=
  if strip out =s? "" then
    Raise (SystemExit ("nm produced no output for " +:+ binary +:+ ": "
                       +:+ (if strip err =s? "" then "no stderr" else strip err)))
  else
    syms ← for_result (splitlines out) [] (fun syms line =>
      s ← nm_line line; Ret (match s with Some s => syms ++ [s] | None => syms end));
    Ret (dedupe (sort_syms syms)).

(** The binary search of [lookup]; the interval shrinks at every turn. *)
Fixpoint bisect (fuel : nat) (syms : list symbol) (addr : Z) (lo hi : nat) : nat :=
  match fuel with
  | O => lo
  | S fuel =>
      if (lo <? hi)%nat then
        let mid := ((lo + hi) / 2)%nat in
        if (syms !!! mid).1 <=? addr then bisect fuel syms addr (S mid) hi else bisect fuel syms addr lo mid
      else lo
  end.
Definition BEFORE : string := "<before first symbol>".
Definition lookup (syms : list symbol) (addr : Z) : string * Z :=
  match bisect (length syms) syms addr 0 (length syms) with
  | O => (BEFORE, 0)
  | S i => let '(base, name) := syms !!! i in (name, addr - base)
  end.

(** ** The call graph *)

Definition TREE_LINE : re := Eval vm_compute in rx "^([ +!:|]*?)(\d+) (.*)$".
Definition PC_RE : re := Eval vm_compute in rx "\[(0x[0-9a-f]+)".
Definition LOAD_ADDR_RE : re := Eval vm_compute in rx_m "^Load Address:\s+(0x[0-9a-f]+)".
Definition IMAGE_RE : re := Eval vm_compute in rx "^(.*?)\s+\(in ([^)]+)\)".

(** [("sarm", address)] and [("other", text)] *)
Inductive pc_key : Type := Sarm (addr : Z) | Other (desc : string).

Definition image_key (desc : string) : pc_key :=
  match re_match IMAGE_RE desc with
  | Some m => Other (strip (group m 1) +:+ " [" +:+ group m 2 +:+ "]")
  | None => Other (strip desc)
  end.
Definition _key (desc : string) (load_addr : option Z) : result pc_key :=
  match load_addr with
  | Some load =>
      if contains "(in sarm)" desc then
        match re_search PC_RE desc with
        | Some m => pc ← int_hex (group m 1); Ret (Sarm (TEXT_VMADDR + (pc - load)))
        | None => Ret (image_key desc)
        end
      else Ret (image_key desc)
  | None => Ret (image_key desc)
  end.

(** [(depth, count, function)] *)
Definition node : Type := nat * Z * string.

Definition ends_graph (line : string) : bool :=
  existsb (fun p => startswith p line) ["Total number in stack"; "Sort by top of stack"; "Binary Images:"].

(** The loop over the lines, with [in_graph]; a footer breaks out of it. *)
Fixpoint graph_nodes (resolve : pc_key -> string) (load_addr : option Z) (in_graph : bool) (lines : list string)
  (nodes : list node) : result (list node) :=
  match lines with
  | [] => Ret nodes
  | line :: lines =>
      if startswith "Call graph:" line then graph_nodes resolve load_addr true lines nodes else
      if in_graph && ends_graph line then Ret nodes else
      if negb in_graph || (strip line =s? "") then graph_nodes resolve load_addr in_graph lines nodes else
      match re_match TREE_LINE line with
      | None => graph_nodes resolve load_addr in_graph lines nodes
      | Some m =>
          key ← _key (group m 3) load_addr;
          graph_nodes resolve load_addr in_graph lines
            (nodes ++ [(String.length (group m 1) / 2, int_of (group m 2), resolve key)%nat])
      end
  end.

(** The sum of the counts one level in, up to the end of the subtree. *)
Fixpoint children (depth : nat) (rest : list node) : Z :=
  match rest with
  | [] => 0
  | (d, c, _) :: rest =>
      if (d <=? depth)%nat then 0 else (if (d =? S depth)%nat then c else 0) + children depth rest
  end.

(** The walk back over the earlier nodes, nearest first: does an ancestor
    carry [key]? *)
Fixpoint seen (ancestor_depth : nat) (key : string) (before : list node) : bool :=
  match before with
  | [] => false
  | (d, _, k) :: before =>
      if (ancestor_depth <=? d)%nat then seen ancestor_depth key before
      else if k =s? key then true
      else if (d =? 0)%nat then false
      else seen d key before
  end.

(** [d[key] = d.get(key, 0) + n] *)
Definition bump (d : list (string * Z)) (key : string) (n : Z) : list (string * Z) :=
  dict_set d key (default 0 (dict_get d key) + n).

Definition tables : Type := list (string * Z) * list (string * Z).
Fixpoint tally (before rest : list node) (t : tables) : tables :=
  match rest with
  | [] => t
  | (depth, count, key) :: rest =>
      let '(self_counts, incl_counts) := t in
      let own := count - children depth rest in
      let self_counts := if 0 <? own then bump self_counts key own else self_counts in
      let incl_counts := if seen depth key before then incl_counts else bump incl_counts key count in
      tally ((depth, count, key) :: before) rest (self_counts, incl_counts)
  end.

Definition at_depth (n : nat) (nodes : list node) : Z :=
  for_each nodes 0 (fun total '(d, c, _) => if (d =? n)%nat then total + c else total).

Definition sample_nodes (text : string) (resolve : pc_key -> string) : result (list node) :=
  load_addr ← match re_search LOAD_ADDR_RE text with
              | Some m => Some <$> int_hex (group m 1)
              | None => Ret None
              end;
  graph_nodes resolve load_addr false (splitlines text) [].

Definition parse_sample (text : string) (resolve : pc_key -> string) : result (Z * tables) :=
  nodes ← sample_nodes text resolve;
  Ret (at_depth 2 nodes, tally [] nodes ([], [])).

(** ** The report *)

Definition GROUPS : list (re * string) := Eval vm_compute in
  [(rx "^(p256_|x25519|crypto_random_bytes)", "handshake asymmetric crypto");
   (rx "^(sha256|hkdf_|hmac_sha256|tls_transcript)", "transcript / key schedule");
   (rx "^(aes|ghash|gf_mult_128)", "AES-GCM record crypto");
   (rx "^(tls_record|tls_read_record|tls_app_data)", "TLS record framing");
   (rx "^(h2_hpack|h2_huffman)", "HPACK");
   (rx "^(h2_|http1_|parse_|get_header|create_response|reply_status|find_http_code|check_path|decode_url|get_filetype|get$|get_setup|head$|options$|handle_fs_error|verify_http_version)",
    "H2 / HTTP framing");
   (rx "^(raw_read|raw_write|transport_|write_all|_main|skip_argv|exit$|child)", "transport / syscalls / accept loop");
   (rx "^tls_", "handshake plumbing (non-crypto)");
   (rx "^(memcpy|strlen|streqn|itoa|atoi)", "util");
   (rx ".*", "everything else")].

Fixpoint first_group (symbol : string) (groups : list (re * string)) : string :=
  match groups with
  | [] => "everything else"
  | (pattern, name) :: groups => if matches pattern symbol then name else first_group symbol groups
  end.
Definition group_of (symbol : string) : string := first_group symbol GROUPS.

(** [resolve] of [main] *)
Definition resolve (syms : list symbol) (key : pc_key) : string :=
  match key with
  | Sarm addr => let name := (lookup syms addr).1 in default name (dict_get NAME_ALIASES name)
  | Other desc => desc
  end.

Definition is_idle (name : string) : bool := in_table IDLE_SYMBOLS name.
Definition sum_counts (l : list (string * Z)) : Z := for_each l 0 (fun s '(_, c) => s + c).
Definition busy_items (d : list (string * Z)) : list (string * Z) := List.filter (fun '(n, _) => negb (is_idle n)) d.

(** [sorted(items, key=lambda kv: -kv[1])]: stable. *)
Definition ranked : list (string * Z) -> list (string * Z) := sort_by (fun x y => y.2 <? x.2).

Definition groups_of (d : list (string * Z)) : list (string * Z) :=
  for_each d [] (fun groups '(name, count) => if is_idle name then groups else bump groups (group_of name) count).

(** [count / busy * 100] on integers a double holds exactly *)
Definition share (busy count : Z) : result float :=
  c ← float_of_int count; b ← float_of_int busy; q ← fdiv c b; Ret (fmul q (round_int 100)).
Definition shares (busy : Z) (rows : list (string * Z)) : result (list (string * Z * float)) :=
  for_result rows [] (fun out '(name, count) => s ← share busy count; Ret (out ++ [(name, count, s)])).

Record Report : Type := mkReport {
  r_samples : Z; r_idle : Z; r_busy : Z;
  r_self_rows : list (string * Z * float); r_incl_rows : list (string * Z * float);
  r_groups : list (string * Z); r_group_rows : list (string * Z * float);
  r_self : list (string * Z); r_inclusive : list (string * Z)
}.

Definition report (top : nat) (total : Z) (t : tables) : result Report :=
  let '(self_by_symbol, incl_by_symbol) := t in
  let idle := sum_counts (List.filter (fun '(n, _) => is_idle n) self_by_symbol) in
  let busy := total - idle in
  self_rows ← shares busy (take top (ranked (busy_items self_by_symbol)));
  incl_rows ← shares busy (take top (ranked (busy_items incl_by_symbol)));
  let groups := groups_of self_by_symbol in
  group_rows ← shares busy (ranked groups);
  Ret (mkReport total idle busy self_rows incl_rows groups group_rows self_by_symbol incl_by_symbol).

(** The document [--json] writes. *)
Definition counts_json (d : list (string * Z)) : json := JObj ((fun '(k, v) => (k, JInt v)) <$> d).
Definition report_json (scenario : string) (interval clients : Z) (r : Report) : json :=
  JObj [("scenario", JStr scenario); ("samples", JInt (r_samples r)); ("idle", JInt (r_idle r));
        ("busy", JInt (r_busy r)); ("interval_ms", JInt interval); ("clients", JInt clients);
        ("self", counts_json (r_self r)); ("inclusive", counts_json (r_inclusive r));
        ("groups", counts_json (r_groups r))].

Definition NO_SYMBOLS : string :=
  "no __TEXT symbols " +:+ "—" +:+ " build with `make`, not `make production` (which strips them)".
Definition profile_main (binary nm_out nm_err text : string) (top : nat) : result Report :=
  syms ← text_symbols binary nm_out nm_err;
  if bool_decide (syms = []) then Raise (SystemExit NO_SYMBOLS) else
  p ← parse_sample text (resolve syms);
  report top p.1 p.2.

(** [_server_pid], from what [pgrep] prints: lines of digits *)
Definition server_pid (pgrep : string) : result Z :=
  let out := strip pgrep in
  if out =s? "" then Raise (SystemExit "could not find the sarm process") else
  match splitlines out with
  | line :: _ => if isdigit line then Ret (digits line) else Raise (ValueError "invalid literal for int()")
  | [] => Raise IndexError
  end.

(** ** Call counts (count_calls.py) *)

Definition FUNCTIONS : list string :=
  ["p256_ecdsa_sign_with_k"; "p256_point_mul"; "p256_point_to_affine"; "p256_fe_inv"; "p256_scalar_inv";
   "p256_scalar_mul"; "x25519"; "crypto_random_bytes";
   "sha256"; "hmac_sha256"; "hkdf_extract"; "hkdf_expand"; "hkdf_expand_label"; "tls_transcript_add"; "tls_transcript_hash";
   "tls_record_encrypt"; "tls_record_decrypt"; "tls_read_record"; "tls_record_write"; "aes_gcm_encrypt";
   "aes_gcm_decrypt"; "aes128_key_expand"; "ghash"; "gf_mult_128";
   "raw_read_exact"; "raw_write_all"; "transport_read"; "transport_write"; "write_all";
   "h2_connection_loop"; "h2_dispatch_frame"; "h2_process_request"; "h2_handle_headers"; "h2_handle_window_update";
   "h2_write_headers"; "h2_write_body"; "h2_hpack_decode_block"; "h2_hpack_decode_field"; "h2_huffman_decode";
   "h2_stream_find"; "lookup_embedded";
   "tls_server_handshake"; "tls_parse_client_hello"; "tls_build_server_hello"; "tls_certificate_write";
   "tls_certificate_verify_write"; "tls_finished_write"; "tls_derive_handshake_secrets";
   "tls_derive_application_secrets"].

(** The command line of lldb. *)
Definition lldb_command (binary : string) (functions : list string) : list string :=
  ["lldb"; "-x"; "-o"; "target create " +:+ binary]
  ++ (functions ≫= fun name => ["-o"; "breakpoint set -n " +:+ name +:+ " --auto-continue true"])
  ++ ["-o"; "run d"].

Definition HIT_RE : re := Eval vm_compute in rx_m "^\d+:\s+name = '([^']+)'.*?, hit count = (\d+)".

(** The dictionary comprehension: the last report of a name counts. *)
Definition hit_counts (out : string) : list (string * Z) :=
  for_each (re_finditer HIT_RE out) [] (fun counts m => dict_set counts (group m 1) (int_of (group m 2))).

(** Connections and requests the workload made. *)
Definition workload_units (workload : string) (requests : Z) : Z * Z :=
  if workload =s? "pageload" then (requests, requests * 6)
  else if workload =s? "handshake" then (requests, requests) else (1, requests).

Definition true_div (a b : Z) : result float := x ← float_of_int a; y ← float_of_int b; fdiv x y.
Definition call_rows (counts : list (string * Z)) (conns reqs : Z) : result (list (Z * float * float * string)) :=
  for_result (ranked counts) [] (fun rows '(name, hits) =>
    if hits =? 0 then Ret rows else
    c ← true_div hits conns; r ← true_div hits reqs; Ret (rows ++ [(hits, c, r, name)])).
Definition never_called (counts : list (string * Z)) : list string :=
  sorted_str (fst <$> List.filter (fun '(_, h) => h =? 0) counts).

Definition NO_BREAKPOINTS : string := "lldb reported no breakpoints " +:+ "—" +:+ " see output above".
Definition count_calls (workload : string) (requests : Z) (out : string)
  : result (list (Z * float * float * string) * list string * json) :=
  let counts := hit_counts out in
  if bool_decide (counts = []) then Raise (SystemExit NO_BREAKPOINTS) else
  let '(conns, reqs) := workload_units workload requests in
  rows ← call_rows counts conns reqs;
  Ret (rows, never_called counts,
       JObj [("workload", JStr workload); ("connections", JInt conns); ("requests", JInt reqs);
             ("counts", counts_json counts)]).

(** ** Nearest preceding symbol *)

(** The search leaves the symbols at or below [addr] on its left. *)
Lemma bisect_spec syms addr : forall fuel lo hi,
  (forall i j, (i < j < length syms)%nat -> (syms !!! i).1 < (syms !!! j).1) ->
  (lo <= hi <= length syms)%nat -> (hi - lo <= fuel)%nat ->
  (forall i, (i < lo)%nat -> (syms !!! i).1 <= addr) ->
  (forall i, (hi <= i < length syms)%nat -> addr < (syms !!! i).1) ->
  let r := bisect fuel syms addr lo hi in
  (r <= length syms)%nat
  /\ (forall i, (i < r)%nat -> (syms !!! i).1 <= addr)
  /\ (forall i, (r <= i < length syms)%nat -> addr < (syms !!! i).1).
Proof.
  intros fuel lo hi Hs. revert lo hi.
  induction fuel as [|fuel IH]; intros lo hi Hlh Hf Hlo Hhi; cbn [bisect].
  - assert (lo = hi) as -> by lia. split_and!; [lia|done|done].
  - destruct (Nat.ltb_spec lo hi) as [Hlt|Hge].
    + cbv zeta. set (mid := ((lo + hi) / 2)%nat).
      assert (lo <= mid < hi)%nat as Hmid.
      { unfold mid. split; [apply Nat.div_le_lower_bound; lia|apply Nat.Div0.div_lt_upper_bound; lia]. }
      destruct (Z.leb_spec (syms !!! mid).1 addr) as [Hle|Hgt].
      * apply IH; [lia|lia| |done]. intros i Hi.
        destruct (decide (i = mid)) as [->|]; [done|].
        assert ((syms !!! i).1 < (syms !!! mid).1) by (apply Hs; lia). lia.
      * apply IH; [lia|lia|done|]. intros i Hi.
        destruct (decide (i = mid)) as [->|]; [done|].
        assert ((syms !!! mid).1 < (syms !!! i).1) by (apply Hs; lia). lia.
    + assert (lo = hi) as -> by lia. split_and!; [lia|done|done].
Qed.

Lemma elem_of_sort_syms x l : x ∈ sort_syms l <-> x ∈ l.
Proof. apply elem_of_sort_by. Qed.

(** Not after, in the order of tuples *)
Definition sym_le (x y : symbol) : Prop := sym_lt y x = false.

Lemma sym_le_addr x y : sym_le x y -> x.1 <= y.1.
Proof. unfold sym_le, sym_lt. rewrite orb_false_iff, andb_false_iff. intros [?%Z.ltb_ge _]. done. Qed.
Lemma sym_le_same x y : sym_le x y -> x.1 = y.1 -> String.ltb y.2 x.2 = false.
Proof.
  unfold sym_le, sym_lt. rewrite orb_false_iff, andb_false_iff. intros [_ [H|H]] E; [|done].
  apply Z.eqb_neq in H. congruence.
Qed.

(** The tuples are totally ordered. *)
Lemma ltb_lt a b : String.ltb a b = true <-> String_as_OT.lt a b.
Proof. unfold String.ltb, String_as_OT.lt. change (String_as_OT.compare a b) with (String.compare a b). by destruct (String.compare a b). Qed.

Definition lt_sym (x y : symbol) : Prop := x.1 < y.1 \/ x.1 = y.1 /\ String_as_OT.lt x.2 y.2.

Lemma sym_lt_iff x y : sym_lt x y = true <-> lt_sym x y.
Proof.
  unfold sym_lt, lt_sym. by rewrite orb_true_iff, andb_true_iff, Z.ltb_lt, Z.eqb_eq, ltb_lt.
Qed.

Lemma sym_lt_total x y : lt_sym x y \/ x = y \/ lt_sym y x.
Proof.
  destruct x as [a s], y as [b u]. unfold lt_sym. cbn [fst snd].
  destruct (Z.lt_trichotomy a b) as [?|[->|?]]; [by left; left| |by right; right; left].
  destruct (String_as_OT.compare_spec s u) as [->|?|?]; [by right; left|left; by right|right; right; by right].
Qed.

Lemma lt_sym_trans x y z : lt_sym x y -> lt_sym y z -> lt_sym x z.
Proof.
  intros [?|[? Hxy]] [?|[? Hyz]]; [left; lia..|]. right. split; [lia|].
  by transitivity y.2.
Qed.

Lemma lt_sym_irrefl x : ~ lt_sym x x.
Proof. intros [?|[_ H]]; [lia|]. by apply (StrictOrder_Irreflexive (R := String_as_OT.lt)) in H. Qed.

Lemma sym_le_iff x y : sym_le x y <-> ~ lt_sym y x.
Proof. unfold sym_le. by rewrite <- sym_lt_iff, not_true_iff_false. Qed.

#[export] Instance sym_le_trans : Transitive sym_le.
Proof.
  intros a b c. rewrite !sym_le_iff. intros Hab Hbc Hca.
  destruct (sym_lt_total a b) as [H|[->|H]]; [|done|done]. apply Hbc. by apply (lt_sym_trans c a b).
Qed.

Lemma sort_syms_sorted l : StronglySorted sym_le (sort_syms l).
Proof.
  apply (sort_by_sorted _ (fun _ => True)); [intros x y z _ _ _; apply sym_le_trans| |by intros ????|by apply Forall_true].
  intros x y _ _ E%sym_lt_iff. rewrite sym_le_iff. intros H. apply (lt_sym_irrefl x). by apply (lt_sym_trans x y x).
Qed.

Definition addr_lt (x y : symbol) : Prop := x.1 < y.1.

(** What [dedupe] has established when it has passed the symbols [pre]. *)
Record deduped (pre acc : list symbol) : Prop := {
  dd_in : forall x, x ∈ acc -> x ∈ pre;
  dd_sorted : StronglySorted addr_lt acc;
  dd_last : forall x, x ∈ pre -> exists y, list.last acc = Some y /\ x.1 <= y.1;
  dd_first : forall x, x ∈ pre -> exists y, y ∈ acc /\ y.1 = x.1 /\ sym_le y x
}.

Lemma ssorted_snoc {A} (R : A -> A -> Prop) l x :
  StronglySorted R l -> (forall y, y ∈ l -> R y x) -> StronglySorted R (l ++ [x]).
Proof.
  induction l as [|z l IH]; intros Hs Hx; cbn [app]; [repeat constructor|].
  apply StronglySorted_inv in Hs as [Hs Hz]. apply SSorted_cons.
  - apply IH; [done|]. intros y Hy. apply Hx. by right.
  - apply list.Forall_app. split; [done|]. apply list.Forall_cons. split; [|done]. apply Hx. left.
Qed.

Lemma ssorted_last {A} (R : A -> A -> Prop) l x y :
  StronglySorted R l -> list.last l = Some y -> x ∈ l -> x = y \/ R x y.
Proof.
  intros Hs. induction Hs as [|z l Hs IH Hz]; intros Hl Hx; [done|].
  destruct l as [|w l].
  - cbn in Hl. injection Hl as ->. apply list_elem_of_singleton in Hx. by left.
  - apply elem_of_cons in Hx as [->|Hx]; [|by apply IH]. right.
    rewrite list.Forall_forall in Hz. apply Hz. apply list.last_Some_elem_of. exact Hl.
Qed.

Lemma sym_le_refl x : sym_le x x.
Proof. unfold sym_le. apply not_true_iff_false. rewrite sym_lt_iff. apply lt_sym_irrefl. Qed.

Lemma dedupe_spec l : StronglySorted sym_le l -> deduped l (dedupe l).
Proof.
  intros Hl. unfold dedupe. apply (for_each_ind deduped).
  - split; [done|constructor|by intros x ?%elem_of_nil..].
  - intros pre x post acc -> [Hin Hs Hlast Hfirst].
    assert (forall y, y ∈ pre -> sym_le y x) as Hx.
    { intros y Hy. clear -Hl Hy. induction pre as [|z pre IH]; [by apply elem_of_nil in Hy|].
      apply StronglySorted_inv in Hl as [Hl Hz]. apply elem_of_cons in Hy as [->|Hy]; [|by apply IH].
      rewrite list.Forall_forall in Hz. apply Hz. apply elem_of_app. right. left. }
    unfold dedupe_step. destruct (list.last acc) as [y|] eqn:Ey.
    + assert (y ∈ acc) as Hy by by apply list.last_Some_elem_of.
      destruct (Z.eqb_spec y.1 x.1) as [E|E].
      * split; [|done|..].
        -- intros z Hz. apply elem_of_app. left. by apply Hin.
        -- intros z [Hz|Hz]%elem_of_app.
           ++ destruct (Hlast z Hz) as (y' & Hy' & Hle). injection Hy' as <-. by exists y.
           ++ apply list_elem_of_singleton in Hz as ->. exists y. split; [done|lia].
        -- intros z [Hz|Hz]%elem_of_app; [by apply Hfirst|].
           apply list_elem_of_singleton in Hz as ->. exists y. split_and!; [done..|]. by apply Hx, Hin.
      * assert (y.1 < x.1) as Hlt.
        { pose proof (sym_le_addr y x (Hx y (Hin y Hy))). lia. }
        split.
        -- intros z. rewrite !elem_of_app. intros [Hz|Hz]; [left; by apply Hin|by right].
        -- apply ssorted_snoc; [done|]. intros z Hz.
           destruct (ssorted_last _ _ z y Hs Ey Hz) as [->|Hzy]; [done|]. unfold addr_lt in *. lia.
        -- intros z Hz. exists x. split; [apply list.last_snoc|].
           apply elem_of_app in Hz as [Hz|Hz]; [by apply sym_le_addr, Hx|]. by apply list_elem_of_singleton in Hz as ->.
        -- intros z [Hz|Hz]%elem_of_app.
           ++ destruct (Hfirst z Hz) as (w & Hw & ?). exists w. split; [apply elem_of_app; by left|done].
           ++ apply list_elem_of_singleton in Hz as ->. exists x. split_and!; [apply elem_of_app; right; left|done|apply sym_le_refl].
    + apply list.last_None in Ey as ->. assert (pre = []) as ->.
      { destruct pre as [|z pre]; [done|]. destruct (Hlast z ltac:(left)) as (? & ? & _). done. }
      cbn [app]. split.
      * done.
      * repeat constructor.
      * intros z ->%list_elem_of_singleton. by exists x.
      * intros z ->%list_elem_of_singleton. exists x. split_and!; [left|done|apply sym_le_refl].
Qed.

Lemma ssorted_lookup l i j : StronglySorted addr_lt l -> (i < j < length l)%nat -> (l !!! i).1 < (l !!! j).1.
Proof.
  intros Hs. revert i j. induction Hs as [|x l Hs IH Hx]; intros i j [Hij Hj]; cbn [length] in Hj; [lia|].
  destruct i as [|i], j as [|j]; [lia| |lia|].
  - change ((x :: l) !!! O) with x. change ((x :: l) !!! S j) with (l !!! j).
    rewrite list.Forall_forall in Hx. apply Hx. apply list_elem_of_lookup_total_2. lia.
  - change ((x :: l) !!! S i) with (l !!! i). change ((x :: l) !!! S j) with (l !!! j). apply IH. lia.
Qed.

(** A symbol some line of the table adds. *)
Definition listed (out : string) (s : symbol) : Prop :=
  exists line, line ∈ splitlines out /\ nm_line line = Ret (Some s).

Lemma text_symbols_deduped binary out err syms : text_symbols binary out err = Ret syms ->
  exists l, deduped l syms /\ forall s, s ∈ l <-> listed out s.
Proof.
  unfold text_symbols. destruct (strip out =s? ""); [done|].
  intros (l & Hl & [= <-])%bind_Ret_inv. exists (sort_syms l). split; [apply dedupe_spec, sort_syms_sorted|].
  intros s. rewrite elem_of_sort_syms. unfold listed. revert s l Hl.
  induction (splitlines out) as [|line lines IH] using rev_ind; intros s l Hl.
  - injection Hl as <-. split; [by intros ?%elem_of_nil|]. by intros (? & ?%elem_of_nil & _).
  - rewrite for_result_app in Hl. apply bind_Ret_inv in Hl as (l0 & Hl0 & Hl).
    cbn [for_result] in Hl. apply bind_Ret_inv in Hl as (l1 & Hl1 & [= <-]).
    apply bind_Ret_inv in Hl1 as (o & Ho & [= <-]).
    specialize (IH s l0 Hl0). setoid_rewrite elem_of_app. setoid_rewrite list_elem_of_singleton.
    destruct o as [x|]; rewrite ?elem_of_app, ?list_elem_of_singleton, IH; split.
    + intros [(line' & ? & ?)| ->]; [|by eauto]. eauto.
    + intros (line' & [?| ->] & Hs); [left; eauto|]. right. congruence.
    + intros (line' & ? & ?). eauto.
    + intros (line' & [?| ->] & Hs); [eauto|]. congruence.
Qed.

(** The function a sample is charged to. When [text_symbols] reads the
    table, [lookup] returns the nearest symbol at or below the address: no
    text symbol the table lists lies between that symbol and the address, the
    offset is the distance, and of several names for one address the report
    uses the first in alphabetical order; below every symbol it returns the
    placeholder. *)
Theorem lookup_nearest binary out err syms addr : text_symbols binary out err = Ret syms ->
  (forall s, listed out s -> addr < s.1) /\ lookup syms addr = (BEFORE, 0)
  \/ exists s, listed out s /\ s.1 <= addr /\ lookup syms addr = (s.2, addr - s.1)
     /\ forall s', listed out s' -> s'.1 <= addr -> s'.1 < s.1 \/ s'.1 = s.1 /\ String.ltb s'.2 s.2 = false.
Proof.
  intros (l & [Hin Hs Hlast Hfirst] & Hl)%text_symbols_deduped.
  pose proof (bisect_spec syms addr (length syms) 0 (length syms)) as Hb.
  cbv zeta in Hb. destruct Hb as (Hr & Hlo & Hhi); [|lia..|].
  { intros i j Hij. by apply ssorted_lookup. }
  unfold lookup. remember (bisect (length syms) syms addr 0 (length syms)) as r eqn:Er0. clear Er0.
  assert (forall s', listed out s' -> s'.1 <= addr -> exists i, (i < r)%nat
            /\ (syms !!! i).1 = s'.1 /\ sym_le (syms !!! i) s') as Hbelow.
  { intros s' Hs' Ha. apply Hl, Hfirst in Hs' as (y & Hy & Ey & Hle).
    apply list_elem_of_lookup_total in Hy as (i & Hi & <-). exists i. split; [|done].
    apply Nat.nle_gt. intros Hri. pose proof (Hhi i (conj Hri Hi)) as H.
    apply Z.lt_nge in H. apply H.
    refine (Z.le_trans _ s'.1 _ (Z.eq_le_incl _ _ Ey) Ha). }
  destruct r as [|r].
  - left. split; [|done]. intros s Hlist. apply Z.nle_gt. intros Ha. destruct (Hbelow s Hlist Ha) as (i & ? & _). lia.
  - right. destruct (syms !!! r) as [base name] eqn:Er. exists (base, name). split_and!; [| |done|].
    + apply Hl, Hin. rewrite <- Er. apply list_elem_of_lookup_total_2. lia.
    + rewrite <- Er. apply Hlo. lia.
    + intros s' Hs' Ha. destruct (Hbelow s' Hs' Ha) as (i & Hi & Ei & Hle). rewrite <- Er.
      destruct (decide (i = r)) as [->|Hne].
      * right. split; [done|]. by apply (sym_le_same (syms !!! r)).
      * left. rewrite <- Ei. apply ssorted_lookup; [done|lia].
Qed.

(** ** What each function costs

    The reference: the call graph as a tree, a frame's own samples (those in
    none of its calls), and what a function costs by itself and from its
    outermost frames down. *)

Inductive frame : Type := Frame (count : Z) (name : string) (calls : list frame).

Definition frame_count (f : frame) : Z := match f with Frame c _ _ => c end.
Definition sum_map (g : frame -> Z) (fs : list frame) : Z := foldr (fun f s => g f + s) 0 fs.
Definition own (c : Z) (calls : list frame) : Z := c - sum_map frame_count calls.

(** The lines of a frame printed at a level, one level deeper per call. *)
Fixpoint flatten (d : nat) (f : frame) : list node :=
  match f with Frame c n calls => (d, c, n) :: flat_map (flatten (S d)) calls end.
Definition print_forest (d : nat) (fs : list frame) : list node := flat_map (flatten d) fs.

Fixpoint self_of (k : string) (f : frame) : Z :=
  match f with Frame c n calls =>
    (if n =s? k then Z.max 0 (own c calls) else 0) + sum_map (self_of k) calls end.
Fixpoint incl_of (k : string) (f : frame) : Z :=
  match f with Frame c n calls => if n =s? k then c else sum_map (incl_of k) calls end.
Fixpoint total_self (f : frame) : Z :=
  match f with Frame c _ calls => Z.max 0 (own c calls) + sum_map total_self calls end.
(** No frame has fewer samples than its calls together. *)
Fixpoint well_counted (f : frame) : Prop :=
  match f with Frame c _ calls =>
    sum_map frame_count calls <= c /\ foldr (fun f P => well_counted f /\ P) True calls end.

Lemma frame_induction (P : frame -> Prop) :
  (forall c n calls, Forall P calls -> P (Frame c n calls)) -> forall f, P f.
Proof.
  intros H. fix IH 1. intros [c n calls]. apply H. induction calls as [|f calls IHc]; constructor; [apply IH|done].
Qed.

Lemma well_counted_all calls : foldr (fun f P => well_counted f /\ P) True calls <-> Forall well_counted calls.
Proof. induction calls as [|f l IH]; cbn [foldr]; [done|]. rewrite list.Forall_cons. by rewrite IH. Qed.

Lemma sum_map_le g h fs : (forall f, f ∈ fs -> g f <= h f) -> sum_map g fs <= sum_map h fs.
Proof.
  intros H. induction fs as [|f fs IH]; [done|]. change (g f + sum_map g fs <= h f + sum_map h fs).
  assert (g f <= h f) by (apply H; left). assert (sum_map g fs <= sum_map h fs); [|lia].
  apply IH. intros x Hx. apply H. by right.
Qed.
Lemma sum_map_eq g h fs : (forall f, f ∈ fs -> g f = h f) -> sum_map g fs = sum_map h fs.
Proof. intros H. apply Z.le_antisymm; apply sum_map_le; intros f Hf; rewrite (H f Hf); lia. Qed.
Lemma sum_map_nonneg g fs : (forall f, f ∈ fs -> 0 <= g f) -> 0 <= sum_map g fs.
Proof.
  intros H. induction fs as [|f fs IH]; [done|]. change (0 <= g f + sum_map g fs).
  assert (0 <= g f) by (apply H; left). assert (0 <= sum_map g fs); [|lia]. apply IH. intros x Hx. apply H. by right.
Qed.

Lemma total_self_count f : well_counted f -> total_self f = frame_count f.
Proof.
  induction f as [c n calls IH] using frame_induction. cbn [well_counted total_self frame_count].
  rewrite well_counted_all, !list.Forall_forall in *. intros [Hc Hw].
  rewrite (sum_map_eq _ frame_count) by (intros f Hf; apply IH, Hw; done). unfold own. lia.
Qed.
Lemma total_self_nonneg f : 0 <= total_self f.
Proof.
  induction f as [c n calls IH] using frame_induction. cbn [total_self]. rewrite list.Forall_forall in IH.
  pose proof (sum_map_nonneg total_self calls IH). lia.
Qed.
Lemma self_of_range k f : 0 <= self_of k f <= total_self f.
Proof.
  induction f as [c n calls IH] using frame_induction. cbn [self_of total_self]. rewrite list.Forall_forall in IH.
  assert (0 <= sum_map (self_of k) calls) by (apply sum_map_nonneg; intros f Hf; by apply IH).
  assert (sum_map (self_of k) calls <= sum_map total_self calls) by (apply sum_map_le; intros f Hf; by apply IH).
  destruct (n =s? k); lia.
Qed.

(** Self time is within inclusive time, and that within the samples. *)
Lemma self_incl_count k f : well_counted f -> self_of k f <= incl_of k f <= frame_count f.
Proof.
  induction f as [c n calls IH] using frame_induction. intros Hw.
  pose proof (self_of_range k (Frame c n calls)) as Hs. rewrite (total_self_count _ Hw) in Hs.
  cbn [incl_of frame_count] in *. destruct (n =s? k) eqn:E; [lia|]. cbn [self_of]. rewrite E.
  cbn [well_counted] in Hw. rewrite well_counted_all in Hw. destruct Hw as [Hc Hw]. rewrite list.Forall_forall in IH, Hw.
  assert (sum_map (self_of k) calls <= sum_map (incl_of k) calls) by (apply sum_map_le; intros f Hf; apply IH, Hw; done).
  assert (sum_map (incl_of k) calls <= sum_map frame_count calls) by (apply sum_map_le; intros f Hf; apply IH, Hw; done).
  lia.
Qed.

(** *** The scan of the flat lines computes it *)

Definition value (d : list (string * Z)) (k : string) : Z := default 0 (dict_get d k).

Lemma bump_value d key n k : value (bump d key n) k = value d k + if key =s? k then n else 0.
Proof.
  unfold value, bump. rewrite dict_get_set. destruct (String.eqb_spec key k) as [->|Hne].
  - by rewrite decide_True.
  - rewrite decide_False by congruence. lia.
Qed.

Lemma sum_counts_cons k n d : sum_counts ((k, n) :: d) = n + sum_counts d.
Proof.
  unfold sum_counts. assert (forall s, for_each d s (fun s '(_, c) => s + c) = s + for_each d 0 (fun s '(_, c) => s + c)) as H.
  { induction d as [|[k' n'] d IH]; intros s; cbn [for_each foldl]; [lia|]. unfold for_each in IH. rewrite IH, (IH (0 + n')). lia. }
  change (for_each d (0 + n) (fun s '(_, c) => s + c) = n + for_each d 0 (fun s '(_, c) => s + c)). by rewrite H.
Qed.

Lemma sum_counts_bump d key n : sum_counts (bump d key n) = sum_counts d + n.
Proof.
  unfold bump. induction d as [|[k c] d IH]; [done|]. cbn [dict_set dict_get]. case_decide as E.
  - subst. cbn [default from_option id]. rewrite !sum_counts_cons. lia.
  - rewrite !sum_counts_cons, IH. lia.
Qed.

(** What follows a frame in the listing is not deeper than it. *)
Definition ends (d : nat) (rest : list node) : Prop :=
  match rest with [] => True | x :: _ => (x.1.1 <= d)%nat end.

Lemma flatten_depth d f x : x ∈ flatten d f -> (d <= x.1.1)%nat.
Proof.
  revert d. induction f as [c n calls IH] using frame_induction. intros d. cbn [flatten].
  intros [->|Hx]%elem_of_cons; [done|]. rewrite list.Forall_forall in IH.
  rewrite list_elem_of_In, in_flat_map in Hx. destruct Hx as (f & Hf & Hx).
  rewrite <- list_elem_of_In in Hf. rewrite <- list_elem_of_In in Hx. specialize (IH f Hf (S d) Hx). lia.
Qed.

Lemma ends_forest d fs rest : ends d rest -> ends d (print_forest d fs ++ rest).
Proof. intros H. destruct fs as [|[c n calls] fs]; [done|]. cbn. lia. Qed.

Lemma children_deeper d l rest : (forall x, x ∈ l -> (S d < x.1.1)%nat) -> children d (l ++ rest) = children d rest.
Proof.
  induction l as [|[[e c] n] l IH]; intros H; [done|]. cbn [app children].
  assert (S d < e)%nat by (apply (H (e, c, n)); left).
  destruct (Nat.leb_spec e d); [lia|]. destruct (Nat.eqb_spec e (S d)); [lia|].
  rewrite IH; [lia|]. intros x Hx. apply H. by right.
Qed.

Lemma children_forest d fs rest : ends d rest -> children d (print_forest (S d) fs ++ rest) = sum_map frame_count fs.
Proof.
  intros Hr. induction fs as [|[c n calls] fs IH].
  - destruct rest as [|[[e c] n] rest]; [done|]. cbn in *. by destruct (Nat.leb_spec e d); [|lia].
  - change (print_forest (S d) (Frame c n calls :: fs) ++ rest)
      with ((S d, c, n) :: (flat_map (flatten (S (S d))) calls ++ print_forest (S d) fs) ++ rest).
    cbn [children]. destruct (Nat.leb_spec (S d) d); [lia|]. rewrite Nat.eqb_refl, <- app_assoc, children_deeper, IH; [done|].
    intros x Hx. rewrite list_elem_of_In, in_flat_map in Hx. destruct Hx as (f & _ & Hx).
    rewrite <- list_elem_of_In in Hx. apply flatten_depth in Hx. lia.
Qed.

Lemma seen_skip d k l b : (forall x, x ∈ l -> (d <= x.1.1)%nat) -> seen d k (l ++ b) = seen d k b.
Proof.
  induction l as [|[[e c] n] l IH]; intros H; [done|]. cbn [app seen].
  assert (d <= e)%nat by (apply (H (e, c, n)); left). destruct (Nat.leb_spec d e); [|lia].
  apply IH. intros x Hx. apply H. by right.
Qed.

(** What the scan of the lines of [fs] adds to the tables: [known] says that
    an ancestor carries the name. *)
Definition charged (known : string -> bool) (fs : list frame) (t t' : tables) : Prop :=
  (forall k, value t'.1 k = value t.1 k + sum_map (self_of k) fs)
  /\ (forall k, value t'.2 k = value t.2 k + if known k then 0 else sum_map (incl_of k) fs)
  /\ sum_counts t'.1 = sum_counts t.1 + sum_map total_self fs.

Lemma charged_nil known t : charged known [] t t.
Proof. split_and!; intros; cbn; try lia. destruct (known k); lia. Qed.

Lemma charged_cons known f fs t t1 t2 : charged known [f] t t1 -> charged known fs t1 t2 -> charged known (f :: fs) t t2.
Proof.
  intros (H1 & H2 & H3) (H4 & H5 & H6). cbn [sum_map foldr] in *. split_and!.
  - intros k. rewrite H4, H1. unfold sum_map. cbn [foldr]. lia.
  - intros k. rewrite H5, H2. unfold sum_map. cbn [foldr]. destruct (known k); lia.
  - rewrite H6, H3. unfold sum_map. cbn [foldr]. lia.
Qed.

(** A frame's own line, then its calls. *)
Lemma charged_frame (known : string -> bool) c n calls (t t1 t2 : tables) :
  t1 = (if 0 <? own c calls then bump t.1 n (own c calls) else t.1, if known n then t.2 else bump t.2 n c) ->
  charged (fun k => (n =s? k) || known k) calls t1 t2 -> charged known [Frame c n calls] t t2.
Proof.
  intros -> (H1 & H2 & H3). cbn [fst snd] in *.
  assert (forall k, value (if 0 <? own c calls then bump t.1 n (own c calls) else t.1) k
                    = value t.1 k + if n =s? k then Z.max 0 (own c calls) else 0) as Hs.
  { intros k. destruct (Z.ltb_spec 0 (own c calls)); rewrite ?bump_value; destruct (n =s? k); lia. }
  split_and!.
  - intros k. rewrite H1, Hs. unfold sum_map. cbn [foldr self_of]. unfold sum_map. lia.
  - intros k. rewrite H2. unfold sum_map. cbn [foldr incl_of]. fold (sum_map (incl_of k) calls).
    destruct (known n) eqn:En, (String.eqb_spec n k) as [->|Hne]; cbn [orb]; rewrite ?En, ?bump_value; try lia.
    + destruct (known k); lia.
    + rewrite seqb_refl. lia.
    + rewrite (proj2 (seqb_false n k) Hne). destruct (known k); lia.
  - rewrite H3. unfold sum_map. cbn [foldr total_self]. fold (sum_map total_self calls).
    destruct (Z.ltb_spec 0 (own c calls)); rewrite ?sum_counts_bump; lia.
Qed.

(** The scan of one frame, and of a forest. *)
Definition scans (d : nat) (fs : list frame) : Prop :=
  forall b rest t, ends d rest -> exists t',
    tally b (print_forest d fs ++ rest) t = tally (rev (print_forest d fs) ++ b) rest t'
    /\ charged (fun k => seen d k b) fs t t'.

Lemma scans_forest d fs : Forall (fun f => scans d [f]) fs -> scans d fs.
Proof.
  induction 1 as [|f fs Hf _ IH]; intros b rest t Hr; [exists t; split; [done|apply charged_nil]|].
  change (print_forest d (f :: fs)) with (flatten d f ++ print_forest d fs).
  destruct (Hf b (print_forest d fs ++ rest) t) as (t1 & E1 & H1); [by apply ends_forest|].
  cbn [print_forest flat_map] in E1. rewrite app_nil_r in E1.
  destruct (IH (rev (flatten d f) ++ b) rest t1 Hr) as (t2 & E2 & H2).
  exists t2. split.
  - rewrite <- app_assoc, E1, E2, rev_app_distr, <- app_assoc. done.
  - apply (charged_cons _ f fs t t1 t2 H1). destruct H2 as (H3 & H4 & H5). split_and!; [done| |done].
    intros k. rewrite H4, seen_skip; [done|]. intros x Hx. rewrite list_elem_of_In, <- in_rev, <- list_elem_of_In in Hx. by apply flatten_depth in Hx.
Qed.

Lemma scans_frame f : forall d, (0 < d)%nat -> scans d [f].
Proof.
  induction f as [c n calls IH] using frame_induction. intros d Hd b rest t Hr.
  assert (scans (S d) calls) as Hc.
  { apply scans_forest. apply (list.Forall_impl _ _ _ IH). intros f Hf. apply Hf. lia. }
  assert (ends (S d) rest) as Hr' by (destruct rest; cbn in *; [done|lia]).
  set (t1 := (if 0 <? own c calls then bump t.1 n (own c calls) else t.1,
              if seen d n b then t.2 else bump t.2 n c) : tables).
  destruct (Hc ((d, c, n) :: b) rest t1 Hr') as (t2 & E & H). exists t2. split.
  - change (print_forest d [Frame c n calls]) with ((d, c, n) :: print_forest (S d) calls ++ []).
    rewrite app_nil_r. cbn [app tally]. destruct t as [self incl]. rewrite children_forest by done.
    change (tally ((d, c, n) :: b) (print_forest (S d) calls ++ rest) t1
            = tally (rev ((d, c, n) :: print_forest (S d) calls) ++ b) rest t2).
    rewrite E. cbn [rev]. by rewrite <- app_assoc.
  - apply (charged_frame _ c n calls t t1 t2 eq_refl).
    destruct H as (H1 & H2 & H3). split_and!; [done| |done].
    intros k. rewrite H2. cbn [seen]. destruct (Nat.leb_spec (S d) d); [lia|].
    destruct (n =s? k); [done|]. by destruct (Nat.eqb_spec d 0); [lia|].
Qed.

Lemma at_depth_cons n d c k nodes : at_depth n ((d, c, k) :: nodes) = (if (d =? n)%nat then c else 0) + at_depth n nodes.
Proof.
  unfold at_depth.
  assert (forall s, for_each nodes s (fun total '(d, c, _) => if (d =? n)%nat then total + c else total)
                    = s + for_each nodes 0 (fun total '(d, c, _) => if (d =? n)%nat then total + c else total)) as H.
  { induction nodes as [|[[d' c'] k'] nodes IH]; intros s; unfold for_each in *; cbn [foldl]; [lia|].
    rewrite IH, (IH (if (d' =? n)%nat then 0 + c' else 0)). destruct (d' =? n)%nat; lia. }
  rewrite <- H. cbn [for_each foldl]. by destruct (d =? n)%nat.
Qed.

Lemma at_depth_deeper n l rest : (forall x, x ∈ l -> (n < x.1.1)%nat) -> at_depth n (l ++ rest) = at_depth n rest.
Proof.
  induction l as [|[[d c] k] l IH]; intros H; [done|]. cbn [app]. rewrite at_depth_cons, IH.
  - assert (n < d)%nat by (apply (H (d, c, k)); left). by destruct (Nat.eqb_spec d n); [lia|].
  - intros x Hx. apply H. by right.
Qed.

Lemma at_depth_forest d fs : at_depth d (print_forest d fs) = sum_map frame_count fs.
Proof.
  induction fs as [|[c n calls] fs IH]; [done|].
  change (print_forest d (Frame c n calls :: fs)) with ((d, c, n) :: flat_map (flatten (S d)) calls ++ print_forest d fs).
  rewrite at_depth_cons, Nat.eqb_refl, at_depth_deeper, IH; [done|].
  intros x Hx. rewrite list_elem_of_In, in_flat_map in Hx. destruct Hx as (f & _ & Hx).
  rewrite <- list_elem_of_In in Hx. apply flatten_depth in Hx. lia.
Qed.

(** The cost centres and the idle samples are all the samples counted. *)
Lemma groups_total d :
  sum_counts (groups_of d) + sum_counts (List.filter (fun '(n, _) => is_idle n) d) = sum_counts d.
Proof.
  unfold groups_of.
  assert (forall g, sum_counts (for_each d g (fun groups '(name, count) =>
            if is_idle name then groups else bump groups (group_of name) count))
          + sum_counts (List.filter (fun '(n, _) => is_idle n) d) = sum_counts g + sum_counts d) as H; [|by rewrite (H [])].
  induction d as [|[n c] d IH]; intros g; [done|]. unfold for_each in *. cbn [foldl List.filter].
  destruct (is_idle n) eqn:E.
  - specialize (IH g). rewrite !sum_counts_cons. lia.
  - specialize (IH (bump g (group_of n) c)). rewrite sum_counts_bump in IH. rewrite sum_counts_cons. lia.
Qed.

Lemma parse_forest text resolve fs total t :
  sample_nodes text resolve = Ret (print_forest 2 fs) -> parse_sample text resolve = Ret (total, t) ->
  total = sum_map frame_count fs /\ charged (fun _ => false) fs ([], []) t.
Proof.
  intros Hn. unfold parse_sample. rewrite Hn, bind_Ret. intros [= <- <-]. split; [apply at_depth_forest|].
  assert (scans 2 fs) as Hs.
  { apply scans_forest, list.Forall_forall. intros f _. apply scans_frame. lia. }
  destruct (Hs [] [] ([], []) I) as (t & E & H). rewrite app_nil_r in E. rewrite E. exact H.
Qed.

Lemma report_parts top total t r : report top total t = Ret r ->
  r_samples r = total /\ r_self r = t.1 /\ r_inclusive r = t.2 /\ r_groups r = groups_of t.1
  /\ r_busy r = total - sum_counts (List.filter (fun '(n, _) => is_idle n) t.1).
Proof.
  unfold report. destruct t as [self incl].
  intros (? & _ & (? & _ & (? & _ & [= <-])%bind_Ret_inv)%bind_Ret_inv)%bind_Ret_inv. done.
Qed.

(** C29: the sampled profile adds up. When the lines of the call graph are
    those of trees of frames in which no frame has fewer samples than its
    calls together, the report's sample count is the sum of the trees' counts;
    every function's self time is the sum of what its frames have beyond their
    calls, its inclusive time that of its outermost frames (so recursion is
    not counted twice), and self is within inclusive within the samples; and
    the cost centres add up to the busy samples. *)
Theorem profile_conserved text resolve fs total t top r :
  sample_nodes text resolve = Ret (print_forest 2 fs) -> Forall well_counted fs ->
  parse_sample text resolve = Ret (total, t) -> report top total t = Ret r ->
  r_samples r = sum_map frame_count fs
  /\ (forall k, value (r_self r) k = sum_map (self_of k) fs /\ value (r_inclusive r) k = sum_map (incl_of k) fs
       /\ value (r_self r) k <= value (r_inclusive r) k <= r_samples r)
  /\ sum_counts (r_groups r) = r_busy r.
Proof.
  intros Hn Hw Hp (-> & -> & -> & -> & ->)%report_parts. rewrite list.Forall_forall in Hw.
  destruct (parse_forest _ _ _ _ _ Hn Hp) as (-> & Hs & Hi & Ht). split; [done|]. split.
  - intros k. rewrite Hs, Hi. cbn [fst snd]. split_and!; [done|done|..].
    + apply Z.add_le_mono_l, sum_map_le. intros f Hf. by apply self_incl_count, Hw.
    + change (value [] k) with 0. rewrite Z.add_0_l. apply sum_map_le. intros f Hf. by apply self_incl_count, Hw.
  - pose proof (groups_total t.1) as Hg. rewrite Ht in Hg. cbn [fst] in Hg.
    rewrite (sum_map_eq _ frame_count) in Hg by (intros f Hf; by apply total_self_count, Hw).
    change (sum_counts []) with 0 in Hg. lia.
Qed.

(** ** Witnesses *)

Definition demo_nm : string :=
  "0000000100000000 T __mh_execute_header" +:+ nl +:+ "0000000100000040 T p256_point_mul" +:+ nl
  +:+ "0000000100000080 t .Lpmul_loop" +:+ nl +:+ "00000001000000c0 t p256_reduce" +:+ nl
  +:+ "0000000100000100 T skip_argv" +:+ nl +:+ "0000000100000100 T _main" +:+ nl
  +:+ "                 U _exit".
Definition demo_syms : list symbol :=
  Eval vm_compute in match text_symbols "sarm" demo_nm "" with Ret s => s | Raise _ => [] end.

Lemma lookup_nearest_witness :
  lookup demo_syms 0x100000090 = ("p256_point_mul", 0x50)
  /\ ((forall s, listed demo_nm s -> 0x100000090 < s.1) /\ lookup demo_syms 0x100000090 = (BEFORE, 0)
      \/ exists s, listed demo_nm s /\ s.1 <= 0x100000090 /\ lookup demo_syms 0x100000090 = (s.2, 0x100000090 - s.1)
         /\ forall s', listed demo_nm s' -> s'.1 <= 0x100000090 -> s'.1 < s.1 \/ s'.1 = s.1 /\ String.ltb s'.2 s.2 = false).
Proof. split; [vm_compute; reflexivity|]. apply (lookup_nearest "sarm" demo_nm "" demo_syms 0x100000090). vm_compute. reflexivity. Defined.

Definition demo_sample : string :=
  "Load Address:    0x104000000" +:+ nl +:+ "Call graph:" +:+ nl
  +:+ "    10 Thread_1   DispatchQueue_1" +:+ nl
  +:+ "    + 7 p256_point_mul  (in sarm) + 8  [0x104000048]" +:+ nl
  +:+ "    + ! 3 .Lpmul_loop  (in sarm) + 4  [0x104000084]" +:+ nl
  +:+ "    + 2 skip_argv  (in sarm) + 16  [0x104000110]" +:+ nl
  +:+ "Total number in stack (recursive counted multiple, when >=5):" +:+ nl
  +:+ "    99 ignored  (in sarm) + 16  [0x104000110]".
(** The branch label inside [p256_point_mul] is charged to it. *)
Definition demo_forest : list frame :=
  [Frame 10 "Thread_1   DispatchQueue_1"
     [Frame 7 "p256_point_mul" [Frame 3 "p256_point_mul" []]; Frame 2 "_main" []]].
Definition demo_tables : tables := Eval vm_compute in tally [] (print_forest 2 demo_forest) ([], []).
Definition demo_report : Report := Eval vm_compute in
  match report 30 10 demo_tables with Ret r => r | Raise _ => mkReport 0 0 0 [] [] [] [] [] [] end.

Lemma profile_conserved_witness :
  value (r_inclusive demo_report) "p256_point_mul" = 7
  /\ (r_samples demo_report = sum_map frame_count demo_forest
      /\ (forall k, value (r_self demo_report) k = sum_map (self_of k) demo_forest
           /\ value (r_inclusive demo_report) k = sum_map (incl_of k) demo_forest
           /\ value (r_self demo_report) k <= value (r_inclusive demo_report) k <= r_samples demo_report)
      /\ sum_counts (r_groups demo_report) = r_busy demo_report).
Proof.
  split; [vm_compute; reflexivity|].
  apply (profile_conserved demo_sample (resolve demo_syms) demo_forest 10 demo_tables 30 demo_report).
  - vm_compute. reflexivity.
  - repeat constructor; cbn; lia.
  - vm_compute. reflexivity.
  - vm_compute. reflexivity.
Defined.

Example calls_demo : fmap (fun x => x.1.2) (count_calls "pageload" 1
  ("1: name = 'sha256', locations = 1, resolved = 1, hit count = 7" +:+ nl
   +:+ "  1.1: where = sarm`sha256, hit count = 7" +:+ nl +:+ "2: name = 'x25519', locations = 1, hit count = 0"))
  = Ret ["x25519"].
Proof. vm_compute. reflexivity. Qed.

(** A run in which every sample is idle ends in a division by zero: the
    thread's own row is in the inclusive table, and there are no busy samples. *)
Lemma idle_run_crashes :
  report 30 10 (tally [] (print_forest 2 [Frame 10 "Thread_1" [Frame 10 "skip_argv" []]]) ([], [])) = Raise ZeroDivisionError.
Proof. vm_compute. reflexivity. Qed.
