(* ===== verification/RegexText.v ===== *)
(** * Texts and matches

    Runs of the matching relation over a literal text: what a repeated
    character class consumes, and the two directions for the pattern of a
    label definition. *)

From Stdlib Require Import Ascii.
From S2P Require Import Prelude PyStr Regex.

Fixpoint srev (s : string) (l : list ascii) : list ascii :=
  match s with "" => l | String c s => srev s (c :: l) end.

(** The state after [a]. *)
Definition past (a b : string) (s : st) : st :=
  mkst (srev a (st_before s)) b (st_pos s + String.length a) (st_caps s).

Lemma past_nil s : past "" (st_rest s) s = s.
Proof. destruct s. unfold past. cbn. by rewrite Nat.add_0_r. Qed.

Lemma past_cons c a b s :
  past (String c a) b s = past a b (mkst (c :: st_before s) (a +:+ b) (S (st_pos s)) (st_caps s)).
Proof. unfold past. cbn. f_equal. lia. Qed.

Definition one (f : ascii -> bool) (s s' : st) : Prop := exists c, advance s = Some (c, s') /\ f c = true.

Lemma advance_cons s c s' : advance s = Some (c, s') ->
  st_rest s = String c (st_rest s') /\ s' = mkst (c :: st_before s) (st_rest s') (S (st_pos s)) (st_caps s).
Proof. destruct s as [b r p k]. unfold advance. cbn. destruct r; [done|]. by intros [= <- <-]. Qed.

Lemma iterate_take f s s' : iterate (one f) s s' ->
  exists a, st_rest s = a +:+ st_rest s' /\ sforall f a = true /\ s' = past a (st_rest s') s.
Proof.
  induction 1 as [s|s t u (c & Hc & Hf) _ _ (a & Ha & Hfa & Hu)].
  - exists "". split_and!; [done..|]. by rewrite past_nil.
  - apply advance_cons in Hc as [Hr Ht]. exists (String c a). split_and!.
    + by rewrite Hr, Ha.
    + cbn [sforall]. by rewrite Hf.
    + rewrite past_cons, <- Ha, <- Ht. exact Hu.
Qed.

Lemma iterate_run f a b s : st_rest s = a +:+ b -> sforall f a = true -> iterate (one f) s (past a b s).
Proof.
  revert s. induction a as [|c a IH]; intros s Hr Hf.
  - change (st_rest s = b) in Hr. rewrite <- Hr, past_nil. apply iter_done.
  - cbn [sforall] in Hf. apply andb_true_iff in Hf as [Hc Hf]. destruct s as [l r p k]. cbn in Hr. subst r.
    rewrite past_cons. cbn [st_before st_pos st_caps].
    apply (iter_step _ _ (mkst (c :: l) (a +:+ b) (S p) k)); [by exists c|cbn; lia|]. by apply IH.
Qed.

Lemma slice_app a b c : slice (String.length a) (String.length a + String.length b) (a +:+ b +:+ c) = b.
Proof.
  unfold slice. replace (String.length a + String.length b - String.length a)%nat with (String.length b) by lia.
  induction a as [|x a IH]; [|exact IH]. cbn [drop_str String.length].
  change ("" +:+ b +:+ c) with (b +:+ c).
  induction b as [|x b IH]; [by destruct c|]. rewrite string_app_cons. cbn [take_str String.length]. by rewrite IH.
Qed.

(** ** A name, a colon, and the rest of one line *)

Section label.
Context (first rest_of : list citem).
Abbreviation is_first := (set_match false false first).
Abbreviation is_rest := (set_match false false rest_of).

Definition label_re : re :=
  RSeq (RSeq (RSeq (RSeq (RBol false)
    (RGroup 1 (RSeq (RSet false false first) (RStar true (RSet false false rest_of)))))
    (RSet false false [CRange 58 58])) (RGroup 2 (RStar true (RAny false)))) (REol false).

(** A text that is a name, a colon and more. *)
Record label_text (s : string) (c : ascii) (n r : string) : Prop := {
  lt_eq : s = String c n +:+ ":" +:+ r;
  lt_first : is_first c = true;
  lt_rest : sforall is_rest n = true
}.

Lemma colon_char c : set_match false false [CRange 58 58] c = true -> c = ":"%char.
Proof.
  unfold set_match, in_range. cbn. rewrite !orb_false_r. intros [H1%N.leb_le H2%N.leb_le]%andb_true_iff.
  rewrite <- (ascii_N_embedding c). fold (code c). by replace (code c) with 58%N by lia.
Qed.

Lemma label_sound s x : no_nl s = true -> re_match label_re s = Some x ->
  exists c n r, label_text s c n r /\ group x 1 = String c n /\ group x 2 = r.
Proof.
  intros Hnl (s' & H & ->)%re_match_inv. cbn [label_re rmatch] in H.
  destruct H as (t1 & (t2 & (t3 & (t4 & [_ ->] & (t5 & (t6 & (c & Hc & Hfc) & Hn) & ->)) & (d & Hd & Hcol)) & (t7 & Hr & ->))
    & (Heol & ->)).
  apply colon_char in Hcol as ->. apply advance_cons in Hc as [Er6 Et6].
  apply iterate_take in Hn as (n & En & Hfn & Et5). apply advance_cons in Hd as [Er3 Et3]. cbn [st_rest] in Er3.
  apply iterate_take in Hr as (r & Er & Hfr & Et7).
  cbn [st_start st_rest] in Er6.
  assert (s = String c n +:+ ":" +:+ r +:+ st_rest t7) as Es.
  { rewrite Er6, En, Er3, Er. done. }
  assert (st_rest t7 = "") as E7.
  { unfold at_eol in Heol. cbn [st_rest] in Heol. destruct (st_rest t7) as [|e u] eqn:E; [done|].
    exfalso. assert (Ascii.eqb e NL = true) as He.
    { revert Heol. by destruct (Ascii.eqb e NL). }
    rewrite Es in Hnl. clear -Hnl He. unfold no_nl in Hnl.
    assert (forall a b, sforall (fun c => negb (Ascii.eqb c NL)) (a +:+ b) = true ->
              sforall (fun c => negb (Ascii.eqb c NL)) b = true) as H.
    { induction a as [|x a IH]; intros b; [done|]. rewrite string_app_cons. cbn [sforall].
      intros [_ ?]%andb_true_iff. by apply IH. }
    apply H, (H ":"), H in Hnl. cbn [sforall] in Hnl. by rewrite He in Hnl. }
  rewrite E7, string_app_nil_r in Es. exists c, n, r. split; [by split|].
  apply (f_equal st_caps) in Et6 as C6. apply (f_equal st_pos) in Et6 as P6. clear Et6.
  apply (f_equal st_caps) in Et5 as C5. apply (f_equal st_pos) in Et5 as P5. clear Et5.
  apply (f_equal st_caps) in Et3 as C3. apply (f_equal st_pos) in Et3 as P3. clear Et3.
  apply (f_equal st_caps) in Et7 as C7. apply (f_equal st_pos) in Et7 as P7. clear Et7.
  cbn [st_caps st_pos past st_start] in *.
  rewrite C7, C3, C5, C6, P7, P3, P5, P6. clear C7 C3 C5 C6 P7 P3 P5 P6.
  unfold group, group_opt, group_span. cbn [cap_get Nat.eqb m_caps m_str mbind option_bind default from_option id].
  rewrite Es. split.
  - apply (slice_app "" (String c n)).
  - replace (String c n +:+ ":" +:+ r) with ((String c n +:+ ":") +:+ r +:+ "")
      by by rewrite string_app_nil_r, string_app_assoc.
    etransitivity; [|apply (slice_app (String c n +:+ ":") r "")].
    f_equal; rewrite ?string_length_app; cbn [String.length]; lia.
Qed.

Lemma label_run s c n r : label_text s c n r -> no_nl s = true -> is_Some (re_match label_re s).
Proof.
  intros [-> Hc Hn] Hnl. destruct (re_match _ _) as [x|] eqn:E; [done|]. exfalso.
  rewrite re_match_None in E.
  set (s := String c n +:+ ":" +:+ r) in *.
  set (t1 := mkst [c] (n +:+ ":" +:+ r) 1 []).
  set (t2 := past n (":" +:+ r) t1).
  set (t3 := mkst (st_before t2) (st_rest t2) (st_pos t2) ((1%nat, (0%nat, st_pos t2)) :: st_caps t2)).
  set (t4 := mkst (":"%char :: st_before t3) r (S (st_pos t3)) (st_caps t3)).
  set (t5 := past r "" t4).
  set (t6 := mkst (st_before t5) "" (st_pos t5) ((2%nat, (st_pos t4, st_pos t5)) :: st_caps t5)).
  apply (E t6). cbn [label_re rmatch]. exists t6. split; [|done].
  exists t4. split; [|exists t5; split; [|done]].
  - exists t3. split; [|by exists ":"%char].
    exists (st_start s). split; [done|]. exists t2. split; [|done].
    exists t1. split; [by exists c|]. by apply iterate_run.
  - apply (iterate_run (fun c => false || negb (Ascii.eqb c NL))); [by rewrite string_app_nil_r|].
    cbn [orb]. unfold s, no_nl in Hnl. clear -Hnl.
    rewrite string_app_cons in Hnl. cbn [sforall] in Hnl. apply andb_true_iff in Hnl as [_ Hnl].
    induction n as [|d n IH]; [by apply andb_true_iff in Hnl as [_ ?]|].
    rewrite string_app_cons in Hnl. cbn [sforall] in Hnl. by apply andb_true_iff in Hnl as [_ ?%IH].
Qed.

Lemma colon_unique n n' r r' : is_rest ":" = false -> sforall is_rest n = true -> sforall is_rest n' = true ->
  n +:+ ":" +:+ r = n' +:+ ":" +:+ r' -> n = n' /\ r = r'.
Proof.
  intros Hc. revert n'. induction n as [|c n IH]; intros [|d n'].
  - intros _ _ E. split; [done|]. change (String ":" r = String ":" r') in E. congruence.
  - cbn [sforall]. intros _ [Hd _]%andb_true_iff E. change (String ":" r = String d (n' +:+ ":" +:+ r')) in E. congruence.
  - cbn [sforall]. intros [Hd _]%andb_true_iff _ E. change (String c (n +:+ ":" +:+ r) = String ":" r') in E. congruence.
  - cbn [sforall]. intros [_ Hn]%andb_true_iff [_ Hn']%andb_true_iff. rewrite !string_app_cons. intros [= -> H].
    by destruct (IH n' Hn Hn' H) as [-> ->].
Qed.

Lemma label_complete s c n r : is_rest ":" = false -> label_text s c n r -> no_nl s = true ->
  exists x, re_match label_re s = Some x /\ group x 1 = String c n /\ group x 2 = r.
Proof.
  intros Hcol Hs Hnl. destruct (label_run s c n r Hs Hnl) as [x Hx]. exists x. split; [done|].
  destruct (label_sound s x Hnl Hx) as (c' & n' & r' & Hs' & -> & ->).
  destruct Hs as [E Hc Hn], Hs' as [E' Hc' Hn']. rewrite E in E'. rewrite !string_app_cons in E'.
  injection E' as -> E'. by destruct (colon_unique n n' r r' Hcol Hn Hn' E') as [-> ->].
Qed.
End label.
