(* ===== verification/Directives.v ===== *)
(** * Symbol directives (scripts/add_symbol_directives.py)

    The annotator that wraps each exported symbol in FUNC/ENDFUNC or
    OBJECT/ENDOBJ: the extent of a symbol, the plan of a file, the rewritten
    lines, and the two passes over a tree whose files include each other. *)

From Stdlib Require Import Ascii Sorted.
From S2P Require Import Prelude PyInt PyStr Regex RegexText AsmParse Abi.

Definition LABEL_RE : re := Eval vm_compute in rx "^([A-Za-z_][A-Za-z0-9_.]*):(.*)$".
Definition GLOBAL_RE : re := Eval vm_compute in rx "^\s*\.global\s+([A-Za-z_][A-Za-z0-9_.]*)\s*(?://.*)?$".
Definition SECTION_RE : re := Eval vm_compute in rx "^\s*(\.text|\.data|\.bss|rodata|\.section)\b".
Definition ALIGN_RE : re := Eval vm_compute in rx "^\s*\.(align|balign|p2align)\b".
Definition INCLUDE_PATTERN : string :=
  Eval vm_compute in "^\s*#include\s+" +:+ String QUOTE ("([^" +:+ String QUOTE ("]+)" +:+ String QUOTE "")).
Definition INCLUDE_RE : re := Eval vm_compute in rx INCLUDE_PATTERN.
Definition CPP_IF_RE : re := Eval vm_compute in rx "^\s*#\s*(if|ifdef|ifndef|elif|else|endif)\b".
Definition MACRO_DEF_RE : re := Eval vm_compute in rx "^\s*(?:OBJECT|FUNC)\s+([A-Za-z_][A-Za-z0-9_.]*)\s*$".

Definition DATA_SECTIONS : list string := [".data"; ".bss"; "rodata"].
Definition SKIP_FILES : list string :=
  ["src/defs.S"; "src/config.S"; "src/tls/record/_constants.S"; "src/embedded.S"; "src/tls/cert_data.S"].

Definition code (line : string) : string := strip (before "//" line).

(** [text.split("\n")] *)
Definition lines_of (text : string) : list string := split_char NL text.

(** The name and the trailing text of a label. *)
Definition label_of (s : string) : option (string * string) :=
  (fun m => (group m 1, group m 2)) <$> re_match LABEL_RE s.
Definition global_of (line : string) : option string := (fun m => group m 1) <$> re_match GLOBAL_RE line.

(** The state of the section after each line. *)
Fixpoint section_kinds (lines : list string) (in_data : bool) : list bool :=
  match lines with
  | [] => []
  | line :: lines =>
      let in_data := match re_match SECTION_RE (code line) with
                     | Some m => in_table DATA_SECTIONS (group m 1)
                     | None => in_data
                     end in
      in_data :: section_kinds lines in_data
  end.

(** The stack of enclosing conditionals, innermost first: each with its number
    and the branch taken. *)
Definition region : Type := list (nat * nat).

Definition cond_step (s : region * nat) (line : string) : region * nat :=
  let '(stack, seq) := s in
  match re_match CPP_IF_RE line with
  | None => s
  | Some m =>
      let kw := group m 1 in
      if in_table ["if"; "ifdef"; "ifndef"] kw then ((S seq, O) :: stack, S seq)
      else if in_table ["elif"; "else"] kw then
        match stack with (cid, branch) :: rest => ((cid, S branch) :: rest, seq) | [] => s end
      else match stack with _ :: rest => (rest, seq) | [] => s end
  end.
Fixpoint cond_from (lines : list string) (s : region * nat) : list region :=
  s.1 :: match lines with [] => [] | line :: lines => cond_from lines (cond_step s line) end.
Definition cond_regions (lines : list string) : list region := cond_from lines ([], O).

(** ** The extent of a symbol *)

(** Whether a line starts something else, as [body_end] sees it. *)
Definition stops (is_data : bool) (globals : gset string) (line : string) : bool :=
  let stripped := code line in
  if stripped =s? "" then false
  else if matches SECTION_RE stripped || matches GLOBAL_RE line then true
  else if matches MACRO_DEF_RE line then true
  else match label_of stripped with
       | Some (name, _) => is_data || bool_decide (name ∈ globals)
       | None => false
       end.

Fixpoint find_stop (is_data : bool) (globals : gset string) (j : nat) (rest : list string) : nat :=
  match rest with
  | [] => j
  | line :: rest => if stops is_data globals line then j else find_stop is_data globals (S j) rest
  end.

Definition is_padding (line : string) : bool := (strip line =s? "") || matches ALIGN_RE (code line).

Fixpoint trim_blanks (lines : list string) (start k : nat) : nat :=
  match k with
  | O => O
  | S k' => if (S start <? k)%nat && is_padding (lines !!! k') then trim_blanks lines start k' else k
  end.

(** [while stop > start + 1 and enter[stop] != enter[start]: stop -= 1] *)
Fixpoint trim_region (enter : list region) (start stop : nat) : nat :=
  match stop with
  | O => O
  | S k => if (S start <? stop)%nat && negb (bool_decide (enter !!! stop = enter !!! start))
           then trim_region enter start k else stop
  end.

Definition is_comment (line : string) : bool := startswith "//" (strip line).

(** The first line of the comment block that ends before [block]. *)
Fixpoint block_start (lines : list string) (start block : nat) : nat :=
  match block with
  | O => O
  | S k => if (start <? k)%nat && is_comment (lines !!! k) then block_start lines start k else block
  end.

(** The loop over trailing comment blocks; each turn lowers [stop]. *)
Fixpoint trim_comments (fuel : nat) (lines : list string) (start stop : nat) : nat :=
  match fuel with
  | O => stop
  | S fuel =>
      if (S start <? stop)%nat && is_comment (lines !!! (stop - 1)%nat) then
        let block := block_start lines start stop in
        if strip (lines !!! (block - 1)%nat) =s? ""
        then trim_comments fuel lines start (trim_blanks lines start block)
        else stop
      else stop
  end.

Definition body_end (lines : list string) (start : nat) (is_data : bool) (globals : gset string)
  (enter : option (list region)) : nat :=
  let stop := find_stop is_data globals (S start) (drop (S start) lines) in
  let stop := match enter with Some enter => trim_region enter start stop | None => stop end in
  let stop := trim_blanks lines start stop in
  trim_comments stop lines start stop.

(** ** One file *)

Definition indent_of (line : string) : string :=
  take_str (String.length line - String.length (lstrip line)) line.

(** The plan: which lines become openers, which closers go before a line. *)
Record Plan : Type := mkPlan {
  opens : list (nat * (string * string * string));
  closes : list (nat * list string);
  converted : gset string
}.

Definition set_add_list {V} (d : list (nat * list V)) (k : nat) (v : V) : list (nat * list V) :=
  dict_set d k (default [] (dict_get d k) ++ [v]).

Definition plan_line (lines : list string) (is_data_at : list bool) (enter : list region) (globals : gset string)
  (p : Plan) (x : nat * string) : Plan :=
  let '(i, line) := x in
  match label_of (strip line) with
  | None => p
  | Some (name, rest) =>
      if bool_decide (name ∉ globals) || bool_decide (name ∈ converted p) then p else
      let is_data := is_data_at !!! i in
      let end_ := body_end lines i is_data globals (Some enter) in
      if (end_ <=? S i)%nat && (code rest =s? "") then p else
      mkPlan (dict_set (opens p) i (if is_data then "OBJECT" else "FUNC", name, rest))
        (set_add_list (closes p) end_ (indent_of line +:+ (if is_data then "ENDOBJ" else "ENDFUNC") +:+ " " +:+ name))
        ({[name]} ∪ converted p)
  end.

Definition plan (lines : list string) (globals : gset string) (in_data : bool) : Plan :=
  for_each (enumerate 0 lines) (mkPlan [] [] ∅)
    (plan_line lines (section_kinds lines in_data) (cond_regions lines) globals).

(** The lines written for line [i]. *)
Definition rewrite_line (p : Plan) (also_strip : gset string) (x : nat * string) : list string :=
  let '(i, line) := x in
  match dict_get (opens p) i with
  | Some (macro, name, rest) =>
      let indent := indent_of line in
      (indent +:+ macro +:+ " " +:+ name)
      :: if strip rest =s? "" then []
         else [spaces (String.length indent + String.length name + 1) +:+ rest]
  | None =>
      match global_of line with
      | Some g => if bool_decide (g ∈ converted p) || bool_decide (g ∈ also_strip) then [] else [line]
      | None => [line]
      end
  end.
Definition closes_at (p : Plan) (i : nat) : list string := default [] (dict_get (closes p) i).
Definition rewrite_lines (p : Plan) (also_strip : gset string) (lines : list string) : list string :=
  for_each (enumerate 0 lines) [] (fun out x => out ++ closes_at p x.1 ++ rewrite_line p also_strip x)
  ++ closes_at p (length lines).

Definition globals_in (lines : list string) : gset string := list_to_set (omap global_of lines).

Definition process (text : string) (extra_globals : gset string) (in_data : bool) (also_strip : gset string)
  : string * list string :=
  let lines := lines_of text in
  let globals := globals_in lines ∪ extra_globals in
  if bool_decide (globals = ∅) then (text, []) else
  let p := plan lines globals in_data in
  if bool_decide (converted p = ∅) && bool_decide (also_strip ∩ globals = ∅) then (text, []) else
  (join nl (rewrite_lines p also_strip lines), sorted_set (converted p)).

(** ** The tree

    [target p inc] is the file an [#include] of [inc] in the file [p] names. *)

Section tree.
Context (target : string -> string -> string).

Record Includes : Type := mkIncludes {
  extra : list (string * gset string);
  data_at : list (string * bool);
  includes : list (string * list string)
}.

Definition include_line (paths : list string) (path : string) (own : gset string) (c : Includes)
  (x : bool * string) : Includes :=
  let '(kind, line) := x in
  match re_match INCLUDE_RE line with
  | None => c
  | Some m =>
      let t := target path (group m 1) in
      if bool_decide (t ∉ paths) || (t =s? path) then c else
      mkIncludes (dict_set (extra c) t (default ∅ (dict_get (extra c) t) ∪ own))
        (dict_set (data_at c) t kind)
        (dict_set (includes c) path (set_add (default [] (dict_get (includes c) path)) t))
  end.

Definition include_context (files : list (string * string)) : Includes :=
  for_each files (mkIncludes [] [] []) (fun c '(path, text) =>
    let lines := lines_of text in
    for_each (zip (section_kinds lines false) lines) c (include_line files.*1 path (globals_in lines))).

(** [main]: the files with their results, then what is reported and written. *)
Definition annotated : Type := list (string * (string * list string)).

Definition first_pass (c : Includes) (files : list (string * string)) : annotated :=
  for_each files [] (fun results '(path, text) =>
    match dict_get (extra c) path with
    | None => results
    | Some e => dict_set results path (process text e (default false (dict_get (data_at c) path)) ∅)
    end).

Definition converted_in (results : annotated) (path : string) : gset string :=
  list_to_set (match dict_get results path with Some (_, names) => names | None => [] end).

Definition second_pass (c : Includes) (files : list (string * string)) (results : annotated) : annotated :=
  for_each files results (fun results '(path, text) =>
    match dict_get results path with
    | Some _ => results
    | None =>
        let strip := for_each (default [] (dict_get (includes c) path)) ∅ (fun s t => s ∪ converted_in results t) in
        dict_set results path (process text ∅ false strip)
    end).

Definition annotate_files (files : list (string * string)) : annotated :=
  let c := include_context files in second_pass c files (first_pass c files).

(** The files changed, with their new text and number of symbols. *)
Definition changed_files (files : list (string * string)) : list (string * string * nat) :=
  let results := annotate_files files in
  files ≫= fun '(path, text) =>
    match dict_get results path with
    | Some (new, names) => if new =s? text then [] else [(path, new, length names)]
    | None => []
    end.

Definition annotate_main (check : bool) (found : list (string * string)) : list (string * string) * string :=
  let files := List.filter (fun '(path, _) => negb (in_table SKIP_FILES path)) found in
  let changed := changed_files files in
  let total := for_each changed O (fun n '(_, _, k) => n + k)%nat in
  (if check then [] else fst <$> changed,
   (if check then "would annotate" else "annotated") +:+ " " +:+ str_nat total +:+ " symbol(s) across "
   +:+ str_nat (length changed) +:+ " file(s)").
End tree.

(** ** First characters

    The tests of the scan only look at the first character of a line that is
    not a space. *)

Definition first_char (s : string) : option ascii := head_char (lstrip s).

Lemma first_strip s : first_char s = head_char (strip s).
Proof.
  unfold first_char. destruct (lstrip s) as [|c t] eqn:E.
  - change (None = head_char (rstrip_by is_space (lstrip s))). by rewrite E.
  - by destruct (strip_head s c t E) as [u ->].
Qed.

(** A pattern that allows spaces and then asks for a character. *)
Definition SPACES : re := RSeq (RBol false) (RStar true (RSet false false [CSpace false])).
Definition starts_with_char (c : ascii) (r : re) : Prop :=
  forall s s', rmatch r s s' -> exists t, rmatch (RSeq SPACES (lit no_flags c)) s t.

Lemma starts_lit c : starts_with_char c (RSeq SPACES (lit no_flags c)).
Proof. intros s s' H. eauto. Qed.
Lemma starts_seq c r1 r2 : starts_with_char c r1 -> starts_with_char c (RSeq r1 r2).
Proof. intros H s s' (t & Ht & _). destruct (H s t Ht) as (u & Hu). eauto. Qed.

Lemma set_char c d : set_match false false [CRange (PyStr.code c) (PyStr.code c)] d = true -> d = c.
Proof.
  unfold set_match, in_range. cbn. rewrite !orb_false_r. intros [H1%N.leb_le H2%N.leb_le]%andb_true_iff.
  rewrite <- (ascii_N_embedding c), <- (ascii_N_embedding d). unfold PyStr.code in *. f_equal. lia.
Qed.

Lemma set_space c : set_match false false [CSpace false] c = is_space c.
Proof. unfold set_match. cbn. by destruct (is_space c). Qed.

Lemma match_first c r s x : starts_with_char c r -> is_space c = false -> re_match r s = Some x -> first_char s = Some c.
Proof.
  intros Hr Hc (s' & H & _)%re_match_inv. destruct (Hr _ _ H) as (t & u & (u0 & [_ ->] & Hi) & d & Hd & Hset).
  cbn [rmatch] in Hi. apply iterate_take in Hi as (a & E & Ha & _). cbn [st_start st_rest] in E.
  rewrite (sforall_ext _ is_space) in Ha by apply set_space.
  apply set_char in Hset as ->. apply advance_cons in Hd as [Er _].
  unfold first_char. rewrite E, lstrip_spaces, Er by done. unfold lstrip. cbn [lstrip_by]. by rewrite Hc.
Qed.

Lemma cpp_first s x : re_match CPP_IF_RE s = Some x -> first_char s = Some "#"%char.
Proof. apply match_first; [|done]. unfold CPP_IF_RE. repeat (apply starts_lit || apply starts_seq). Qed.
Lemma align_first s x : re_match ALIGN_RE s = Some x -> first_char s = Some "."%char.
Proof. apply match_first; [|done]. unfold ALIGN_RE. repeat (apply starts_lit || apply starts_seq). Qed.

Lemma no_nl_strip s : no_nl s = true -> no_nl (strip s) = true.
Proof.
  unfold no_nl. destruct (lstrip_split s) as (a & E & _). intros H. rewrite E, sforall_app in H.
  apply andb_true_iff in H as [_ H]. change (strip s) with (rstrip_by is_space (lstrip s)).
  destruct (rstrip_split is_space (lstrip s)) as [w Ew]. rewrite Ew, sforall_app in H. by apply andb_true_iff in H as [? _].
Qed.

Lemma no_nl_code s : no_nl s = true -> no_nl (code s) = true.
Proof.
  intros H. apply no_nl_strip. destruct (before_prefix s) as [t E]. unfold no_nl in *. rewrite E, sforall_app in H.
  by apply andb_true_iff in H as [? _].
Qed.

Lemma spaces_no_slash a : sforall is_space a = true -> sforall (fun c => negb (Ascii.eqb c "/")) a = true.
Proof.
  induction a as [|c a IH]; [done|]. cbn [sforall]. intros [Hc Ha]%andb_true_iff. rewrite IH, andb_true_r by done.
  apply negb_true_iff. destruct (Ascii.eqb_spec c "/") as [->|]; done.
Qed.

Lemma first_split s c : first_char s = Some c ->
  exists a u, s = a +:+ String c u /\ sforall is_space a = true /\ is_space c = false.
Proof.
  unfold first_char. destruct (lstrip_split s) as (a & E & Ha). destruct (lstrip s) as [|d u] eqn:El; [done|].
  intros [= ->]. exists a, u. split_and!; [done..|]. by apply (lstrip_by_head is_space s c u).
Qed.
Lemma first_app a c u : sforall is_space a = true -> is_space c = false -> first_char (a +:+ String c u) = Some c.
Proof. intros Ha Hc. unfold first_char. rewrite lstrip_spaces by done. unfold lstrip. cbn [lstrip_by]. by rewrite Hc. Qed.

Lemma first_strip_idem s : first_char (strip s) = first_char s.
Proof. by rewrite !first_strip, strip_idem. Qed.

Lemma code_first s c : first_char s = Some c -> c <> "/"%char -> first_char (code s) = Some c.
Proof.
  intros (a & u & -> & Ha & Hc)%first_split Hs. unfold code.
  rewrite first_strip_idem, before_app by by apply spaces_no_slash. rewrite before_cons by done. by apply first_app.
Qed.

(** *** Labels *)

Definition NAME_FIRST : list citem := [CRange 65 90; CRange 97 122; CRange 95 95].
Definition NAME_REST : list citem := [CRange 65 90; CRange 97 122; CRange 48 57; CRange 95 95; CRange 46 46].

Lemma label_re_eq : LABEL_RE = label_re NAME_FIRST NAME_REST.
Proof. reflexivity. Qed.

Lemma label_of_text s n r : no_nl s = true -> label_of s = Some (n, r) ->
  exists c n', n = String c n' /\ label_text NAME_FIRST NAME_REST s c n' r.
Proof.
  unfold label_of. rewrite label_re_eq. intros Hs H. apply fmap_Some in H as (x & Hx & [= -> ->]).
  destruct (label_sound _ _ s x Hs Hx) as (c & n' & r' & Ht & -> & ->). eauto.
Qed.

Lemma text_label_of s c n r : no_nl s = true -> label_text NAME_FIRST NAME_REST s c n r -> label_of s = Some (String c n, r).
Proof.
  intros Hs Ht. unfold label_of. rewrite label_re_eq.
  destruct (label_complete NAME_FIRST NAME_REST s c n r eq_refl Ht Hs) as (x & -> & H1 & H2). change (Some (group x 1, group x 2) = Some (String c n, r)). by rewrite H1, H2.
Qed.

Lemma name_no_slash n : sforall (set_match false false NAME_REST) n = true -> sforall (fun c => negb (Ascii.eqb c "/")) n = true.
Proof.
  induction n as [|c n IH]; [done|]. cbn [sforall]. intros [Hc Hn]%andb_true_iff. rewrite IH, andb_true_r by done.
  apply negb_true_iff. destruct (Ascii.eqb_spec c "/") as [->|]; done.
Qed.

(** A label is still there when the comment of its line is cut off. *)
Lemma label_code s n r : no_nl s = true -> label_of (strip s) = Some (n, r) -> exists r', label_of (code s) = Some (n, r').
Proof.
  intros Hnl Hl. destruct (label_of_text _ _ _ (no_nl_strip s Hnl) Hl) as (c & n' & -> & [E Hc Hn]).
  assert (is_space c = false /\ c <> "/"%char) as [Hsp Hsl].
  { split; [|by intros ->]. destruct (is_space c) eqn:Es; [|done]. exfalso.
    assert (first_char (strip s) = Some c) as Hf by (rewrite first_strip, strip_idem, E; done).
    apply first_split in Hf as (? & ? & _ & _ & ?). congruence. }
  destruct (lstrip_split s) as (a & Ea & Ha).
  destruct (rstrip_split is_space (lstrip s)) as [w Ew]. change (rstrip_by is_space (lstrip s)) with (strip s) in Ew.
  exists (rstrip_by is_space (before "//" (r +:+ w))). apply text_label_of; [by apply no_nl_code|].
  split; [|done..].
  assert (s = a +:+ String c n' +:+ ":" +:+ r +:+ w) as Es.
  { rewrite Ea at 1. by rewrite Ew, E, !string_app_assoc. }
  unfold code. rewrite Es, before_app by by apply spaces_no_slash.
  rewrite string_app_cons, before_cons by done. rewrite before_app by by apply name_no_slash.
  change (":" +:+ r +:+ w) with (String ":" (r +:+ w)). rewrite before_cons by done.
  change (rstrip_by is_space (lstrip (a +:+ String c (n' +:+ String ":" (before "//" (r +:+ w)))))
          = String c (n' +:+ String ":" (rstrip_by is_space (before "//" (r +:+ w))))).
  rewrite lstrip_spaces by done. unfold lstrip. cbn [lstrip_by]. rewrite Hsp.
  by rewrite <- (string_app_cons c n'), rstrip_app.
Qed.

Lemma label_stops s n r is_data globals : no_nl s = true -> label_of (strip s) = Some (n, r) -> n ∈ globals ->
  stops is_data globals s = true.
Proof.
  intros Hnl Hl Hn. destruct (label_code s n r Hnl Hl) as [r' Hc]. unfold stops.
  destruct (code s =s? "") eqn:E0; [apply seqb_true in E0; by rewrite E0 in Hc|].
  destruct (_ || _); [done|]. destruct (matches MACRO_DEF_RE s); [done|].
  rewrite Hc. by rewrite bool_decide_true, orb_true_r.
Qed.

Lemma label_first s n r : no_nl s = true -> label_of (strip s) = Some (n, r) -> first_char s <> Some "#"%char.
Proof.
  intros Hnl Hl. destruct (label_of_text _ _ _ (no_nl_strip s Hnl) Hl) as (c & n' & -> & [E Hc _]).
  rewrite first_strip, E. intros [= ->]. done.
Qed.

(** ** The extent *)

Section extent.
Context (lines : list string).
Abbreviation enter := (cond_regions lines).

Lemma cond_from_lookup s i : (i <= length lines)%nat ->
  cond_from lines s !!! i = (for_each (take i lines) s cond_step).1.
Proof.
  revert s i. induction lines as [|l ls IH]; intros s i Hi; cbn [length] in Hi.
  - by assert (i = 0%nat) as -> by lia.
  - destruct i as [|i]; [done|]. cbn [cond_from take]. change ((?x :: ?y) !!! S i) with (y !!! i).
    rewrite IH by lia. done.
Qed.

Lemma same_region i : (i < length lines)%nat -> first_char (lines !!! i) <> Some "#"%char -> enter !!! S i = enter !!! i.
Proof.
  intros Hi Hf. unfold cond_regions. rewrite !cond_from_lookup by lia.
  rewrite (take_S_r lines i (lines !!! i)) by (by apply list_lookup_lookup_total_lt).
  rewrite for_each_app. cbn [for_each foldl]. unfold cond_step at 1. destruct (for_each _ _ _) as [stack seq].
  destruct (re_match CPP_IF_RE (lines !!! i)) as [x|] eqn:E; [|done]. by apply cpp_first in E.
Qed.

Lemma padding_first line : is_padding line = true -> first_char line <> Some "#"%char.
Proof.
  unfold is_padding. intros [H|H]%orb_true_iff Hf.
  - apply seqb_true in H. by rewrite first_strip, H in Hf.
  - unfold matches in H. apply bool_decide_eq_true in H as [x H]. apply align_first in H.
    by rewrite (code_first _ "#"%char Hf) in H.
Qed.

Lemma comment_first line : is_comment line = true -> first_char line <> Some "#"%char.
Proof.
  unfold is_comment. intros [t H]%startswith_spec. rewrite first_strip, H. done.
Qed.

(** Where a trimming loop may put the end: after the label, not later than
    before, and under the same conditionals. *)
Definition trims (start k r : nat) : Prop := (S start <= r <= k)%nat /\ enter !!! r = enter !!! k.

Lemma trims_trans start k r q : trims start k r -> trims start r q -> trims start k q.
Proof. intros [? E] [? E']. split; [lia|]. by rewrite E'. Qed.

Lemma trim_blanks_spec start k : (S start <= k <= length lines)%nat -> trims start k (trim_blanks lines start k).
Proof.
  induction k as [|k IH]; intros Hk; [lia|]. cbn [trim_blanks].
  destruct (Nat.ltb_spec (S start) (S k)); cbn [andb]; [|by split; [lia|]].
  destruct (is_padding (lines !!! k)) eqn:E; [|by split; [lia|]].
  destruct IH as [? Er]; [lia|]. split; [lia|]. rewrite Er. symmetry.
  apply same_region; [lia|by apply padding_first].
Qed.

Lemma block_start_spec start k : (S start <= k <= length lines)%nat -> trims start k (block_start lines start k).
Proof.
  induction k as [|k IH]; intros Hk; [lia|]. cbn [block_start].
  destruct (Nat.ltb_spec start k); cbn [andb]; [|by split; [lia|]].
  destruct (is_comment (lines !!! k)) eqn:E; [|by split; [lia|]].
  destruct IH as [? Er]; [lia|]. split; [lia|]. rewrite Er. symmetry.
  apply same_region; [lia|by apply comment_first].
Qed.

Lemma block_start_lower start k : (S start < k)%nat -> is_comment (lines !!! (k - 1)%nat) = true ->
  (block_start lines start k < k)%nat.
Proof.
  destruct k as [|k]; [lia|]. intros Hk Hc. replace (S k - 1)%nat with k in Hc by lia. cbn [block_start].
  rewrite Hc. destruct (Nat.ltb_spec start k); [|lia]. cbn [andb].
  assert (forall j, (block_start lines start j <= j)%nat) as Hle.
  { induction j as [|j IH]; [done|]. cbn [block_start]. destruct (_ && _); lia. }
  specialize (Hle k). lia.
Qed.

Lemma trim_comments_spec start fuel k : (S start <= k <= length lines)%nat ->
  trims start k (trim_comments fuel lines start k).
Proof.
  revert k. induction fuel as [|fuel IH]; intros k Hk; cbn [trim_comments]; [by split; [lia|]|].
  destruct (Nat.ltb_spec (S start) k); cbn [andb]; [|by split; [lia|]].
  destruct (is_comment _); [|by split; [lia|]]. destruct (strip _ =s? ""); [|by split; [lia|]].
  destruct (block_start_spec start k Hk) as [Hb Eb].
  apply (trims_trans start k (block_start lines start k)); [by split|].
  pose proof (trim_blanks_spec start (block_start lines start k) ltac:(lia)) as Ht.
  eapply trims_trans; [exact Ht|]. apply IH. destruct Ht; lia.
Qed.

(** More turns change nothing: [stop] of them are enough. *)
Lemma trim_comments_fuel start fuel fuel' k : (S start <= k <= length lines)%nat -> (k <= fuel <= fuel')%nat ->
  trim_comments fuel lines start k = trim_comments fuel' lines start k.
Proof.
  revert fuel' k. induction fuel as [|fuel IH]; intros fuel' k Hk Hf; [lia|].
  destruct fuel' as [|fuel']; [lia|]. cbn [trim_comments].
  destruct (Nat.ltb_spec (S start) k) as [Hlt|]; [|done]. cbn [andb].
  destruct (is_comment _) eqn:Ec; [|done]. destruct (strip _ =s? ""); [|done].
  pose proof (block_start_lower start k Hlt Ec). destruct (block_start_spec start k Hk) as [Hb _].
  destruct (trim_blanks_spec start (block_start lines start k)) as [? _]; [lia|]. apply IH; lia.
Qed.

Lemma trim_region_spec start k : (S start <= k)%nat -> enter !!! S start = enter !!! start ->
  (S start <= trim_region enter start k <= k)%nat /\ enter !!! trim_region enter start k = enter !!! start.
Proof.
  intros Hk He. induction k as [|k IH]; [lia|]. cbn [trim_region].
  destruct (Nat.ltb_spec (S start) (S k)) as [Hlt|Hge]; cbn [andb].
  - case_bool_decide as Heq; cbn [negb]; [by split; [lia|]|]. destruct IH; [lia|]. split; [lia|done].
  - assert (k = start) as -> by lia. by split; [lia|].
Qed.

Lemma find_stop_spec is_data globals j : (j <= length lines)%nat ->
  let r := find_stop is_data globals j (drop j lines) in
  (j <= r <= length lines)%nat /\ forall i, (j <= i < r)%nat -> stops is_data globals (lines !!! i) = false.
Proof.
  intros Hj. remember (length lines - j)%nat as n eqn:En. revert j Hj En.
  induction n as [|n IH]; intros j Hj En; cbv zeta.
  - rewrite drop_ge by lia. cbn [find_stop]. split; [lia|]. intros i Hi. lia.
  - rewrite (drop_S lines (lines !!! j) j) by (apply list_lookup_lookup_total_lt; lia). cbn [find_stop].
    destruct (stops is_data globals (lines !!! j)) eqn:E; [split; [lia|]; intros i Hi; lia|].
    destruct (IH (S j)) as [Hr Hi]; [lia..|]. split; [lia|]. intros i Hi'.
    destruct (decide (i = j)) as [->|]; [done|]. apply Hi. lia.
Qed.

Lemma body_end_spec start is_data globals : (start < length lines)%nat -> first_char (lines !!! start) <> Some "#"%char ->
  let e := body_end lines start is_data globals (Some enter) in
  (start < e <= length lines)%nat /\ enter !!! e = enter !!! start
  /\ forall i, (start < i < e)%nat -> stops is_data globals (lines !!! i) = false.
Proof.
  intros Hs Hf. unfold body_end. cbv zeta.
  pose proof (find_stop_spec is_data globals (S start) ltac:(lia)) as Hfs. cbv zeta in Hfs. destruct Hfs as [Hr Hi].
  set (s1 := find_stop _ _ _ _) in *.
  destruct (trim_region_spec start s1) as [Hr2 He2]; [lia|by apply same_region|]. set (s2 := trim_region _ _ _) in *.
  destruct (trim_blanks_spec start s2) as [Hr3 He3]; [lia|]. set (s3 := trim_blanks _ _ _) in *.
  destruct (trim_comments_spec start s3 s3) as [Hr4 He4]; [lia|].
  split_and!; [lia|lia| |].
  - by rewrite He4, He3.
  - intros i Hi'. apply Hi. lia.
Qed.
End extent.

(** ** The plan of a file: disjoint extents *)

Record extent : Type := mkExtent { x_open : nat; x_end : nat; x_name : string; x_rest : string; x_data : bool }.

Definition opener (x : extent) : nat * (string * string * string) :=
  (x_open x, (if x_data x then "OBJECT" else "FUNC", x_name x, x_rest x)).
Definition close_line (line : string) (x : extent) : string :=
  indent_of line +:+ (if x_data x then "ENDOBJ" else "ENDFUNC") +:+ " " +:+ x_name x.
Definition closer (lines : list string) (x : extent) : nat * list string :=
  (x_end x, [close_line (lines !!! x_open x) x]).

(** The extents come one after the other from [lo] on. *)
Fixpoint ordered (lo : nat) (E : list extent) : Prop :=
  match E with
  | [] => True
  | x :: E => (lo <= x_open x)%nat /\ (x_open x < x_end x)%nat /\ ordered (x_end x) E
  end.

Lemma ordered_snoc lo E x : ordered lo E -> (lo <= x_open x)%nat -> Forall (fun y => (x_end y <= x_open x)%nat) E ->
  (x_open x < x_end x)%nat -> ordered lo (E ++ [x]).
Proof.
  revert lo. induction E as [|y E IH]; intros lo HE Hlo Hx Hlt; cbn [app ordered] in *; [done|].
  apply list.Forall_cons in Hx as [Hy Hx]. destruct HE as (? & ? & HE). split_and!; [done..|]. by apply IH.
Qed.

Section planned.
Context (lines : list string) (globals : gset string) (in_data : bool).

(** What an extent is. *)
Record good (x : extent) : Prop := {
  g_range : (x_open x < x_end x <= length lines)%nat;
  g_label : label_of (strip (lines !!! x_open x)) = Some (x_name x, x_rest x);
  g_global : x_name x ∈ globals;
  g_data : x_data x = section_kinds lines in_data !!! x_open x;
  g_region : cond_regions lines !!! x_end x = cond_regions lines !!! x_open x;
  g_body : forall i, (x_open x < i < x_end x)%nat -> stops (x_data x) globals (lines !!! i) = false;
  g_full : (S (x_open x) < x_end x)%nat \/ code (x_rest x) <> ""
}.

Record planned (k : nat) (p : Plan) (E : list extent) : Prop := {
  p_opens : opens p = opener <$> E;
  p_closes : closes p = closer lines <$> E;
  p_names : forall n, n ∈ converted p <-> n ∈ x_name <$> E;
  p_nodup : base.NoDup (x_name <$> E);
  p_ordered : ordered 0 E;
  p_before : Forall (fun x => (x_open x < k)%nat) E;
  p_good : Forall good E
}.

Lemma planned_weaken k k' p E : (k <= k')%nat -> planned k p E -> planned k' p E.
Proof. intros Hk [? ? ? ? ? Hb ?]. split; try done. apply (list.Forall_impl _ _ _ Hb). intros x ?. lia. Qed.

Lemma plan_line_spec k line p E : no_nl line = true -> lines !! k = Some line -> planned k p E ->
  exists E', planned (S k) (plan_line lines (section_kinds lines in_data) (cond_regions lines) globals p (k, line)) E'.
Proof.
  intros Hnl Hk HE. pose proof (lookup_lt_Some _ _ _ Hk) as Hlen. pose proof (list_lookup_total_correct _ _ _ Hk) as Hline.
  assert (exists E', planned (S k) p E') as Hskip by (exists E; by apply (planned_weaken k); [lia|]).
  unfold plan_line. destruct (label_of (strip line)) as [[name rest]|] eqn:El; [|done].
  destruct (bool_decide (name ∉ globals) || bool_decide (name ∈ converted p)) eqn:Eb; [done|].
  apply orb_false_iff in Eb as [Hg Hc]. apply bool_decide_eq_false in Hg, Hc. apply dec_stable in Hg.
  set (d := section_kinds lines in_data !!! k).
  set (e := body_end lines k d globals (Some (cond_regions lines))).
  destruct ((e <=? S k)%nat && (code rest =s? "")) eqn:Ee; [done|].
  pose proof (body_end_spec lines k d globals Hlen) as Hbe. rewrite Hline in Hbe. cbv zeta in Hbe.
  destruct Hbe as (Hr & He & Hi); [by eapply label_first|]. fold e in Hr, He, Hi.
  set (x := mkExtent k e name rest d). exists (E ++ [x]).
  destruct HE as [Ho Hcl Hn Hnd Hord Hbef Hgood].
  assert (Forall (fun y => (x_end y <= k)%nat) E) as Hends.
  { rewrite list.Forall_forall in *. intros y Hy. destruct (Hgood y Hy) as [_ _ _ _ _ Hbody _].
    apply Nat.nlt_ge. intros Hlt. specialize (Hbody k). rewrite Hline in Hbody.
    rewrite (label_stops line name rest) in Hbody by done. specialize (Hbef y Hy). by discriminate Hbody. }
  split; cbn [opens closes converted].
  - rewrite dict_set_fresh, Ho, fmap_app; [done|]. rewrite Ho. unfold dict_keys. rewrite <- list_fmap_compose.
    intros (y & -> & Hy)%list_elem_of_fmap. rewrite list.Forall_forall in Hbef. specialize (Hbef y Hy). cbn in Hbef. lia.
  - assert (e ∉ dict_keys (closes p)) as Hfresh.
    { rewrite Hcl. unfold dict_keys. rewrite <- list_fmap_compose. intros (y & -> & Hy)%list_elem_of_fmap.
      rewrite list.Forall_forall in Hends. specialize (Hends y Hy). cbn in Hr. lia. }
    unfold set_add_list. rewrite dict_set_fresh by done.
    destruct (dict_get (closes p) e) eqn:E'; [exfalso; apply Hfresh, dict_get_keys; by eexists|].
    rewrite Hcl, fmap_app. change (closer lines <$> [x]) with [(e, [close_line (lines !!! k) x])]. by rewrite Hline.
  - intros n. rewrite elem_of_union, elem_of_singleton, fmap_app, elem_of_app, Hn. cbn. rewrite list_elem_of_singleton. naive_solver.
  - rewrite fmap_app. apply list.NoDup_app. split_and!; [done| |apply list.NoDup_singleton].
    intros n Hn' ->%list_elem_of_singleton. by apply Hc, Hn.
  - apply ordered_snoc; [done|apply Nat.le_0_l|done|exact (proj1 Hr)].
  - apply list.Forall_app. split; [|by repeat constructor]. apply (list.Forall_impl _ _ _ Hbef). intros y Hy. cbn in Hy. lia.
  - apply list.Forall_app. split; [done|]. apply list.Forall_cons. split; [|done].
    split; cbn; try done; [by rewrite Hline|]. apply andb_false_iff in Ee as [Ee|Ee].
    + left. apply Nat.leb_gt in Ee. exact Ee.
    + right. by apply seqb_false.
Qed.

Lemma plan_spec : Forall (fun l => no_nl l = true) lines -> exists E, planned (length lines) (plan lines globals in_data) E.
Proof.
  intros Hnl. unfold plan. rewrite <- (enumerate_length 0 lines).
  apply (for_each_ind (fun pre p => exists E, planned (length pre) p E)).
  - exists []. split; cbn; try done; [set_solver|constructor].
  - intros pre [k line] post p Hpre (E & HE).
    assert (enumerate 0 lines !! length pre = Some (k, line)) as Hx by (rewrite Hpre; apply list_lookup_middle; done).
    rewrite enumerate_lookup in Hx. apply fmap_Some in Hx as (l & Hl & [= -> <-]).
    rewrite length_app. cbn [length]. replace (length pre + 1)%nat with (S (length pre)) by lia.
    apply (plan_line_spec _ _ _ E); [|done|done].
    rewrite list.Forall_forall in Hnl. apply Hnl. by eapply list_elem_of_lookup_2.
Qed.
End planned.

(** ** The rewritten file

    Between the extents the lines are kept, those [.global]s apart that the
    macros take over; an extent is its opener, its body and its closer. *)

Definition keep (dropped : gset string) (line : string) : bool :=
  match global_of line with Some g => bool_decide (g ∉ dropped) | None => true end.
Definition opened (line : string) (x : extent) : list string :=
  (indent_of line +:+ (if x_data x then "OBJECT" else "FUNC") +:+ " " +:+ x_name x)
  :: if strip (x_rest x) =s? "" then []
     else [spaces (String.length (indent_of line) + String.length (x_name x) + 1) +:+ x_rest x].

Inductive piece : Type := Kept (l : list string) | Symbol (x : extent) (line : string) (body : list string).
Definition source (p : piece) : list string :=
  match p with Kept l => l | Symbol _ line body => line :: body end.
Definition written (dropped : gset string) (p : piece) : list string :=
  match p with
  | Kept l => List.filter (keep dropped) l
  | Symbol x line body => opened line x ++ List.filter (keep dropped) body ++ [close_line line x]
  end.

(** The file cut at its extents, from position [p] on. *)
Fixpoint pieces_from (lines : list string) (p : nat) (E : list extent) : list piece :=
  match E with
  | [] => [Kept (drop p lines)]
  | x :: E =>
      Kept (take (x_open x - p) (drop p lines))
      :: Symbol x (lines !!! x_open x) (take (x_end x - S (x_open x)) (drop (S (x_open x)) lines))
      :: pieces_from lines (x_end x) E
  end.

Lemma ordered_after lo E x : ordered lo E -> x ∈ E -> (lo <= x_open x < x_end x)%nat.
Proof.
  revert lo. induction E as [|y E IH]; intros lo HE; [by intros ?%elem_of_nil|]. destruct HE as (? & ? & HE).
  intros [->|Hx]%elem_of_cons; [lia|]. specialize (IH _ HE Hx). lia.
Qed.

Lemma split_extent (lines : list string) p x : (p <= x_open x < x_end x)%nat -> (x_end x <= length lines)%nat ->
  drop p lines = take (x_open x - p) (drop p lines)
    ++ lines !!! x_open x :: take (x_end x - S (x_open x)) (drop (S (x_open x)) lines) ++ drop (x_end x) lines.
Proof.
  intros Hx Hlen. rewrite <- (take_drop (x_open x - p) (drop p lines)) at 1. f_equal. rewrite drop_drop.
  replace (p + (x_open x - p))%nat with (x_open x) by lia.
  rewrite (drop_S lines (lines !!! x_open x)) by (apply list_lookup_lookup_total_lt; lia). f_equal.
  rewrite <- (take_drop (x_end x - S (x_open x)) (drop (S (x_open x)) lines)) at 1. f_equal. rewrite drop_drop.
  f_equal. lia.
Qed.

Lemma pieces_source (lines : list string) p E : ordered p E -> Forall (fun x => (x_end x <= length lines)%nat) E ->
  concat (source <$> pieces_from lines p E) = drop p lines.
Proof.
  revert p. induction E as [|x E IH]; intros p HE Hl; cbn [pieces_from fmap list_fmap concat source].
  - by rewrite app_nil_r.
  - destruct HE as (? & ? & HE). apply list.Forall_cons in Hl as [Hx Hl]. rewrite IH by done.
    cbn [app]. symmetry. by apply split_extent.
Qed.

Section emission.
Context (lines : list string) (p : Plan) (also_strip : gset string).
Abbreviation dropped := (converted p ∪ also_strip).
Abbreviation W i line := (rewrite_line p also_strip (i, line)).
Abbreviation C := (closes_at p).

(** The lines from [i] on, without the closers before line [i]. *)
Fixpoint emit (i : nat) (l : list string) : list string :=
  match l with [] => [] | line :: l => W i line ++ C (S i) ++ emit (S i) l end.

Lemma rewrite_lines_emit : rewrite_lines p also_strip lines = C 0 ++ emit 0 lines.
Proof.
  unfold rewrite_lines.
  assert (forall l i out, for_each (enumerate i l) out (fun out x => out ++ C x.1 ++ rewrite_line p also_strip x)
            ++ C (i + length l) = out ++ C i ++ emit i l) as H.
  { induction l as [|line l IH]; intros i out; cbn [enumerate length emit].
    - cbn. by rewrite Nat.add_0_r, app_nil_r.
    - unfold for_each in *. cbn [foldl fst]. replace (i + S (length l))%nat with (S i + length l)%nat by lia.
      rewrite IH. by rewrite <- !app_assoc. }
  specialize (H lines 0%nat []). cbn [app Nat.add] in H. exact H.
Qed.

Lemma emit_app i l1 l2 : emit i (l1 ++ l2) = emit i l1 ++ emit (i + length l1) l2.
Proof.
  revert i. induction l1 as [|line l IH]; intros i; cbn [app emit length]; [by rewrite Nat.add_0_r|].
  rewrite IH. replace (i + S (length l))%nat with (S i + length l)%nat by lia. by rewrite <- !app_assoc.
Qed.

Lemma rewrite_kept i line : dict_get (opens p) i = None -> W i line = List.filter (keep dropped) [line].
Proof.
  intros H. unfold rewrite_line, keep. rewrite H. cbn [List.filter]. destruct (global_of line) as [g|]; [|done].
  destruct (decide (g ∈ converted p)), (decide (g ∈ also_strip)); repeat case_bool_decide; set_solver.
Qed.

(** Lines in which no symbol opens, with what closes after them. *)
Lemma emit_kept i l : (forall j, (i <= j < i + length l)%nat -> dict_get (opens p) j = None) ->
  (forall j, (i < j < i + length l)%nat -> C j = []) ->
  emit i l = List.filter (keep dropped) l ++ if bool_decide (l = []) then [] else C (i + length l).
Proof.
  revert i. induction l as [|line l IH]; intros i Ho Hc; [done|]. cbn [emit]. rewrite rewrite_kept by (apply Ho; cbn; lia).
  rewrite IH by (intros j Hj; (apply Ho || apply Hc); cbn [length]; lia).
  change (line :: l) with ([line] ++ l). rewrite List.filter_app. rewrite <- app_assoc. f_equal.
  rewrite (bool_decide_eq_false_2 ([line] ++ l = [])) by done. cbn [app length].
  replace (i + S (length l))%nat with (S i + length l)%nat by lia.
  case_bool_decide as El.
  - subst l. cbn. rewrite Nat.add_0_r. by rewrite app_nil_r.
  - rewrite (Hc (S i)); [done|]. destruct l; [done|]. cbn [length]. lia.
Qed.

Context (E : list extent).
Hypothesis (Hopens : opens p = opener <$> E) (Hcloses : closes p = closer lines <$> E).
Hypothesis (Hord : ordered 0 E) (Hlen : Forall (fun x => (x_end x <= length lines)%nat) E).

Lemma opens_none j : (forall x, x ∈ E -> x_open x <> j) -> dict_get (opens p) j = None.
Proof.
  intros H. destruct (dict_get (opens p) j) eqn:Ej; [|done]. exfalso.
  assert (j ∈ dict_keys (opens p)) as Hj by by apply dict_get_keys; eexists. rewrite Hopens in Hj.
  unfold dict_keys in Hj. rewrite <- list_fmap_compose in Hj. apply list_elem_of_fmap in Hj as (x & -> & Hx). by apply (H x).
Qed.
Lemma closes_none j : (forall x, x ∈ E -> x_end x <> j) -> C j = [].
Proof.
  intros H. unfold closes_at. destruct (dict_get (closes p) j) eqn:Ej; [|done]. exfalso.
  assert (j ∈ dict_keys (closes p)) as Hj by by apply dict_get_keys; eexists. rewrite Hcloses in Hj.
  unfold dict_keys in Hj. rewrite <- list_fmap_compose in Hj. apply list_elem_of_fmap in Hj as (x & -> & Hx). by apply (H x).
Qed.
Lemma opens_some x : x ∈ E -> dict_get (opens p) (x_open x) = Some (opener x).2.
Proof.
  rewrite Hopens. clear Hopens Hcloses Hlen. revert Hord. generalize O as lo.
  induction E as [|y E' IH]; intros lo HE; [by intros ?%elem_of_nil|]. destruct HE as (? & ? & HE).
  cbn [fmap list_fmap]. unfold opener at 1. cbn [dict_get]. intros [->|Hx]%elem_of_cons; [by rewrite decide_True|].
  pose proof (ordered_after _ _ _ HE Hx). rewrite decide_False by lia. by apply (IH (x_end y)).
Qed.
Lemma closes_some x : x ∈ E -> C (x_end x) = [close_line (lines !!! x_open x) x].
Proof.
  unfold closes_at. rewrite Hcloses. clear Hopens Hcloses Hlen. revert Hord. generalize O as lo.
  induction E as [|y E' IH]; intros lo HE; [by intros ?%elem_of_nil|]. destruct HE as (? & ? & HE).
  cbn [fmap list_fmap]. unfold closer at 1. cbn [dict_get]. intros [->|Hx]%elem_of_cons; [by rewrite decide_True|].
  pose proof (ordered_after _ _ _ HE Hx). rewrite decide_False by lia. by apply (IH (x_end y)).
Qed.

Lemma emit_pieces E2 : forall E1 q, E = E1 ++ E2 -> Forall (fun x => (x_end x <= q)%nat) E1 -> (q <= length lines)%nat ->
  ordered q E2 -> emit q (drop q lines) = concat (written dropped <$> pieces_from lines q E2).
Proof.
  induction E2 as [|x E2 IH]; intros E1 q HE HE1 Hq Hord2; rewrite list.Forall_forall in HE1;
    assert (forall y, y ∈ E1 -> (x_open y < q)%nat) as Hop1
      by (intros y Hy; specialize (HE1 y Hy); pose proof (ordered_after 0 E y Hord ltac:(rewrite HE; apply elem_of_app; by left)); lia).
  - rewrite app_nil_r in HE. cbn [pieces_from fmap list_fmap concat written]. rewrite app_nil_r, emit_kept.
    + case_bool_decide as Ed; [by rewrite app_nil_r|]. rewrite closes_none; [by rewrite app_nil_r|].
      intros y Hy. rewrite HE in Hy. specialize (HE1 y Hy). destruct (drop q lines) eqn:E0; [done|]. cbn [length]. lia.
    + intros j Hj. apply opens_none. intros y Hy. rewrite HE in Hy. specialize (Hop1 y Hy). lia.
    + intros j Hj. apply closes_none. intros y Hy. rewrite HE in Hy. specialize (HE1 y Hy). lia.
  - cbn [ordered] in Hord2. destruct Hord2 as (Hqx & Hx & Hord2).
    assert (x ∈ E) as HxE by (rewrite HE; apply elem_of_app; right; left).
    assert (x_end x <= length lines)%nat as Hxl by (rewrite list.Forall_forall in Hlen; by apply Hlen).
    assert (forall y, y ∈ E2 -> (x_end x <= x_open y < x_end y)%nat) as Haft by (intros y Hy; by apply (ordered_after _ E2)).
    assert (forall y, y ∈ E -> y ∈ E1 \/ y = x \/ y ∈ E2) as Hcases.
    { intros y. rewrite HE, elem_of_app, elem_of_cons. tauto. }
    assert (forall j, (q <= j)%nat -> j <> x_open x -> (j < x_end x)%nat -> dict_get (opens p) j = None) as Hno.
    { intros j Hj Hjx Hje. apply opens_none. intros y [Hy|[->|Hy]]%Hcases; [specialize (Hop1 y Hy)| |specialize (Haft y Hy)]; lia. }
    assert (forall j, (q < j < x_end x)%nat -> C j = []) as Hnc.
    { intros j Hj. apply closes_none. intros y [Hy|[->|Hy]]%Hcases; [specialize (HE1 y Hy)| |specialize (Haft y Hy)]; lia. }
    rewrite (split_extent lines q x) by lia. rewrite emit_app. cbn [emit pieces_from fmap list_fmap concat written].
    rewrite length_take, length_drop. replace (q + (x_open x - q) `min` (length lines - q))%nat with (x_open x) by lia.
    rewrite emit_kept; [|intros j; rewrite length_take, length_drop; intros Hj; apply Hno; lia
                        |intros j; rewrite length_take, length_drop; intros Hj; apply Hnc; lia].
    rewrite <- app_assoc. f_equal.
    match goal with |- ?c ++ _ = _ => assert (c = []) as -> end.
    { case_bool_decide as Ed; [done|]. rewrite length_take, length_drop.
      apply Hnc. destruct (decide (x_open x = q)) as [Heq|]; [|lia]. exfalso. apply Ed. by rewrite Heq, Nat.sub_diag. }
    cbn [app]. unfold rewrite_line at 1. rewrite opens_some by done. cbn [opener snd].
    rewrite emit_app. set (body := take (x_end x - S (x_open x)) (drop (S (x_open x)) lines)).
    assert (length body = (x_end x - S (x_open x))%nat) as Hbody by (unfold body; rewrite length_take, length_drop; lia).
    rewrite Hbody. replace (S (x_open x) + (x_end x - S (x_open x)))%nat with (x_end x) by lia.
    rewrite (IH (E1 ++ [x]) (x_end x)); [|by rewrite <- app_assoc| |lia|done].
    2:{ apply list.Forall_app. split; [|by repeat constructor]. apply list.Forall_forall. intros y Hy. specialize (HE1 y Hy). lia. }
    rewrite !(app_assoc (C _)). match goal with |- ?a ++ ?b ++ _ = (_ ++ ?c) ++ _ => assert (b = c) as -> end.
    { rewrite emit_kept; [|intros j; rewrite Hbody; intros Hj; apply Hno; lia
                         |intros j; rewrite Hbody; intros Hj; apply Hnc; lia].
      rewrite Hbody. replace (S (x_open x) + (x_end x - S (x_open x)))%nat with (x_end x) by lia.
      rewrite (closes_some x HxE). case_bool_decide as Eb.
      - rewrite Eb in *. cbn [length] in Hbody. replace (S (x_open x)) with (x_end x) by lia.
        rewrite (closes_some x HxE). done.
      - rewrite (Hnc (S (x_open x))); [done|]. destruct body; [done|]. cbn [length] in Hbody. lia. }
    unfold opened. by rewrite <- !app_assoc.
Qed.
End emission.

Lemma split_no_nl text : Forall (fun l => no_nl l = true) (lines_of text).
Proof.
  unfold lines_of. induction text as [|c s IH]; cbn [split_char]; [by repeat constructor|].
  destruct (Ascii.eqb c NL) eqn:Ec; [by constructor|].
  destruct (split_char NL s) as [|f fs]; [constructor; [|constructor]; unfold no_nl; cbn [sforall]; by rewrite Ec|].
  apply list.Forall_cons in IH as [Hf Hfs]. constructor; [|done]. unfold no_nl in *. cbn [sforall]. by rewrite Ec.
Qed.

Lemma elem_of_sorted_set n s : n ∈ sorted_set s <-> n ∈ s.
Proof. unfold sorted_set. by rewrite elem_of_sorted_str, elem_of_elements. Qed.


(** ** Running it again

    The module says that a second run changes nothing.  It does when the
    labels stand on their own lines and no sentinel touches a dropped
    [.global]; it does not in these two cases. *)

Definition sentinel_file : string :=
  join nl [".data"; ".global first"; "first: .byte 1"; ".global last"; "last:"; ".global moved"; ".byte 2"].
Definition sentinel_once : string := Eval vm_compute in (process sentinel_file ∅ false {["moved"]}).1.
(** The empty [last] is left alone; once the [.global] after it is gone it
    owns what follows. *)
Lemma rerun_converts_sentinel :
  process sentinel_file ∅ false {["moved"]} = (sentinel_once, ["first"])
  /\ (process sentinel_once ∅ false {["moved"]}).2 = ["last"].
Proof. split; vm_compute; reflexivity. Qed.

Definition two_labels_file : string := join nl [".text"; ".global f"; ".global g"; "f: g: ret"].
Definition two_labels_once : string := Eval vm_compute in (process two_labels_file ∅ false ∅).1.
(** The second label of a line is converted by the second run, inside the
    first one's extent: the closers come in the wrong order. *)
Lemma rerun_overlaps :
  process two_labels_file ∅ false ∅ = (two_labels_once, ["f"])
  /\ lines_of (process two_labels_once ∅ false ∅).1
     = [".text"; "FUNC f"; "   FUNC g"; "      ret"; "ENDFUNC f"; "   ENDFUNC g"].
Proof. split; vm_compute; reflexivity. Qed.

(** ** Witness *)

Definition demo_file : string :=
  join nl [".global f"; ".global t"; ".global t_end"; ".text"; "f: // entry"; "    ret"; ""; "// the table";
           "#if X"; "rodata"; "t: .byte 1"; "   .byte 2"; ""; "t_end:"; "#endif"].
Definition demo_out : string := Eval vm_compute in (process demo_file ∅ false ∅).1.

