(* ===== verification/Differential.v ===== *)
(** * Differential testing (scripts/differential.py)

    Random cases for a reference and a candidate program, the comparison of
    their outputs batch by batch, and the verdict.  The random number
    generator and the programs are interfaces. *)

From Stdlib Require Import Ascii SpecFloat.
From S2P Require Import Prelude PyInt PyStr PyFloat Bench Minimize.

Definition BOUNDARY_LENS : list Z :=
  [0; 1; 2; 3; 7; 8; 15; 16; 17; 31; 32; 33; 63; 64; 65; 127; 128; 129; 255; 256; 257; 1023; 1024; 1025; 4095; 4096].
Definition MAX_GUARD_LEN : Z := 4080.

(** ** Case generation *)

(** [random.Random]: a double in [0, 1), and an integer below a positive bound. *)
Class Rng (G : Type) := {
  rng_random : G -> float * G;
  rng_below : Z -> G -> Z * G
}.
Class RngLaws (G : Type) `{Rng G} := {
  rng_below_range n g : 0 < n -> 0 <= (rng_below n g).1 < n
}.

(** [(kind, length, soff, doff, payload)] *)
(** The programs compared by default *)
Definition DEFAULT_REF : string :=
  "make -s -C scripts/differential _build/memcpy_ref && ./scripts/differential/_build/memcpy_ref".
Definition DEFAULT_CAND : string :=
  "make -s -C scripts/differential _build/memcpy_asm && ./scripts/differential/_build/memcpy_asm".

Record case : Type := mkCase { kind : string; c_length : Z; soff : Z; doff : Z; payload : list Z }.

Section generation.
Context {G : Type} `{HR : Rng G}.

Definition randrange (n : Z) : run G Z := fun g => let '(x, g) := rng_below n g in (Ret x, g).
(** [randint(a, b)] and [choice(seq)] *)
Definition randint (a b : Z) : run G Z :=
  if b <? a then raise (ValueError "empty range for randrange()") else x ← randrange (b - a + 1); mret (a + x).
Definition choice {A} `{Inhabited A} (l : list A) : run G A :=
  if bool_decide (l = []) then raise IndexError
  else i ← randrange (Z.of_nat (length l)); mret (l !!! Z.to_nat i).
Definition random : run G float := fun g => let '(x, g) := rng_random g in (Ret x, g).

Fixpoint random_bytes (n : nat) : run G (list Z) :=
  match n with O => mret [] | S n => b ← randrange 256; bs ← random_bytes n; mret (b :: bs) end.

Definition generate_case (max_len : Z) (guard_frac : float) : run G case :=
  r ← random;
  length ← (if fltb r (of_decimal 3 1) then choice BOUNDARY_LENS else randint 0 max_len);
  soff ← randint 0 15;
  doff ← randint 0 15;
  payload ← random_bytes (Z.to_nat length);
  g ← random;
  kind ← (if fltb g guard_frac && (length <=? MAX_GUARD_LEN) then choice ["GS"; "GD"] else mret "N");
  mret (mkCase kind length soff doff payload).

Fixpoint generate_cases (n : nat) (max_len : Z) (guard_frac : float) : run G (list case) :=
  match n with
  | O => mret []
  | S n => c ← generate_case max_len guard_frac; cs ← generate_cases n max_len guard_frac; mret (c :: cs)
  end.
End generation.

(** ** Running a program *)

Definition payload_hex (b : list Z) : string := join "" (hex2 <$> b).
Definition serialize_case (c : case) : string :=
  (if kind c =s? "N" then "" else kind c +:+ " ") +:+ str_z (c_length c) +:+ " " +:+ str_z (soff c) +:+ " "
  +:+ str_z (doff c) +:+ " " +:+ payload_hex (payload c).
Definition serialize (cases : list case) : string := join nl (serialize_case <$> cases) +:+ nl.

Inductive finished : Type := Done (rc : Z) (out err : string) | Hung.
(** A shell command fed with a text, for at most so many seconds. *)
Class Programs (W : Type) := { execute : string -> string -> Z -> W -> finished * W }.

(** The last [n] characters *)
Definition last_str (n : nat) (s : string) : string := drop_str (String.length s - n) s.

Section testing.
Context {W : Type} `{HP : Programs W}.

Definition run_program (command : string) (cases : list case) (timeout : Z) : run W (Z * list string * string) := fun w =>
  let '(f, w) := execute command (serialize cases) timeout w in
  (Ret (match f with
        | Done rc out err => (rc, splitlines out, err)
        | Hung => (-1, [], "timed out after " +:+ str_z timeout +:+ "s (broken infinite loop?)")
        end), w).

Definition mismatch (i : nat) (c : case) (expected actual : string) : string :=
  "case " +:+ str_nat i +:+ ": kind=" +:+ kind c +:+ " len=" +:+ str_z (c_length c) +:+ " src_off=" +:+ str_z (soff c)
  +:+ " dst_off=" +:+ str_z (doff c) +:+ nl +:+ "  payload[0:32] = " +:+ payload_hex (take 32 (payload c)) +:+ nl
  +:+ "  reference: " +:+ take_str 160 expected +:+ nl +:+ "  candidate: " +:+ take_str 160 actual.

(** The loop over [zip(cases, ref_out)]. *)
Fixpoint compare_from (i : nat) (pairs : list (case * string)) (cand_out : list string) : option (nat * string) :=
  match pairs with
  | [] => None
  | (c, expected) :: pairs =>
      let actual := default "<crash: no output>" (cand_out !! i) in
      if actual =s? expected then compare_from (S i) pairs cand_out else Some (i, mismatch i c expected actual)
  end.

Definition judge_outputs (cases : list case) (ref cand : Z * list string * string) : option (nat * string) :=
  let '(ref_rc, ref_out, ref_err) := ref in
  let '(cand_rc, cand_out, cand_err) := cand in
  if ref_rc =? -1 then Some (O, "reference program timed out:" +:+ nl +:+ take_str 800 ref_err) else
  if negb (ref_rc =? 0)
  then Some (O, "reference program failed (rc=" +:+ str_z ref_rc +:+ "):" +:+ nl +:+ take_str 800 ref_err) else
  if negb (cand_rc =? 0)
  then Some (O, "candidate program failed (rc=" +:+ str_z cand_rc +:+ "):" +:+ nl +:+ last_str 800 cand_err) else
  match compare_from 0 (zip cases ref_out) cand_out with
  | Some r => Some r
  | None =>
      if (length cand_out =? length ref_out)%nat then None
      else Some (length ref_out, "candidate produced " +:+ str_nat (length cand_out) +:+ " lines, reference "
                                 +:+ str_nat (length ref_out) +:+ " (candidate crashed early?)")
  end.

Definition check_batch (ref_cmd cand_cmd : string) (cases : list case) : run W (option (nat * string)) :=
  ref ← run_program ref_cmd cases 120;
  cand ← run_program cand_cmd cases 120;
  mret (judge_outputs cases ref cand).

(** ** The verdict *)

(** The loop over the starts: the first failing batch is rerun on the case it
    names, and ends the loop. *)
Fixpoint check_from (ref_cmd cand_cmd : string) (cases : list case) (batch : nat) (starts : list nat) : run W nat :=
  match starts with
  | [] => mret 0%nat
  | start :: starts =>
      let this := take batch (drop start cases) in
      result ← check_batch ref_cmd cand_cmd this;
      match result with
      | None => check_from ref_cmd cand_cmd cases batch starts
      | Some (index, _) =>
          match this !! index with
          | None => raise IndexError
          | Some failing =>
              run_program ref_cmd [failing] 120;;
              run_program cand_cmd [failing] 120;;
              mret 1%nat
          end
      end
  end.

(** [range(0, n, step)] for the starts of the batches *)
Definition starts_of (n : nat) (step : Z) : result (list nat) :=
  if step =? 0 then Raise (ValueError "range() arg 3 must not be zero")
  else if step <? 0 then Ret []
  else let k := Z.to_nat step in Ret ((fun i => i * k)%nat <$> seq 0 ((n + k - 1) / k)).

(** [main], from the cases on: its exit status. *)
Definition differential (ref_cmd cand_cmd : string) (cases : list case) (batch : Z) : run W Z :=
  starts ← lift (starts_of (length cases) batch);
  failures ← check_from ref_cmd cand_cmd cases (Z.to_nat batch) starts;
  mret (if (failures =? 0)%nat then 0 else 1).
End testing.

Definition differential_main {W G} `{HP : Programs W} `{HR : Rng G} (ref_cmd cand_cmd : string) (ncases batch max_len : Z)
  (guard_frac : float) (g : G) : run W Z :=
  if ncases <=? 0 then raise (SystemExit "--cases must be positive") else
  cases ← lift (generate_cases (Z.to_nat ncases) max_len guard_frac g).1;
  differential ref_cmd cand_cmd cases batch.

(** ** The cases are what the drivers accept *)

Record case_ok (max_len : Z) (c : case) : Prop := {
  ok_kind : kind c = "N" \/ (kind c = "GS" \/ kind c = "GD") /\ c_length c <= MAX_GUARD_LEN;
  ok_length : 0 <= c_length c <= Z.max max_len 4096;
  ok_soff : 0 <= soff c <= 15;
  ok_doff : 0 <= doff c <= 15;
  ok_payload : Z.of_nat (length (payload c)) = c_length c /\ Forall (fun b => 0 <= b < 256) (payload c)
}.

Section generation_laws.
Context {G : Type} `{HR : Rng G} `{HL : !RngLaws G}.

(** A run that returns, with a property of its result. *)
Definition yields {A} (P : A -> Prop) (m : run G A) : Prop := forall g, exists x g', m g = (Ret x, g') /\ P x.

Lemma yields_ret {A} (P : A -> Prop) x : P x -> yields P (mret x).
Proof. intros H g. by exists x, g. Qed.
Lemma yields_bind {A B} (P : A -> Prop) (Q : B -> Prop) (m : run G A) (f : A -> run G B) :
  yields P m -> (forall x, P x -> yields Q (f x)) -> yields Q (m ≫= f).
Proof.
  intros Hm Hf g. destruct (Hm g) as (x & g1 & E & Hx). destruct (Hf x Hx g1) as (y & g2 & E2 & Hy).
  exists y, g2. split; [|done]. unfold mbind, run_bind. by rewrite E, E2.
Qed.

Lemma yields_randrange n : 0 < n -> yields (fun x => 0 <= x < n) (randrange n).
Proof.
  intros Hn g. unfold randrange. pose proof (rng_below_range n g Hn) as H. destruct (rng_below n g) as [x g']. by exists x, g'.
Qed.
Lemma yields_randint a b : a <= b -> yields (fun x => a <= x <= b) (randint a b).
Proof.
  intros H. unfold randint. destruct (Z.ltb_spec b a); [lia|].
  eapply yields_bind; [apply yields_randrange; lia|]. intros x Hx. cbn in Hx. apply yields_ret. lia.
Qed.
Lemma yields_choice {A} `{Inhabited A} (l : list A) : l <> [] -> yields (fun x => x ∈ l) (choice l).
Proof.
  intros Hl. unfold choice. rewrite bool_decide_eq_false_2 by done.
  assert (0 < Z.of_nat (length l)) by (destruct l; [done|cbn; lia]).
  eapply yields_bind; [by apply yields_randrange|]. intros x Hx. cbn in Hx. apply yields_ret. apply list_elem_of_lookup_total_2. lia.
Qed.
Lemma yields_bytes n : yields (fun bs => length bs = n /\ Forall (fun b => 0 <= b < 256) bs) (random_bytes n).
Proof.
  induction n as [|n IH]; cbn [random_bytes]; [by apply yields_ret|].
  eapply yields_bind; [by apply yields_randrange|]. intros b Hb. eapply yields_bind; [exact IH|].
  intros bs [Hl Hbs]. apply yields_ret. split; [cbn; by rewrite Hl|by constructor].
Qed.

Lemma yields_case max_len guard_frac : 0 <= max_len -> yields (case_ok max_len) (generate_case max_len guard_frac).
Proof.
  intros Hm. unfold generate_case.
  assert (yields (fun _ => True) random) as Hr.
  { intros g. unfold random. destruct (rng_random g) as [x g']. by exists x, g'. }
  eapply yields_bind; [exact Hr|]. intros r _.
  apply (yields_bind (fun n => 0 <= n <= Z.max max_len 4096)).
  { destruct (fltb r (of_decimal 3 1)).
    - intros g. destruct (yields_choice BOUNDARY_LENS ltac:(done) g) as (x & g' & E & Hx). exists x, g'. split; [done|].
      assert (Forall (fun n => 0 <= n <= 4096) BOUNDARY_LENS) as HB by (repeat constructor; lia).
      rewrite list.Forall_forall in HB. specialize (HB x Hx). lia.
    - intros g. destruct (yields_randint 0 max_len Hm g) as (x & g' & E & Hx). exists x, g'. split; [done|lia]. }
  intros n Hn. eapply yields_bind; [by apply yields_randint|]. intros so Hso.
  eapply yields_bind; [by apply yields_randint|]. intros d Hd.
  eapply yields_bind; [apply yields_bytes|]. intros bs [Hl Hbs]. eapply yields_bind; [exact Hr|]. intros g _.
  destruct (fltb g guard_frac && (n <=? MAX_GUARD_LEN)) eqn:Eg.
  - eapply yields_bind; [by apply yields_choice|]. intros k Hk. apply yields_ret.
    apply andb_true_iff in Eg as [_ Eg%Z.leb_le]. split; cbn; [|done..|split; [lia|done]].
    right. split; [|done]. rewrite elem_of_cons, list_elem_of_singleton in Hk. done.
  - eapply yields_bind; [by apply (yields_ret (fun k => k = "N"))|]. intros k ->. apply yields_ret.
    split; cbn; [by left|done..|split; [lia|done]].
Qed.

(** Case generation never fails and makes what the drivers accept: for a
    nonnegative maximal length and any random source within its documented
    bounds there are exactly the cases asked for, each with offsets from 0 to
    15, a payload of exactly its length in bytes, no longer than the maximum
    or the largest boundary length, and short enough for a page when it is
    placed against a guard page. *)
Theorem generate_cases_ok n max_len guard_frac g : 0 <= max_len ->
  exists cases g', generate_cases n max_len guard_frac g = (Ret cases, g')
    /\ length cases = n /\ Forall (case_ok max_len) cases.
Proof.
  intros Hm. revert g. induction n as [|n IH]; intros g; [by exists [], g|]. cbn [generate_cases].
  destruct (yields_case max_len guard_frac Hm g) as (c & g1 & E1 & Hc). destruct (IH g1) as (cs & g2 & E2 & Hl & Hcs).
  exists (c :: cs), g2. unfold mbind, run_bind. rewrite E1, E2. split_and!; [done|cbn; by rewrite Hl|by constructor].
Qed.
End generation_laws.

(** ** What a pass says *)

Lemma compare_none i pairs cand_out : compare_from i pairs cand_out = None ->
  forall j p, pairs !! j = Some p -> default "<crash: no output>" (cand_out !! (i + j)%nat) = p.2.
Proof.
  revert i. induction pairs as [|[c e] pairs IH]; intros i; [done|]. cbn [compare_from].
  destruct (_ =s? e) eqn:E; [|done]. intros H [|j] p.
  - intros [= <-]. rewrite Nat.add_0_r. by apply seqb_true.
  - intros Hp. replace (i + S j)%nat with (S i + j)%nat by lia. by apply (IH (S i)).
Qed.

Lemma judge_none cases r c : judge_outputs cases r c = None ->
  r.1.1 = 0 /\ c.1.1 = 0 /\ length c.1.2 = length r.1.2
  /\ take (length cases) c.1.2 = take (length cases) r.1.2.
Proof.
  destruct r as [[rrc rout] rerr], c as [[crc cout] cerr]. unfold judge_outputs. cbn [fst snd].
  destruct (rrc =? -1); [done|]. destruct (Z.eqb_spec rrc 0) as [->|]; [|done].
  destruct (Z.eqb_spec crc 0) as [->|]; [|done]. cbn [negb].
  destruct (compare_from _ _ _) eqn:Ec; [done|]. destruct (Nat.eqb_spec (length cout) (length rout)) as [El|]; [|done].
  intros _. split_and!; [done..|]. apply list_eq. intros j.
  destruct (decide (j < length cases)%nat) as [Hj|]; [|by rewrite !lookup_take_ge by lia].
  rewrite !lookup_take_lt by done. destruct (rout !! j) as [e|] eqn:Er.
  - destruct (lookup_lt_is_Some_2 cases j Hj) as [c Hc].
    pose proof (compare_none 0 _ _ Ec j (c, e)) as H. cbn [Nat.add snd] in H. rewrite lookup_zip_with_Some in H.
    specialize (H ltac:(by exists c, e)). apply lookup_lt_Some in Er. rewrite <- El in Er.
    destruct (lookup_lt_is_Some_2 cout j Er) as [a Ha]. rewrite Ha in *. by rewrite <- H.
  - apply lookup_ge_None in Er. apply lookup_ge_None. lia.
Qed.

Section passing.
Context {W : Type} `{HP : Programs W} (ref_cmd cand_cmd : string).

(** On a batch both programs ended normally and printed the same results. *)
Definition agreed (batch : list case) : Prop :=
  exists w w1 w2 out err out' err',
    execute ref_cmd (serialize batch) 120 w = (Done 0 out err, w1)
    /\ execute cand_cmd (serialize batch) 120 w1 = (Done 0 out' err', w2)
    /\ length (splitlines out') = length (splitlines out)
    /\ take (length batch) (splitlines out') = take (length batch) (splitlines out).

Lemma check_batch_agreed batch w w' : check_batch ref_cmd cand_cmd batch w = (Ret None, w') -> agreed batch.
Proof.
  unfold check_batch, mbind, run_bind, run_program.
  destruct (execute ref_cmd (serialize batch) 120 w) as [r w1] eqn:Er.
  destruct (execute cand_cmd (serialize batch) 120 w1) as [c w2] eqn:Ec.
  intros [= H _]. apply judge_none in H. destruct r as [rc out err|], c as [rc' out' err'|]; cbn in H.
  - destruct H as (-> & -> & H1 & H2). unfold agreed. eauto 12.
  - by destruct H as (_ & ? & _).
  - by destruct H as (? & _).
  - by destruct H as (? & _).
Qed.

Lemma check_from_agreed cases batch starts w w' : check_from ref_cmd cand_cmd cases batch starts w = (Ret 0%nat, w') ->
  Forall (fun start => agreed (take batch (drop start cases))) starts.
Proof.
  revert w. induction starts as [|start starts IH]; intros w; [constructor|]. cbn [check_from]. unfold mbind at 1, run_bind at 1.
  destruct (check_batch ref_cmd cand_cmd (take batch (drop start cases)) w) as [[[[index detail]|]|e] w1] eqn:E; [| |done].
  - destruct (_ !! index); [|done]. unfold mbind, run_bind, run_program.
    destruct (execute ref_cmd _ _ w1) as [? w2]. destruct (execute cand_cmd _ _ w2). done.
  - intros H. apply check_batch_agreed in E. constructor; [done|by eapply IH].
Qed.

(** C31: what [OK] means. When the driver exits with status 0 and the batch
    size is positive, every case was in a batch of consecutive cases on which
    the reference and then the candidate were run on the same input, both
    exited with status 0, and they printed the same number of lines, the same
    ones as far as there are cases. *)
Theorem differential_passes cases batch w w' : 0 < batch ->
  differential ref_cmd cand_cmd cases batch w = (Ret 0, w') ->
  forall c, c ∈ cases -> exists start, let this := take (Z.to_nat batch) (drop start cases) in c ∈ this /\ agreed this.
Proof.
  intros Hb. unfold differential, starts_of. destruct (Z.eqb_spec batch 0); [lia|]. destruct (Z.ltb_spec batch 0); [lia|].
  cbv zeta. set (k := Z.to_nat batch). unfold lift, mbind, run_bind.
  match goal with |- context [check_from _ _ _ _ ?s w] => set (starts := s) end.
  destruct (check_from ref_cmd cand_cmd cases k starts w) as [[[|f]|e] w1] eqn:E; [|done..].
  intros _ c Hc. apply check_from_agreed in E. apply list_elem_of_lookup_1 in Hc as [j Hj].
  pose proof (lookup_lt_Some _ _ _ Hj) as Hlt. assert (0 < k)%nat by lia.
  exists (j / k * k)%nat. cbv zeta. pose proof (Nat.div_mod j k). pose proof (Nat.mod_upper_bound j k). split.
  - apply (list_elem_of_lookup_2 _ (j mod k)%nat). rewrite lookup_take_lt, lookup_drop by lia.
    rewrite <- Hj. f_equal. lia.
  - rewrite list.Forall_forall in E. apply E. unfold starts. apply list_elem_of_fmap. exists (j / k)%nat. split; [done|].
    apply elem_of_seq. split; [lia|]. apply Nat.div_lt_upper_bound; [lia|].
    pose proof (Nat.div_mod (length cases + k - 1) k). pose proof (Nat.mod_upper_bound (length cases + k - 1) k). nia.
Qed.
End passing.

(** ** Witnesses, and what a pass does not say *)

(** A generator that counts. *)
#[local] Instance counting : Rng Z := {
  rng_random := fun g => (of_decimal (Z.to_N (g mod 10)) 1, g + 1);
  rng_below := fun n g => (g mod n, g + 1)
}.
#[local] Instance counting_laws : RngLaws Z.
Proof. split. intros n g Hn. by apply Z.mod_pos_bound. Qed.

Lemma generate_cases_ok_witness :
  exists cases g', generate_cases (HR := counting) 5 64 (of_decimal 5 1) 0 = (Ret cases, g')
    /\ length cases = 5%nat /\ Forall (case_ok 64) cases.
Proof. apply (generate_cases_ok (HR := counting) (HL := counting_laws)). lia. Defined.

(** Programs that all answer their input by the same function. *)
Definition answering (f : string -> finished) : Programs unit := {| execute := fun _ input _ w => (f input, w) |}.
Definition three_cases : list case := [mkCase "N" 2 0 1 [1; 255]; mkCase "GS" 0 3 0 []; mkCase "GD" 1 15 15 [171]].

Lemma differential_passes_witness :
  serialize three_cases = join nl ["2 0 1 01ff"; "GS 0 3 0 "; "GD 1 15 15 ab"; ""]
  /\ (forall c, c ∈ three_cases -> exists start, let this := take (Z.to_nat 2) (drop start three_cases) in
       c ∈ this /\ agreed (HP := answering (fun i => Done 0 i "")) "ref" "cand" this).
Proof.
  split; [vm_compute; reflexivity|].
  apply (differential_passes (HP := answering (fun i => Done 0 i "")) "ref" "cand" three_cases 2 () ()); [lia|].
  vm_compute. reflexivity.
Defined.

(** Two programs that print nothing agree on every case. *)
Lemma silent_programs_pass :
  differential (HP := answering (fun _ => Done 0 "" "")) "ref" "cand" three_cases 2 () = (Ret 0, ()).
Proof. vm_compute. reflexivity. Qed.

(** A negative batch size passes without running anything. *)
Lemma negative_batch_passes {W} `{HP : Programs W} cases batch (w : W) : batch < 0 ->
  differential "ref" "cand" cases batch w = (Ret 0, w).
Proof.
  intros Hb. unfold differential, starts_of. destruct (Z.eqb_spec batch 0); [lia|]. by destruct (Z.ltb_spec batch 0); [|lia].
Qed.

(** A candidate that prints one line more than there are cases: the verdict
    names a case after the last, and isolating it raises [IndexError]. *)
Definition one_line_more : Programs unit :=
  {| execute := fun cmd input _ w => (Done 0 (if cmd =s? "ref" then input else input +:+ "more" +:+ nl) "", w) |}.
Lemma extra_line_raises : differential (HP := one_line_more) "ref" "cand" three_cases 3 () = (Raise IndexError, ()).
Proof. vm_compute. reflexivity. Qed.
