(* ===== verification/Soak.v ===== *)
(** * Fuzz soak (scripts/fuzz_soak.py)

    The loop that runs the fuzz suites on fresh seeds: what it logs, when it
    stops, and its exit status.  The clock, the suites and the minimiser are an
    interface; what the script does with them is recorded as a list of
    events. *)

From Stdlib Require Import Ascii SpecFloat.
From S2P Require Import Prelude PyInt PyStr PyFloat AsmParse Abi Bench.

Definition SUITES : list string :=
  ["test_fuzz_tls_record"; "test_fuzz_tls_handshake"; "test_fuzz_http"; "test_frag_socket"; "test_frag_http"].
Definition suite_matches (wanted : list string) (name : string) : bool :=
  bool_decide (wanted = []) || existsb (fun w => (w =s? name) || contains w name) wanted.

(** [campaign_of]: the fields between the suite and the seed. *)
Fixpoint seed_index (i : nat) (parts : list string) : option nat :=
  match parts with
  | [] => None
  | part :: parts => if startswith "seed" part && (2 <=? i)%nat then Some i else seed_index (S i) parts
  end.
Definition campaign_of (finding : string) : option string :=
  let parts := split_char "-" (base_name finding) in
  (fun i => join "-" (drop 1 (take i parts))) <$> seed_index 0 parts.

(** The outside: [time.time()], [strftime], [getrandbits(63)], the names in
    the findings directory, a suite with its environment, the minimiser. *)
Class Machine (W : Type) := {
  now : W -> float;
  clock : string -> W -> string;
  fresh_seed : W -> Z * W;
  found_files : string -> W -> list string;
  spawn_suite : string -> list (string * string) -> W -> Z * string * W;
  spawn_minimizer : list string -> W -> W
}.

Inductive event : Type :=
| Logged (line : string)
| Ran (binary : string) (seed rc : Z)
| Minimised (command : list string).

Record Args : Type := mkArgs {
  a_rounds : nat; a_minutes : option float; a_forever : bool; a_mult : Z; a_secs : Z;
  a_suites : list string; a_seeds : list Z; a_findings : string; a_minimize : bool; a_keep_going : bool
}.

Section soak.
Context {W : Type} `{HM : Machine W}.
(** The world and what was done in it. *)
Definition world : Type := W * list event.
Definition do (e : event) : run world unit := fun '(w, es) => (Ret (), (w, es ++ [e])).
Definition ask {A} (f : W -> A) : run world A := fun '(w, es) => (Ret (f w), (w, es)).

Context (obj scripts_dir : string) (a : Args).

Definition environment (seed : Z) : list (string * string) :=
  [("SARM_FUZZ_SEED", str_z seed); ("SARM_FUZZ_MULT", str_z (a_mult a)); ("SARM_FUZZ_SECS", str_z (a_secs a));
   ("SARM_FUZZ_FINDINGS", a_findings a)].

(** [run_round]: status, output, duration, and the new files. *)
Definition run_round (binary : string) (seed : Z) : run world (Z * string * float * list string) := fun '(w, es) =>
  let before := found_files (a_findings a) w in
  let started := now w in
  let '(rc, out, w') := spawn_suite (obj +:+ "/" +:+ binary) (environment seed) w in
  let took := fsub (now w') started in
  let new := sorted_str (set_of (List.filter (fun f => negb (bool_decide (f ∈ before))) (found_files (a_findings a) w'))) in
  (Ret (rc, out, took, new), (w', es ++ [Ran binary seed rc])).

Definition minimize_finding (binary finding : string) : run world unit :=
  match campaign_of finding with
  | None | Some "" => mret ()
  | Some campaign =>
      let cmd := [scripts_dir +:+ "/fuzz_minimize.py"; obj +:+ "/" +:+ binary; campaign; finding] in
      fun '(w, es) => (Ret (), (spawn_minimizer cmd w, es ++ [Minimised cmd]))
  end.

Fixpoint minimize_all (binary : string) (new : list string) : run world unit :=
  match new with
  | [] => mret ()
  | finding :: new =>
      (if endswith ".bin" finding && a_minimize a
       then minimize_finding binary (a_findings a +:+ "/" +:+ finding) else mret ());;
      minimize_all binary new
  end.

Definition start_line (stamp : string) (round : nat) (seed : Z) : string :=
  stamp +:+ " round=" +:+ str_nat round +:+ " seed=" +:+ str_z seed +:+ " start".
Definition suite_line (stamp binary : string) (seed : Z) (took : float) (rc : Z) : string :=
  stamp +:+ " seed=" +:+ str_z seed +:+ " suite=" +:+ binary +:+ " mult=" +:+ str_z (a_mult a) +:+ " "
  +:+ fmt_fixed false 1 took +:+ "s " +:+ (if rc =? 0 then "ok" else "FAILED").

(** The suites of a round: the findings so far, and whether to stop. *)
Fixpoint run_suites (suites : list string) (seed : Z) (found : nat) : run world (nat * bool) :=
  match suites with
  | [] => mret (found, false)
  | binary :: suites =>
      r ← run_round binary seed;
      let '(rc, out, took, new) := r in
      stamp ← ask (clock "%H:%M:%S");
      do (Logged (suite_line stamp binary seed took rc));;
      if rc =? 0 then run_suites suites seed found else
      minimize_all binary new;;
      if a_keep_going a then run_suites suites seed (S found) else mret (S found, true)
  end.

Definition next_seed (seeds : list Z) : run world (Z * list Z) := fun '(w, es) =>
  match seeds with
  | seed :: seeds => (Ret (seed, seeds), (w, es))
  | [] => let '(seed, w) := fresh_seed w in (Ret (seed, []), (w, es))
  end.

(** One turn of the [while]: the seed is in the log before any suite runs. *)
Definition soak_round (suites : list string) (seeds : list Z) (done found : nat) : run world (list Z * nat * bool) :=
  s ← next_seed seeds;
  let '(seed, seeds) := s in
  stamp ← ask (clock "%H:%M:%S");
  do (Logged (start_line stamp (S done) seed));;
  r ← run_suites suites seed found;
  let '(found, stop) := r in
  mret (seeds, found, stop).

Definition before_deadline (deadline : option float) : run world bool :=
  match deadline with
  | None => mret true
  | Some d => if feqb d fzero then mret true else t ← ask now; mret (negb (fleb d t))
  end.

(** The loop; [None] when the fuel does not suffice. *)
Fixpoint soak_loop (fuel : nat) (rounds : option nat) (deadline : option float) (suites : list string) (seeds : list Z)
  (done found : nat) : run world (option (nat * nat)) :=
  match fuel with
  | O => mret None
  | S fuel =>
      if match rounds with Some n => (done <? n)%nat | None => true end then
        go ← before_deadline deadline;
        if (go : bool) then
          r ← soak_round suites seeds done found;
          let '(seeds, found, stop) := (r : list Z * nat * bool) in
          if stop then mret (Some (S done, found)) else soak_loop fuel rounds deadline suites seeds (S done) found
        else mret (Some (done, found))
      else mret (Some (done, found))
  end.

(** [args.minutes] as a condition *)
Definition truthy (m : option float) : option float :=
  match m with Some x => if feqb x fzero then None else Some x | None => None end.

(** [main], after the build: the exit status. *)
Definition soak (fuel : nat) : run world (option Z) :=
  let suites := List.filter (suite_matches (a_suites a)) SUITES in
  if bool_decide (suites = []) then mret (Some 2) else
  stamp ← ask (clock "%Y-%m-%d %H:%M:%S");
  do (Logged ("# soak started " +:+ stamp +:+ "  suites=" +:+ join "," suites +:+ " mult=" +:+ str_z (a_mult a)));;
  t ← ask now;
  let deadline := (fun m => fadd t (fmul m (round_int 60))) <$> truthy (a_minutes a) in
  let rounds := if a_forever a || match truthy (a_minutes a) with Some _ => true | None => false end
                then None else Some (a_rounds a) in
  r ← soak_loop fuel rounds deadline suites (a_seeds a) 0 0;
  mret ((fun '(_, found) => if (found =? 0)%nat then 0 else 1) <$> r).
End soak.

(** ** The record of a soak *)

Definition failed (e : event) : bool := match e with Ran _ _ rc => negb (rc =? 0) | _ => false end.
Definition failures (es : list event) : nat := length (List.filter failed es).

(** Every run of a suite comes after the log line that names its seed. *)
Definition seed_logged (es : list event) : Prop :=
  forall pre b s rc post, es = pre ++ Ran b s rc :: post ->
    exists stamp round, Logged (start_line stamp round s) ∈ pre.
(** Nothing runs after a failure. *)
Definition stops_at_failure (es : list event) : Prop :=
  forall pre e post, es = pre ++ e :: post -> failed e = true -> Forall (fun e => match e with Ran _ _ _ => False | _ => True end) post.

Lemma failures_app es es' : failures (es ++ es') = (failures es + failures es')%nat.
Proof. unfold failures. by rewrite List.filter_app, length_app. Qed.

(** Appending one event to a record. *)
Lemma snoc_cut {A} (l pre post : list A) x e : l ++ [x] = pre ++ e :: post ->
  (post = [] /\ pre = l /\ e = x) \/ exists post', post = post' ++ [x] /\ l = pre ++ e :: post'.
Proof.
  destruct post as [|y post _] using rev_ind.
  - intros H. apply app_inj_tail in H as [-> ->]. by left.
  - intros H. right. exists post. change (l ++ [x] = pre ++ (e :: post) ++ [y]) in H. rewrite app_assoc in H.
    by apply app_inj_tail in H as [-> ->].
Qed.

Lemma seed_logged_snoc es e : seed_logged es ->
  match e with Ran _ s _ => exists stamp round, Logged (start_line stamp round s) ∈ es | _ => True end ->
  seed_logged (es ++ [e]).
Proof.
  intros H He pre b s rc post [(-> & -> & <-)|(post' & -> & Hes)]%snoc_cut; [done|]. by eapply H.
Qed.

Lemma stops_snoc es e : stops_at_failure es ->
  match e with Ran _ _ _ => failures es = 0%nat | _ => True end -> stops_at_failure (es ++ [e]).
Proof.
  intros H He pre e' post [(-> & -> & ->)|(post' & -> & Hes)]%snoc_cut Hf; [constructor|].
  apply list.Forall_app. split; [by eapply H|]. repeat constructor. destruct e; try done.
  rewrite Hes, failures_app in He. unfold failures in He. cbn [List.filter] in He. rewrite Hf in He. cbn [length] in He. lia.
Qed.

Section record.
Context {W : Type} `{HM : Machine W} (obj scripts_dir : string) (a : Args).

(** What holds of the events and the count of findings throughout. *)
Record recorded (found : nat) (es : list event) : Prop := {
  rec_seeds : seed_logged es;
  rec_found : failures es = found;
  rec_stops : a_keep_going a = false -> stops_at_failure es
}.

Definition quiet (e : event) : Prop := match e with Ran _ _ _ => False | _ => True end.

Lemma recorded_quiet found es e : quiet e -> recorded found es -> recorded found (es ++ [e]).
Proof.
  intros Hq [H1 H2 H3]. split.
  - apply seed_logged_snoc; [done|by destruct e].
  - rewrite failures_app, H2. by destruct e; cbn; rewrite ?Nat.add_0_r.
  - intros Hk. apply stops_snoc; [by apply H3|by destruct e].
Qed.

Lemma recorded_run found es b s rc : (exists stamp round, Logged (start_line stamp round s) ∈ es) ->
  (a_keep_going a = false -> found = 0%nat) -> recorded found es ->
  recorded (if rc =? 0 then found else S found) (es ++ [Ran b s rc]).
Proof.
  intros Hs Hk [H1 H2 H3]. split.
  - by apply seed_logged_snoc.
  - rewrite failures_app, H2. unfold failures. cbn. destruct (rc =? 0); cbn; lia.
  - intros Hkg. apply stops_snoc; [by apply H3|]. rewrite H2. by apply Hk.
Qed.

Lemma minimize_all_recorded binary new found w es r w' es' :
  minimize_all obj scripts_dir a binary new (w, es) = (r, (w', es')) ->
  recorded found es -> recorded found es' /\ exists more, es' = es ++ more.
Proof.
  revert w es. induction new as [|f new IH]; intros w es.
  - intros [= _ _ <-] H. split; [done|]. exists []. by rewrite app_nil_r.
  - cbn [minimize_all]. unfold mbind at 1, run_bind at 1. intros H Hrec.
    assert (exists w1 es1, (if endswith ".bin" f && a_minimize a
              then minimize_finding obj scripts_dir binary (a_findings a +:+ "/" +:+ f) else mret ()) (w, es) = (Ret (), (w1, es1))
            /\ recorded found es1 /\ exists more, es1 = es ++ more) as (w1 & es1 & E & Hrec1 & more1 & Hm1).
    { destruct (_ && _); [|exists w, es; split_and!; [done..|exists []; by rewrite app_nil_r]].
      unfold minimize_finding. destruct (campaign_of _) as [[|c s]|].
      - exists w, es. split_and!; [done..|exists []; by rewrite app_nil_r].
      - eexists _, _. split_and!; [reflexivity|by apply recorded_quiet|by eexists].
      - exists w, es. split_and!; [done..|exists []; by rewrite app_nil_r]. }
    rewrite E in H. destruct (IH w1 es1 H Hrec1) as (H1 & more & ->). split; [done|].
    exists (more1 ++ more). by rewrite Hm1, app_assoc.
Qed.

Lemma minimize_all_ret binary new w es : exists w' es', minimize_all obj scripts_dir a binary new (w, es) = (Ret (), (w', es')).
Proof.
  revert w es. induction new as [|f new IH]; intros w es; [by eexists _, _|]. cbn [minimize_all].
  unfold mbind, run_bind. destruct (_ && _); [|apply IH]. unfold minimize_finding.
  destruct (campaign_of _) as [[|c s]|]; apply IH.
Qed.

Lemma run_suites_recorded suites seed : forall found w es r w' es',
  run_suites obj scripts_dir a suites seed found (w, es) = (r, (w', es')) ->
  (exists stamp round, Logged (start_line stamp round seed) ∈ es) ->
  (a_keep_going a = false -> found = 0%nat) -> recorded found es ->
  exists found' stop, r = Ret (found', stop) /\ recorded found' es'
    /\ (stop = false -> a_keep_going a = false -> found' = 0%nat).
Proof.
  induction suites as [|binary suites IH]; intros found w es r w' es'; cbn [run_suites].
  - intros [= <- _ <-] _ Hk Hrec. by exists found, false.
  - unfold mbind at 1, run_bind at 1, run_round. destruct (spawn_suite _ _ w) as [[rc out] w1].
    unfold mbind at 1, run_bind at 1, ask. unfold mbind at 1, run_bind at 1, do.
    intros H Hs Hk Hrec. apply (recorded_run found es binary seed rc Hs Hk) in Hrec.
    match type of H with _ (_, ?es2) = _ =>
      assert (recorded (if rc =? 0 then found else S found) es2) as Hrec2 by (by apply recorded_quiet) end.
    clear Hrec. rename Hrec2 into Hrec.
    assert (forall more, exists stamp round, Logged (start_line stamp round seed) ∈ es ++ more) as Hs'.
    { intros more. destruct Hs as (stamp & round & ?). exists stamp, round. apply elem_of_app. by left. }
    destruct (rc =? 0).
    + eapply IH; [exact H| |done|exact Hrec]. rewrite <- app_assoc. apply Hs'.
    + unfold mbind at 1, run_bind at 1 in H.
      match type of H with context [minimize_all _ _ _ _ ?new (?w2, ?es2)] =>
        destruct (minimize_all_ret binary new w2 es2) as (w3 & es3 & E) end.
      rewrite E in H. destruct (minimize_all_recorded _ _ _ _ _ _ _ _ E Hrec) as (Hrec3 & more & ->).
      destruct (a_keep_going a) eqn:Ekg.
      * eapply IH; [exact H| |intros ?; congruence|exact Hrec3]. rewrite <- !app_assoc. apply Hs'.
      * injection H as <- _ <-. by exists (S found), true.
Qed.

Lemma soak_loop_recorded fuel rounds deadline suites : forall seeds done found w es n found' w' es',
  soak_loop obj scripts_dir a fuel rounds deadline suites seeds done found (w, es) = (Ret (Some (n, found')), (w', es')) ->
  (a_keep_going a = false -> found = 0%nat) -> recorded found es -> recorded found' es'.
Proof.
  induction fuel as [|fuel IH]; intros seeds dn found w es n found' w' es'; cbn [soak_loop]; [done|].
  destruct (match rounds with Some n0 => (dn <? n0)%nat | None => true end); [|by intros [= _ <- _ <-]].
  unfold mbind at 1, run_bind at 1.
  assert (exists go, before_deadline deadline (w, es) = (Ret go, (w, es))) as [go ->].
  { unfold before_deadline. destruct deadline as [d|]; [|by eexists]. destruct (feqb d fzero); by eexists. }
  destruct go; [|by intros [= _ <- _ <-]].
  unfold soak_round. unfold mbind at 1, run_bind at 1. unfold mbind at 1, run_bind at 1.
  assert (exists seed seeds' w1, next_seed seeds (w, es) = (Ret (seed, seeds'), (w1, es))) as (seed & seeds' & w1 & ->).
  { unfold next_seed. destruct seeds; [|by eexists _, _, _]. destruct (fresh_seed w). by eexists _, _, _. }
  unfold mbind at 1, run_bind at 1, ask. unfold mbind at 1, run_bind at 1, do. unfold mbind at 1, run_bind at 1.
  match goal with |- context [run_suites _ _ _ _ _ _ (w1, ?es1)] => set (es2 := es1) end.
  destruct (run_suites obj scripts_dir a suites seed found (w1, es2)) as [r [w3 es3]] eqn:E. intros H Hk Hrec.
  apply run_suites_recorded in E; [|eexists _, _; apply elem_of_app; right; left|done|by apply recorded_quiet].
  destruct E as (found1 & stop & -> & Hrec1 & Hk1). destruct stop.
  - by injection H as _ <- _ <-.
  - eapply IH; [exact H|by apply Hk1|done].
Qed.
End record.

(** What a soak leaves behind. When it returns, its status is 2 exactly
    when no suite was selected, and otherwise 1 exactly when some suite that
    ran failed; the log names a seed before any suite is run on it; and without
    [--keep-going] nothing runs after the first failure. *)
Theorem soak_record {W} `{HM : Machine W} obj scripts_dir a fuel w st w' es :
  soak obj scripts_dir a fuel (w, []) = (Ret (Some st), (w', es)) ->
  (st = 2 <-> Forall (fun s => suite_matches (a_suites a) s = false) SUITES)
  /\ (st = 1 <-> exists b s rc, Ran b s rc ∈ es /\ rc <> 0) /\ (st = 0 \/ st = 1 \/ st = 2)
  /\ seed_logged es /\ (a_keep_going a = false -> stops_at_failure es).
Proof.
  unfold soak. case_bool_decide as Hs.
  - intros [= <- _ <-]. refine (conj _ (conj _ (conj _ (conj _ _)))); [| |by right; right|by intros []|by intros _ []].
    + split; [intros _|done]. apply list.Forall_forall. intros s Hin. apply not_true_iff_false. intros Hm.
      assert (s ∈ List.filter (suite_matches (a_suites a)) SUITES) as H; [|by rewrite Hs in H; apply elem_of_nil in H].
      apply list_elem_of_In, filter_In. split; [by apply list_elem_of_In|done].
    + split; [done|]. by intros (? & ? & ? & ?%elem_of_nil & _).
  - unfold mbind, run_bind, ask, do. cbn [app].
    match goal with |- context [soak_loop _ _ _ _ ?r ?d ?s ?se _ _ (w, ?es1)] => set (es0 := es1); set (dl := d); set (rd := r) end.
    destruct (soak_loop _ _ _ fuel rd dl _ _ 0 0 (w, es0)) as [[[[n found]|]|e] [w1 es1]] eqn:E; [|done..].
    cbn. intros [= <- _ <-]. apply soak_loop_recorded in E; [|done|].
    + destruct E as [Hseed Hfound Hstop]. refine (conj _ (conj _ (conj _ (conj Hseed Hstop)))).
      * split; [destruct found; done|]. intros Hall. exfalso. apply Hs. apply elem_of_nil_inv. intros s Hin.
        apply list_elem_of_In, filter_In in Hin as [Hin Hm]. rewrite list.Forall_forall in Hall.
        apply list_elem_of_In in Hin. by rewrite (Hall s Hin) in Hm.
      * assert (found <> 0%nat <-> exists b s rc, Ran b s rc ∈ es1 /\ rc <> 0) as <-.
        { rewrite <- Hfound. unfold failures. split.
          - intros Hne. destruct (List.filter failed es1) as [|e l] eqn:Ef; [done|].
            assert (In e (List.filter failed es1)) as Hin by (rewrite Ef; by left). apply filter_In in Hin as [Hin Hf].
            destruct e as [|b s rc|]; try done. exists b, s, rc. split; [by apply list_elem_of_In|].
            cbn in Hf. by apply negb_true_iff, Z.eqb_neq in Hf.
          - intros (b & s & rc & Hin & Hrc) H0. apply length_zero_iff_nil in H0.
            assert (In (Ran b s rc) (List.filter failed es1)) as Hin'; [|by rewrite H0 in Hin'].
            apply filter_In. split; [by apply list_elem_of_In|]. cbn. by apply negb_true_iff, Z.eqb_neq. }
        destruct found; cbn; split; try done; lia.
      * destruct found; cbn; auto.
    + split; [|done|].
      * apply (seed_logged_snoc []); [by intros []|done].
      * intros _. apply (stops_snoc []); [by intros []|done].
Qed.

(** ** A soak with a time limit ends *)

(** A clock: it shows finite doubles and never goes back, and up to [limit] a
    suite takes time.  The exponent of a double is at least -1074. *)
Class ClockLaws (W : Type) `{Machine W} (limit : float) := {
  now_double w : finite (now w) = true /\ -1074 <= fexp_of (now w);
  fresh_seed_later w : fleb (now w) (now (fresh_seed w).2) = true;
  minimizer_later cmd w : fleb (now w) (now (spawn_minimizer cmd w)) = true;
  suite_later b env w : fleb (now w) (now (spawn_suite b env w).2) = true;
  suite_takes_time b env w : fltb (now w) limit = true -> fltb (now w) (now (spawn_suite b env w).2) = true
}.

Section ends.
Context {W : Type} `{HM : Machine W} (limit : float) `{HC : !ClockLaws W limit} (obj scripts_dir : string) (a : Args).
(** A scale fine enough for the clock, the deadline and the limit. *)
Context (e : Z) (He : e <= -1074) (Hlim : finite limit = true) (Hel : e <= fexp_of limit).
Definition time (w : W) : Z := rank e (now w).

Lemma time_le w w' : fleb (now w) (now w') = true -> time w <= time w'.
Proof.
  destruct (now_double w) as [H1 H2], (now_double w') as [H3 H4]. apply rank_le; (done || lia).
Qed.
Lemma time_lt w w' : fltb (now w) (now w') = true -> time w < time w'.
Proof.
  destruct (now_double w) as [H1 H2], (now_double w') as [H3 H4]. apply rank_lt; (done || lia).
Qed.

Lemma before_limit w : time w < rank e limit -> fltb (now w) limit = true.
Proof. intros H. destruct (now_double w) as [H1 H2]. apply (rank_lt e); (done || lia). Qed.

Lemma minimize_all_time binary new : forall w es, exists w' es',
  minimize_all obj scripts_dir a binary new (w, es) = (Ret (), (w', es')) /\ time w <= time w'.
Proof.
  induction new as [|f new IH]; intros w es; [by eexists _, _|]. cbn [minimize_all].
  unfold mbind, run_bind. destruct (_ && _); [|apply IH]. unfold minimize_finding.
  destruct (campaign_of _) as [[|c s]|]; [apply IH| |apply IH].
  match goal with |- context [spawn_minimizer ?cmd w] => pose proof (time_le _ _ (minimizer_later cmd w)) as Ht;
    destruct (IH (spawn_minimizer cmd w) (es ++ [Minimised cmd])) as (w' & es' & E & Hle) end.
  exists w', es'. split; [exact E|lia].
Qed.

Lemma run_suites_time suites seed : forall found w es, exists found' stop w' es',
  run_suites obj scripts_dir a suites seed found (w, es) = (Ret (found', stop), (w', es'))
  /\ time w <= time w' /\ (suites <> [] -> time w < rank e limit -> time w < time w').
Proof.
  induction suites as [|binary suites IH]; intros found w es; cbn [run_suites]; [by eexists _, _, _, _|].
  unfold mbind at 1, run_bind at 1, run_round.
  pose proof (time_le _ _ (suite_later (obj +:+ "/" +:+ binary) (environment a seed) w)) as Hle1.
  assert (time w < rank e limit -> time w < time (spawn_suite (obj +:+ "/" +:+ binary) (environment a seed) w).2) as Ht
    by (intros H; by apply time_lt, suite_takes_time, before_limit).
  destruct (spawn_suite _ _ w) as [[rc out] w1]. cbn [snd] in Ht, Hle1.
  unfold mbind at 1, run_bind at 1, ask. unfold mbind at 1, run_bind at 1, do.
  destruct (rc =? 0).
  - match goal with |- context [run_suites _ _ _ _ _ _ (w1, ?es2)] => destruct (IH found w1 es2) as (f & s & w' & es' & E & Hle & _) end.
    exists f, s, w', es'. split; [exact E|]. split; [lia|]. intros _ Hw. specialize (Ht Hw). lia.
  - unfold mbind at 1, run_bind at 1.
    match goal with |- context [minimize_all _ _ _ _ ?new (?w2, ?es2)] =>
      destruct (minimize_all_time binary new w2 es2) as (w3 & es3 & E3 & H3) end.
    rewrite E3. destruct (a_keep_going a).
    + destruct (IH (S found) w3 es3) as (f & s & w' & es' & E & Hle & _).
      exists f, s, w', es'. split; [exact E|]. split; [lia|]. intros _ Hw. specialize (Ht Hw). lia.
    + eexists _, _, w3, es3. split; [reflexivity|]. split; [lia|]. intros _ Hw. specialize (Ht Hw). lia.
Qed.

Lemma soak_round_time suites seeds dn found w es : suites <> [] -> exists seeds' found' stop w' es',
  soak_round obj scripts_dir a suites seeds dn found (w, es) = (Ret (seeds', found', stop), (w', es')) /\ time w <= time w' /\ (time w < rank e limit -> time w < time w').
Proof.
  intros Hs. unfold soak_round. unfold mbind at 1, run_bind at 1.
  assert (exists seed seeds' w1, next_seed seeds (w, es) = (Ret (seed, seeds'), (w1, es)) /\ time w <= time w1)
    as (seed & seeds' & w1 & -> & H1).
  { unfold next_seed. destruct seeds; [|by eexists _, _, _]. pose proof (time_le _ _ (fresh_seed_later w)).
    destruct (fresh_seed w) as [seed w1]. by exists seed, [], w1. }
  unfold mbind at 1, run_bind at 1, ask. unfold mbind at 1, run_bind at 1, do. unfold mbind at 1, run_bind at 1.
  match goal with |- context [run_suites _ _ _ _ _ _ (w1, ?es1)] =>
    destruct (run_suites_time suites seed found w1 es1) as (f & s & w' & es' & -> & Hle & Hlt) end.
  exists seeds', f, s, w', es'. split; [done|]. split; [lia|]. intros Hw.
  destruct (decide (time w1 < rank e limit)) as [Hw1|]; [|lia]. specialize (Hlt Hs Hw1). lia.
Qed.

Lemma soak_loop_ends d suites : suites <> [] -> finite d = true -> feqb d fzero = false -> e <= fexp_of d -> fleb d limit = true ->
  forall fuel rounds seeds dn found w es, (Z.to_nat (rank e d - time w) < fuel)%nat ->
  exists r w' es', soak_loop obj scripts_dir a fuel rounds (Some d) suites seeds dn found (w, es) = (Ret (Some r), (w', es')).
Proof.
  intros Hs Hd Hz Hed Hdl. apply (rank_le e) in Hdl; [|done..]. induction fuel as [|fuel IH]; intros rounds seeds dn found w es Hf; [lia|]. cbn [soak_loop].
  destruct (match rounds with Some n => (dn <? n)%nat | None => true end); [|by eexists _, _, _].
  unfold mbind at 1, run_bind at 1, before_deadline. rewrite Hz. unfold mbind at 1, run_bind at 1, ask.
  destruct (fleb d (now w)) eqn:El; [by eexists _, _, _|]. cbn [negb mret run_ret].
  assert (time w < rank e d) as Hlt.
  { destruct (now_double w) as [H1 H2]. apply Z.nle_gt. unfold time. rewrite <- rank_le by (done || lia). by rewrite El. }
  unfold mbind at 1, run_bind at 1.
  destruct (soak_round_time suites seeds dn found w es Hs) as (seeds' & f & stop & w' & es' & -> & _ & Ht).
  specialize (Ht ltac:(lia)).
  destruct stop; [by eexists _, _, _|]. apply IH. lia.
Qed.

End ends.

(** Every operation of the loop returns. *)
Lemma run_suites_ret {W} `{HM : Machine W} obj scripts_dir a suites seed : forall found (w : W) es, exists x w' es',
  run_suites obj scripts_dir a suites seed found (w, es) = (Ret x, (w', es')).
Proof.
  induction suites as [|binary suites IH]; intros found w es; cbn [run_suites]; [by eexists _, _, _|].
  unfold mbind at 1, run_bind at 1, run_round. destruct (spawn_suite _ _ w) as [[rc out] w1].
  unfold mbind at 1, run_bind at 1, ask. unfold mbind at 1, run_bind at 1, do.
  destruct (rc =? 0); [apply IH|]. unfold mbind at 1, run_bind at 1.
  match goal with |- context [minimize_all _ _ _ _ ?new (?w2, ?es2)] =>
    destruct (minimize_all_ret obj scripts_dir a binary new w2 es2) as (w3 & es3 & ->) end.
  destruct (a_keep_going a); [apply IH|by eexists _, _, _].
Qed.

Lemma soak_rounds_end {W} `{HM : Machine W} obj scripts_dir a n deadline suites : forall fuel seeds dn found (w : W) es,
  (n - dn < fuel)%nat -> exists r w' es',
    soak_loop obj scripts_dir a fuel (Some n) deadline suites seeds dn found (w, es) = (Ret (Some r), (w', es')).
Proof.
  induction fuel as [|fuel IH]; intros seeds dn found w es Hf; [lia|]. cbn [soak_loop].
  destruct (Nat.ltb_spec dn n); [|by eexists _, _, _]. unfold mbind at 1, run_bind at 1.
  assert (exists go, before_deadline deadline (w, es) = (Ret go, (w, es))) as [go ->].
  { unfold before_deadline. destruct deadline as [d|]; [|by eexists]. destruct (feqb d fzero); by eexists. }
  destruct go; [|by eexists _, _, _]. unfold mbind at 1, run_bind at 1, soak_round, mbind at 1, run_bind at 1.
  assert (exists seed seeds' w1, next_seed seeds (w, es) = (Ret (seed, seeds'), (w1, es))) as (seed & seeds' & w1 & ->).
  { unfold next_seed. destruct seeds; [|by eexists _, _, _]. destruct (fresh_seed w). by eexists _, _, _. }
  unfold mbind at 1, run_bind at 1, ask. unfold mbind at 1, run_bind at 1, do. unfold mbind at 1, run_bind at 1.
  match goal with |- context [run_suites _ _ _ _ _ _ (w1, ?es1)] =>
    destruct (run_suites_ret obj scripts_dir a suites seed found w1 es1) as ([f stop] & w' & es' & ->) end.
  destruct stop; [by eexists _, _, _|]. apply IH. lia.
Qed.

(** The moment [--minutes] ends at. *)
Definition deadline_of {W} `{Machine W} (w : W) (m : float) : float := fadd (now w) (fmul m (round_int 60)).

(** C32: a soak comes to an end. On a machine whose clock never goes back and,
    up to some limit, advances during every suite, the loop returns a status
    after finitely many rounds whenever a time limit is given (with or without
    [--forever]), as long as the deadline is a finite non-zero double within
    that limit; and without either option after the rounds asked for. *)
Theorem soak_ends {W} `{HM : Machine W} limit `{HC : !ClockLaws W limit} obj scripts_dir a w :
  finite limit = true ->
  match truthy (a_minutes a) with
  | Some m => finite (deadline_of w m) = true /\ feqb (deadline_of w m) fzero = false
              /\ fleb (deadline_of w m) limit = true
  | None => a_forever a = false
  end ->
  exists fuel st w' es, soak obj scripts_dir a fuel (w, []) = (Ret (Some st), (w', es)).
Proof.
  intros Hlim H. unfold soak. case_bool_decide as Hs; [by exists 0%nat, 2, w, []|].
  unfold mbind, run_bind, ask, do. cbn [app]. fold (deadline_of w). destruct (truthy (a_minutes a)) as [m|].
  - destruct H as (Hd & Hz & Hdl). cbn [fmap option_fmap option_map]. set (d := deadline_of w m) in *.
    set (e := Z.min (-1074) (Z.min (fexp_of d) (fexp_of limit))).
    match goal with |- context [soak_loop _ _ _ _ ?r _ ?s ?se _ _ (w, ?es0)] =>
      destruct (soak_loop_ends limit obj scripts_dir a e ltac:(lia) Hlim ltac:(lia) d s Hs Hd Hz ltac:(lia) Hdl
        (S (Z.to_nat (rank e d - time e w))) r se 0%nat 0%nat w es0 ltac:(lia)) as ([n f] & w' & es' & E) end.
    eexists (S (Z.to_nat (rank e d - time e w))), _, w', es'. by rewrite E.
  - rewrite H. cbn [orb fmap option_fmap option_map].
    match goal with |- context [soak_loop _ _ _ _ ?r ?dl ?s ?se _ _ (w, ?es0)] =>
      destruct (soak_rounds_end obj scripts_dir a (a_rounds a) dl s
        (S (a_rounds a)) se 0%nat 0%nat w es0 ltac:(lia)) as ([n f] & w' & es' & E) end.
    eexists (S (a_rounds a)), _, w', es'. by rewrite E.
Qed.

(** ** Witnesses *)

(** A machine whose clock ticks with every suite and stands still at 180
    seconds; the last suite fails. *)
Definition toy_now (w : nat) : float :=
  match w with O => fzero | 1%nat => round_int 60 | 2%nat => round_int 120 | _ => round_int 180 end.
#[local] Instance toy_machine : Machine nat := {
  now := toy_now;
  clock := fun _ _ => "12:00:00";
  fresh_seed := fun w => (42, w);
  found_files := fun _ w => if (w <? 5)%nat then [] else ["fuzz-http-seed7-case1-crash.bin"];
  spawn_suite := fun b _ w => (if endswith "test_frag_http" b then 1 else 0, "", S w);
  spawn_minimizer := fun _ w => w
}.
#[local] Instance toy_clock : ClockLaws nat (round_int 180).
Proof.
  split; try (intros; destruct w as [|[|[|w]]]; vm_compute; done).
Qed.

Definition toy_args (minutes : option float) : Args :=
  mkArgs 2 minutes true 4 300 [] [7] "findings" true false.
Definition toy_events : list event :=
  Eval vm_compute in (soak "obj" "scripts" (toy_args (Some (round_int 2))) 9 (O, [])).2.2.

Lemma soak_record_witness :
  length toy_events = 13%nat
  /\ ((1 = 2 <-> Forall (fun s => suite_matches [] s = false) SUITES)
      /\ (1 = 1 <-> exists b s rc, Ran b s rc ∈ toy_events /\ rc <> 0) /\ (1 = 0 \/ 1 = 1 \/ 1 = 2)
      /\ seed_logged toy_events /\ (false = false -> stops_at_failure toy_events)).
Proof.
  split; [vm_compute; reflexivity|].
  apply (soak_record "obj" "scripts" (toy_args (Some (round_int 2))) 9 O 1 5%nat toy_events). vm_compute. reflexivity.
Defined.

Lemma soak_ends_witness :
  exists fuel st w' es, soak "obj" "scripts" (toy_args (Some (round_int 2))) fuel (O, []) = (Ret (Some st), (w', es)).
Proof.
  apply (soak_ends (HM := toy_machine) (HC := toy_clock) (round_int 180)); [vm_compute; reflexivity|].
  cbn [toy_args a_minutes]. vm_compute. done.
Defined.

Example campaign_demo : campaign_of "findings/test_fuzz_http-request-seed7-case1-crash.bin" = Some "request".
Proof. reflexivity. Qed.
