(* ===== verification/Llm.v ===== *)
(** * The model backend (scripts/llm.py)

    Extraction of a JSON object from a reply, the parsed proposal, and the two
    backends, over the process interface of [Bench] and an HTTP interface.
    A request's body is kept as a JSON value. *)

From Stdlib Require Import Ascii.
From S2P Require Import Prelude PyInt PyStr Regex PyFloat Json Bench.

(** [urllib.request.urlopen]: the status and the body of the response, [None]
    for an [OSError]; [None] as a body stands for a GET. *)
Class Http (W : Type) := {
  urlopen : string -> option json -> Z -> W -> option (Z * string) * W
}.

Record LLMCandidate : Type := mkCandidate { assembly : string; explanation : string; raw : string }.

Definition FENCE : string := "```".
Definition FENCE_RE : re := Eval vm_compute in rx_s "```(?:json)?\s*(.*?)```".

(** The object a text decodes to, as in [isinstance(data, dict)]. *)
Definition as_object (v : json) : option (list (string * json)) :=
  match v with JObj d => Some d | _ => None end.

Definition extract_json (text : string) : option (list (string * json)) :=
  let text := strip text in
  let text := match re_search FENCE_RE text with Some x => strip (group x 1) | None => text end in
  match loads text with
  | Some data => as_object data
  | None => scan_objects as_object text
  end.

(** [LLM._parse] *)
Definition parse (text : string) : option LLMCandidate :=
  match extract_json text with
  | None => let a := strip text in
            if a =s? "" then None else Some (mkCandidate a "" text)
  | Some data =>
      let field k := strip (py_str (default (JStr "") (dict_get data k))) in
      if field "assembly" =s? "" then None
      else Some (mkCandidate (field "assembly") (field "explanation") text)
  end.

Inductive backend_kind : Type := OllamaHttp | CommandBackend.
Record LLM : Type := mkLLM {
  backend : backend_kind;
  model : string;
  url : string;
  llm_command : list string;
  llm_timeout : Z
}.

(** [LLM.__init__] *)
Definition make_llm (b : backend_kind) (model url : string) (cmd : list string) (timeout : Z) : LLM :=
  mkLLM b model (rstrip_chars "/" url) (match cmd with [] => ["ollama"; "run"; model] | _ => cmd end) timeout.

Section generation.
Context {W : Type} `{Processes W} `{Http W}.
(** [shutil.which] *)
Context (which : string -> bool).

Definition available (l : LLM) : run W bool := fun w =>
  match backend l with
  | CommandBackend => (Ret (which (default "" (head (llm_command l)))), w)
  | OllamaHttp =>
      let '(r, w) := urlopen (url l +:+ "/api/tags") None 3 w in
      (Ret (match r with Some (status, _) => status =? 200 | None => false end), w)
  end.

Definition request_body (l : LLM) (prompt : string) : json :=
  JObj [("model", JStr (model l)); ("prompt", JStr prompt); ("stream", JBool false); ("format", JStr "json");
        ("options", JObj [("temperature", JFloat (of_decimal 7 1))])].

(** One request; [None] for the failures the loop returns on. *)
Definition http_round (l : LLM) (prompt : string) : run W (option LLMCandidate) := fun w =>
  let '(r, w) := urlopen (url l +:+ "/api/generate") (Some (request_body l prompt)) (llm_timeout l) w in
  match r with
  | None => (Ret None, w)
  | Some (_, body) =>
      match loads body with
      | None => (Ret None, w)
      | Some (JObj payload) =>
          match default (JStr "") (dict_get payload "response") with
          | JStr text => (Ret (parse text), w)
          | _ => (Raise AttributeError, w)
          end
      | Some _ => (Raise AttributeError, w)
      end
  end.

Definition command_round (l : LLM) (prompt : string) : run W (option LLMCandidate) :=
  r ← run_command (Argv (llm_command l ++ [prompt])) None (llm_timeout l);
  if success r.1 then mret (parse (output r.1)) else mret None.

Fixpoint generate_loop (n : nat) (round : run W (option LLMCandidate)) (results : list LLMCandidate)
  : run W (option (list LLMCandidate)) :=
  match n with
  | O => mret (Some results)
  | S n => c ← round;
           match c with
           | None => mret None
           | Some c => generate_loop n round (results ++ [c])
           end
  end.

Definition generate (l : LLM) (prompt : string) (n : nat) : run W (option (list LLMCandidate)) :=
  generate_loop n (match backend l with
                   | OllamaHttp => http_round l prompt
                   | CommandBackend => command_round l prompt
                   end) [].

(** ** Properties *)

Lemma parse_assembly text c : parse text = Some c -> assembly c <> "" /\ raw c = text.
Proof.
  unfold parse. destruct (extract_json text) as [d|].
  - destruct (_ =s? "") eqn:E; [done|]. intros [= <-]. cbn. split; [by apply seqb_false|done].
  - destruct (strip text =s? "") eqn:E; [done|]. intros [= <-]. cbn. split; [by apply seqb_false|done].
Qed.

Lemma http_round_assembly l prompt w c w' :
  http_round l prompt w = (Ret (Some c), w') -> assembly c <> "".
Proof.
  unfold http_round. destruct (urlopen _ _ _ w) as [[[st body]|] w1]; [|done].
  destruct (loads body) as [[]|]; try done. destruct (default _ _); try done.
  intros [= E _]. by apply parse_assembly in E as [].
Qed.

Lemma command_round_assembly l prompt w c w' :
  command_round l prompt w = (Ret (Some c), w') -> assembly c <> "".
Proof.
  unfold command_round, mbind, run_bind, mret, run_ret. destruct (run_command _ _ _ w) as [[r|] w1]; [|done].
  destruct (success r.1); intros [= E _]. by apply parse_assembly in E as [].
Qed.

Lemma generate_loop_length n round : forall results w l w',
  (forall w c w', round w = (Ret (Some c), w') -> assembly c <> "") ->
  Forall (fun c => assembly c <> "") results ->
  generate_loop n round results w = (Ret (Some l), w') ->
  length l = (length results + n)%nat /\ Forall (fun c => assembly c <> "") l.
Proof.
  induction n as [|n IH]; intros results w l w' Hr Hf; cbn [generate_loop].
  - intros [= <- _]. split; [lia|done].
  - unfold mbind, run_bind. destruct (round w) as [[[c|]|] w1] eqn:E; try done. intros Hl.
    apply IH in Hl as [Hl ?]; [|done|]; [|apply Forall_app; split; [done|by repeat constructor; eapply Hr]].
    split; [|done]. rewrite Hl, length_app. cbn [length]. lia.
Qed.

Lemma generate_count l prompt n w cs w' :
  generate l prompt n w = (Ret (Some cs), w') -> length cs = n /\ Forall (fun c => assembly c <> "") cs.
Proof.
  unfold generate. intros E. apply generate_loop_length in E; [done| |constructor].
  destruct (backend l); [apply http_round_assembly|apply command_round_assembly].
Qed.
End generation.

(** a reply that wraps one JSON object in prose is understood: when the
    reply, apart from blanks around it, is a text without an opening brace, an
    object's text, and anything after it, has no fence and is not JSON as a
    whole, [_extract_json] returns that object, braces and quotes inside its
    strings included. *)
Theorem extract_json_embedded text p s t d :
  strip text = p +:+ s +:+ t ->
  re_search FENCE_RE (strip text) = None -> loads (strip text) = None ->
  mem_char "{" p = false -> value (S (String.length s)) s = Some (JObj d, "") -> is_Some (expect "{" s) ->
  extract_json text = Some d.
Proof.
  intros Ht Hf Hl Hp Hv Hs. unfold extract_json. rewrite Hf, Hl, Ht.
  by apply (scan_objects_found as_object p s t (JObj d) d).
Qed.

Definition sample_reply : string :=
  "Sure! Here it is: {" +:+ q "assembly" +:+ ": " +:+ q "f:\n ret // }" +:+ "} -- enjoy {x}." +:+ nl.
Lemma extract_json_embedded_witness :
  extract_json sample_reply = Some [("assembly", JStr ("f:" +:+ nl +:+ " ret // }"))].
Proof.
  apply (extract_json_embedded sample_reply "Sure! Here it is: "
    ("{" +:+ q "assembly" +:+ ": " +:+ q "f:\n ret // }" +:+ "}") " -- enjoy {x}.");
    first [eexists; vm_compute; reflexivity|vm_compute; reflexivity].
Defined.
