(* ===== verification/Tools.v ===== *)
(** * Evidence tools (scripts/mca.py, scripts/perf.py, and the runs of objdump)

    The wrappers around llvm-mca, perf and objdump: the commands, and what is
    read from their output.  Temporary files are an operation of the world. *)

From Stdlib Require Import Ascii.
From S2P Require Import Prelude PyInt PyStr Regex PyFloat Json Bench.

(** A file with the given name in a fresh temporary directory; its path. *)
Class TempFiles (W : Type) := { temp_file : string -> string -> W -> string * W }.

(** [detect_tool]: the first tool [shutil.which] finds. *)
Fixpoint detect_tool (which : string -> option string) (names : list string) : option string :=
  match names with
  | [] => None
  | n :: names => match which n with
                  | Some p => if p =s? "" then detect_tool which names else Some p
                  | None => detect_tool which names
                  end
  end.

(** ** mca.py *)

Record MCAReport : Type := mkReport {
  mca_instructions : option Z;
  total_cycles : option Z;
  ipc : option float;
  dispatch_width : option Z;
  block_rt : option string;
  mca_raw : string
}.

Definition mca_summary (r : MCAReport) : string :=
  let field {A} (name : string) (f : A -> string) (o : option A) :=
    match o with Some x => [name +:+ f x] | None => [] end in
  join nl (["LLVM-MCA"]
    ++ field "Instructions:      " str_z (mca_instructions r)
    ++ field "Total Cycles:      " str_z (total_cycles r)
    ++ field "IPC:               " (fmt_fixed false 2) (ipc r)
    ++ field "Dispatch Width:    " str_z (dispatch_width r)
    ++ match block_rt r with
       | Some s => if s =s? "" then [] else ["Block RThroughput: " +:+ s]
       | None => []
       end).

Definition MCPU_CANDIDATES : list string := ["apple-m2"; "apple-m1"; "apple-a14"; "cortex-a76"; "generic"].
Definition mcpus (mcpu : option string) : list string :=
  match mcpu with
  | Some m => if m =s? "" then MCPU_CANDIDATES else m :: filter (fun c => c <> m) MCPU_CANDIDATES
  | None => MCPU_CANDIDATES
  end.

Definition INSTRUCTIONS_RE : re := Eval vm_compute in rx "Instructions:\s+(\d+)".
Definition CYCLES_RE : re := Eval vm_compute in rx "Total Cycles:\s+(\d+)".
Definition IPC_RE : re := Eval vm_compute in rx "IPC:\s+([0-9.]+)".
Definition WIDTH_RE : re := Eval vm_compute in rx "Dispatch Width:\s+(\d+)".
Definition BLOCK_RE : re := Eval vm_compute in rx "Block RThroughput:\s+([0-9.]+)".

Definition grab (r : re) (output : string) : option string := (fun x => group x 1) <$> re_search r output.

Definition parse_mca (output : string) : result MCAReport :=
  ipc ← match grab IPC_RE output with Some v => Some <$> float_of_string v | None => Ret None end;
  Ret (mkReport (digits <$> grab INSTRUCTIONS_RE output) (digits <$> grab CYCLES_RE output) ipc
         (digits <$> grab WIDTH_RE output) ((fun v => v +:+ " cycles") <$> grab BLOCK_RE output) output).

Section tools.
Context {W : Type} `{Processes W} `{TempFiles W}.

(** The loop over the processors: an unknown one is skipped. *)
Fixpoint mca_loop (tool asm_path : string) (iterations : Z) (cpus : list string) : run W (option MCAReport) :=
  match cpus with
  | [] => mret None
  | mcpu :: cpus =>
      r ← run_command (Argv [tool; "-mtriple=arm64-apple-macosx"; "-mcpu=" +:+ mcpu;
                             "-iterations=" +:+ str_z iterations; asm_path]) None 300;
      if success r.1 then report ← lift (parse_mca (output r.1)); mret (Some report)
      else if contains "error" (lower (error r.1)) && contains "no such cpu" (lower (error r.1))
      then mca_loop tool asm_path iterations cpus
      else mret None
  end.

Definition analyze (tool mcpu : option string) (iterations : Z) (function_source : string) : run W (option MCAReport) :=
  match tool with
  | None => mret None
  | Some tool => fun w =>
      let '(path, w) := temp_file "function.s" (".text" +:+ nl +:+ function_source +:+ nl) w in
      mca_loop tool path iterations (mcpus mcpu) w
  end.

(** ** disassembler.py: the run *)

Definition disassemble (tool : option string) (obj : string) : run W (option string) :=
  match tool with
  | None => mret None
  | Some tool => r ← run_command (Argv [tool; "-d"; obj]) None 600;
                 mret (if success r.1 then Some (output r.1) else None)
  end.

(** ** perf.py *)

Definition DEFAULT_EVENTS : list string :=
  ["cycles"; "instructions"; "branches"; "branch-misses"; "l1-dcache-loads"; "l1-dcache-misses"].

(** [text[text.find("{"):]]; without a brace, the last character *)
Definition from_brace (text : string) : string :=
  match find "{" text with
  | Some i => drop_str i text
  | None => drop_str (String.length text - 1) text
  end.

(** One entry of the decoded object: its counter. *)
Definition counter_of (v : json) : result (option float) :=
  match v with
  | JObj d => match dict_get d "value" with Some v => float_of_json v | None => Ret None end
  | JInt _ | JFloat _ | JBool _ => float_of_json v
  | _ => Ret None
  end.

Definition perf_counters (data : json) : result (option (list (string * float))) :=
  counters ← match data with
             | JObj d => for_result d [] (fun c '(k, v) =>
                 x ← counter_of v; Ret (match x with Some x => dict_set c k x | None => c end))
             | _ => Ret []
             end;
  Ret (match counters with [] => None | c => Some c end).

Definition stat_argv (tool : string) (events command : list string) : list string :=
  [tool; "stat"; "-j"] ++ (events ≫= fun e => ["-e"; e]) ++ ["--"] ++ command.

Definition stat (tool : option string) (workdir : string) (events command : list string) (timeout : Z)
  : run W (option (list (string * float))) :=
  match tool with
  | None => mret None
  | Some tool =>
      r ← run_command (Argv (stat_argv tool events command)) (Some workdir) timeout;
      if negb (success r.1) then mret None else
      match loads (output r.1) with
      | Some data => lift (perf_counters data)
      | None => match loads (from_brace (output r.1)) with
                | Some data => lift (perf_counters data)
                | None => mret None
                end
      end
  end.
End tools.
