(* ===== verification/Disasm.v ===== *)
(** * objdump output (scripts/disassembler.py)

    The text processing of the [Disassembler]: the lines of one function in a
    dump, and the text of its instructions without addresses and bytes.
    Running objdump itself is a parameter of the modules that use it. *)

From Stdlib Require Import Ascii.
From S2P Require Import Prelude PyStr Regex.

Definition SYMBOL_HEADER : re := Eval vm_compute in rx "^[0-9a-f]+ <([^>]+)>:$".
Definition INSN_LINE : re := Eval vm_compute in rx "^\s*[0-9a-f]+:\s+(?:[0-9a-f]{2,8}\s+)*\s*(.*)$".

(** The symbol a line is the header of. *)
Definition header_symbol (line : string) : option string :=
  (fun x => group x 1) <$> re_match SYMBOL_HEADER (strip line).

Definition is_header_of (function line : string) : bool :=
  match header_symbol line with
  | Some n => (n =s? function) || (n =s? "_" +:+ function)
  | None => false
  end.

(** The loop over the enumerated lines: [start] and [end]. *)
Fixpoint find_bounds (function : string) (i : nat) (lines : list string) (start : option nat)
  : option nat * option nat :=
  match lines with
  | [] => (start, None)
  | line :: lines =>
      match header_symbol line with
      | None => find_bounds function (S i) lines start
      | Some _ =>
          if is_header_of function line then find_bounds function (S i) lines (Some i)
          else match start with
               | Some _ => (start, Some i)
               | None => find_bounds function (S i) lines start
               end
      end
  end.

Definition extract_function (dis function : string) : option string :=
  let lines := splitlines dis in
  match find_bounds function 0 lines None with
  | (None, _) => None
  | (Some s, e) => Some (join nl (drop s (take (default (length lines) e) lines)))
  end.

Definition normalize_line (line : string) : list string :=
  match re_match INSN_LINE line with
  | Some x => [strip (group x 1)]
  | None => match header_symbol line with Some _ => [strip line] | None => [] end
  end.
Definition normalize (dis : string) : string := join nl (splitlines dis ≫= normalize_line).

(** ** The lines of a function *)

Section bounds.
Context (function : string).
Notation no_header := (Forall (fun l => header_symbol l = None)).

(** What [find_bounds] has established when it has passed the lines [pre]. *)
Definition started (pre : list string) (start : option nat) : Prop :=
  match start with
  | None => Forall (fun l => is_header_of function l = false) pre
  | Some s => exists before h body,
      pre = before ++ h :: body /\ length before = s /\ is_header_of function h = true /\ no_header body
  end.

Lemma no_header_of l : header_symbol l = None -> is_header_of function l = false.
Proof. unfold is_header_of. by intros ->. Qed.

Lemma started_snoc pre start l :
  started pre start -> header_symbol l = None -> started (pre ++ [l]) start.
Proof.
  destruct start as [s|]; cbn [started].
  - intros (before & h & body & -> & Hs & Hh & Hb) Hl. exists before, h, (body ++ [l]).
    rewrite <- app_assoc. split; [done|]. split; [done|]. split; [done|]. apply Forall_app; auto.
  - intros Hp Hl. apply Forall_app. split; [done|]. constructor; [by apply no_header_of|done].
Qed.

Lemma find_bounds_spec lines : forall pre start, started pre start ->
  match find_bounds function (length pre) lines start with
  | (None, _) => Forall (fun l => is_header_of function l = false) (pre ++ lines)
  | (Some s, e) => exists before h body post,
      pre ++ lines = before ++ h :: body ++ post /\ length before = s /\ is_header_of function h = true
      /\ no_header body
      /\ match e with
         | None => post = []
         | Some e => e = (s + S (length body))%nat
             /\ exists h' post', post = h' :: post' /\ is_Some (header_symbol h') /\ is_header_of function h' = false
         end
  end.
Proof.
  induction lines as [|l lines IH]; intros pre start Hst; cbn [find_bounds].
  - rewrite app_nil_r. destruct start as [s|]; [|done]. destruct Hst as (before & h & body & -> & Hs & Hh & Hb).
    exists before, h, body, []. by rewrite app_nil_r.
  - assert (forall start', started (pre ++ [l]) start' ->
      match find_bounds function (S (length pre)) lines start' with
      | (None, _) => Forall (fun l => is_header_of function l = false) (pre ++ l :: lines)
      | (Some s, e) => exists before h body post,
          pre ++ l :: lines = before ++ h :: body ++ post /\ length before = s /\ is_header_of function h = true
          /\ no_header body
          /\ match e with
             | None => post = []
             | Some e => e = (s + S (length body))%nat
                 /\ exists h' post', post = h' :: post' /\ is_Some (header_symbol h') /\ is_header_of function h' = false
             end
      end) as IH'.
    { intros start' H. specialize (IH _ _ H). rewrite length_app, Nat.add_1_r, <- app_assoc in IH. exact IH. }
    destruct (header_symbol l) as [n|] eqn:El.
    + destruct (is_header_of function l) eqn:Eh.
      * apply IH'. by exists pre, l, [].
      * destruct start as [s|].
        -- destruct Hst as (before & h & body & -> & Hs & Hh & Hb). exists before, h, body, (l :: lines).
           split; [by rewrite <- app_assoc|]. split; [done|]. split; [done|]. split; [done|].
           rewrite length_app. cbn [length]. split; [lia|]. by exists l, lines.
        -- apply IH'. apply Forall_app. split; [done|]. by repeat constructor.
    + apply IH'. by apply started_snoc.
Qed.
End bounds.

(** [Disassembler.extract_function] returns the text from a header line of
    the function (its name, or the name with the Mach-O underscore) up to the
    next symbol header or the end of the dump, with no other header inside;
    and [None] exactly when no line is a header of the function. *)
Theorem extract_function_spec dis function :
  match extract_function dis function with
  | None => Forall (fun l => is_header_of function l = false) (splitlines dis)
  | Some text => exists before h body post,
      splitlines dis = before ++ h :: body ++ post
      /\ text = join nl (h :: body)
      /\ is_header_of function h = true
      /\ Forall (fun l => header_symbol l = None) body
      /\ (post = [] \/ exists h' post', post = h' :: post' /\ is_header_of function h' = false /\ is_Some (header_symbol h'))
  end.
Proof.
  unfold extract_function. pose proof (find_bounds_spec function (splitlines dis) [] None (Forall_nil_2 _)) as H.
  cbn [length app] in H. destruct (find_bounds function 0 (splitlines dis) None) as [[s|] e]; [|done].
  destruct H as (before & h & body & post & -> & <- & Hh & Hb & He). exists before, h, body, post.
  split; [done|]. split; [|split; [done|split; [done|]]].
  - f_equal. destruct e as [e|]; cbn [default].
    + destruct He as [-> _].
      replace (before ++ h :: body ++ post) with ((before ++ h :: body) ++ post) by (by rewrite <- app_assoc).
      rewrite take_app_length' by (rewrite length_app; done). by rewrite drop_app_length.
    + subst post. rewrite app_nil_r, firstn_all. by rewrite drop_app_length.
  - destruct e; [|by left]. right. destruct He as [_ (h' & post' & -> & ? & ?)]. by exists h', post'.
Qed.

(** ** A consequence of the byte pattern

    [add], [adc] and [fadd] are runs of hexadecimal digits followed by a
    blank: the pattern for the instruction bytes takes them too. *)
Definition tab : string := String TAB "".
Lemma normalize_drops_mnemonic :
  normalize ("   4: 9a020020 " +:+ tab +:+ "adc" +:+ tab +:+ "x0, x1, x2")
  = normalize ("   4: 8b020020 " +:+ tab +:+ "add" +:+ tab +:+ "x0, x1, x2")
  /\ normalize ("   4: cb020020 " +:+ tab +:+ "sub" +:+ tab +:+ "x0, x1, x2")
     = "sub" +:+ tab +:+ "x0, x1, x2".
Proof. split; vm_compute; reflexivity. Qed.
