(* ===== verification/Strategy.v ===== *)
(** * Optimisation strategies (scripts/strategy.py)

    The metrics of a candidate, the hard constraints and the accept decision,
    the connection of a strategy's target to the measured workload, and the
    factory.  The profile document and the source tree are arguments. *)

From Stdlib Require Import Ascii SpecFloat.
From S2P Require Import Prelude PyInt PyStr Regex AsmParse Abi RegPressure PyFloat Disasm.

(** ** Metrics *)

Record Metrics : Type := mkMetrics {
  runtime_ns : option float;
  instruction_count : option Z;
  load_count : option Z;
  store_count : option Z;
  save_restore_count : option Z;
  peak_register_pressure : option Z;
  stack_bytes : option Z;
  binary_size : option Z;
  extra : list (string * float);
  heap_ok : bool;
  constant_time_ok : bool
}.

(** The numeric attribute [getattr(self, name)], when there is one. *)
Definition int_field (m : Metrics) (name : string) : option Z :=
  if name =s? "instruction_count" then instruction_count m else
  if name =s? "load_count" then load_count m else
  if name =s? "store_count" then store_count m else
  if name =s? "save_restore_count" then save_restore_count m else
  if name =s? "peak_register_pressure" then peak_register_pressure m else
  if name =s? "stack_bytes" then stack_bytes m else
  if name =s? "binary_size" then binary_size m else None.

Definition get (m : Metrics) (name : string) : result (option float) :=
  match (if name =s? "runtime_ns" then runtime_ns m else None), int_field m name with
  | Some x, _ => Ret (Some x)
  | None, Some n => Some <$> float_of_int n
  | None, None => Ret (dict_get (extra m) name)
  end.

Record AcceptDecision : Type := mkDecision {
  keep : bool;
  rule : string;
  metric : option string;
  reason : string
}.

Definition render (d : AcceptDecision) : string := "[" +:+ rule d +:+ "] " +:+ reason d.

(** ** Metric collection *)

Definition LOAD_RE : re := Eval vm_compute in
  rx "^(ldr|ldp|ldur|ldnp|ld1|ld2|ld3|ld4|ldar|ldxr|ldaxr|ldpsw|ldrsw|ldrsb|ldrsh)\w*\b".
Definition STORE_RE : re := Eval vm_compute in rx "^(str|stp|stur|stnp|st1|st2|st3|st4|stlr|stxr|stlxr)\w*\b".

Definition nonempty (s : string) : bool := negb (s =s? "").
Definition count_lines (f : string -> bool) (l : list string) : Z := Z.of_nat (length (filter (fun x => f x = true) l)).

(** The instruction lines of a normalised dump. *)
Definition insn_lines (disassembly : string) : list string :=
  filter (fun ln => nonempty ln && negb (endswith ":" (rstrip ln)) = true) (splitlines (normalize disassembly)).

Definition instruction_counts (disassembly : option string) : option Z * option Z * option Z :=
  match disassembly with
  | None | Some "" => (None, None, None)
  | Some d =>
      let insns := insn_lines d in
      (Some (Z.of_nat (length insns)),
       Some (count_lines (fun ln => matches LOAD_RE (strip ln)) insns),
       Some (count_lines (fun ln => matches STORE_RE (strip ln)) insns))
  end.

Definition register_metrics (files : tree) (linux : bool) (function : string) : option Z * option Z * option Z :=
  match List.find (fun info => fi_name info =s? function) (collect files linux).1 with
  | Some info => (Some (Z.of_nat (peak info)), Some (Z.of_nat (save_restore info)), Some (frame info))
  | None => (None, None, None)
  end.

Definition find_region (files : tree) (linux : bool) (function : string) : option Region :=
  dict_get (by_name (index_source files linux)) function.

(** ** Heuristic constraints *)

Definition BRANCH_RE : re := Eval vm_compute in rx "^(b\.\w+|cbz|cbnz|tbz|tbnz)\b".

Definition branch_signature (disassembly : option string) : option (list string) :=
  match disassembly with
  | None | Some "" => None
  | Some d => Some (first_word <$> filter (fun ln => nonempty ln && matches BRANCH_RE (strip ln) = true)
                                    (splitlines (normalize d)))
  end.

Definition constant_time_violation (baseline_dis candidate_dis : option string) : option string :=
  match branch_signature baseline_dis, branch_signature candidate_dis with
  | Some base, Some cand =>
      if (length base <? length cand)%nat
      then Some ("candidate has " +:+ str_nat (length cand) +:+ " conditional branch(es) vs the current best's "
                 +:+ str_nat (length base) +:+ " -- cannot prove secret-independent control flow is preserved")
      else None
  | _, _ => None
  end.

Definition HEAP_CALL_RE : re := Eval vm_compute in rx "\bble?\s+_?(malloc|calloc|realloc|mmap)\b".

Definition heap_calls (src : string) : gset string :=
  list_to_set ((fun x => group x 1) <$> re_finditer HEAP_CALL_RE src).

Definition heap_violation (baseline_src candidate_src : string) : option string :=
  match sorted_set (heap_calls candidate_src ∖ heap_calls baseline_src) with
  | [] => None
  | new_calls => Some ("candidate calls " +:+ join ", " new_calls +:+ ", which the baseline never did")
  end.

(** ** The workload connection *)

Definition PROFILE_DOCS : list string := ["HISTORY.md"].
Definition SHARE_RE : re := Eval vm_compute in rx "(\d+(?:\.\d+)?)\s*%".

(** One line of a profile document: the percentage of a matching row. *)
Definition row_share (keyword line : string) : option string :=
  if negb (startswith "|" line) || negb (contains (lower keyword) (lower line)) then None else
  match strip <$> split_char "|" (strip_chars "|" (strip line)) with
  | [_; _; cell] => (fun x => group x 1) <$> re_search SHARE_RE cell
  | _ => None
  end.

Fixpoint first_share (keyword : string) (lines : list string) : option string :=
  match lines with
  | [] => None
  | line :: lines => match row_share keyword line with Some s => Some s | None => first_share keyword lines end
  end.

(** [docs name] is the text of [workdir/docs/name], if the file exists. *)
Definition profile : Type := string -> option string.
Fixpoint docs_share (keyword : string) (workdir : profile) (docs : list string) : option string :=
  match docs with
  | [] => None
  | doc :: docs =>
      match workdir doc with
      | None => docs_share keyword workdir docs
      | Some text => match first_share keyword (splitlines text) with
                     | Some s => Some s
                     | None => docs_share keyword workdir docs
                     end
      end
  end.
Definition workload_share (keyword : string) (workdir : profile) (docs : list string) : result (option float) :=
  match docs_share keyword workdir docs with
  | Some s => Some <$> float_of_string s
  | None => Ret None
  end.

(** ** Strategies *)

(** The classes, with the fields of their own. *)
Inductive strategy_class : Type :=
| BaseStrategy
| SpeedStrategy
| RegisterPressureStrategy
| CryptoStrategy (workload_bench_name workload_label : string)
| GenericMetricStrategy (mode : string).

Record Strategy : Type := mkStrategy {
  cls : strategy_class;
  s_name : string;
  s_function : string;
  workload_keyword : option string;
  min_workload_share_pct : option float;
  constant_time : bool
}.

(** [x or 0.0] *)
Definition or_zero (x : option float) : float :=
  match x with Some x => if feqb x fzero then fzero else x | None => fzero end.

(** [Strategy.__init__]: the strategy, if its target is connected. *)
Definition strategy_init (s : Strategy) (workdir : profile) : result Strategy :=
  match workload_keyword s with
  | None => Ret s
  | Some kw =>
      share ← workload_share kw workdir PROFILE_DOCS;
      let required := or_zero (min_workload_share_pct s) in
      let fail have := Raise (StrategyTargetError
        (s_name s +:+ ": " +:+ repr (s_function s) +:+ " is not connected to measured workload -- docs/PROFILE*.MD shows "
         +:+ have +:+ " " +:+ repr kw +:+ " (need >= " +:+ fmt_fixed false 1 required
         +:+ "%). Re-profile first (scripts/profile_workload.py), or pick a strategy/target the profile actually supports.")) in
      match share with
      | None => fail "no row for"
      | Some share =>
          if fltb share required then fail ("only " +:+ fmt_fixed false 1 share +:+ "% for") else Ret s
      end
  end.

Definition required_metrics (s : Strategy) : list string :=
  match cls s with
  | RegisterPressureStrategy => ["runtime_ns"; "save_restore_count"; "instruction_count"; "peak_register_pressure"]
  | CryptoStrategy _ _ => ["runtime_ns"; "workload_runtime_ns"]
  | GenericMetricStrategy mode =>
      if mode =s? "load-store" then ["runtime_ns"; "load_count"; "store_count"] else
      if mode =s? "combined" then ["runtime_ns"; "instruction_count"; "peak_register_pressure"] else
      ["runtime_ns"; "instruction_count"]
  | _ => ["runtime_ns"]
  end.

Definition workload_benchmark_cmd (s : Strategy) : option (list string) :=
  match cls s with
  | CryptoStrategy n _ =>
      Some ["make -s -C scripts/benchmarks bench_" +:+ n; "&&"; "./scripts/benchmarks/_bench_bin/bench_" +:+ n]
  | _ => None
  end.

Definition workload_label (s : Strategy) : string :=
  match cls s with CryptoStrategy _ l => l | _ => "runtime" end.

(** [GenericMetricStrategy._METRICS] *)
Definition METRICS : list (string * string) :=
  [("instruction", "instruction_count"); ("load-store", "load_count"); ("combined", "combined_score")].

Definition primary_metric_name (s : Strategy) : string :=
  match cls s with
  | CryptoStrategy _ _ => "workload_runtime_ns"
  | GenericMetricStrategy mode => default "" (dict_get METRICS mode)
  | _ => "runtime_ns"
  end.

(** [score += n * c] for an optional count *)
Definition add_scaled (n : option Z) (c : float) (score : float) : result float :=
  match n with
  | None => Ret score
  | Some n => x ← float_of_int n; Ret (fadd score (fmul x c))
  end.

Definition combined_score (m : Metrics) : result (option float) :=
  match runtime_ns m with
  | None => Ret None
  | Some score =>
      score ← add_scaled (instruction_count m) (of_decimal 1 2) score;
      score ← add_scaled (peak_register_pressure m) (of_decimal 1 3) score;
      Ret (Some score)
  end.

Definition primary_metric (s : Strategy) (m : Metrics) : result (option float) :=
  match cls s with
  | GenericMetricStrategy mode =>
      if mode =s? "load-store" then
        match load_count m, store_count m with
        | Some l, Some st => Some <$> float_of_int (l + st)
        | _, _ => Ret None
        end
      else if mode =s? "combined" then combined_score m
      else get m (primary_metric_name s)
  | _ => get m (primary_metric_name s)
  end.

(** ** Accept or reject *)

Definition stack_grew (before after : Metrics) : option (Z * Z) :=
  match stack_bytes before, stack_bytes after with
  | Some b, Some a => if b <? a then Some (b, a) else None
  | _, _ => None
  end.

Definition hard_constraints (s : Strategy) (before after : Metrics) : option AcceptDecision :=
  match stack_grew before after with
  | Some (b, a) => Some (mkDecision false "stack-increase" (Some "stack_bytes")
                           ("stack frame grew " +:+ str_z b +:+ " -> " +:+ str_z a +:+ " bytes"))
  | None =>
      if negb (heap_ok after)
      then Some (mkDecision false "heap-increase" None
                   "candidate introduces a heap allocation the baseline did not have")
      else if constant_time s && negb (constant_time_ok after)
      then Some (mkDecision false "constant-time" None "candidate may not preserve constant-time control flow")
      else None
  end.

(** [(before_value - after_value) / before_value * 100.0] *)
Definition improvement_pct (before_value after_value : float) : result float :=
  q ← fdiv (fsub before_value after_value) before_value;
  Ret (fmul q (round_int 100)).

Definition accept (s : Strategy) (before after : Metrics) (min_improvement_pct noise_floor_pct : float)
  : result AcceptDecision :=
  match hard_constraints s before after with
  | Some violation => Ret violation
  | None =>
      let metric_name := primary_metric_name s in
      before_value ← primary_metric s before;
      after_value ← primary_metric s after;
      match before_value, after_value with
      | Some before_value, Some after_value =>
          if feqb before_value fzero
          then Ret (mkDecision false "missing-metric" (Some metric_name)
                      (metric_name +:+ " baseline is zero -- cannot score"))
          else
            improvement ← improvement_pct before_value after_value;
            let required := fmax min_improvement_pct noise_floor_pct in
            if fltb required improvement
            then Ret (mkDecision true "workload-improvement" (Some metric_name)
                        (metric_name +:+ " improved " +:+ fmt_fixed true 3 improvement +:+ "% (> required "
                         +:+ fmt_fixed false 3 required +:+ "%)"))
            else Ret (mkDecision false "no-improvement" (Some metric_name)
                        (metric_name +:+ " changed " +:+ fmt_fixed true 3 improvement +:+ "% (required > "
                         +:+ fmt_fixed false 3 required +:+ "%)"))
      | _, _ => Ret (mkDecision false "missing-metric" (Some metric_name)
                       (metric_name +:+ " unavailable -- cannot score against " +:+ s_name s))
      end
  end.

(** ** The factory *)

Definition speed_strategy (function : string) (workdir : profile) : result Strategy :=
  strategy_init (mkStrategy SpeedStrategy "speed" function None None false) workdir.

Definition register_pressure_strategy (function : string) (workdir : profile) (keyword : string) (share : float)
  : result Strategy :=
  strategy_init (mkStrategy RegisterPressureStrategy "register-pressure" function (Some keyword) (Some share) false)
    workdir.

Definition ghash_strategy (function : string) (workdir : profile) : result Strategy :=
  if negb (function =s? ".Lgcm_ghash_run")
  then Raise (StrategyTargetError ("crypto-ghash: target is .Lgcm_ghash_run (src/crypto/gcm/data.S), not the standalone `ghash` symbol or "
                +:+ repr function))
  else strategy_init
    (mkStrategy (CryptoStrategy "aes_gcm_encrypt"
                   "AES-GCM encrypt throughput (bench_aes_gcm_encrypt runtime; lower is higher throughput)")
       "crypto-ghash" function (Some "AES-GCM") (Some (round_int 1)) true) workdir.

(** The last piece of the message is not an f-string in the source. *)
Definition p256_reduction_strategy (function : string) (workdir : profile) : result Strategy :=
  if negb (function =s? "p256_reduce")
  then Raise (StrategyTargetError "crypto-p256-reduce: target is p256_reduce (src/crypto/p256/sqr_mul.S), not {function!r}")
  else strategy_init
    (mkStrategy (CryptoStrategy "p256_ecdsa_sign_with_k"
                   "P-256 ECDSA sign latency (handshake-cost proxy -- no dedicated handshake microbenchmark exists)")
       "crypto-p256-reduce" function (Some "P-256 reduction") (Some (round_int 1)) true) workdir.

Definition generic_metric_strategy (mode function : string) (workdir : profile) (keyword : string) (share : float)
  : result Strategy :=
  match dict_get METRICS mode with
  | None => Raise (ValueError ("unknown generic strategy mode " +:+ repr mode))
  | Some _ => strategy_init (mkStrategy (GenericMetricStrategy mode) mode function (Some keyword) (Some share) false)
                workdir
  end.

Definition STRATEGY_CHOICES : list string :=
  ["speed"; "algorithm"; "instruction"; "register-pressure"; "load-store"; "crypto"; "combined"].

Definition CRYPTO_STRATEGIES : list (string * (string -> profile -> result Strategy)) :=
  [(".Lgcm_ghash_run", ghash_strategy); ("p256_reduce", p256_reduction_strategy)].

Definition IMPORTANT_RULE : string := String QUOTE "Important rule" +:+ String QUOTE ")".

Definition build_strategy (name function : string) (workdir : profile)
  (workload_keyword : option string) (min_workload_share_pct : option float) : result Strategy :=
  if name =s? "speed" then speed_strategy function workdir else
  if in_table ["algorithm"; "crypto"] name then
    match dict_get CRYPTO_STRATEGIES function with
    | None => Raise (StrategyTargetError
        ("--strategy " +:+ name +:+ " has no strategy registered for " +:+ repr function +:+ "; registered targets: "
         +:+ join ", " (sorted_str (dict_keys CRYPTO_STRATEGIES))
         +:+ ". Add a CryptoStrategy subclass in scripts/strategy.py to add one."))
    | Some c => c function workdir
    end else
  if name =s? "register-pressure" then
    match workload_keyword, min_workload_share_pct with
    | Some kw, Some share => register_pressure_strategy function workdir kw share
    | _, _ => Raise (StrategyTargetError
        ("--strategy register-pressure requires --workload-keyword and --min-workload-share -- a register optimization must be connected to a docs/PROFILE*.MD row, never justified by register count alone (docs/SCRIPTS.md's " +:+ IMPORTANT_RULE))
    end else
  if in_table ["instruction"; "load-store"; "combined"] name then
    match workload_keyword, min_workload_share_pct with
    | Some kw, Some share => generic_metric_strategy name function workdir kw share
    | _, _ => Raise (StrategyTargetError
        ("--strategy " +:+ name +:+ " requires --workload-keyword and --min-workload-share -- a static-metric target must be connected to a docs/PROFILE*.MD row, never justified by its static shape alone (docs/SCRIPTS.md's " +:+ IMPORTANT_RULE))
    end else
  Raise (ValueError ("unknown strategy " +:+ repr name)).

(** ** Accepted candidates *)

Definition ct_ok (s : Strategy) (m : Metrics) : bool := negb (constant_time s) || constant_time_ok m.

Lemma hard_constraints_none s before after :
  hard_constraints s before after = None <->
  stack_grew before after = None /\ heap_ok after = true /\ ct_ok s after = true.
Proof.
  unfold hard_constraints, ct_ok. destruct (stack_grew before after) as [[b a]|]; [naive_solver|].
  destruct (heap_ok after), (constant_time s), (constant_time_ok after); naive_solver.
Qed.

Lemma hard_constraints_keep s before after d : hard_constraints s before after = Some d -> keep d = false.
Proof.
  unfold hard_constraints. destruct (stack_grew before after) as [[b a]|]; [by intros [= <-]|].
  destruct (heap_ok after), (constant_time s), (constant_time_ok after); cbn; naive_solver.
Qed.

(** The improvement is computed: the zero baseline has been excluded. *)
Lemma improvement_pct_ret b a : feqb b fzero = false -> exists q, improvement_pct b a = Ret q.
Proof. intros H. unfold improvement_pct, fdiv. rewrite H. cbn. eauto. Qed.

Lemma improvement_pct_positive b a q :
  positive_float b = true -> improvement_pct b a = Ret q -> positive_float q = true -> fltb a b = true.
Proof.
  intros Hb E Hq. unfold improvement_pct in E. destruct (fdiv (fsub b a) b) as [x|] eqn:Ex; [|done].
  injection E as <-. apply fsub_positive. eapply fdiv_positive; [exact Ex|exact Hb|].
  by apply (fmul_positive x (round_int 100)).
Qed.

(** [accept] keeps a candidate exactly when no hard constraint is violated,
    its metric and the baseline's are available, the baseline's is not zero,
    and the percentage computed is above both thresholds; in every other case
    the decision is a rejection (the computation raises only when a count is
    too large for a double). *)
Theorem accept_keep_iff s before after mi nf b a :
  primary_metric s before = Ret b -> primary_metric s after = Ret a ->
  exists d, accept s before after mi nf = Ret d /\
  (keep d = true <->
     (stack_grew before after = None /\ heap_ok after = true /\ ct_ok s after = true)
     /\ exists bv av q, b = Some bv /\ a = Some av /\ feqb bv fzero = false
        /\ improvement_pct bv av = Ret q /\ fltb (fmax mi nf) q = true).
Proof.
  intros Hb Ha. unfold accept. destruct (hard_constraints s before after) as [v|] eqn:Eh.
  - exists v. split; [done|]. rewrite (hard_constraints_keep _ _ _ _ Eh). split; [done|].
    intros [H _]. apply hard_constraints_none in H. congruence.
  - apply hard_constraints_none in Eh. rewrite Hb, Ha. cbn [mbind result_bind].
    assert (forall d (P : Prop), keep d = false -> ~ P -> (keep d = true <-> P)) as Hrej.
    { intros d P -> HP. by split. }
    destruct b as [b|], a as [a|];
      try (eexists; split; [reflexivity|]; apply Hrej; [done|]; intros [_ (bv & av & q & ? & ? & _)]; discriminate).
    destruct (feqb b fzero) eqn:Ez.
    { eexists; split; [reflexivity|]. apply Hrej; [done|]. intros [_ (bv & av & q & [= <-] & _ & ? & _)]. congruence. }
    destruct (improvement_pct_ret b a Ez) as [q Eq]. rewrite Eq. cbn [mbind result_bind].
    destruct (fltb (fmax mi nf) q) eqn:El; (eexists; split; [reflexivity|]).
    + split; [|done]. intros _. split; [exact Eh|]. by exists b, a, q.
    + apply Hrej; [done|]. intros [_ (bv & av & q' & [= <-] & [= <-] & _ & ? & ?)]. congruence.
Qed.

Definition demo_before : Metrics :=
  mkMetrics (Some (round_int 100)) (Some 40) None None None None (Some 16) None [] true true.
Definition demo_after : Metrics :=
  mkMetrics (Some (round_int 90)) (Some 44) None None None None (Some 16) None [] true true.
Definition demo_strategy : Strategy := mkStrategy SpeedStrategy "speed" "memcpy" None None false.

Lemma accept_keep_iff_witness :
  exists d, accept demo_strategy demo_before demo_after (round_int 5) fzero = Ret d /\
  (keep d = true <->
     (stack_grew demo_before demo_after = None /\ heap_ok demo_after = true /\ ct_ok demo_strategy demo_after = true)
     /\ exists bv av q, Some (round_int 100) = Some bv /\ Some (round_int 90) = Some av /\ feqb bv fzero = false
        /\ improvement_pct bv av = Ret q /\ fltb (fmax (round_int 5) fzero) q = true).
Proof. apply accept_keep_iff; vm_compute; reflexivity. Defined.

Lemma fmax_left x y : fleb fzero x = true -> fleb fzero (fmax x y) = true.
Proof.
  unfold fmax. destruct (fltb x y) eqn:E; [|done]. intros H. pose proof (fltb_positive _ _ H E) as Hy.
  by destruct y as [|[]| |[] ? ?].
Qed.

(** Keeping strictly decreases a positive metric. *)
Lemma accept_below s before after mi nf d bv :
  accept s before after mi nf = Ret d -> keep d = true ->
  fleb fzero mi = true -> primary_metric s before = Ret (Some bv) -> positive_float bv = true ->
  (exists av, primary_metric s after = Ret (Some av) /\ fltb av bv = true)
  /\ stack_grew before after = None /\ heap_ok after = true /\ ct_ok s after = true.
Proof.
  intros Ed Hk Hmi Hb Hp. unfold accept in Ed. destruct (hard_constraints s before after) as [v|] eqn:Eh.
  { injection Ed as ->. rewrite (hard_constraints_keep _ _ _ _ Eh) in Hk. done. }
  apply hard_constraints_none in Eh. split; [|exact Eh]. rewrite Hb in Ed. cbn [mbind result_bind] in Ed.
  destruct (primary_metric s after) as [[av|]|]; cbn [mbind result_bind] in Ed; [|by injection Ed as <-|done].
  exists av. split; [done|]. destruct (feqb bv fzero); [by injection Ed as <-|].
  destruct (improvement_pct bv av) as [q|] eqn:Eq; cbn [mbind result_bind] in Ed; [|done].
  destruct (fltb (fmax mi nf) q) eqn:El; [|by injection Ed as <-].
  eapply improvement_pct_positive; [exact Hp|exact Eq|]. eapply fltb_positive; [|exact El]. by apply fmax_left.
Qed.

(** The floating-point decision is about the metric itself: with
    nonnegative thresholds and a positive baseline, a candidate that is kept
    has a metric strictly below the baseline's, whatever the rounding of the
    percentage, and does not grow the stack, start calling an allocator or,
    for a constant-time target, add conditional branches. *)
Theorem accept_improves s before after mi nf d bv :
  accept s before after mi nf = Ret d -> keep d = true ->
  fleb fzero mi = true -> primary_metric s before = Ret (Some bv) -> positive_float bv = true ->
  (exists av, primary_metric s after = Ret (Some av) /\ fltb av bv = true)
  /\ stack_grew before after = None /\ heap_ok after = true /\ ct_ok s after = true.
Proof. apply accept_below. Qed.

Lemma accept_improves_witness :
  (exists av, primary_metric demo_strategy demo_after = Ret (Some av) /\ fltb av (round_int 100) = true)
  /\ stack_grew demo_before demo_after = None /\ heap_ok demo_after = true /\ ct_ok demo_strategy demo_after = true.
Proof.
  apply (accept_improves demo_strategy demo_before demo_after (round_int 5) fzero
           (mkDecision true "workload-improvement" (Some "runtime_ns")
              "runtime_ns improved +10.000% (> required 5.000%)")); vm_compute; reflexivity.
Defined.

(** ** The factory's results *)

(** A row of a profile document measures the keyword. *)
Definition measured (keyword cell : string) (workdir : profile) : Prop :=
  exists doc text line, doc ∈ PROFILE_DOCS /\ workdir doc = Some text /\ line ∈ splitlines text
    /\ contains (lower keyword) (lower line) = true /\ row_share keyword line = Some cell.

(** The row a strategy of the factory needs: [None] when the arguments name no
    target, [Some None] when no row is needed. *)
Definition required_row (name function : string) (keyword : option string) (share : option float)
  : option (option (string * float)) :=
  if name =s? "speed" then Some None else
  if in_table ["algorithm"; "crypto"] name then
    if function =s? ".Lgcm_ghash_run" then Some (Some ("AES-GCM", round_int 1)) else
    if function =s? "p256_reduce" then Some (Some ("P-256 reduction", round_int 1)) else None
  else match keyword, share with Some k, Some x => Some (Some (k, x)) | _, _ => None end.

Lemma first_share_row keyword lines cell :
  first_share keyword lines = Some cell -> exists line, line ∈ lines /\ row_share keyword line = Some cell.
Proof.
  induction lines as [|l lines IH]; cbn [first_share]; [done|]. destruct (row_share keyword l) eqn:E.
  - intros [= ->]. exists l. split; [left|done].
  - intros H. destruct (IH H) as (line & Hin & ?). exists line. split; [by right|done].
Qed.

Lemma row_share_contains keyword line cell :
  row_share keyword line = Some cell -> contains (lower keyword) (lower line) = true.
Proof.
  unfold row_share. destruct (startswith "|" line), (contains (lower keyword) (lower line)); cbn; done.
Qed.

Lemma docs_share_measured keyword workdir cell :
  docs_share keyword workdir PROFILE_DOCS = Some cell -> measured keyword cell workdir.
Proof.
  unfold PROFILE_DOCS. cbn [docs_share]. destruct (workdir "HISTORY.md") as [text|] eqn:Ew; [|done].
  destruct (first_share keyword (splitlines text)) as [c|] eqn:Es; [|done]. intros [= ->].
  destruct (first_share_row _ _ _ Es) as (line & Hin & Hr). exists "HISTORY.md", text, line.
  split; [left|]. split; [done|]. split; [done|]. split; [by eapply row_share_contains|done].
Qed.

(** What an [__init__] with a keyword does. *)
Definition init_outcome (s : Strategy) (workdir : profile) (keyword : string) (share : float) (r : result Strategy) : Prop :=
  match r with
  | Ret s' => s' = s /\ exists cell x, measured keyword cell workdir /\ float_of_string cell = Ret x
              /\ fltb x (or_zero (Some share)) = false
  | Raise e =>
      match workload_share keyword workdir PROFILE_DOCS with
      | Raise e' => e = e'
      | Ret None => exists msg, e = StrategyTargetError msg
      | Ret (Some x) => fltb x (or_zero (Some share)) = true /\ exists msg, e = StrategyTargetError msg
      end
  end.

Lemma strategy_init_outcome c name function k x ct workdir :
  let s := mkStrategy c name function (Some k) (Some x) ct in
  init_outcome s workdir k x (strategy_init s workdir).
Proof.
  intros s. unfold strategy_init, init_outcome. cbn [workload_keyword min_workload_share_pct s].
  destruct (workload_share k workdir PROFILE_DOCS) as [[v|]|e] eqn:E; cbn [mbind result_bind]; [|eauto|done].
  destruct (fltb v (or_zero (Some x))) eqn:El; [by eauto|]. split; [done|].
  unfold workload_share in E. destruct (docs_share k workdir PROFILE_DOCS) as [cell|] eqn:Ed; [|done].
  exists cell, v. split; [by apply docs_share_measured|]. split; [|done].
  destruct (float_of_string cell); [|done]. by injection E as ->.
Qed.

Lemma choices_table l name :
  in_table l name = true -> forallb (in_table STRATEGY_CHOICES) l = true -> name ∈ STRATEGY_CHOICES.
Proof.
  unfold in_table at 1. intros H1 H2. apply existsb_exists in H1 as (x & Hx & E). apply seqb_true in E. subst x.
  rewrite forallb_forall in H2. specialize (H2 _ Hx). apply existsb_exists in H2 as (y & Hy & E).
  apply seqb_true in E. subst y. by apply list_elem_of_In.
Qed.


(** ** Two consequences of the definitions *)

(** The combined score has no runtime guard: a slower candidate with fewer
    instructions is kept. *)
Lemma combined_accepts_slower :
  let m r n := mkMetrics (Some (round_int r)) (Some n) None None None None None None [] true true in
  let s := mkStrategy (GenericMetricStrategy "combined") "combined" "f" None None false in
  exists d, accept s (m 100 4000) (m 101 3000) fzero (round_int 1) = Ret d /\ keep d = true
  /\ fltb (round_int 100) (round_int 101) = true.
Proof.
  eexists. split; [vm_compute; reflexivity|]. split; vm_compute; reflexivity.
Qed.

(** A tail call to an allocator is not a heap call for the pattern. *)
Lemma heap_tail_call_missed :
  heap_violation "ret" ("    b malloc" +:+ nl) = None /\ is_Some (heap_violation "ret" ("    bl malloc" +:+ nl)).
Proof. split; [vm_compute; reflexivity|]. eexists. vm_compute. reflexivity. Qed.
