(* ===== verification/Optimizer.v ===== *)
(** * The optimisation loop (scripts/optimizer.py)

    Extraction and installation of a function, the context of the prompt, the
    evidence and metrics of the state on disk, and the loop that evaluates the
    candidates.  The world is an interface: processes, HTTP, temporary files,
    the source file, and the files the scripts read.  What the loop prints is
    not modelled; what it archives and records is. *)

From Stdlib Require Import Ascii SpecFloat.
From S2P Require Import Prelude PyInt PyStr Regex AsmParse Abi RegPressure Mutations PyFloat Json Bench Llm Tools.
From S2P Require Disasm Strategy.
Import Strategy (Strategy, Metrics, AcceptDecision, keep, rule, metric, reason, improvement_pct).

(** ** The world *)

Class Workspace (W : Type) := {
  ws_processes :: Processes W;
  ws_http :: Http W;
  ws_temp :: TempFiles W;
  source_text : W -> string;                      (* self.source.read_text() *)
  write_source : string -> W -> W;
  source_tree : W -> tree;                        (* the .S files the parser reads *)
  repo_files : W -> list (string * string);       (* the .S and .c files of src/ and tests/ *)
  object_size : string -> W -> option Z           (* a file's size, when it exists *)
}.

(** The source file is written by the optimiser only. *)
Class WorkspaceLaws (W : Type) `{Workspace W} : Prop := {
  source_write s w : source_text (write_source s w) = s;
  source_spawn sh argv cwd t w : source_text (spawn sh argv cwd t w).2 = source_text w;
  source_http u b t w : source_text (urlopen u b t w).2 = source_text w;
  source_temp n s w : source_text (temp_file n s w).2 = source_text w
}.

(** An entry of [history.json] *)
Record Entry : Type := mkEntry {
  e_iteration : nat;
  e_candidate : nat;
  e_origin : string;
  e_explanation : string;
  e_result : string;
  e_reason : string;
  e_runtime : option float;
  e_improvement : option float;
  e_rule : option string;
  e_metric : option string
}.

(** The JSON object of an entry *)
Definition entry_json (e : Entry) : json :=
  let opt {A} (f : A -> json) (o : option A) := match o with Some x => f x | None => JNull end in
  let present (k : string) (o : option float) := match o with Some x => [(k, JFloat x)] | None => [] end in
  JObj ([("iteration", JInt (Z.of_nat (e_iteration e))); ("candidate", JInt (Z.of_nat (e_candidate e)));
         ("origin", JStr (e_origin e)); ("explanation", JStr (e_explanation e)); ("result", JStr (e_result e));
         ("reason", JStr (e_reason e))]
        ++ present "runtime_ns" (e_runtime e) ++ present "improvement_percent" (e_improvement e)
        ++ [("rule", opt JStr (e_rule e)); ("metric", opt JStr (e_metric e))]).

(** The state of a run: the world, the text files written below the output
    directory (path and text, in order), and the history. *)
Record st (W : Type) : Type := mkSt {
  world : W;
  written : list (string * string);
  history : list Entry
}.
Arguments mkSt {W}. Arguments world {W}. Arguments written {W}. Arguments history {W}.

Definition set_world {W} (w : W) (s : st W) : st W := mkSt w (written s) (history s).
#[global] Instance st_processes W `{Processes W} : Processes (st W) := {
  spawn sh argv cwd t s := let '(o, e, w) := spawn sh argv cwd t (world s) in (o, e, set_world w s)
}.
#[global] Instance st_http W `{Http W} : Http (st W) := {
  urlopen u b t s := let '(r, w) := urlopen u b t (world s) in (r, set_world w s)
}.
#[global] Instance st_temp W `{TempFiles W} : TempFiles (st W) := {
  temp_file n x s := let '(p, w) := temp_file n x (world s) in (p, set_world w s)
}.

(** ** The configuration *)

Record Config : Type := mkConfig {
  source : string;                      (* relative to the work directory *)
  function : string;
  workdir : string;
  outdir : string;
  iterations : nat;
  candidates_per_round : nat;
  llm : option LLM;
  judge : option LLM;
  tests_cmds : list command;
  benchmark_cmd : option command;
  noise_floor_pct : option float;
  rounds : Z;
  abi_check : bool;
  differential_cmd : option command;
  use_mutations : bool;
  min_improvement : float;
  target : string;
  apply_result : bool;
  strategy : Strategy
}.

(** [Optimizer.__init__]: the clamped counts and the default test command. *)
Definition init_config (c : Config) (iterations candidates rounds : Z) (tests : list command) : Config :=
  mkConfig (source c) (function c) (workdir c) (outdir c) (Z.to_nat (Z.max 0 iterations)) (Z.to_nat (Z.max 1 candidates))
    (llm c) (judge c) (match tests with [] => [Text "make -C tests/unit test"] | _ => tests end) (benchmark_cmd c)
    (noise_floor_pct c) (Z.max 1 rounds) (abi_check c) (differential_cmd c) (use_mutations c) (min_improvement c)
    (target c) (apply_result c) (strategy c).

(** ** Extraction and installation *)

Definition GLOBAL_PREFIX_RE : re := Eval vm_compute in rx_m "^[ \t]*\.globa?l[ \t]+".
Definition GLOBAL_LINE_RE : re := Eval vm_compute in rx "^[ \t]*\.globa?l[ \t]+".
Definition FUNCTION_TAIL_RE : re := Eval vm_compute in rx_ms "\b.*?(?=^[ \t]*\.globa?l[ \t]+|\Z)".

Definition function_re (f : string) : re := RSeq GLOBAL_PREFIX_RE (RSeq (re_literal f) FUNCTION_TAIL_RE).
Definition global_re (f : string) : re := RSeq GLOBAL_PREFIX_RE (RSeq (re_literal f) (RWordB false)).
Definition label_re (f : string) : re := RSeq (RBol true) (RSeq (re_literal f) (lit no_flags ":")).

Definition extract_function (files : tree) (linux : bool) (f source_text : string) : result string :=
  match re_search (function_re f) source_text with
  | Some x => Ret (group x 0)
  | None =>
      match Strategy.find_region files linux f with
      | Some region => if contains (r_text region) source_text then Ret (r_text region)
                       else Raise (RuntimeError ("could not locate function " +:+ f))
      | None => Raise (RuntimeError ("could not locate function " +:+ f))
      end
  end.

(** [s.replace(old, new, 1)] for a non-empty [old] *)
Definition replace_first (old new s : string) : string :=
  match partition old s with
  | (a, Some b) => a +:+ new +:+ b
  | (a, None) => a
  end.

Definition install_candidate (files : tree) (linux : bool) (f original_source replacement : string) : result string :=
  function_text ← extract_function files linux f original_source;
  if negb (contains function_text original_source)
  then Raise (CandidateError "function text not found while installing") else
  let repl := strip replacement in
  let repl := if negb (startswith ".L" f) && negb (searches (global_re f) repl)
              then ".global " +:+ f +:+ nl +:+ repl else repl in
  if negb (searches (label_re f) repl)
  then Raise (CandidateError "replacement does not define the expected function label")
  else Ret (replace_first function_text (repl +:+ nl) original_source).

(** ** The context of the prompt *)

Definition header_keys : list string := ["Function Name"; "Description"; "Input"; "Output"; "Clobbered"; "Returns"].

(** The comment lines above the function, nearest first. *)
Fixpoint header_lines (lines : list string) : list string :=
  match lines with
  | [] => []
  | line :: lines =>
      let stripped := strip line in
      if startswith "//" stripped then strip (lstrip_chars "/" stripped) :: header_lines lines
      else if in_strings [".text"; ".align"; ""] stripped then header_lines lines
      else []
  end.

(** The lines before the first that declares or labels the function. *)
Fixpoint lines_before (f : string) (lines : list string) : option (list string) :=
  match lines with
  | [] => None
  | line :: lines =>
      if matches (RSeq GLOBAL_LINE_RE (RSeq (re_literal f) (RWordB false))) line
         || matches (RSeq (RBol false) (RSeq (re_literal f) (lit no_flags ":"))) line
      then Some []
      else (cons line) <$> lines_before f lines
  end.

Definition signature (f source_text : string) : string :=
  match lines_before f (splitlines source_text) with
  | None => "(no header comment found)"
  | Some lines =>
      match filter (fun h => existsb (fun key => contains key h) header_keys = true) (rev (header_lines (rev lines))) with
      | [] => "(no header comment found)"
      | kept => join nl kept
      end
  end.

(** [files] are the [.S] and [.c] files of the two directories, in the order
    the code visits them. *)
Definition call_sites (files : list (string * string)) (f source : string) : string :=
  let found := '(rel, text) ← files;
    '(i, line) ← enumerate 1 (splitlines text);
    if searches (word_re f) line && negb (rel =s? source)
    then [rel +:+ ":" +:+ str_nat i +:+ ": " +:+ take_str 120 (strip line)] else [] in
  match found with [] => "(no other call sites found)" | _ => join nl (take 25 found) end.

(** [str.format] of a template with named fields and plain names. *)
Fixpoint format_fuel (fuel : nat) (t : string) (context : list (string * string)) : result string :=
  match fuel with
  | O => Ret t
  | S fuel =>
      match t with
      | "" => Ret ""
      | String "{" (String "{" t) => r ← format_fuel fuel t context; Ret (String "{" r)
      | String "}" (String "}" t) => r ← format_fuel fuel t context; Ret (String "}" r)
      | String "{" t =>
          match partition "}" t with
          | (name, Some t) => match dict_get context name with
                              | Some v => r ← format_fuel fuel t context; Ret (v +:+ r)
                              | None => Raise KeyError
                              end
          | (_, None) => Raise (ValueError "expected '}' before end of string")
          end
      | String "}" _ => Raise (ValueError "Single '}' encountered in format string")
      | String c t => r ← format_fuel fuel t context; Ret (String c r)
      end
  end.
Definition format_template (t : string) (context : list (string * string)) : result string :=
  format_fuel (S (String.length t)) t context.

(** ** Evidence *)

Record Evidence : Type := mkEvidence {
  ev_disassembly : option string;
  ev_mca : option MCAReport;
  ev_instructions : option nat
}.

(** [x] when it is a non-empty string *)
Definition truthy_str (o : option string) : option string :=
  match o with Some "" => None | o => o end.

Definition disassembly_diff (unified_diff : list string -> list string -> list string)
  (base_dis cand_dis : option string) : string :=
  match truthy_str base_dis, truthy_str cand_dis with
  | Some base, Some cand =>
      let diff := join nl (unified_diff (splitlines (Disasm.normalize base)) (splitlines (Disasm.normalize cand))) in
      if diff =s? "" then "(no instruction-level change)" else diff
  | _, _ => "(disassembly diff unavailable -- is objdump installed?)"
  end.

(** ** The running best *)

Record Best : Type := mkBest {
  best : float;
  best_bench : BenchmarkResult;
  best_metrics : Metrics;
  evid : Evidence;
  accepted_count : nat;
  rejected_count : nat;
  summaries : list string
}.

Definition count_rejected (b : Best) : Best :=
  mkBest (best b) (best_bench b) (best_metrics b) (evid b) (accepted_count b) (S (rejected_count b)) (summaries b).

(** A proposal: where it comes from, its text, and its explanation. *)
Record proposal : Type := mkProposal { origin : string; candidate_src : string; proposal_text : string }.

Definition history_entry (iteration index : nat) (p : proposal) (result reason : string)
  (runtime improvement : option float) (rule metric : option string) : Entry :=
  mkEntry iteration index (origin p) (proposal_text p) result reason runtime improvement rule metric.

Section optimizer.
Context {W : Type} `{Workspace W}.
Context (which : string -> option string).                              (* shutil.which *)
Context (prompts : string -> string).                                   (* the prompt templates *)
Context (unified_diff : list string -> list string -> list string).     (* difflib *)
Context (macros : macros_map) (linux : bool).
Context (cfg : Config).
Abbreviation run := (run (st W)).

Definition get_world {A} (f : W -> A) : run A := fun s => (Ret (f (world s)), s).
Definition read_source : run string := get_world source_text.
Definition put_source (t : string) : run unit := fun s => (Ret (), set_world (write_source t (world s)) s).
Definition add_written (files : list (string * string)) : run unit := fun s =>
  (Ret (), mkSt (world s) (written s ++ files) (history s)).
Definition add_history (e : Entry) : run unit := fun s =>
  (Ret (), mkSt (world s) (written s) (history s ++ [e])).
Definition write_history : run unit := fun s =>
  add_written [(outdir cfg +:+ "/history.json", dumps 0 (JList (entry_json <$> history s)) +:+ nl)] s.

Definition extract (text : string) : run string :=
  files ← get_world source_tree; lift (extract_function files linux (function cfg) text).
Definition install (current replacement : string) : run (result string) :=
  files ← get_world source_tree; mret (install_candidate files linux (function cfg) current replacement).

Definition out_path (sub name : string) : string := outdir cfg +:+ "/" +:+ sub +:+ "/" +:+ name.
Definition object_path (tag : string) : string := out_path ".build" (tag +:+ ".o").

(** *** Measurements of the state on disk *)

Definition compile_tag (tag : string) : run (option string) :=
  r ← compile_object (workdir cfg) (workdir cfg +:+ "/" +:+ source cfg) (object_path tag);
  mret (if success r then Some (object_path tag) else None).

Definition objdump : option string := detect_tool which ["llvm-objdump"; "objdump"].
Definition mca_tool : option string := detect_tool which ["llvm-mca"].

(** The disassembly of the function in a compiled object. *)
Definition object_disassembly (obj : option string) : run (option string) :=
  match obj, objdump with
  | Some obj, Some _ =>
      dis ← disassemble objdump obj;
      mret (Disasm.extract_function (default "" dis) (function cfg))
  | _, _ => mret None
  end.
Definition current_disassembly : run (option string) :=
  obj ← compile_tag "candidate"; object_disassembly obj.

(** [_instruction_count] *)
Definition instruction_count (dis : string) : nat :=
  length (List.filter (fun line => negb (line =s? "") && negb (endswith ":" (rstrip line))) (splitlines (Disasm.normalize dis))).

Definition gather_evidence (function_text : string) : run Evidence :=
  obj ← compile_tag "current";
  dis ← object_disassembly obj;
  mca ← (match mca_tool with
         | Some _ => analyze mca_tool None 100 function_text
         | None => mret None
         end);
  mret (mkEvidence dis mca (instruction_count <$> truthy_str dis)).

Definition benchmark : run (option BenchmarkResult) :=
  match benchmark_cmd cfg with
  | None => mret None
  | Some c => bench_run c (rounds cfg) 600
  end.
Definition run_workload_benchmark : run (option BenchmarkResult) :=
  match Strategy.workload_benchmark_cmd (strategy cfg) with
  | None => mret None
  | Some c => bench_run (Argv c) (rounds cfg) 600
  end.

Definition collect_metrics (disassembly : option string) (bench : BenchmarkResult) (workload : option BenchmarkResult)
  (binary_tag : string) (heap_ok constant_time_ok : bool) : run Metrics :=
  files ← get_world source_tree;
  size ← get_world (object_size (object_path binary_tag));
  let '(instr, loads, stores) := Strategy.instruction_counts disassembly in
  let '(peak, save_restore, frame) := Strategy.register_metrics files linux (function cfg) in
  mret (Strategy.mkMetrics (Some (runtime_ns bench)) instr loads stores save_restore peak frame size
    (match workload with Some w => [("workload_runtime_ns", runtime_ns w)] | None => [] end)
    heap_ok constant_time_ok).

Definition run_tests : run Result := test (workdir cfg) (tests_cmds cfg).
Definition run_differential : run bool :=
  match differential_cmd cfg with
  | None => mret true
  | Some c => r ← compiler_run (workdir cfg) c 1800; mret (success r)
  end.

(** *** Archiving *)

Definition save_candidate (name source_text function_text subdir : string) (disassembly : option string) : run unit :=
  add_written ([(out_path subdir (name +:+ ".S"), source_text);
                (out_path subdir (name +:+ ".function.S"), function_text)]
               ++ match truthy_str disassembly with
                  | Some d => [(out_path subdir (name +:+ ".dis"), d)]
                  | None => []
                  end).

Definition label (iteration index : nat) : string := "iter" +:+ str_nat iteration +:+ "-cand" +:+ str_nat index.

(** A rejection before anything is installed. *)
Definition reject (current : string) (iteration index : nat) (p : proposal) (why : string) (rule : string) (b : Best)
  : run Best :=
  save_candidate (label iteration index) current (candidate_src p) "rejected" None;;
  add_history (history_entry iteration index p "rejected" why None None (Some rule) None);;
  mret (count_rejected b).

(** [_revert], and the count of its caller *)
Definition revert (backup : string) (iteration index : nat) (p : proposal) (why rule : string) (metric : option string)
  (b : Best) : run Best :=
  put_source backup;;
  save_candidate (label iteration index) backup (candidate_src p) "rejected" None;;
  add_history (history_entry iteration index p "rejected" why None None (Some rule) metric);;
  mret (count_rejected b).

(** *** The prompts *)

Definition pct (x : float) : string := fmt_fixed false 3 x +:+ "%".

Definition build_context (function_text : string) (bench : BenchmarkResult) (noise : float) (ev : Evidence)
  : run (list (string * string)) :=
  text ← read_source;
  files ← get_world repo_files;
  mret [("function", function cfg); ("signature", signature (function cfg) text);
    ("call_sites", call_sites files (function cfg) (source cfg)); ("source", function_text);
    ("disassembly", default "(disassembly unavailable -- is objdump installed?)" (truthy_str (ev_disassembly ev)));
    ("instruction_count", match ev_instructions ev with
       | Some n => str_nat n +:+ " instructions (objdump on the assembled object -- exact, zero-noise; not a throughput or scheduling estimate, just a count)"
       | None => "(unavailable -- is objdump installed?)"
       end);
    ("benchmark", "runtime " +:+ fmt_fixed false 2 (runtime_ns bench) +:+ " ns (median of "
       +:+ str_nat (Bench.rounds bench) +:+ " rounds, noise floor " +:+ pct noise +:+ ")");
    ("perf", match detect_tool which ["perf"] with
       | None => "(perf stat unavailable on this platform -- no `perf` command; the objdump instruction count and disassembly above substitute for it)"
       | Some _ => evidence bench
       end);
    ("mca", match ev_mca ev with
       | Some r => mca_summary r
       | None => "(llvm-mca unavailable on this platform -- not installed; the objdump instruction count above substitutes for it)"
       end);
    ("target", target cfg)].

Definition ask_judge (j : LLM) (explanation : string) (ev : Evidence) (tests : Result) (bench : BenchmarkResult)
  (improvement : float) (cand_dis : option string) : run (option (bool * string)) :=
  prompt ← lift (format_template (prompts "review.txt")
    [("function", function cfg); ("explanation", explanation);
     ("diff", disassembly_diff unified_diff (ev_disassembly ev) cand_dis);
     ("tests_result", if success tests then "PASS" else "FAIL"); ("benchmark", evidence bench);
     ("improvement_percent", fmt_fixed true 3 improvement +:+ "%")]);
  results ← generate j prompt 1;
  mret (match results with
        | Some (c :: _) =>
            match extract_json (raw c) with
            | None | Some [] => None
            | Some data => Some (truthy (default (JBool true) (dict_get data "keep")),
                                 py_str (default (JStr "judge rejected") (dict_get data "reason")))
            end
        | _ => None
        end).

(** The judge's verdict on a candidate the strategy would keep. *)
Definition consult (keep : bool) (explanation : string) (ev : Evidence) (tests : Result) (bench : BenchmarkResult)
  (improvement : float) (cand_dis : option string) : run (option (bool * string)) :=
  match keep, judge cfg with
  | true, Some j =>
      up ← available (fun n => is_some (which n)) j;
      if (up : bool) then ask_judge j explanation ev tests bench improvement cand_dis else mret None
  | _, _ => mret None
  end.

(** *** One candidate *)

(** The candidate is kept: the running best and the evidence move to it. *)
Definition keep_candidate (new_source : string) (iteration index : nat) (p : proposal) (bench : BenchmarkResult)
  (improvement : float) (cand_dis : option string) (metrics : Metrics) (why : string) (d : AcceptDecision) (b : Best)
  : run Best :=
  save_candidate (label iteration index) new_source (candidate_src p) "accepted" cand_dis;;
  add_history (history_entry iteration index p "accepted" why (Some (runtime_ns bench)) (Some improvement)
                 (Some (rule d)) (metric d));;
  text ← extract new_source;
  ev ← gather_evidence text;
  mret (mkBest (runtime_ns bench) bench metrics ev (S (accepted_count b)) (rejected_count b)
    (summaries b ++ [label iteration index +:+ " [" +:+ origin p +:+ "]: " +:+ fmt_fixed true 3 improvement +:+ "% ("
                     +:+ fmt_fixed false 2 (runtime_ns bench) +:+ " ns) -- " +:+ proposal_text p])).

(** From the benchmark of an installed candidate to the decision. *)
Definition judge_candidate (backup new_source : string) (noise : float) (iteration index : nat) (p : proposal)
  (tests : Result) (bench : BenchmarkResult) (b : Best) : run Best :=
  improvement ← lift (improvement_pct (best b) (runtime_ns bench));
  cand_dis ← current_disassembly;
  workload ← run_workload_benchmark;
  let heap_ok := negb (is_some (Strategy.heap_violation backup new_source)) in
  let constant_time_ok := negb (Strategy.constant_time (strategy cfg)
    && is_some (Strategy.constant_time_violation (ev_disassembly (evid b)) cand_dis)) in
  metrics ← collect_metrics cand_dis bench workload "candidate" heap_ok constant_time_ok;
  d ← lift (Strategy.accept (strategy cfg) (best_metrics b) metrics (min_improvement cfg) noise);
  verdict ← consult (keep d) (proposal_text p) (evid b) tests bench improvement cand_dis;
  let '(kept, judge_reason) := match verdict with
    | Some (k, r) => (k, r)
    | None => (keep d, "")
    end in
  let why := if judge_reason =s? "" then reason d else judge_reason in
  if (kept : bool)
  then keep_candidate new_source iteration index p bench improvement cand_dis metrics why d b
  else revert backup iteration index p why (rule d) (metric d) b.

(** The gates after the installation, each of which restores the backup. *)
Definition gate_candidate (backup new_source : string) (noise : float) (iteration index : nat) (p : proposal) (b : Best)
  : run Best :=
  put_source new_source;;
  tests ← run_tests;
  if negb (success tests)
  then revert backup iteration index p "correctness failure" "correctness" None b else
  same ← run_differential;
  if negb same then revert backup iteration index p "differential mismatch" "differential" None b else
  bench ← benchmark;
  match bench with
  | None => revert backup iteration index p "benchmark failure" "benchmark-failure" None b
  | Some bench => judge_candidate backup new_source noise iteration index p tests bench b
  end.

Definition evaluate (current_source : string) (noise : float) (iteration index : nat) (p : proposal) (b : Best)
  : run Best :=
  if abi_check cfg && has_errors (check_function macros (candidate_src p) (Some current_source) None)
  then reject current_source iteration index p "ABI violation" "abi" b else
  new_source ← install current_source (candidate_src p);
  match new_source with
  | Raise (CandidateError msg) => reject current_source iteration index p msg "install" b
  | Raise e => raise e
  | Ret new_source => gate_candidate current_source new_source noise iteration index p b
  end.

(** *** The rounds *)

Fixpoint evaluate_all (current_source : string) (noise : float) (iteration index : nat) (ps : list proposal) (b : Best)
  : run Best :=
  match ps with
  | [] => mret b
  | p :: ps => b ← evaluate current_source noise iteration index p b;
               evaluate_all current_source noise iteration (S index) ps b
  end.

Definition llm_proposals (function_text : string) (noise : float) (b : Best) : run (list proposal) :=
  match llm cfg with
  | None => mret []
  | Some l =>
      up ← available (fun n => is_some (which n)) l;
      if negb up then mret [] else
      context ← build_context function_text (best_bench b) noise (evid b);
      prompt ← lift (format_template (prompts "optimize.txt") context);
      results ← generate l prompt (candidates_per_round cfg);
      mret ((fun c => mkProposal "llm" (assembly c) (explanation c)) <$> default [] results)
  end.

Definition mutation_proposals (function_text : string) : list proposal :=
  if use_mutations cfg
  then (fun m => mkProposal ("mutation:" +:+ mc_name m) (mc_source m) (mc_explanation m)) <$> apply_mutations function_text
  else [].

(** The iterations [i], [i + 1], …: [n] of them unless a round proposes nothing. *)
Fixpoint iterate (n i : nat) (noise : float) (b : Best) : run Best :=
  match n with
  | O => mret b
  | S n =>
      current_source ← read_source;
      function_text ← extract current_source;
      from_llm ← llm_proposals function_text noise b;
      match from_llm ++ mutation_proposals function_text with
      | [] => mret b
      | ps =>
          b ← evaluate_all current_source noise i 1 ps b;
          write_history;;
          iterate n (S i) noise b
      end
  end.

(** *** The run *)

Definition summary_text (baseline : float) (b : Best) (improvement : float) : string :=
  join nl (["ARM OPTIMIZER"; "============="; "Function: " +:+ function cfg; "";
    "Baseline: " +:+ fmt_fixed false 2 baseline +:+ " ns"; "Best:     " +:+ fmt_fixed false 2 (best b) +:+ " ns";
    "Improvement: " +:+ fmt_fixed false 3 improvement +:+ "%"; "";
    "Accepted optimizations: " +:+ str_nat (accepted_count b); "Rejected candidates: " +:+ str_nat (rejected_count b);
    ""; "Accepted:"]
    ++ match summaries b with [] => ["  (none)"] | l => (fun s => "  - " +:+ s) <$> l end
    ++ [""; "Correctness tests: PASS (gate for every candidate)"; "ABI checks: static, before compile";
        "Differential tests: " +:+ match differential_cmd cfg with Some _ => "enabled" | None => "not configured" end]).

(** The noise floor, which the first message needs as a number. *)
Definition required_noise : result float :=
  match noise_floor_pct cfg with
  | Some x => Ret x
  | None => Raise (match benchmark_cmd cfg with
      | Some _ => RuntimeError "no noise floor calibrated for this benchmark -- refusing to judge candidates against it. Run scripts/benchmarks/measure_noise_floor.py, or pass --noise-floor explicitly."
      | None => TypeError
      end)
  end.

(** The line that prints the baseline's counters formats both. *)
Definition printable_counters (b : BenchmarkResult) : bool :=
  negb (is_some (dict_get (counters b) "instructions")) || is_some (dict_get (counters b) "cycles").

Definition run_baseline (original : string) : run Best :=
  baseline_text ← extract original;
  save_candidate "baseline" original baseline_text "baseline" None;;
  tests ← run_tests;
  if negb (success tests) then raise (RuntimeError "baseline does not pass the correctness tests") else
  bench ← benchmark;
  match bench with
  | None => raise (RuntimeError "could not establish a baseline benchmark; pass --benchmark")
  | Some bench =>
      ev ← gather_evidence baseline_text;
      add_written [(out_path "baseline" "baseline.dis", default "(disassembly unavailable)" (truthy_str (ev_disassembly ev)));
                   (out_path "baseline" "mca.txt", default "(llvm-mca unavailable)" (mca_summary <$> ev_mca ev));
                   (out_path "baseline" "benchmark.json", dumps 0 (JObj (to_dict bench)) +:+ nl)];;
      workload ← run_workload_benchmark;
      metrics ← collect_metrics (ev_disassembly ev) bench workload "current" true true;
      if negb (printable_counters bench) then raise TypeError else
      mret (mkBest (runtime_ns bench) bench metrics ev 0 0 [])
  end.

(** [optimize], for the text [__init__] read from the source file *)
Definition optimize (original : string) : run Best :=
  noise ← lift required_noise;
  base ← run_baseline original;
  b ← iterate (iterations cfg) 1 noise base;
  improvement ← lift (improvement_pct (best base) (best b));
  add_written [(outdir cfg +:+ "/summary.txt", summary_text (best base) b improvement)];;
  if apply_result cfg then mret b else put_source original;; mret b.
End optimizer.

(** ** Operations that leave the source file and the history alone *)

Create HintDb quiet.

Section quiet.
Context {W : Type} `{HW : Workspace W} {laws : WorkspaceLaws W}.
Abbreviation run := (run (st W)).

Definition quiet {A} (m : run A) : Prop := forall s r s',
  m s = (r, s') -> source_text (world s') = source_text (world s) /\ history s' = history s.

Lemma quiet_ret {A} (x : A) : quiet (mret x).
Proof. by intros s r s' [= _ <-]. Qed.
Lemma quiet_lift {A} (x : result A) : quiet (lift x).
Proof. by intros s r s' [= _ <-]. Qed.
Lemma quiet_raise {A} e : quiet (A := A) (raise e).
Proof. by intros s r s' [= _ <-]. Qed.
Lemma quiet_get {A} (f : W -> A) : quiet (get_world f).
Proof. by intros s r s' [= _ <-]. Qed.
Lemma quiet_add_written l : quiet (add_written l).
Proof. by intros s r s' [= _ <-]. Qed.

Lemma quiet_bind {A B} (m : run A) (f : A -> run B) : quiet m -> (forall x, quiet (f x)) -> quiet (m ≫= f).
Proof.
  intros Hm Hf s r s'. unfold mbind, run_bind. destruct (m s) as [[x|e] s1] eqn:E.
  - intros E2. destruct (Hm _ _ _ E) as [H1 H2], (Hf x _ _ _ E2) as [H3 H4]. split; congruence.
  - intros [= _ <-]. by eapply Hm.
Qed.

Lemma quiet_run_command c cwd t : quiet (run_command c cwd t).
Proof.
  intros s r s'. unfold run_command. destruct (shell_argv c) as [sh argv].
  change (spawn sh argv cwd t s) with
    (let '(o, e, w) := spawn sh argv cwd t (world s) in (o, e, set_world w s)).
  destruct (spawn sh argv cwd t (world s)) as [[o e] w] eqn:E. intros [= _ <-]. split; [|done]. cbn.
  pose proof (source_spawn sh argv cwd t (world s)) as H. by rewrite E in H.
Qed.

Lemma urlopen_quiet u b t (s : st W) o s' :
  urlopen u b t s = (o, s') -> source_text (world s') = source_text (world s) /\ history s' = history s.
Proof.
  change (urlopen u b t s) with (let '(r, w) := urlopen u b t (world s) in (r, set_world w s)).
  destruct (urlopen u b t (world s)) as [o' w] eqn:E. intros [= _ <-]. split; [|done].
  pose proof (source_http u b t (world s)) as H. by rewrite E in H.
Qed.

Lemma temp_file_quiet n x (s : st W) o s' :
  temp_file n x s = (o, s') -> source_text (world s') = source_text (world s) /\ history s' = history s.
Proof.
  change (temp_file n x s) with (let '(p, w) := temp_file n x (world s) in (p, set_world w s)).
  destruct (temp_file n x (world s)) as [p w] eqn:E. intros [= _ <-]. split; [|done].
  pose proof (source_temp n x (world s)) as H. by rewrite E in H.
Qed.

End quiet.

(** Split an operation into its primitive steps. *)
Ltac quiet_step :=
  match goal with
  | |- quiet (mret _) => apply quiet_ret
  | |- quiet (lift _) => apply quiet_lift
  | |- quiet (raise _) => apply quiet_raise
  | |- quiet (get_world _) => apply quiet_get
  | |- quiet (add_written _) => apply quiet_add_written
  | |- quiet (run_command _ _ _) => apply quiet_run_command
  | |- quiet (mbind _ _) => apply quiet_bind; [|intros ?]
  | |- quiet (match ?x with _ => _ end) => destruct x
  | |- quiet (let '(_, _) := ?x in _) => destruct x
  end.
Ltac quiet_all := repeat first [solve [eauto 3 with quiet] | quiet_step | progress cbn beta].

Section quiet_operations.
Context {W : Type} `{HW : Workspace W} {laws : WorkspaceLaws W}.
Abbreviation quiet := (quiet (W := W)).

Lemma quiet_test wd cs : quiet (test wd cs).
Proof. induction cs as [|c cs IH]; cbn [test]; unfold compiler_run; quiet_all. Qed.

Lemma quiet_bench_run c n t : quiet (bench_run c n t).
Proof.
  assert (forall k samples last, quiet (bench_rounds k c t samples last)) as H.
  { induction k as [|k IH]; intros samples last; cbn [bench_rounds]; unfold bench_round; quiet_all. }
  unfold bench_run. quiet_all.
Qed.

Lemma quiet_http_round l p : quiet (http_round l p).
Proof.
  intros s r s'. unfold http_round. destruct (urlopen _ _ _ s) as [o s1] eqn:E. apply urlopen_quiet in E.
  destruct o as [[st body]|]; [|by intros [= _ <-]]. destruct (loads body) as [[]|]; try (by intros [= _ <-]).
  destruct (default _ _); by intros [= _ <-].
Qed.

Lemma quiet_available wh l : quiet (available wh l).
Proof.
  intros s r s'. unfold available. destruct (backend l); [|by intros [= _ <-]].
  destruct (urlopen _ _ _ s) as [o s1] eqn:E. apply urlopen_quiet in E. by intros [= _ <-].
Qed.

Lemma quiet_generate l p n : quiet (generate l p n).
Proof.
  assert (forall round results, quiet round -> quiet (generate_loop n round results)) as H.
  { induction n as [|n IH]; intros round results Hr; cbn [generate_loop]; quiet_all. }
  unfold generate. apply H. destruct (backend l); [apply quiet_http_round|]. unfold command_round. quiet_all.
Qed.

Lemma quiet_disassemble tool obj : quiet (disassemble tool obj).
Proof. unfold disassemble. quiet_all. Qed.

Lemma quiet_analyze tool mcpu n text : quiet (analyze tool mcpu n text).
Proof.
  unfold analyze. destruct tool as [tool|]; [|apply quiet_ret]. intros s r s'.
  destruct (temp_file _ _ s) as [path s1] eqn:E. apply temp_file_quiet in E as [E1 E2].
  assert (forall cpus, quiet (mca_loop tool path n cpus)) as H.
  { induction cpus as [|c cpus IH]; cbn [mca_loop]; quiet_all. }
  intros E. destruct (H _ _ _ _ E) as [H1 H2]. split; congruence.
Qed.
End quiet_operations.
#[export] Hint Resolve quiet_test quiet_bench_run quiet_http_round quiet_available quiet_generate quiet_disassemble
  quiet_analyze quiet_add_written : quiet.

(** ** The steps of the loop *)

Section loop.
Context {W : Type} `{HW : Workspace W} {laws : WorkspaceLaws W}.
Context (which : string -> option string) (prompts : string -> string)
  (unified_diff : list string -> list string -> list string) (macros : macros_map) (linux : bool) (cfg : Config).
Abbreviation quiet := (quiet (W := W)).
Abbreviation evaluate := (evaluate which prompts unified_diff macros linux cfg).
Abbreviation evaluate_all := (evaluate_all which prompts unified_diff macros linux cfg).
Abbreviation iterate := (iterate which prompts unified_diff macros linux cfg).
Abbreviation optimize := (optimize which prompts unified_diff macros linux cfg).

Lemma quiet_extract t : quiet (extract linux cfg t).
Proof. unfold extract. quiet_all. Qed.
Lemma quiet_install t r : quiet (install linux cfg t r).
Proof. unfold install. quiet_all. Qed.
Lemma quiet_compile_tag tag : quiet (compile_tag cfg tag).
Proof. unfold compile_tag, compile_object, compiler_run. quiet_all. Qed.
Lemma quiet_object_disassembly obj : quiet (object_disassembly which cfg obj).
Proof. unfold object_disassembly. quiet_all. Qed.
#[local] Hint Resolve quiet_extract quiet_install quiet_compile_tag quiet_object_disassembly : quiet.
Lemma quiet_current_disassembly : quiet (current_disassembly which cfg).
Proof. unfold current_disassembly. quiet_all. Qed.
Lemma quiet_gather_evidence t : quiet (gather_evidence which cfg t).
Proof. unfold gather_evidence. quiet_all. Qed.
Lemma quiet_benchmark : quiet (benchmark cfg).
Proof. unfold benchmark. quiet_all. Qed.
Lemma quiet_workload : quiet (run_workload_benchmark cfg).
Proof. unfold run_workload_benchmark. quiet_all. Qed.
Lemma quiet_collect_metrics d b w t h c : quiet (collect_metrics linux cfg d b w t h c).
Proof. unfold collect_metrics. quiet_all. Qed.
Lemma quiet_run_tests : quiet (run_tests cfg).
Proof. unfold run_tests. quiet_all. Qed.
Lemma quiet_run_differential : quiet (run_differential cfg).
Proof. unfold run_differential, compiler_run. quiet_all. Qed.
Lemma quiet_save_candidate n s f d x : quiet (save_candidate cfg n s f d x).
Proof. unfold save_candidate. quiet_all. Qed.
Lemma quiet_ask_judge j e ev ts b i c : quiet (ask_judge prompts unified_diff cfg j e ev ts b i c).
Proof. unfold ask_judge. quiet_all. Qed.
#[local] Hint Resolve quiet_current_disassembly quiet_gather_evidence quiet_benchmark quiet_workload quiet_collect_metrics
  quiet_run_tests quiet_run_differential quiet_save_candidate quiet_ask_judge : quiet.
Lemma quiet_consult k e ev ts b i c : quiet (consult which prompts unified_diff cfg k e ev ts b i c).
Proof. unfold consult. quiet_all. Qed.
Lemma quiet_build_context t b n e : quiet (build_context which cfg t b n e).
Proof. unfold build_context, read_source. quiet_all. Qed.
#[local] Hint Resolve quiet_consult quiet_build_context : quiet.
Lemma quiet_llm_proposals t n b : quiet (llm_proposals which prompts cfg t n b).
Proof. unfold llm_proposals. quiet_all. Qed.
Lemma quiet_run_baseline t : quiet (run_baseline which linux cfg t).
Proof. unfold run_baseline. quiet_all. Qed.
#[local] Hint Resolve quiet_llm_proposals quiet_run_baseline : quiet.

Lemma bind_inv {A B} (m : run (st W) A) (f : A -> run (st W) B) s y s' :
  (m ≫= f) s = (Ret y, s') -> exists x s1, m s = (Ret x, s1) /\ f x s1 = (Ret y, s').
Proof. unfold mbind, run_bind. destruct (m s) as [[x|e] s1]; [eauto|done]. Qed.

Lemma lift_inv {A} (x : result A) (s : st W) y s' : lift x s = (Ret y, s') -> x = Ret y /\ s' = s.
Proof. unfold lift. by intros [= -> ->]. Qed.

(** Split a successful sequence at its first operation. *)
Ltac next H x s1 E := apply bind_inv in H as (x & s1 & E & H).

(** *** What the gates establish about a text *)

Definition tests_pass (t : string) : Prop := exists s1 r s2,
  source_text (world s1) = t /\ run_tests cfg s1 = (Ret r, s2) /\ success r = true.
Definition differential_passes (t : string) : Prop := exists s1 s2,
  source_text (world s1) = t /\ run_differential cfg s1 = (Ret true, s2).
Definition measured (t : string) (bench : BenchmarkResult) : Prop := exists s1 s2,
  source_text (world s1) = t /\ benchmark cfg s1 = (Ret (Some bench), s2).

(** The text [t], installed over [cur] for the proposal [p], went through every
    gate and replaced the best [b] by [b']. *)
Record gated (cur : string) (noise : float) (p : proposal) (b b' : Best) (t : string) : Prop := {
  g_abi : abi_check cfg = true -> has_errors (check_function macros (candidate_src p) (Some cur) None) = false;
  g_install : exists files, install_candidate files linux (function cfg) cur (candidate_src p) = Ret t;
  g_tests : tests_pass t;
  g_differential : differential_passes t;
  g_measured : measured t (best_bench b');
  g_best : best b' = runtime_ns (best_bench b');
  g_accept : exists d, Strategy.accept (strategy cfg) (best_metrics b) (best_metrics b') (min_improvement cfg) noise = Ret d
    /\ keep d = true
}.

(** What an evaluation that returns did. *)
Inductive outcome_of (cur : string) (noise : float) (it ix : nat) (p : proposal) (b : Best) (s : st W)
  : Best -> st W -> Prop :=
| outcome_rejected e s' :
    history s' = history s ++ [e] -> e_result e = "rejected" -> e_iteration e = it -> e_candidate e = ix ->
    source_text (world s') = cur \/ source_text (world s') = source_text (world s) ->
    outcome_of cur noise it ix p b s (count_rejected b) s'
| outcome_accepted e b' s' :
    history s' = history s ++ [e] -> e_result e = "accepted" -> e_iteration e = it -> e_candidate e = ix ->
    accepted_count b' = S (accepted_count b) -> rejected_count b' = rejected_count b ->
    gated cur noise p b b' (source_text (world s')) ->
    outcome_of cur noise it ix p b s b' s'.

Lemma reject_outcome cur noise it ix p why rule b s b' s' :
  reject cfg cur it ix p why rule b s = (Ret b', s') -> outcome_of cur noise it ix p b s b' s'.
Proof.
  unfold reject. intros H. next H u s1 E1. apply quiet_save_candidate in E1 as [H1 H2].
  next H v s2 E2. injection E2 as _ <-. injection H as <- <-.
  eapply outcome_rejected; cbn [history world]; [by rewrite H2|done..|by right].
Qed.

Lemma revert_outcome cur noise it ix p why rule m b s0 s b' s' :
  history s = history s0 ->
  revert cfg cur it ix p why rule m b s = (Ret b', s') -> outcome_of cur noise it ix p b s0 b' s'.
Proof.
  intros Hh. unfold revert. intros H. next H u s1 E1. injection E1 as _ <-. next H v s2 E2.
  apply quiet_save_candidate in E2 as [H1 H2]. next H x s3 E3. injection E3 as _ <-. injection H as <- <-.
  eapply outcome_rejected; cbn [history world] in *; [by rewrite H2, <- Hh|done..|].
  left. rewrite H1. cbn. apply source_write.
Qed.

Lemma keep_outcome new_source it ix p bench i dis ms why d b s b' s' :
  keep_candidate which linux cfg new_source it ix p bench i dis ms why d b s = (Ret b', s') ->
  exists e ev l, history s' = history s ++ [e] /\ e_result e = "accepted" /\ e_iteration e = it /\ e_candidate e = ix
  /\ source_text (world s') = source_text (world s)
  /\ b' = mkBest (runtime_ns bench) bench ms ev (S (accepted_count b)) (rejected_count b) l.
Proof.
  unfold keep_candidate. intros H. next H u s1 E1. apply quiet_save_candidate in E1 as [H1 H2].
  next H v s2 E2. injection E2 as _ <-. next H t s3 E3. apply quiet_extract in E3 as [H3 H4].
  next H ev s4 E4. apply quiet_gather_evidence in E4 as [H5 H6]. injection H as <- <-. cbn [history world] in *.
  eexists _, ev, _. split; [by rewrite H6, H4, H2|]. split; [done|]. split; [done|]. split; [done|]. split; [congruence|done].
Qed.

(** The judge is consulted about candidates the strategy keeps only. *)
Lemma consult_keep k e ev ts b i c s v s' :
  consult which prompts unified_diff cfg k e ev ts b i c s = (Ret (Some v), s') -> k = true.
Proof. unfold consult. by destruct k. Qed.

Lemma judge_outcome cur new noise it ix p ts bench b s0 s b' s' :
  history s = history s0 -> source_text (world s) = new ->
  (abi_check cfg = true -> has_errors (check_function macros (candidate_src p) (Some cur) None) = false) ->
  (exists files, install_candidate files linux (function cfg) cur (candidate_src p) = Ret new) ->
  tests_pass new -> differential_passes new -> measured new bench ->
  judge_candidate which prompts unified_diff linux cfg cur new noise it ix p ts bench b s = (Ret b', s') ->
  outcome_of cur noise it ix p b s0 b' s'.
Proof.
  intros Hh Hs Habi Hi Ht Hd Hm. unfold judge_candidate. intros H.
  next H i s1 E1. apply lift_inv in E1 as [_ ->]. next H dis s2 E2. apply quiet_current_disassembly in E2 as [H1 H2].
  next H wl s3 E3. apply quiet_workload in E3 as [H3 H4]. next H ms s4 E4. apply quiet_collect_metrics in E4 as [H5 H6].
  next H d s5 E5. apply lift_inv in E5 as [Ed ->]. next H v s6 E6.
  pose proof (quiet_consult _ _ _ _ _ _ _ _ _ _ E6) as [H7 H8].
  assert (forall k w, match v with Some (k, r) => (k, r) | None => (keep d, "") end = (k, w) -> k = true -> keep d = true) as Hk.
  { intros k w. destruct v as [[k' r]|]; [|by intros [= <- _]]. intros _ _. by eapply consult_keep. }
  destruct (match v with Some (k, r) => (k, r) | None => (keep d, "") end) as [k w].
  destruct k; [|by eapply revert_outcome; [|exact H]; congruence].
  apply keep_outcome in H as (e & ev & l & He & Hres & Hit & Hix & Hsrc & ->).
  eapply outcome_accepted; [rewrite He; f_equal; congruence|done..|].
  assert (source_text (world s') = new) as -> by congruence. constructor; try done. cbn. eauto.
Qed.

Lemma evaluate_outcome cur noise it ix p b s b' s' :
  evaluate cur noise it ix p b s = (Ret b', s') -> outcome_of cur noise it ix p b s b' s'.
Proof.
  unfold evaluate, Optimizer.evaluate. destruct (abi_check cfg && _) eqn:Ea; [apply reject_outcome|].
  intros H. next H r s1 E1. pose proof (quiet_install _ _ _ _ _ E1) as [H1 H2].
  unfold install in E1. next E1 files s2 E2. injection E1 as Er _.
  destruct r as [new|[]]; try done.
  2: { apply (reject_outcome _ noise) in H. destruct H as [? ? Hh|? ? ? Hh]; econstructor; rewrite ?Hh; try done; congruence. }
  unfold gate_candidate in H. next H u s3 E3. injection E3 as _ <-.
  next H ts s4 E4. pose proof (quiet_run_tests _ _ _ E4) as [H3 H4]. cbn [history world set_world] in H3, H4.
  rewrite source_write in H3.
  destruct (success ts) eqn:Ets; cbn [negb] in H; [|by eapply revert_outcome; [|exact H]; congruence].
  next H same s5 E5. pose proof (quiet_run_differential _ _ _ E5) as [H5 H6].
  destruct same; cbn [negb] in H; [|by eapply revert_outcome; [|exact H]; congruence].
  next H bench s6 E6. pose proof (quiet_benchmark _ _ _ E6) as [H7 H8].
  destruct bench as [bench|]; [|by eapply revert_outcome; [|exact H]; congruence].
  eapply judge_outcome; [| | | | | | |exact H].
  - congruence.
  - congruence.
  - intros Hc. by rewrite Hc in Ea.
  - by exists files.
  - eexists _, ts, s4. split; [|by split]. cbn. apply source_write.
  - exists s4, s5. split; [congruence|done].
  - exists s5, s6. split; [congruence|done].
Qed.

(** *** Rounds and runs *)

(** A text the run may leave in the source file: the original, or a text that
    went through the tests, the differential run and the benchmark. *)
Definition vetted (original t : string) : Prop :=
  tests_pass t /\ (t = original \/ (differential_passes t /\ exists bench, measured t bench)).

(** The strategy keeps the second metrics against the first. *)
Definition better (noise : float) (m m' : Metrics) : Prop :=
  exists d, Strategy.accept (strategy cfg) m m' (min_improvement cfg) noise = Ret d /\ keep d = true.

Definition count_result (what : string) (es : list Entry) : nat :=
  length (filter (fun e => e_result e = what) es).

Lemma count_single what e : count_result what [e] = if e_result e =s? what then 1%nat else O.
Proof.
  unfold count_result. rewrite filter_cons, filter_nil. destruct (decide (e_result e = what)) as [->|H].
  - by rewrite seqb_refl.
  - by rewrite (proj2 (seqb_false _ _) H).
Qed.

Record progress (original : string) (noise : float) (b0 : Best) (s0 : st W) (b : Best) (s : st W) : Prop := {
  pr_source : vetted original (source_text (world s));
  pr_history : exists es, history s = history s0 ++ es
    /\ accepted_count b = (accepted_count b0 + count_result "accepted" es)%nat
    /\ rejected_count b = (rejected_count b0 + count_result "rejected" es)%nat
    /\ length es = (count_result "accepted" es + count_result "rejected" es)%nat;
  pr_chain : exists n, accepted_count b = (accepted_count b0 + n)%nat
    /\ nsteps (better noise) n (best_metrics b0) (best_metrics b)
}.

Lemma progress_refl original noise b s : vetted original (source_text (world s)) -> progress original noise b s b s.
Proof.
  intros H. constructor; [done| |].
  - exists []. rewrite app_nil_r. cbn. split; [done|]. lia.
  - exists O. split; [lia|constructor].
Qed.

Lemma progress_trans original noise b0 s0 b1 s1 b2 s2 :
  progress original noise b0 s0 b1 s1 -> progress original noise b1 s1 b2 s2 -> progress original noise b0 s0 b2 s2.
Proof.
  intros [_ (es1 & H1 & A1 & R1 & L1) (n1 & N1 & C1)] [V (es2 & H2 & A2 & R2 & L2) (n2 & N2 & C2)].
  constructor; [done| |].
  - exists (es1 ++ es2). rewrite H2, H1, app_assoc. split; [done|]. unfold count_result in *.
    rewrite !list.filter_app, !length_app. lia.
  - exists (n1 + n2)%nat. split; [lia|]. by eapply nsteps_trans.
Qed.

Lemma outcome_progress original cur noise it ix p b s b' s' :
  vetted original cur -> vetted original (source_text (world s)) ->
  outcome_of cur noise it ix p b s b' s' -> progress original noise b s b' s'.
Proof.
  intros Hcur Hs [e s1 Hh Hr _ _ Hsrc|e b1 s1 Hh Hr _ _ Ha Hj G].
  - constructor.
    + by destruct Hsrc as [-> | ->].
    + exists [e]. rewrite !count_single, Hr. cbn. split; [done|]. lia.
    + exists O. cbn. split; [lia|constructor].
  - constructor.
    + split; [apply G|]. right. split; [apply G|]. exists (best_bench b1). apply G.
    + exists [e]. rewrite !count_single, Hr. cbn. split; [done|]. lia.
    + exists 1%nat. split; [lia|]. apply nsteps_once. by destruct G.
Qed.

Lemma evaluate_all_progress original cur noise it ps : forall ix b s b' s',
  vetted original cur -> vetted original (source_text (world s)) ->
  evaluate_all cur noise it ix ps b s = (Ret b', s') -> progress original noise b s b' s'.
Proof.
  induction ps as [|p ps IH]; intros ix b s b' s' Hc Hs.
  - intros [= <- <-]. by apply progress_refl.
  - intros H. unfold evaluate_all in *. cbn [Optimizer.evaluate_all] in H. next H b1 s1 E.
    pose proof (outcome_progress original _ _ _ _ _ _ _ _ _ Hc Hs (evaluate_outcome _ _ _ _ _ _ _ _ _ E)) as Hp.
    eapply progress_trans; [exact Hp|]. eapply IH; [done|apply Hp|exact H].
Qed.

Lemma quiet_progress original noise b s s1 b' s' :
  source_text (world s1) = source_text (world s) /\ history s1 = history s ->
  progress original noise b s1 b' s' -> progress original noise b s b' s'.
Proof. intros [H1 H2] [V (es & He & HA) C]. constructor; [done| |done]. exists es. by rewrite He, H2. Qed.

Lemma progress_quiet original noise b s b' s1 s' :
  source_text (world s') = source_text (world s1) /\ history s' = history s1 ->
  progress original noise b s b' s1 -> progress original noise b s b' s'.
Proof. intros [H1 H2] [V (es & He & HA) C]. constructor; [by rewrite H1| |done]. exists es. by rewrite H2, He. Qed.

Lemma iterate_progress original noise n : forall i b s b' s',
  vetted original (source_text (world s)) ->
  iterate n i noise b s = (Ret b', s') -> progress original noise b s b' s'.
Proof.
  induction n as [|n IH]; intros i b s b' s' Hs.
  - intros [= <- <-]. by apply progress_refl.
  - unfold iterate in *. cbn [Optimizer.iterate]. intros H. next H cur s1 E1. injection E1 as <- <-.
    next H ft s1 E1. apply quiet_extract in E1. next H ps s2 E2. apply quiet_llm_proposals in E2.
    assert (source_text (world s2) = source_text (world s) /\ history s2 = history s) as Hq by (split; destruct E1, E2; congruence).
    assert (vetted original (source_text (world s2))) as Hs2 by (by rewrite (proj1 Hq)).
    eapply quiet_progress; [exact Hq|].
    destruct (ps ++ mutation_proposals cfg ft) as [|p0 ps0]; [injection H as <- <-; by apply progress_refl|].
    next H b1 s3 E3. apply (evaluate_all_progress original) in E3; [|done|done].
    next H u s4 E4. eapply progress_trans; [eapply progress_quiet; [|exact E3]; apply (quiet_add_written _ _ _ _ E4)|].
    eapply IH; [|exact H]. rewrite (proj1 (quiet_add_written _ _ _ _ E4)). apply E3.
Qed.

Lemma run_baseline_ok original s b s' :
  source_text (world s) = original -> run_baseline which linux cfg original s = (Ret b, s') ->
  tests_pass original /\ accepted_count b = O /\ rejected_count b = O.
Proof.
  intros Hs H. unfold run_baseline in H. next H bt s1 E1. apply quiet_extract in E1 as [H1 _].
  next H u s2 E2. apply quiet_save_candidate in E2 as [H2 _]. next H ts s3 E3.
  destruct (success ts) eqn:Et; cbn [negb] in H; [|done]. split.
  - exists s2, ts, s3. split; [congruence|done].
  - next H bench s4 E4. destruct bench as [bench|]; [|done]. next H ev s5 E5. next H v s6 E6. next H wl s7 E7.
    next H ms s8 E8. destruct (negb (printable_counters bench)); [done|]. by injection H as <- _.
Qed.

(** The parts of a run that returns. *)
Lemma optimize_parts original s b s' :
  source_text (world s) = original -> optimize original s = (Ret b, s') ->
  exists noise base s1 s2, required_noise cfg = Ret noise
  /\ run_baseline which linux cfg original s = (Ret base, s1)
  /\ accepted_count base = O /\ rejected_count base = O
  /\ progress original noise base s b s2
  /\ history s' = history s2
  /\ source_text (world s') = (if apply_result cfg then source_text (world s2) else original).
Proof.
  intros Hs H. unfold optimize, Optimizer.optimize in H. next H noise s0 E0. apply lift_inv in E0 as [En ->].
  next H base s1 E1. destruct (run_baseline_ok original _ _ _ Hs E1) as (Ht & Ha & Hr).
  pose proof (quiet_run_baseline _ _ _ _ E1) as Hq.
  next H b1 s2 E2. apply (iterate_progress original) in E2; [|rewrite (proj1 Hq), Hs; split; [done|by left]].
  next H i s3 E3. apply lift_inv in E3 as [_ ->]. next H u s3 E3. pose proof (quiet_add_written _ _ _ _ E3) as [H3 H4].
  apply (quiet_progress original noise base s) in E2; [|done].
  destruct (apply_result cfg).
  - injection H as <- <-. by exists noise, base, s1, s2.
  - next H v s4 E4. injection E4 as _ <-. injection H as <- <-. exists noise, base, s1, s2.
    repeat (split; [done|]). cbn. apply source_write.
Qed.


(** The record of a run is complete: the run appends one history entry per
    evaluated candidate, each accepted or rejected, and the two counts of the
    summary are the numbers of those entries. *)
Theorem optimize_accounts original s b s' :
  source_text (world s) = original -> optimize original s = (Ret b, s') ->
  exists es, history s' = history s ++ es /\ accepted_count b = count_result "accepted" es
    /\ rejected_count b = count_result "rejected" es /\ length es = (accepted_count b + rejected_count b)%nat.
Proof.
  intros Hs H. destruct (optimize_parts original s b s' Hs H) as (noise & base & s1 & s2 & _ & _ & Ha & Hr & Hp & -> & _).
  destruct Hp as [_ (es & He & A & R & L) _]. exists es. rewrite Ha in A. rewrite Hr in R. cbn in A, R.
  split; [done|]. lia.
Qed.

(** C25: the accepted candidates descend: from the baseline's metrics to those
    of the final best there is one step per accepted candidate, each kept by
    the strategy against the one before; so, with a nonnegative threshold,
    each step from a positive metric goes strictly below it, does not grow the
    stack frame, and keeps the heap and constant-time constraints. *)
Theorem optimize_descends original s b s' :
  source_text (world s) = original -> fleb fzero (min_improvement cfg) = true ->
  optimize original s = (Ret b, s') ->
  exists base s1, run_baseline which linux cfg original s = (Ret base, s1)
  /\ nsteps (fun m m' =>
       forall v, Strategy.primary_metric (strategy cfg) m = Ret (Some v) -> positive_float v = true ->
       (exists v', Strategy.primary_metric (strategy cfg) m' = Ret (Some v') /\ fltb v' v = true)
       /\ Strategy.stack_grew m m' = None /\ Strategy.heap_ok m' = true /\ Strategy.ct_ok (strategy cfg) m' = true)
     (accepted_count b) (best_metrics base) (best_metrics b).
Proof.
  intros Hs Hmi H. destruct (optimize_parts original s b s' Hs H) as (noise & base & s1 & s2 & _ & Eb & Ha & _ & Hp & _).
  exists base, s1. split; [exact Eb|]. destruct Hp as [_ _ (n & Hn & Hc)]. rewrite Hn, Ha. cbn [Nat.add].
  clear -Hc Hmi. induction Hc as [m|n m m1 m2 (d & Ed & Hk) _ IH]; [constructor|]. econstructor; [|exact IH].
  intros v Hv Hpos. by eapply Strategy.accept_below.
Qed.
End loop.

(** ** A concrete world

    A source file and the outcomes of the commands, in order. *)

Record toy : Type := mkToy { toy_source : string; toy_runs : list outcome }.
#[local] Instance toy_processes : Processes toy := {
  spawn _ _ _ _ w := match toy_runs w with
                     | o :: os => (o, 1000, mkToy (toy_source w) os)
                     | [] => (Exited 1 "" "", 1000, w)
                     end
}.
#[local] Instance toy_http : Http toy := { urlopen _ _ _ w := (None, w) }.
#[local] Instance toy_temp : TempFiles toy := { temp_file n _ w := ("/tmp/" +:+ n, w) }.
#[local] Instance toy_workspace : Workspace toy := {
  source_text := toy_source;
  write_source t w := mkToy t (toy_runs w);
  source_tree _ := [];
  repo_files _ := [];
  object_size _ _ := None
}.
#[local] Instance toy_laws : WorkspaceLaws toy.
Proof. split; intros; [done|..|done|done]. cbn. by destruct (toy_runs w). Qed.

Definition toy_original : string := ".global f" +:+ nl +:+ "f:" +:+ nl +:+ "    mov x0, #1" +:+ nl +:+ "    ret" +:+ nl.
Definition toy_candidate : string := "f:" +:+ nl +:+ "    movz x0, #1" +:+ nl +:+ "    ret".
Definition toy_config (apply : bool) (n : nat) : Config :=
  mkConfig "src/f.S" "f" "/w" "/w/out" 1 n (Some (make_llm CommandBackend "m" "" ["llm"] 900)) None [Text "make test"]
    (Some (Argv ["./bench"])) (Some (round_int 1)) 1 true None false fzero "m1" apply
    (Strategy.mkStrategy Strategy.SpeedStrategy "speed" "f" None None false).
Definition toy_which (n : string) : option string := if n =s? "llm" then Some "/bin/llm" else None.
Definition ok (out : string) : outcome := Exited 0 out "".
Definition toy_prompts (name : string) : string := "{function}".
Definition toy_diff (a b : list string) : list string := [].
Abbreviation toy_run apply n runs :=
  (optimize toy_which toy_prompts toy_diff [] true (toy_config apply n) toy_original (mkSt (mkToy toy_original runs) [] []))
  (only parsing).

(** Baseline (tests, benchmark, object), then one proposal that is accepted. *)
Definition baseline_runs : list outcome := [ok ""; ok "RESULT_NS=100"; ok ""].
Definition accepted_runs : list outcome := [ok ""; ok "RESULT_NS=90"; ok ""; ok ""].
Definition one_candidate : list outcome := baseline_runs ++ [ok toy_candidate] ++ accepted_runs.
Definition toy_installed : string :=
  ".global f" +:+ nl +:+ toy_candidate +:+ nl.

Example toy_accepts :
  let '(r, s) := toy_run true 1 one_candidate in
  exists b, r = Ret b /\ accepted_count b = 1%nat /\ best b = round_int 90
  /\ source_text (world s) = toy_installed /\ (e_result <$> history s) = ["accepted"].
Proof. vm_compute. eexists. repeat split. Qed.


Lemma optimize_accounts_witness :
  exists b s', toy_run false 1 one_candidate = (Ret b, s') /\
  exists es, history s' = [] ++ es /\ accepted_count b = count_result "accepted" es
    /\ rejected_count b = count_result "rejected" es /\ length es = (accepted_count b + rejected_count b)%nat.
Proof.
  destruct (toy_run false 1 one_candidate) as [[b|e] s'] eqn:E; [|vm_compute in E; discriminate E].
  exists b, s'. split; [reflexivity|].
  exact (optimize_accounts toy_which toy_prompts toy_diff [] true (toy_config false 1)
      toy_original (mkSt (mkToy toy_original one_candidate) [] []) b s' (eq_refl toy_original) E).
Defined.

Lemma optimize_descends_witness :
  exists b s' base s1, toy_run false 1 one_candidate = (Ret b, s') /\ accepted_count b = 1%nat
  /\ run_baseline toy_which true (toy_config false 1) toy_original (mkSt (mkToy toy_original one_candidate) [] []) = (Ret base, s1)
  /\ nsteps (fun m m' =>
       forall v, Strategy.primary_metric (strategy (toy_config false 1)) m = Ret (Some v) -> positive_float v = true ->
       (exists v', Strategy.primary_metric (strategy (toy_config false 1)) m' = Ret (Some v') /\ fltb v' v = true)
       /\ Strategy.stack_grew m m' = None /\ Strategy.heap_ok m' = true
       /\ Strategy.ct_ok (strategy (toy_config false 1)) m' = true)
     (accepted_count b) (best_metrics base) (best_metrics b).
Proof.
  destruct (toy_run false 1 one_candidate) as [[b|e] s'] eqn:E; [|vm_compute in E; discriminate E].
  pose proof E as E'.
  destruct (optimize_descends (HW := toy_workspace) toy_which toy_prompts toy_diff [] true (toy_config false 1)
      toy_original (mkSt (mkToy toy_original one_candidate) [] []) b s' (eq_refl toy_original) (eq_refl true) E') as (base & s1 & Eb & Hn).
  exists b, s', base, s1. split; [reflexivity|]. split; [|split; [exact Eb|exact Hn]].
  vm_compute in E. injection E as <- _. reflexivity.
Defined.

(** ** Two consequences *)

(** The backup of a candidate is the text read at the start of the iteration:
    when a candidate is accepted and the next one of the same iteration is
    rejected, the accepted text is gone from the source file, even with
    [--apply], while the summary still counts it. *)
Lemma accepted_candidate_lost :
  let '(r, s) := toy_run true 2 (baseline_runs ++ [ok toy_candidate; ok toy_candidate] ++ accepted_runs ++ [Exited 1 "" "boom"]) in
  exists b, r = Ret b /\ accepted_count b = 1%nat /\ best b = round_int 90 /\ source_text (world s) = toy_original.
Proof. vm_compute. eexists. repeat split. Qed.

(** An exception after the installation leaves the candidate in the source
    file: with a baseline of zero the improvement divides by zero, before the
    restoration at the end of the run. *)
Lemma candidate_left_on_disk :
  let '(r, s) := toy_run false 1 ([ok ""; ok "RESULT_NS=0"; ok ""; ok toy_candidate; ok ""; ok "RESULT_NS=90"]) in
  r = Raise ZeroDivisionError /\ source_text (world s) = toy_installed.
Proof. vm_compute. split; reflexivity. Qed.
