(* ===== verification/Cli.v ===== *)
(** * The optimiser's command line (scripts/arm-optimize.py)

    From parsed arguments to the configuration of a run: the source file of a
    function, the default tests, benchmark and noise floor, the model backends,
    the strategy, and every refusal on the way.  The argument parser itself is
    not modelled; a refusal of [parser.error] is a [SystemExit] with its
    message.  Paths are texts; [resolve] is the path operation of that name. *)

From Stdlib Require Import Ascii SpecFloat.
From S2P Require Import Prelude PyInt PyStr Regex AsmParse Abi PyFloat Json Bench Llm Tools.
From S2P Require Import Optimizer.
From S2P Require Strategy.

Record Options : Type := mkOptions {
  o_function : option string; o_source : option string; o_list : bool; o_workdir : string; o_out : option string;
  o_iterations : Z; o_candidates : Z; o_rounds : Z;
  o_tests : list string; o_benchmark : list string; o_noise_floor : option float; o_differential : option string;
  o_llm : list string; o_llm_model : string; o_llm_url : string; o_judge_model : option string;
  o_mutate_only : bool; o_no_mutations : bool; o_min_improvement : float; o_target : string; o_strategy : string;
  o_keyword : option string; o_min_share : option float; o_abi_check : bool; o_apply : bool
}.

(** What the script sees of the repository: the files that exist, their texts
    ([None] for an [OSError]), and the sorted [.S] files below [src/]. *)
Record Repo : Type := mkRepo {
  exists_path : string -> bool;
  is_dir : string -> bool;
  read_text : string -> option string;
  asm_files : list (string * option string);
  profile_docs : Strategy.profile
}.

Definition GLOBAL_NAME_RE : re := Eval vm_compute in rx_m "^[ \t]*\.globa?l[ \t]+([A-Za-z0-9_.]+)".

(** An argument that is there: [if x:] on an optional text. *)
Definition given (o : option string) : option string :=
  match o with Some "" => None | o => o end.

(** [list_functions] *)
Definition list_functions (source text : string) : result (list string) :=
  match (fun m => group m 1) <$> re_finditer GLOBAL_NAME_RE text with
  | [] => Raise (SystemExit ("no .global functions found in " +:+ source))
  | functions => Ret functions
  end.

Section cli.
Context (repo : Repo) (resolve : string -> string) (which : string -> bool).

Definition find_source_for_function (workdir function : string) : result string :=
  let matches := omap (fun '(source, text) =>
    match text with
    | Some text => if searches (global_re function) text then Some source else None
    | None => None
    end) (asm_files repo) in
  match matches with
  | [] => Raise (SystemExit ("could not find function " +:+ repr function +:+ " in " +:+ workdir +:+ "/src; pass --source to specify its file"))
  | [source] => Ret source
  | _ => Raise (SystemExit ("function " +:+ repr function +:+ " is defined in multiple files:" +:+ nl
           +:+ join nl ((fun m => "  " +:+ m) <$> matches) +:+ nl +:+ "pass --source to disambiguate"))
  end.

Definition existing (path : string) : option string := if exists_path repo path then Some path else None.
Definition unit_test_source (workdir function : string) : option string :=
  existing (workdir +:+ "/tests/unit/test_" +:+ function +:+ ".c").
Definition benchmark_source (workdir function : string) : option string :=
  existing (workdir +:+ "/scripts/benchmarks/bench_" +:+ function +:+ ".c").
Definition noise_floor_source (workdir function : string) : option string :=
  existing (workdir +:+ "/scripts/benchmarks/bench_" +:+ function +:+ ".noise.json").

Definition default_tests (workdir function : string) (explicit : list string) : list string :=
  match explicit with
  | _ :: _ => explicit
  | [] => match unit_test_source workdir function with
          | Some _ => ["make -C tests/unit build && ./tests/unit/_obj/test_" +:+ function]
          | None => ["make -C tests/unit test"]
          end
  end.

Definition default_benchmark (workdir function : string) : option (list string) :=
  match benchmark_source workdir function with
  | Some _ => Some ["make -s -C scripts/benchmarks bench_" +:+ function; "&&";
                    "./scripts/benchmarks/_bench_bin/bench_" +:+ function]
  | None => None
  end.

Definition default_noise_floor (workdir function : string) : result (option float) :=
  match noise_floor_source workdir function with
  | None => Ret None
  | Some source =>
      match read_text repo source ≫= loads with
      | Some (JObj data) => match dict_get data "noise_floor_pct" with
                            | Some v => float_of_json v
                            | None => Ret None
                            end
      | _ => Ret None
      end
  end.

Definition default_differential : list string := ["python3"; "scripts/differential.py"; "--cases"; "400"].

(** [args.source if args.source.is_absolute() else workdir / args.source] *)
Definition locate (workdir p : string) : string := if startswith "/" p then p else workdir +:+ "/" +:+ p.

(** A path below the work directory, as the optimiser names it. *)
Definition relative_to (workdir p : string) : result string :=
  if startswith (workdir +:+ "/") p then Ret (drop_str (String.length workdir + 1) p)
  else Raise (ValueError (repr p +:+ " is not in the subpath of " +:+ repr workdir)).

Definition find_source (o : Options) (workdir function : string) : result string :=
  match o_source o with
  | Some p =>
      let source := locate workdir p in
      if exists_path repo source then relative_to workdir (resolve source)
      else Raise (SystemExit ("source file not found: " +:+ source))
  | None => find_source_for_function workdir function
  end.

(** ** The models *)

Definition LLM_TIMEOUT : Z := 900.
Definition requested_llm (o : Options) : option LLM :=
  match o_llm o with
  | [] => None
  | "ollama" :: _ => Some (make_llm OllamaHttp (o_llm_model o) (o_llm_url o) [] LLM_TIMEOUT)
  | cmd => Some (make_llm CommandBackend "qwen2.5-coder:7b" "http://localhost:11434" cmd LLM_TIMEOUT)
  end.

Definition judge_for (o : Options) (l : option LLM) : option LLM :=
  match given (o_judge_model o), l with
  | Some model, Some l => Some (make_llm (backend l) model (o_llm_url o) (llm_command l) LLM_TIMEOUT)
  | _, _ => None
  end.

Section models.
Context {W : Type} `{Http W}.

(** The model and whether the rule-based mutations are used. *)
Definition setup_llm (o : Options) : run W (option LLM * bool) :=
  if o_mutate_only o then mret (None, true) else
  let use_mutations := negb (o_no_mutations o) in
  match requested_llm o with
  | Some l => ok ← available which l; mret (if (ok : bool) then Some l else None, use_mutations)
  | None => if use_mutations then mret (None, true)
            else raise (SystemExit "nothing to propose candidates with: pass --llm or remove --no-mutations")
  end.

(** ** The configuration of a run *)

Definition NO_BENCHMARK (function : string) : string :=
  "no benchmark available for " +:+ repr function +:+ "; pass --benchmark, or add scripts/benchmarks/bench_<function>.c (docs/SCRIPTS.md -- there is no wall-clock fallback; a candidate can never be accepted on one)".
Definition NO_NOISE_FLOOR (function : string) : string :=
  "no calibrated noise floor for " +:+ repr function +:+ "; pass --noise-floor <pct>, or run scripts/benchmarks/measure_noise_floor.py first to write scripts/benchmarks/bench_" +:+ function +:+ ".noise.json (docs/SCRIPTS.md -- a benchmark that cannot distinguish the expected improvement must fail closed, not silently accept a result inside the noise band)".

Definition benchmark_for (o : Options) (workdir function : string) : result (list string) :=
  match o_benchmark o, default_benchmark workdir function with
  | (_ :: _) as cmd, _ => Ret cmd
  | [], Some cmd => Ret cmd
  | [], None => Raise (SystemExit (NO_BENCHMARK function))
  end.

Definition noise_floor_for (o : Options) (workdir function : string) : result float :=
  match o_noise_floor o with
  | Some x => Ret x
  | None => x ← default_noise_floor workdir function;
            match x with Some x => Ret x | None => Raise (SystemExit (NO_NOISE_FLOOR function)) end
  end.

Definition differential_for (o : Options) : option command :=
  match given (o_differential o) with
  | None => None
  | Some d => Some (Argv (if d =s? "default" then default_differential else [d]))
  end.

(** A target that is not connected to the workload is a usage error. *)
Definition strategy_for (o : Options) (function : string) : result Strategy.Strategy :=
  match Strategy.build_strategy (o_strategy o) function (profile_docs repo) (o_keyword o) (o_min_share o) with
  | Raise (StrategyTargetError msg) => Raise (SystemExit msg)
  | r => r
  end.

Definition configure (o : Options) (function : string) : run W Config :=
  let workdir := resolve (o_workdir o) in
  if negb (is_dir repo (workdir +:+ "/src"))
  then raise (SystemExit ("--workdir " +:+ workdir +:+ " does not look like the sarm root")) else
  source ← lift (find_source o workdir function);
  let outdir := resolve (match o_out o with Some d => d | None => workdir +:+ "/.arm-optimize" end) in
  models ← setup_llm o;
  let '(l, use_mutations) := (models : option LLM * bool) in
  let tests := default_tests workdir function (o_tests o) in
  bench ← lift (benchmark_for o workdir function);
  noise ← lift (noise_floor_for o workdir function);
  strategy ← lift (strategy_for o function);
  mret (init_config
    (mkConfig source function workdir outdir 0 0 l (judge_for o l) [] (Some (Argv bench)) (Some noise) 0 (o_abi_check o)
       (differential_for o) use_mutations (o_min_improvement o) (o_target o) (o_apply o) strategy)
    (o_iterations o) (o_candidates o) (o_rounds o) (Text <$> tests)).

(** [main] up to the run: the listing, or the configuration. *)
Definition arm_optimize (o : Options) : run W (list string + Config) :=
  if o_list o then
    match o_source o with
    | None => raise (SystemExit "--list-functions requires --source")
    | Some p =>
        let source := locate (resolve (o_workdir o)) p in
        match read_text repo source with
        | None => raise OSError
        | Some text => names ← lift (list_functions source text); mret (inl names)
        end
    end
  else
    match given (o_function o) with
    | None => raise (SystemExit "--function is required")
    | Some function => c ← configure o function; mret (inr c)
    end.

(** The end of [main]: a [RuntimeError] of the loop is status 1. *)
Definition optimize_status {A} (optimize : run W A) : run W Z := fun w =>
  match optimize w with
  | (Ret _, w) => (Ret 0, w)
  | (Raise (RuntimeError _), w) => (Ret 1, w)
  | (Raise e, w) => (Raise e, w)
  end.
End models.
End cli.

(** ** What a configuration guarantees *)

Section guarantees.
Context (repo : Repo) (resolve : string -> string) (which : string -> bool).
Context {W : Type} `{HH : Http W}.

(** The noise floor was passed, or read from the benchmark's calibration. *)
Definition calibrated (o : Options) (workdir function : string) (x : float) : Prop :=
  o_noise_floor o = Some x
  \/ exists path text data v, noise_floor_source repo workdir function = Some path
     /\ read_text repo path = Some text /\ loads text = Some (JObj data)
     /\ dict_get data "noise_floor_pct" = Some v /\ float_of_json v = Ret (Some x).

Lemma noise_floor_calibrated o workdir function x :
  noise_floor_for repo o workdir function = Ret x -> calibrated o workdir function x.
Proof.
  unfold noise_floor_for, calibrated. destruct (o_noise_floor o) as [y|]; [intros [= ->]; by left|].
  intros (z & Hz & H)%bind_Ret_inv. destruct z as [y|]; [|done]. injection H as ->. right.
  unfold default_noise_floor in Hz. destruct (noise_floor_source repo workdir function) as [path|]; [|done].
  destruct (read_text repo path) as [text|] eqn:Et; [|done]. cbn [mbind option_bind] in Hz.
  destruct (loads text) as [[]|] eqn:El; try done. destruct (dict_get d "noise_floor_pct") as [v|] eqn:Ev; [|done].
  by exists path, text, d, v.
Qed.

Lemma find_source_unique workdir function source : find_source_for_function repo workdir function = Ret source ->
  exists text, (source, Some text) ∈ asm_files repo /\ searches (global_re function) text = true.
Proof.
  unfold find_source_for_function. set (f := fun '(source, text) => match text with
    | Some text => if searches (global_re function) text then Some source else None | None => None end).
  destruct (omap f (asm_files repo)) as [|s [|s' l]] eqn:E; [done| |done]. intros [= ->].
  assert (source ∈ omap f (asm_files repo)) as H by (rewrite E; left).
  apply list_elem_of_omap in H as ([s t] & Hin & Hs). cbn in Hs. destruct t as [t|]; [|done].
  destruct (searches (global_re function) t) eqn:Es; [|done]. injection Hs as ->. by exists t.
Qed.

Lemma setup_llm_available o w l m w' : setup_llm which o w = (Ret (l, m), w') ->
  match l with
  | None => True
  | Some l => o_mutate_only o = false /\ requested_llm o = Some l /\ available which l w = (Ret true, w')
  end /\ (o_mutate_only o = true -> m = true) /\ (m = false -> o_no_mutations o = true).
Proof.
  unfold setup_llm. destruct (o_mutate_only o); [by intros [= <- <- _]|].
  destruct (requested_llm o) as [l0|].
  - unfold mbind, run_bind. destruct (available which l0 w) as [[ok|e] w1] eqn:Ea; [|done].
    destruct ok; intros [= <- <- <-]; (split; [done|]); split; try done; by destruct (o_no_mutations o).
  - destruct (o_no_mutations o); [done|]. by intros [= <- <- _].
Qed.

Lemma strategy_for_built o function s : strategy_for repo o function = Ret s ->
  Strategy.build_strategy (o_strategy o) function (profile_docs repo) (o_keyword o) (o_min_share o) = Ret s.
Proof. unfold strategy_for. destruct (Strategy.build_strategy _ _ _ _ _) as [|[]]; congruence. Qed.

Lemma run_bind_inv {A B} (m : run W A) (f : A -> run W B) w y w' : (m ≫= f) w = (Ret y, w') ->
  exists x w1, m w = (Ret x, w1) /\ f x w1 = (Ret y, w').
Proof. unfold mbind, run_bind. destruct (m w) as [[x|e] w1]; [eauto|done]. Qed.
Lemma lift_ret {A} (r : result A) (w : W) x w' : lift r w = (Ret x, w') -> r = Ret x /\ w' = w.
Proof. unfold lift. by intros [= -> ->]. Qed.

End guarantees.

(** ** Witness, and three ways around a message *)

Definition quoted (s : string) : string := String QUOTE s +:+ String QUOTE "".
Definition toy_repo : Repo := mkRepo
  (fun p => in_table ["/r/scripts/benchmarks/bench_memcpy.c"; "/r/scripts/benchmarks/bench_memcpy.noise.json"] p)
  (fun p => p =s? "/r/src")
  (fun p => if endswith ".json" p then Some ("{" +:+ quoted "noise_floor_pct" +:+ ": 0.5}") else None)
  [("src/head.S", Some ".global memcpy_x"); ("src/memcpy.S", Some (".text" +:+ nl +:+ ".global memcpy" +:+ nl +:+ "memcpy:"))]
  (fun _ => None).
#[local] Instance offline : Http unit := { urlopen := fun _ _ _ w => (None, w) }.

Definition toy_options (llm : list string) (judge : option string) (no_mutations : bool) (differential : option string) : Options :=
  mkOptions (Some "memcpy") None false "/r" None 3 0 0 [] [] None differential llm "m" "http://localhost:11434" judge
    false no_mutations fzero "apple-silicon" "speed" None None true false.
Abbreviation toy_run l j n d := (configure toy_repo id (fun _ => true) (toy_options l j n d) "memcpy" ()) (only parsing).
Definition config_of {W} (r : result Config * W) (default : Config) : Config := match r.1 with Ret c => c | Raise _ => default end.
Definition blank : Config :=
  mkConfig "" "" "" "" 0 0 None None [] None None 0 false None false fzero "" false
    (Strategy.mkStrategy Strategy.BaseStrategy "" "" None None false).
Definition toy_cfg : Config := Eval vm_compute in config_of (toy_run [] None false None) blank.


(** An unreachable model with [--no-mutations] is not refused: the run says it
    falls back to the mutations, and has neither. *)
Lemma nothing_to_propose :
  let c := config_of (toy_run ["ollama"] None true None) blank in llm c = None /\ use_mutations c = false /\ source c = "src/memcpy.S".
Proof. vm_compute. done. Qed.

(** With a command as the backend the judge is the same command: the model it
    was to use is not part of what runs. *)
Lemma judge_is_the_proposer :
  let c := config_of (toy_run ["mymodel"; "run"] (Some "other") false None) blank in
  llm_command <$> judge c = Some ["mymodel"; "run"] /\ llm_command <$> judge c = llm_command <$> llm c.
Proof. vm_compute. done. Qed.

(** A differential command with arguments is one word to the shell-less
    subprocess: a program of that name, spaces included. *)
Lemma differential_with_arguments :
  (fun c => shell_argv c) <$> differential_for (toy_options [] None false (Some "python3 mydiff.py --cases 9"))
  = Some (false, ["python3 mydiff.py --cases 9"]).
Proof. vm_compute. done. Qed.
