(* ===== verification/NoiseFloor.v ===== *)
(** * Noise-floor calibration (scripts/benchmarks/measure_noise_floor.py)

    The script that measures the spread of an unchanged benchmark, writes it
    next to the benchmark and judges it; and what the optimiser's command line
    reads back from the file. *)

From Stdlib Require Import Ascii SpecFloat.
From S2P Require Import Prelude PyInt PyStr PyFloat Json JsonText Bench Cli.

(** ** The machine *)

(** [platform.machine()], [sys.platform], the output of [sysctl], and
    [/proc/cpuinfo] when it can be read. *)
Record Platform : Type := mkPlatform { machine : string; sys_platform : string; brand : string; cpuinfo : option string }.

Definition ARM_PARTS : list (Z * string) :=
  [(3340, "Neoverse-N1"); (3392, "Neoverse-V1"); (3401, "Neoverse-N2"); (3407, "Neoverse-V2")].

(** The digits of [int(s, 0)], with single underscores between them. *)
Fixpoint int_digits (base : Z) (s : string) (acc : Z) (prev : bool) : option Z :=
  match s with
  | "" => if prev then Some acc else None
  | String c s =>
      if Ascii.eqb c "_" then if prev then int_digits base s acc false else None
      else match hex_val c with
           | Some d => if d <? base then int_digits base s (base * acc + d) true else None
           | None => None
           end
  end.
Definition int_unsigned (s : string) : option Z :=
  let prefixed base r := if r =s? "" then None else int_digits base r 0 true in
  match s with
  | String z (String p r) as t =>
      if Ascii.eqb z "0" then
        if mem_char p "xX" then prefixed 16 r else if mem_char p "oO" then prefixed 8 r
        else if mem_char p "bB" then prefixed 2 r
        else match int_digits 10 t 0 false with Some 0 => Some 0 | _ => None end
      else int_digits 10 t 0 false
  | t => int_digits 10 t 0 false
  end.
(** [int(s, 0)] *)
Definition int_literal (s : string) : result Z :=
  let bad := Raise (ValueError ("invalid literal for int() with base 0: " +:+ repr s)) in
  let s := strip s in
  match match s with
        | String c r => if Ascii.eqb c "-" then Z.opp <$> int_unsigned r
                        else if Ascii.eqb c "+" then int_unsigned r else int_unsigned s
        | "" => None
        end with
  | Some n => Ret n
  | None => bad
  end.

(** [f"{n:#x}"] *)
Fixpoint hex_text (fuel : nat) (n : N) (acc : string) : string :=
  let acc := String (hex_digit (n mod 16)) acc in
  match fuel with
  | O => acc
  | S fuel => if (n <? 16)%N then acc else hex_text fuel (n / 16) acc
  end.
Definition hex_literal (n : Z) : string :=
  (if n <? 0 then "-" else "") +:+ "0x" +:+ hex_text (N.size_nat (Z.to_N (Z.abs n))) (Z.to_N (Z.abs n)) "".

(** The loop over the lines of [/proc/cpuinfo]. *)
Fixpoint scan_cpuinfo (lines : list string) (part : option Z) : result (option string * option Z) :=
  match lines with
  | [] => Ret (None, part)
  | line :: lines =>
      let '(key, value) := partition ":" line in
      let key := strip key in
      let value := strip (default "" value) in
      if (key =s? "model name") && negb (value =s? "") then Ret (Some value, part) else
      if (key =s? "CPU part") && negb (value =s? "")
      then n ← int_literal value; scan_cpuinfo lines (Some n)
      else scan_cpuinfo lines part
  end.

Definition arm_part (part : Z) : string :=
  default ("ARM part " +:+ hex_literal part) (dict_get ARM_PARTS part).

Definition measured_on (p : Platform) : result string :=
  let arch := machine p in
  if sys_platform p =s? "darwin" then
    let cpu := strip (brand p) in
    Ret ((if cpu =s? "" then "unknown CPU" else cpu) +:+ ", " +:+ arch +:+ ", macOS")
  else if startswith "linux" (sys_platform p) then
    found ← scan_cpuinfo (splitlines (default "" (cpuinfo p))) None;
    let '(cpu, part) := (found : option string * option Z) in
    let cpu := match cpu, part with None, Some part => Some (arm_part part) | cpu, _ => cpu end in
    Ret (default "unknown CPU" cpu +:+ ", " +:+ arch +:+ ", Linux")
  else Ret ("unknown CPU, " +:+ arch +:+ ", " +:+ sys_platform p).

(** ** The statistics *)

(** [min] and [max] of a non-empty list keep the first extreme value. *)
Definition min_of (l : list float) : option float :=
  match l with [] => None | x :: l => Some (for_each l x (fun m y => if fltb y m then y else m)) end.
Definition max_of (l : list float) : option float :=
  match l with [] => None | x :: l => Some (for_each l x fmax) end.

(** [l[i]] *)
Definition nth_item (l : list float) (i : nat) : result float :=
  match l !! i with Some x => Ret x | None => Raise IndexError end.

(** [statistics.quantiles(samples, n=10, method="inclusive")] *)
Definition decile (data : list float) (i : nat) : result float :=
  let j := (i * (length data - 1) / 10)%nat in
  let delta := (i * (length data - 1) mod 10)%nat in
  x ← nth_item data j;
  y ← nth_item data (S j);
  fdiv (fadd (fmul x (round_int (10 - Z.of_nat delta))) (fmul y (round_int (Z.of_nat delta)))) (round_int 10).
Definition deciles (samples : list float) : result (list float) :=
  if (length samples <? 2)%nat then Raise (ValueError "must have at least two data points") else
  let data := sorted_f samples in
  for_result (seq 1 9) [] (fun acc i => d ← decile data i; Ret (acc ++ [d])).

Record Floor : Type := mkFloor { f_median : float; f_p10 : float; f_p90 : float; f_min : float; f_max : float; f_spread : float }.

Definition HUNDRED : float := round_int 100.
Definition noise_floor (samples : list float) : result Floor :=
  med ← median samples;
  match min_of samples, max_of samples with
  | Some lo, Some hi =>
      band ← (if (10 <=? length samples)%nat then
                ds ← deciles samples; p10 ← nth_item ds 0; p90 ← nth_item ds (length ds - 1); Ret (p10, p90)
              else Ret (lo, hi));
      let '(p10, p90) := (band : float * float) in
      spread ← (if feqb med fzero then Ret (S754_infinity false)
                else s ← fdiv (fsub p90 p10) med; Ret (fmul s HUNDRED));
      Ret (mkFloor med p10 p90 lo hi spread)
  | _, _ => Raise (ValueError "min() iterable argument is empty")
  end.

(** [round(x, 4)] *)
Definition round4 (x : float) : float :=
  match x with
  | S754_finite s m e => of_scaled s (Z.to_N (div_half_even (Z.pos m * 10 ^ 4 * 2 ^ Z.max e 0) (2 ^ Z.max (- e) 0))) (-4)
  | x => x
  end.

(** ** The script *)

(** A build of a benchmark (status and outputs), the platform, and the files:
    the benchmark's process runs in the same world. *)
Class Calibration (W : Type) := {
  cal_processes :: Processes W;
  build : string -> W -> (Z * string * string) * W;
  platform : W -> Platform;
  write_text : string -> string -> W -> W;
  repo_of : W -> Repo
}.
Class CalibrationLaws (W : Type) `{Calibration W} : Prop := {
  written_exists p t w : exists_path (repo_of (write_text p t w)) p = true;
  written_text p t w : read_text (repo_of (write_text p t w)) p = Some t
}.

Record Args : Type := mkArgs {
  a_function : option string; a_benchmark : list string; a_rounds : Z; a_out : option string; a_max_pct : float
}.

Section script.
Context {W : Type} `{Calibration W}.
(** The directory of the script *)
Context (here : string).

Definition run_failed (i : nat) (rounds : Z) : string :=
  "benchmark failed on independent run " +:+ str_nat (S i) +:+ "/" +:+ str_z rounds.

(** [measure]: [n] runs are left, and [i] are done. *)
Fixpoint measure_from (n i : nat) (c : command) (rounds : Z) (samples : list float) : run W (list float) :=
  match n with
  | O => mret samples
  | S n => r ← bench_run c 1 600;
           match r with
           | None => raise (SystemExit (run_failed i rounds))
           | Some b => measure_from n (S i) c rounds (samples ++ [runtime_ns b])
           end
  end.
Definition measure (c : command) (rounds : Z) : run W (list float) := measure_from (Z.to_nat rounds) 0 c rounds [].

Definition function_of (a : Args) : string := default "unknown" (given (a_function a)).
Definition build_benchmark (function : string) : run W (list string) := fun w =>
  let '(rc, out, err, w) := build function w in
  if rc =? 0 then (Ret [here +:+ "/_bench_bin/bench_" +:+ function], w)
  else (Raise (SystemExit ("build failed for bench_" +:+ function +:+ ":" +:+ nl +:+ out +:+ err)), w).

Definition payload (function : string) (rounds : Z) (f : Floor) (machine : string) : json :=
  JObj [("function", JStr function); ("noise_floor_pct", JFloat (round4 (f_spread f))); ("rounds", JInt rounds);
        ("median_ns", JFloat (f_median f)); ("p10_ns", JFloat (f_p10 f)); ("p90_ns", JFloat (f_p90 f));
        ("min_ns", JFloat (f_min f)); ("max_ns", JFloat (f_max f)); ("measured_on", JStr machine)].

(** [main], up to the file that is written. *)
Definition calibrate (a : Args) : run W (json * float) :=
  if bool_decide (a_benchmark a = []) && bool_decide (given (a_function a) = None)
  then raise (SystemExit "pass --function or --benchmark") else
  let function := function_of a in
  command ← (match a_benchmark a with [] => build_benchmark function | c => mret c end);
  samples ← measure (Argv command) (a_rounds a);
  f ← lift (noise_floor samples);
  p ← (fun w => (Ret (platform w), w));
  machine ← lift (measured_on p);
  mret (payload function (a_rounds a) f machine, f_spread f).

Definition out_file (a : Args) : string :=
  match a_out a with Some p => p | None => here +:+ "/bench_" +:+ function_of a +:+ ".noise.json" end.
Definition VERDICT_FAIL : exn := SystemExit "1".

(** [main]: the file is written whatever the verdict. *)
Definition noise_main (a : Args) : run W unit :=
  r ← calibrate a;
  let '(data, spread) := (r : json * float) in
  (fun w => (Ret (), write_text (out_file a) (dumps 0 data +:+ nl) w));;
  if fleb (a_max_pct a) spread then raise VERDICT_FAIL else mret ().
End script.

Example int_literal_demo : int_literal "0xd0c" = Ret 3340 /\ int_literal " -0b1_01 " = Ret (-5) /\ int_literal "007" <> Ret 7
  /\ int_literal "0x" <> Ret 0 /\ int_literal "0_0" = Ret 0 /\ int_literal "1_2" = Ret 12.
Proof. vm_compute. done. Qed.
Example measured_demo :
  measured_on (mkPlatform "aarch64" "linux" "" (Some ("processor: 0" +:+ nl +:+ "CPU part" +:+ String TAB ": 0xd40" +:+ nl)))
  = Ret "Neoverse-V1, aarch64, Linux"
  /\ measured_on (mkPlatform "aarch64" "linux" "" (Some "CPU part : 0xd4a")) = Ret "ARM part 0xd4a, aarch64, Linux"
  /\ measured_on (mkPlatform "arm64" "darwin" ("Apple M3" +:+ nl) None) = Ret "Apple M3, arm64, macOS".
Proof. vm_compute. done. Qed.
Example round4_demo : round4 (of_decimal 123456 5) = of_decimal 12346 4 /\ round4 (of_decimal 5 5) = of_decimal 1 4.
Proof. vm_compute. done. Qed.

(** ** The statistics are defined *)

Lemma nth_item_lt l i : (i < length l)%nat -> exists x, nth_item l i = Ret x.
Proof. intros [x Hx]%lookup_lt_is_Some. exists x. unfold nth_item. by rewrite Hx. Qed.

Lemma decile_defined data i : (2 <= length data)%nat -> (i < 10)%nat -> exists d, decile data i = Ret d.
Proof.
  intros Hl Hi. unfold decile. set (n := (length data - 1)%nat).
  assert (i * n / 10 < n)%nat as Hj by (apply Nat.Div0.div_lt_upper_bound; subst n; nia).
  destruct (nth_item_lt data (i * n / 10)) as [x ->]; [subst n; lia|].
  destruct (nth_item_lt data (S (i * n / 10))) as [y ->]; [subst n; lia|]. cbn [mbind result_bind].
  unfold fdiv. change (feqb (round_int 10) fzero) with false. by eexists.
Qed.

(** Nine deciles, whenever there are two samples. *)
Lemma deciles_defined samples : (2 <= length samples)%nat -> exists ds, deciles samples = Ret ds /\ length ds = 9%nat.
Proof.
  intros Hl. unfold deciles. replace (length samples <? 2)%nat with false by (symmetry; by apply Nat.ltb_ge).
  pose proof (Permutation_length (sorted_f_perm samples)) as Hs.
  apply (for_result_ind (fun pre ds => length ds = length pre)); [done|].
  intros pre i post ds E Hd. destruct (decile_defined (sorted_f samples) i) as [d ->]; [lia| |].
  { assert (i ∈ seq 1 9) as [_ ?]%elem_of_seq by (rewrite E; set_solver). lia. }
  eexists. split; [reflexivity|]. rewrite !length_app. cbn. lia.
Qed.

Lemma extremes_defined samples : samples <> [] -> is_Some (min_of samples) /\ is_Some (max_of samples).
Proof. by destruct samples. Qed.

Lemma median_defined samples : samples <> [] -> exists m, median samples = Ret m.
Proof.
  intros H. unfold median. destruct (sorted_f samples) as [|x l] eqn:E.
  { pose proof (sorted_f_perm samples) as Hp. rewrite E in Hp. by apply Permutation_nil in Hp. }
  destruct (Nat.odd _); [by eexists|]. unfold fdiv. change (feqb (round_int 2) fzero) with false. by eexists.
Qed.

(** No sample list but the empty one makes the statistics fail. *)
Lemma noise_floor_defined samples : samples <> [] -> exists f, noise_floor samples = Ret f.
Proof.
  intros H. unfold noise_floor. destruct (median_defined samples H) as [m ->]. cbn [mbind result_bind].
  destruct (extremes_defined samples H) as [[lo ->] [hi ->]].
  assert (forall p10 p90, exists f, (spread ← (if feqb m fzero then Ret (S754_infinity false)
              else s ← fdiv (fsub p90 p10) m; Ret (fmul s HUNDRED)); Ret (mkFloor m p10 p90 lo hi spread)) = Ret f) as Hf.
  { intros p10 p90. unfold fdiv. destruct (feqb m fzero) eqn:E; by eexists. }
  destruct (10 <=? length samples)%nat eqn:Hn; cbn [mbind result_bind]; [|apply Hf]. apply Nat.leb_le in Hn.
  destruct (deciles_defined samples ltac:(lia)) as (ds & -> & Hd). cbn [mbind result_bind].
  destruct (nth_item_lt ds 0 ltac:(lia)) as [p10 ->]. destruct (nth_item_lt ds (length ds - 1) ltac:(lia)) as [p90 ->].
  cbn [mbind result_bind]. apply Hf.
Qed.

(** ** What is measured, written and read back *)

Section roundtrip.
Context {W : Type} `{HC : Calibration W}.

(** Independent runs of one round each, and their runtimes. *)
Inductive independent_runs (c : command) : W -> list float -> W -> Prop :=
| runs_nil w : independent_runs c w [] w
| runs_cons w b w1 l w2 : bench_run c 1 600 w = (Ret (Some b), w1) -> independent_runs c w1 l w2 ->
    independent_runs c w (runtime_ns b :: l) w2.

Lemma measure_runs c rounds n : forall i samples w l w',
  measure_from n i c rounds samples w = (Ret l, w') ->
  exists more, l = samples ++ more /\ length more = n /\ independent_runs c w more w'.
Proof.
  induction n as [|n IH]; intros i samples w l w'; cbn [measure_from].
  - intros [= <- <-]. exists []. rewrite app_nil_r. split; [done|]. split; [done|constructor].
  - unfold mbind, run_bind. destruct (bench_run c 1 600 w) as [[[b|]|] w1] eqn:E; try done.
    intros (more & -> & <- & Hm)%IH. exists (runtime_ns b :: more). rewrite <- app_assoc. split; [done|]. split; [done|].
    by econstructor.
Qed.

(** The command that was run, and the world it was first run in. *)
Definition commanded (here : string) (a : Args) (w : W) (c : list string) (w1 : W) : Prop :=
  match a_benchmark a with
  | [] => build_benchmark here (function_of a) w = (Ret c, w1)
  | cmd => c = cmd /\ w1 = w
  end.

Lemma calibrate_inv here a w data spread w' : calibrate here a w = (Ret (data, spread), w') ->
  exists c w1 samples f on, commanded here a w c w1 /\ independent_runs (Argv c) w1 samples w'
    /\ length samples = Z.to_nat (a_rounds a) /\ noise_floor samples = Ret f /\ measured_on (platform w') = Ret on
    /\ spread = f_spread f /\ data = payload (function_of a) (a_rounds a) f on.
Proof.
  unfold calibrate. destruct (_ && _); [done|]. intros H.
  apply run_bind_inv in H as (c & w1 & Hc & H). apply run_bind_inv in H as (samples & w2 & Hm & H).
  apply run_bind_inv in H as (f & w3 & [Hf ->]%lift_ret & H). apply run_bind_inv in H as (p & w4 & [= <- <-] & H).
  apply run_bind_inv in H as (on & w5 & [Hon ->]%lift_ret & [= <- <- <-]).
  apply measure_runs in Hm as (more & -> & Hlen & Hruns).
  exists c, w1, more, f, on. split; [|done]. unfold commanded. destruct (a_benchmark a); [done|]. by injection Hc as <- <-.
Qed.

(** C34: a calibration is read back as it was measured. When the measurement of
    a function's benchmark succeeds and its record is printable (7-bit texts,
    doubles that their [repr] restores), the script writes the record and
    fails exactly if the spread is at least the bound; after it, either way,
    the optimiser's command line finds the noise floor of the function: the
    spread rounded to four decimals, computed from exactly [--rounds]
    independent one-round runs of one command. *)
Theorem calibration_roundtrip `{HL : !CalibrationLaws W} root a function w data spread w1 :
  given (a_function a) = Some function -> a_out a = None ->
  calibrate (root +:+ "/scripts/benchmarks") a w = (Ret (data, spread), w1) -> printable data = true ->
  exists w', noise_main (root +:+ "/scripts/benchmarks") a w
             = ((if fleb (a_max_pct a) spread then Raise VERDICT_FAIL else Ret ()), w')
  /\ default_noise_floor (repo_of w') root function = Ret (Some (round4 spread))
  /\ exists c w0 samples f, commanded (root +:+ "/scripts/benchmarks") a w c w0
       /\ independent_runs (Argv c) w0 samples w1 /\ length samples = Z.to_nat (a_rounds a)
       /\ noise_floor samples = Ret f /\ spread = f_spread f.
Proof.
  intros Hfun Hout Hcal Hp. pose proof (calibrate_inv _ _ _ _ _ _ Hcal) as (c & w0 & samples & f & on & Hc & Hr & Hl & Hf & _ & Hs & Hd).
  unfold noise_main. unfold mbind at 1, run_bind at 1. rewrite Hcal. unfold mbind, run_bind.
  set (path := out_file _ a). set (text := dumps 0 data +:+ nl). exists (write_text path text w1).
  split; [by destruct (fleb _ _)|]. split; [|by exists c, w0, samples, f].
  assert (noise_floor_source (repo_of (write_text path text w1)) root function = Some path) as E.
  { unfold noise_floor_source, existing. 
    assert (root +:+ "/scripts/benchmarks/bench_" +:+ function +:+ ".noise.json" = path) as ->.
    { unfold path, out_file, function_of. rewrite Hout, Hfun. cbn [default]. by rewrite !string_app_assoc. }
    by rewrite written_exists. }
  unfold default_noise_floor. rewrite E, written_text. cbn [mbind option_bind]. unfold text.
  rewrite loads_dumps by (done || by right). rewrite Hd. unfold payload. rewrite Hs. reflexivity.
Qed.
End roundtrip.

(** ** Witness *)

(** A disk, and the outputs of the runs to come. *)
Definition disk : Type := list (string * string) * list string.
#[local] Instance toy_calibration : Calibration disk := {
  cal_processes := {| spawn _ _ _ _ w := match w.2 with
    | o :: rest => (Exited 0 o "", 1000, (w.1, rest))
    | [] => (Exited 1 "" "no more runs", 1000, w)
    end |};
  build _ w := (0, "", "", w);
  platform _ := mkPlatform "arm64" "darwin" "Apple M3" None;
  write_text p t w := (dict_set w.1 p t, w.2);
  repo_of w := mkRepo (fun p => match dict_get w.1 p with Some _ => true | None => false end) (fun _ => true)
                 (dict_get w.1) [] (fun _ => None)
}.
#[local] Instance toy_calibration_laws : CalibrationLaws disk.
Proof.
  split; intros p t w; cbn [repo_of toy_calibration exists_path read_text write_text fst]; rewrite dict_get_set;
    by destruct (decide (p = p)).
Qed.

Definition toy_runs : list string :=
  (fun x => "RESULT_NS=" +:+ x) <$> ["12.5"; "12.25"; "12.5"; "12.75"; "12.5"; "12.5"; "14"; "12.5"; "12.5"; "12.375"].
Definition toy_args : Args := mkArgs (Some "memcpy") [] 10 None (round_int 2).
Definition toy_result : json * float := Eval vm_compute in
  match (calibrate "/r/scripts/benchmarks" toy_args (([], toy_runs) : disk)).1 with Ret x => x | Raise _ => (JNull, fzero) end.

Lemma calibration_roundtrip_witness :
  fleb (a_max_pct toy_args) toy_result.2 = true
  /\ exists w', noise_main "/r/scripts/benchmarks" toy_args (([], toy_runs) : disk)
             = ((if fleb (a_max_pct toy_args) toy_result.2 then Raise VERDICT_FAIL else Ret ()), w')
  /\ default_noise_floor (repo_of w') "/r" "memcpy" = Ret (Some (round4 toy_result.2))
  /\ exists c w0 samples f, commanded "/r/scripts/benchmarks" toy_args (([], toy_runs) : disk) c w0
       /\ independent_runs (Argv c) w0 samples (([], []) : disk) /\ length samples = Z.to_nat (a_rounds toy_args)
       /\ noise_floor samples = Ret f /\ toy_result.2 = f_spread f.
Proof.
  split; [vm_compute; reflexivity|].
  apply (calibration_roundtrip (HC := toy_calibration) (HL := toy_calibration_laws) "/r" toy_args "memcpy" ([], toy_runs)
           toy_result.1 toy_result.2 ([], []));
    [reflexivity|reflexivity|vm_compute; reflexivity|vm_compute; reflexivity].
Defined.

(** Runs that report [Infinity] have a spread that is not a number: it passes
    every bound, and as a noise floor it asks nothing of a candidate. *)
Lemma infinite_runs_pass bound mini :
  let inf := S754_infinity false in
  f_spread <$> noise_floor [inf; inf; inf] = Ret S754_nan /\ fleb bound S754_nan = false /\ fmax mini S754_nan = mini.
Proof. split; [vm_compute; reflexivity|]. split; unfold fmax, fltb, fleb, fcompare; by destruct bound, mini. Qed.
