(* ===== verification/H2Client.v ===== *)
(** * The HTTP/2 client (tests/h2_browser_sim.py)

    The connection that the correctness scenarios and the workload profiler
    drive the server with: HPACK integers and strings, frames, the reassembly
    of frames from whatever pieces the socket delivers, and the flow-control
    credit a browser gives back.  Bytes are integers; the socket is an
    interface; what is printed is left out. *)

From Stdlib Require Import Ascii SpecFloat.
From S2P Require Import Prelude PyInt PyStr PyFloat Bench.

(** ** Bytes *)

Abbreviation bytes := (list Z).

(** [bytes(l)] *)
Definition to_bytes (l : list Z) : result bytes :=
  if forallb (fun b => (0 <=? b) && (b <? 256)) l then Ret l else Raise (ValueError "bytes must be in range(0, 256)").
(** [text.encode()] *)
Fixpoint encode (s : string) : bytes := match s with "" => [] | String c s => Z.of_N (code c) :: encode s end.

(** Big-endian integers of [n] bytes *)
Fixpoint be (n : nat) (v : Z) : bytes :=
  match n with O => [] | S n => Z.land (Z.shiftr v (8 * Z.of_nat n)) 255 :: be n v end.
Definition from_be (l : bytes) : Z := for_each l 0 (fun v b => 256 * v + b).
(** [struct.pack(">I", v)] and [struct.pack(">H", v)] *)
Definition pack (n : nat) (v : Z) : result bytes :=
  if (0 <=? v) && (v <? 256 ^ Z.of_nat n) then Ret (be n v) else Raise StructError.

(** ** HPACK, the encoding side *)

Fixpoint hpack_rest (fuel : nat) (value : Z) : list Z :=
  match fuel with
  | O => [value]
  | S fuel => if 128 <=? value then Z.lor (Z.land value 127) 128 :: hpack_rest fuel (Z.shiftr value 7) else [value]
  end.
Definition hpack_int (value prefix_bits mask : Z) : result bytes :=
  let limit := Z.shiftl 1 prefix_bits - 1 in
  if value <? limit then to_bytes [Z.lor mask value]
  else to_bytes (Z.lor mask limit :: hpack_rest (Z.to_nat (Z.log2 value)) (value - limit)).

Definition hpack_str (text : string) : result bytes :=
  let raw := encode text in
  n ← hpack_int (Z.of_nat (length raw)) 7 0;
  Ret (n ++ raw).

Definition mask_bits (indexed : bool) : Z * Z := if indexed then (64, 6) else (0, 4).
Definition hpack_field (index : Z) (value : string) (indexed : bool) : result bytes :=
  let '(mask, bits) := mask_bits indexed in
  i ← hpack_int index bits mask; v ← hpack_str value; Ret (i ++ v).
Definition hpack_new_field (name value : string) (indexed : bool) : result bytes :=
  let '(mask, bits) := mask_bits indexed in
  i ← hpack_int 0 bits mask; n ← hpack_str name; v ← hpack_str value; Ret (i ++ n ++ v).

Definition BROWSER_HEADERS : list (string * string) :=
  [("user-agent", "Mozilla/5.0 (Macintosh; Intel Mac OS X 10_15_7) AppleWebKit/605.1.15 (KHTML, like Gecko) Version/27.0 Safari/605.1.15");
   ("cookie", "test=test; Idea-3312c333=6454e962-02e2-4de4-8551-208fa3b614ed");
   ("accept", "*/*");
   ("accept-encoding", "gzip, deflate, br, zstd");
   ("accept-language", "en-AU,en;q=0.9")].

Definition encode_request (path authority : string) (indexing : bool) : result bytes :=
  m ← hpack_field 2 "GET" false;
  s ← hpack_field 6 "https" false;
  p ← hpack_field 4 path false;
  a ← hpack_field 1 authority indexing;
  for_result BROWSER_HEADERS (m ++ s ++ p ++ a) (fun block '(name, value) =>
    f ← hpack_new_field name value indexing; Ret (block ++ f)).

(** ** Frames *)

Definition FRAME_DATA : Z := 0.
Definition FRAME_HEADERS : Z := 1.
Definition FRAME_SETTINGS : Z := 4.
Definition FRAME_GOAWAY : Z := 7.
Definition FRAME_WINDOW_UPDATE : Z := 8.
Definition FLAG_END_STREAM : Z := 1.
Definition FLAG_END_HEADERS : Z := 4.
Definition FLAG_ACK : Z := 1.

Definition frame (ftype flags stream_id : Z) (payload : bytes) : result bytes :=
  len ← pack 4 (Z.of_nat (length payload));
  tf ← to_bytes [ftype; flags];
  sid ← pack 4 stream_id;
  Ret (drop 1 len ++ tf ++ sid ++ payload).
Definition settings_frame (pairs : list (Z * Z)) : result bytes :=
  body ← for_result pairs [] (fun body '(k, v) => a ← pack 2 k; b ← pack 4 v; Ret (body ++ a ++ b));
  frame FRAME_SETTINGS 0 0 body.
Definition window_update (stream_id increment : Z) : result bytes :=
  p ← pack 4 increment; frame FRAME_WINDOW_UPDATE 0 stream_id p.

Definition PREFACE : bytes :=
  let crlf := String "013" nl in encode ("PRI * HTTP/2.0" +:+ crlf +:+ crlf +:+ "SM" +:+ crlf +:+ crlf).

(** ** Connections *)

Inductive received : Type := Chunk (b : bytes) | TimedOut | SslError | ConnectionReset.
(** A TLS connection: opening it, [sendall] ([false] for an error),
    [recv(65536)] with a timeout, and [time.time()]. *)
Class Socket (W : Type) := {
  sock_connect : Z -> W -> bool * W;
  sock_send : bytes -> W -> bool * W;
  sock_recv : float -> W -> received * W;
  sock_close : W -> W;
  sock_time : W -> float
}.

Record Connection : Type := mkConn {
  authority : string; indexing : bool; buf : bytes; next_id : Z;
  paths : list (Z * string); body : list (Z * Z);
  complete : gset Z; headers_seen : gset Z; goaway : option (Z * Z); closed : bool; settings_acked : bool
}.

Section connection.
Context {W : Type} `{HS : Socket W}.

(** A method of a connection: the connection is part of the state. *)
Abbreviation method A := (run (Connection * W) A).
Definition get_conn {A} (f : Connection -> A) : method A := fun s => (Ret (f s.1), s).
Definition set_conn (f : Connection -> Connection) : method unit := fun '(c, w) => (Ret (), (f c, w)).
Definition on_socket {A} (f : W -> A * W) : method A := fun '(c, w) => let '(x, w) := f w in (Ret x, (c, w)).

Definition with_buf (b : bytes) (c : Connection) : Connection :=
  mkConn (authority c) (indexing c) b (next_id c) (paths c) (body c) (complete c) (headers_seen c) (goaway c) (closed c) (settings_acked c).
Definition set_closed (c : Connection) : Connection :=
  mkConn (authority c) (indexing c) (buf c) (next_id c) (paths c) (body c) (complete c) (headers_seen c) (goaway c) true (settings_acked c).
Definition add_body (sid n : Z) (c : Connection) : Connection :=
  mkConn (authority c) (indexing c) (buf c) (next_id c) (paths c) (dict_set (body c) sid (default 0 (dict_get (body c) sid) + n))
    (complete c) (headers_seen c) (goaway c) (closed c) (settings_acked c).
Definition add_headers (sid : Z) (c : Connection) : Connection :=
  mkConn (authority c) (indexing c) (buf c) (next_id c) (paths c) (body c) (complete c) ({[sid]} ∪ headers_seen c) (goaway c) (closed c) (settings_acked c).
Definition set_acked (c : Connection) : Connection :=
  mkConn (authority c) (indexing c) (buf c) (next_id c) (paths c) (body c) (complete c) (headers_seen c) (goaway c) (closed c) true.
Definition set_goaway (last err : Z) (c : Connection) : Connection :=
  mkConn (authority c) (indexing c) (buf c) (next_id c) (paths c) (body c) (complete c) (headers_seen c) (Some (last, err)) true (settings_acked c).
Definition add_complete (sid : Z) (c : Connection) : Connection :=
  mkConn (authority c) (indexing c) (buf c) (next_id c) (paths c) (body c) ({[sid]} ∪ complete c) (headers_seen c) (goaway c) (closed c) (settings_acked c).
Definition add_stream (path : string) (c : Connection) : Connection :=
  mkConn (authority c) (indexing c) (buf c) (next_id c + 2) (dict_set (paths c) (next_id c) path) (dict_set (body c) (next_id c) 0)
    (complete c) (headers_seen c) (goaway c) (closed c) (settings_acked c).

(** [__init__] *)
Definition connect (port initial_window conn_window_update : Z) (indexing : bool) (w : W) : result Connection * W :=
  let '(ok, w) := sock_connect port w in
  if negb ok then (Raise OSError, w) else
  match settings_frame [(3, 100); (4, initial_window)],
        (if conn_window_update =? 0 then Ret [] else window_update 0 conn_window_update) with
  | Ret s, Ret u =>
      let '(ok, w) := sock_send (PREFACE ++ s ++ u) w in
      (if ok then Ret (mkConn ("localhost:" +:+ str_z port) indexing [] 1 [] [] ∅ ∅ None false false) else Raise OSError, w)
  | Raise e, _ | _, Raise e => (Raise e, w)
  end.

Definition request (path : string) : method (Z * bytes) :=
  sid ← get_conn next_id;
  a ← get_conn authority;
  i ← get_conn indexing;
  set_conn (add_stream path);;
  block ← lift (encode_request path a i);
  f ← lift (frame FRAME_HEADERS (Z.lor FLAG_END_HEADERS FLAG_END_STREAM) sid block);
  mret (sid, f).

Definition send (data : bytes) : method unit :=
  c ← get_conn closed;
  if bool_decide (data = []) || (c : bool) then mret () else
  ok ← on_socket (sock_send data);
  if (ok : bool) then mret () else set_conn set_closed.

Fixpoint requests (ps : list string) : method (list Z * bytes) :=
  match ps with
  | [] => mret ([], [])
  | p :: ps => r ← request p; rs ← requests ps;
               mret ((r : Z * bytes).1 :: (rs : list Z * bytes).1, r.2 ++ rs.2)
  end.
Definition get (ps : list string) : method (list Z) :=
  r ← requests ps; send (r : list Z * bytes).2;; mret r.1.

(** One whole frame at the head of the buffer. *)
Record Frame : Type := mkFrame { f_type : Z; f_flags : Z; f_sid : Z; f_payload : bytes }.
Definition parse_frame (b : bytes) : option (Frame * bytes) :=
  if (length b <? 9)%nat then None else
  let len := from_be (take 3 b) in
  if Z.of_nat (length b) <? 9 + len then None else
  Some (mkFrame (b !!! 3%nat) (b !!! 4%nat) (Z.land (from_be (take 4 (drop 5 b))) 2147483647)
          (take (Z.to_nat len) (drop 9 b)), drop (9 + Z.to_nat len) b).

(** END_STREAM on a DATA or HEADERS frame *)
Definition end_stream (f : Frame) : method unit :=
  if negb (Z.land (f_flags f) FLAG_END_STREAM =? 0) && ((f_type f =? FRAME_DATA) || (f_type f =? FRAME_HEADERS))
  then set_conn (add_complete (f_sid f)) else mret ().

(** The body of the loop of [_drain]: [false] to stop. *)
Definition handle_frame (ack_windows : bool) (f : Frame) : method bool :=
  let len := Z.of_nat (length (f_payload f)) in
  let sid := f_sid f in
  if f_type f =? FRAME_DATA then
    set_conn (add_body sid len);;
    (if negb (len =? 0) && ack_windows
     then a ← lift (window_update 0 len); b ← lift (window_update sid len); send (a ++ b) else mret ());;
    end_stream f;; mret true
  else if f_type f =? FRAME_HEADERS then set_conn (add_headers sid);; end_stream f;; mret true
  else if (f_type f =? FRAME_SETTINGS) && negb (Z.land (f_flags f) FLAG_ACK =? 0) then set_conn set_acked;; end_stream f;; mret true
  else if f_type f =? FRAME_GOAWAY then
    set_conn (set_goaway (from_be (take 4 (f_payload f))) (from_be (take 4 (drop 4 (f_payload f)))));; mret false
  else end_stream f;; mret true.

(** [_drain]; every turn shortens the buffer, so its length is fuel enough. *)
Fixpoint drain_loop (fuel : nat) (ack_windows : bool) : method bool :=
  match fuel with
  | O => mret true
  | S fuel =>
      b ← get_conn buf;
      match parse_frame b with
      | None => mret true
      | Some (f, rest) =>
          set_conn (with_buf rest);;
          go ← handle_frame ack_windows f;
          if (go : bool) then drain_loop fuel ack_windows else mret false
      end
  end.
Definition drain (ack_windows : bool) : method bool :=
  b ← get_conn buf; drain_loop (length b) ack_windows.

(** A chunk arrives. *)
Definition feed (ack_windows : bool) (chunk : bytes) : method bool :=
  b ← get_conn buf; set_conn (with_buf (b ++ chunk));; drain ack_windows.

(** [pump] *)
Definition time_now : method float := fun s => (Ret (sock_time s.2), s).
Fixpoint pump_loop (fuel : nat) (deadline : float) (ack_windows : bool) : method unit :=
  match fuel with
  | O => raise OutOfFuel
  | S fuel =>
      t ← time_now;
      c ← get_conn closed;
      if negb (fltb t deadline) || (c : bool) then mret () else
      t ← time_now;
      r ← on_socket (sock_recv (fmax (of_decimal 5 2) (fsub deadline t)));
      match r with
      | TimedOut | SslError => mret ()
      | ConnectionReset | Chunk [] => set_conn set_closed
      | Chunk b => go ← feed ack_windows b;
                   if (go : bool) then pump_loop fuel deadline ack_windows else mret ()
      end
  end.
Definition pump (fuel : nat) (seconds : float) (ack_windows : bool) : method unit :=
  t ← time_now;
  pump_loop fuel (fadd t seconds) ack_windows.

(** [report]: how many of the streams did not complete. *)
Definition report (ids : list Z) (c : Connection) : nat :=
  length (List.filter (fun sid => negb (bool_decide (sid ∈ complete c))) ids).

(** Two methods that raise nothing *)
Lemma set_conn_ret f (s : Connection * W) : set_conn f s = (Ret (), (f s.1, s.2)).
Proof. by destruct s. Qed.
Lemma send_ret data (s : Connection * W) : exists s', send data s = (Ret (), s').
Proof.
  unfold send, mbind, run_bind, get_conn, on_socket. destruct (_ || _); [by eexists|]. destruct s as [c w]. cbn [fst].
  destruct (sock_send data w) as [[] w']; [by eexists|]. rewrite set_conn_ret. by eexists.
Qed.
End connection.
