(* ===== verification/H2Frames.v ===== *)
(** * What the HTTP/2 client sends and reassembles

    Reference decoders for HPACK (RFC 7541) against the client's encoder, the
    frame header against the client's own parser, and reassembly: the state
    after a stream of frames does not depend on the pieces it arrives in. *)

From Stdlib Require Import Ascii SpecFloat.
From S2P Require Import Prelude PyInt PyStr PyFloat Bench H2Client.

(** ** Bytes *)

Definition is_byte (b : Z) : bool := (0 <=? b) && (b <? 256).
Definition are_bytes (l : bytes) : Prop := Forall (fun b => 0 <= b < 256) l.

Lemma are_bytes_bool l : are_bytes l <-> forallb is_byte l = true.
Proof.
  unfold are_bytes. rewrite forallb_forall, list.Forall_forall. unfold is_byte. split.
  - intros H b Hb. apply list_elem_of_In, H in Hb. lia.
  - intros H b Hb. apply list_elem_of_In, H in Hb. lia.
Qed.
Lemma to_bytes_ok l : are_bytes l -> to_bytes l = Ret l.
Proof. intros H%are_bytes_bool. unfold to_bytes. fold is_byte. by rewrite H. Qed.

Lemma encode_bytes s : are_bytes (encode s).
Proof.
  induction s as [|c s IH]; constructor; [|exact IH]. pose proof (N_ascii_bounded c) as H. unfold code. lia.
Qed.

Lemma length_be n v : length (be n v) = n.
Proof. induction n as [|n IH]; cbn; [done|by rewrite IH]. Qed.
Lemma be_bytes n v : are_bytes (be n v).
Proof.
  induction n as [|n IH]; constructor; [|exact IH].
  change 255 with (2 ^ 8 - 1). rewrite Z_land_ones_mod by lia. apply Z.mod_pos_bound. lia.
Qed.

Lemma from_be_acc l a : for_each l a (fun v b => 256 * v + b) = a * 256 ^ Z.of_nat (length l) + from_be l.
Proof.
  unfold from_be. revert a. induction l as [|b l IH]; intros a.
  - cbn. lia.
  - change (for_each l (256 * a + b) (fun v b => 256 * v + b) = a * 256 ^ Z.of_nat (length (b :: l)) + for_each l (256 * 0 + b) (fun v b => 256 * v + b)).
    rewrite (IH (256 * a + b)), (IH (256 * 0 + b)). cbn [length]. rewrite Nat2Z.inj_succ, Z.pow_succ_r by lia. lia.
Qed.
Lemma from_be_app l1 l2 : from_be (l1 ++ l2) = from_be l1 * 256 ^ Z.of_nat (length l2) + from_be l2.
Proof. unfold from_be at 1. rewrite for_each_app. apply from_be_acc. Qed.

Lemma from_be_be n v : from_be (be n v) = v mod 256 ^ Z.of_nat n.
Proof.
  induction n as [|n IH]; [cbn; by rewrite Z.mod_1_r|]. cbn [be].
  change (Z.land (Z.shiftr v (8 * Z.of_nat n)) 255 :: be n v) with ([Z.land (Z.shiftr v (8 * Z.of_nat n)) (2 ^ 8 - 1)] ++ be n v).
  rewrite from_be_app, IH, length_be, Z_land_ones_mod, Z.shiftr_div_pow2 by lia.
  change (from_be [(v / 2 ^ (8 * Z.of_nat n)) mod 2 ^ 8]) with (0 + (v / 2 ^ (8 * Z.of_nat n)) mod 2 ^ 8).
  rewrite (Z.pow_mul_r 2 8) by lia. change (2 ^ 8) with 256.
  rewrite Nat2Z.inj_succ, Z.pow_succ_r by lia. rewrite (Z.mul_comm 256), (Z.rem_mul_r v) by lia. lia.
Qed.

Lemma pack_ok n v : 0 <= v < 256 ^ Z.of_nat n -> pack n v = Ret (be n v).
Proof. intros H. unfold pack. by replace ((0 <=? v) && (v <? 256 ^ Z.of_nat n)) with true by lia. Qed.

(** ** HPACK integers *)

(** The decoder of RFC 7541, section 5.1. *)
Fixpoint decode_rest (l : bytes) (shift : Z) (acc : Z) : option (Z * bytes) :=
  match l with
  | [] => None
  | b :: l => if b <? 128 then Some (acc + b * 2 ^ shift, l) else decode_rest l (shift + 7) (acc + (b - 128) * 2 ^ shift)
  end.
Definition decode_int (bits : Z) (l : bytes) : option (Z * bytes) :=
  match l with
  | [] => None
  | b :: l => let v := b mod 2 ^ bits in
              if v <? 2 ^ bits - 1 then Some (v, l) else decode_rest l 0 v
  end.

Lemma hpack_rest_bytes fuel : forall v, 0 <= v < 128 ^ Z.of_nat (S fuel) -> are_bytes (hpack_rest fuel v).
Proof.
  induction fuel as [|fuel IH]; intros v Hv; cbn [hpack_rest].
  - repeat constructor; lia.
  - destruct (Z.leb_spec 128 v); [|repeat constructor; lia]. constructor.
    + change 127 with (2 ^ 7 - 1). rewrite Z_land_ones_mod by lia. pose proof (Z.mod_pos_bound v (2 ^ 7) ltac:(lia)).
      change 128 with (Z.shiftl 1 7). rewrite lor_shiftl_add by lia. lia.
    + apply IH. rewrite Z.shiftr_div_pow2 by lia. change (2 ^ 7) with 128. split; [apply Z.div_pos; lia|].
      apply Z.div_lt_upper_bound; [lia|]. rewrite <- Z.pow_succ_r by lia. rewrite <- Nat2Z.inj_succ. lia.
Qed.

Lemma decode_hpack_rest fuel : forall v shift acc rest, 0 <= v < 128 ^ Z.of_nat (S fuel) -> 0 <= shift ->
  decode_rest (hpack_rest fuel v ++ rest) shift acc = Some (acc + v * 2 ^ shift, rest).
Proof.
  induction fuel as [|fuel IH]; intros v shift acc rest Hv Hs; cbn [hpack_rest].
  - cbn [app decode_rest]. replace (v <? 128) with true; [done|]. change (Z.of_nat 1) with 1 in Hv. lia.
  - destruct (Z.leb_spec 128 v) as [Hlo|Hlo].
    + change 127 with (2 ^ 7 - 1). rewrite Z_land_ones_mod by lia. pose proof (Z.mod_pos_bound v (2 ^ 7) ltac:(lia)) as Hm.
      change (Z.lor (v mod 2 ^ 7) 128) with (Z.lor (v mod 2 ^ 7) (Z.shiftl 1 7)). rewrite lor_shiftl_add by lia.
      cbn [app decode_rest]. replace (v mod 2 ^ 7 + 2 ^ 7 * 1 <? 128) with false by lia.
      rewrite IH; [| |lia].
      * rewrite Z.shiftr_div_pow2 by lia. do 2 f_equal. rewrite Z.pow_add_r by lia.
        pose proof (Z_split_mod v (2 ^ 7) ltac:(lia)). nia.
      * rewrite Z.shiftr_div_pow2 by lia. change (2 ^ 7) with 128. split; [apply Z.div_pos; lia|].
        apply Z.div_lt_upper_bound; [lia|]. rewrite <- Z.pow_succ_r by lia. rewrite <- Nat2Z.inj_succ. lia.
    + cbn [app decode_rest]. by replace (v <? 128) with true by lia.
Qed.

(** A prefix of [bits] bits under flags in the bits above. *)
Definition flags_above (bits mask : Z) : Prop := 1 <= bits <= 8 /\ exists m, mask = m * 2 ^ bits /\ 0 <= m /\ (m + 1) * 2 ^ bits <= 256.

Lemma hpack_int_decodes value bits mask rest : 0 <= value -> flags_above bits mask ->
  exists b bs, hpack_int value bits mask = Ret (b :: bs) /\ are_bytes (b :: bs) /\ b / 2 ^ bits = mask / 2 ^ bits
    /\ decode_int bits (b :: bs ++ rest) = Some (value, rest).
Proof.
  intros Hv (Hb & m & -> & Hm & H256). assert (0 < 2 ^ bits) as Hp by (apply Z.pow_pos_nonneg; lia).
  assert (forall x, 0 <= x < 2 ^ bits -> Z.lor (m * 2 ^ bits) x = x + 2 ^ bits * m) as Hlor.
  { intros x Hx. rewrite Z.lor_comm. rewrite <- Z.shiftl_mul_pow2 by lia. apply lor_shiftl_add; lia. }
  assert (forall x, 0 <= x < 2 ^ bits -> (x + 2 ^ bits * m) / 2 ^ bits = m * 2 ^ bits / 2 ^ bits
                                         /\ (x + 2 ^ bits * m) mod 2 ^ bits = x) as Hdiv.
  { intros x Hx. rewrite Z.div_mul by lia. rewrite (Z.mul_comm (2 ^ bits) m), Z.div_add, Z.mod_add by lia.
    rewrite Z.div_small, Z.mod_small by lia. lia. }
  unfold hpack_int. rewrite Z.shiftl_1_l. destruct (Z.ltb_spec value (2 ^ bits - 1)) as [Hlt|Hge].
  - rewrite Hlor by lia. destruct (Hdiv value ltac:(lia)) as [Hd Hmod]. exists (value + 2 ^ bits * m), [].
    assert (are_bytes [value + 2 ^ bits * m]) as Hby by (repeat constructor; nia).
    rewrite to_bytes_ok by done. split; [done|]. split; [done|]. split; [done|].
    cbn [app decode_int]. rewrite Hmod. by replace (value <? 2 ^ bits - 1) with true by lia.
  - rewrite Hlor by lia. destruct (Hdiv (2 ^ bits - 1) ltac:(lia)) as [Hd Hmod].
    assert (0 <= value - (2 ^ bits - 1) < 128 ^ Z.of_nat (S (Z.to_nat (Z.log2 value)))) as Hrange.
    { split; [lia|]. rewrite Nat2Z.inj_succ, Z2Nat.id by apply Z.log2_nonneg.
      assert (2 ^ bits - 1 >= 1) by (pose proof (Z.pow_le_mono_r 2 1 bits ltac:(lia) ltac:(lia)); lia).
      pose proof (Z.log2_spec value ltac:(lia)) as [_ Hl]. change 128 with (2 ^ 7). rewrite <- Z.pow_mul_r by (pose proof (Z.log2_nonneg value); lia).
      eapply Z.lt_le_trans; [|apply (Z.pow_le_mono_r 2 (Z.succ (Z.log2 value)))]; pose proof (Z.log2_nonneg value); lia. }
    exists (2 ^ bits - 1 + 2 ^ bits * m), (hpack_rest (Z.to_nat (Z.log2 value)) (value - (2 ^ bits - 1))).
    assert (are_bytes (2 ^ bits - 1 + 2 ^ bits * m :: hpack_rest (Z.to_nat (Z.log2 value)) (value - (2 ^ bits - 1)))) as Hby.
    { constructor; [nia|]. by apply hpack_rest_bytes. }
    rewrite to_bytes_ok by done. split; [done|]. split; [done|]. split; [done|].
    cbn [decode_int]. rewrite Hmod. replace (2 ^ bits - 1 <? 2 ^ bits - 1) with false by lia.
    rewrite decode_hpack_rest by lia. f_equal. f_equal. lia.
Qed.

(** ** HPACK header blocks *)

(** The decoder of RFC 7541, sections 5.2 and 6.2, without Huffman coding; the
    names of appendix A that a request needs. *)
Definition decode_str (l : bytes) : option (bytes * bytes) :=
  match l with
  | b :: _ => if 128 <=? b then None else
              '(n, l) ← decode_int 7 l;
              if Z.of_nat (length l) <? n then None else Some (take (Z.to_nat n) l, drop (Z.to_nat n) l)
  | [] => None
  end.
Definition static_name (i : Z) : option string :=
  if i =? 1 then Some ":authority" else if i =? 2 then Some ":method" else if i =? 4 then Some ":path"
  else if i =? 6 then Some ":scheme" else None.
(** A field: whether it enters the dynamic table, its name and its value. *)
Definition field : Type := bool * bytes * bytes.
Definition decode_field (l : bytes) : option (field * bytes) :=
  match l with
  | [] => None
  | b :: _ =>
      '(indexed, bits) ← (if b / 64 =? 1 then Some (true, 6) else if b / 16 =? 0 then Some (false, 4) else None);
      '(i, l) ← decode_int bits l;
      '(name, l) ← (if i =? 0 then decode_str l else (fun n => (encode n, l)) <$> static_name i);
      '(value, l) ← decode_str l;
      Some (indexed, name, value, l)
  end.
Fixpoint decode_block (fuel : nat) (l : bytes) : option (list field) :=
  match l, fuel with
  | [], _ => Some []
  | _, O => None
  | _, S fuel => '(f, l) ← decode_field l; fs ← decode_block fuel l; Some (f :: fs)
  end.

Lemma are_bytes_app l1 l2 : are_bytes (l1 ++ l2) <-> are_bytes l1 /\ are_bytes l2.
Proof. apply list.Forall_app. Qed.

Lemma hpack_str_decodes text rest : exists l, hpack_str text = Ret l /\ are_bytes l
  /\ decode_str (l ++ rest) = Some (encode text, rest).
Proof.
  unfold hpack_str. set (n := Z.of_nat (length (encode text))).
  destruct (hpack_int_decodes n 7 0 (encode text ++ rest)) as (b & bs & -> & Hb & H0 & Hd); [subst n; lia| |].
  { split; [lia|]. exists 0. lia. }
  cbn [mbind result_bind]. exists ((b :: bs) ++ encode text). split; [done|]. split; [apply are_bytes_app; split; [done|apply encode_bytes]|].
  rewrite <- app_assoc. cbn [app decode_str]. change (0 / 2 ^ 7) with 0 in H0. change (2 ^ 7) with 128 in H0.
  inversion Hb as [|? ? Hb0 _]; subst. apply Z.div_small_iff in H0; [|lia]. replace (128 <=? b) with false by lia.
  rewrite Hd. cbn [mbind option_bind]. rewrite length_app.
  destruct (Z.ltb_spec (Z.of_nat (length (encode text) + length rest)) n) as [Hlt|_]; [exfalso; subst n; lia|].
  subst n. rewrite Nat2Z.id. by rewrite take_app_length, drop_app_length.
Qed.

Lemma mask_flags indexed : flags_above (mask_bits indexed).2 (mask_bits indexed).1.
Proof. destruct indexed; cbn; (split; [lia|]); [exists 1|exists 0]; cbn; lia. Qed.
(** The first byte of a field tells its kind. *)
Lemma field_kind indexed b : b / 2 ^ (mask_bits indexed).2 = (mask_bits indexed).1 / 2 ^ (mask_bits indexed).2 ->
  (if b / 64 =? 1 then Some (true, 6) else if b / 16 =? 0 then Some (false, 4) else None) = Some (indexed, (mask_bits indexed).2).
Proof.
  destruct indexed; cbn [mask_bits fst snd].
  - change (64 / 2 ^ 6) with 1. change (2 ^ 6) with 64. by intros ->.
  - change (0 / 2 ^ 4) with 0. change (2 ^ 4) with 16. intros Hb. rewrite Hb.
    destruct (Z.eqb_spec (b / 64) 1); [|done]. exfalso. assert (b / 64 = b / 16 / 4) as E by (rewrite Z.div_div by lia; done). rewrite Hb in E. change (0 / 4) with 0 in E. congruence.
Qed.

Lemma hpack_field_decodes index name value indexed rest : static_name index = Some name -> exists l,
  hpack_field index value indexed = Ret l /\ are_bytes l /\ l <> []
  /\ decode_field (l ++ rest) = Some (indexed, encode name, encode value, rest).
Proof.
  intros Hn. assert (0 < index) as Hi by (unfold static_name in Hn; repeat case_match; (lia || done)).
  unfold hpack_field. destruct (hpack_str_decodes value rest) as (v & Hv & Hvb & Hvd).
  destruct (hpack_int_decodes index (mask_bits indexed).2 (mask_bits indexed).1 (v ++ rest) ltac:(lia) (mask_flags indexed))
    as (b & bs & Hint & Hb & Hk & Hd).
  destruct (mask_bits indexed) as [mask bits] eqn:Em. cbn [fst snd] in *. rewrite Hint, Hv. cbn [mbind result_bind].
  exists ((b :: bs) ++ v). split; [done|]. split; [by apply are_bytes_app|]. split; [done|].
  rewrite <- app_assoc. cbn [app decode_field]. pose proof (field_kind indexed b) as Hf. rewrite Em in Hf. cbn [fst snd] in Hf. rewrite (Hf Hk).
  cbn [mbind option_bind]. rewrite Hd. cbn [mbind option_bind]. replace (index =? 0) with false by lia. rewrite Hn. cbn [fmap option_fmap option_map mbind option_bind].
  by rewrite Hvd.
Qed.

Lemma hpack_new_field_decodes name value indexed rest : exists l,
  hpack_new_field name value indexed = Ret l /\ are_bytes l /\ l <> []
  /\ decode_field (l ++ rest) = Some (indexed, encode name, encode value, rest).
Proof.
  unfold hpack_new_field. destruct (hpack_str_decodes value rest) as (v & Hv & Hvb & Hvd).
  destruct (hpack_str_decodes name (v ++ rest)) as (n & Hn & Hnb & Hnd).
  destruct (hpack_int_decodes 0 (mask_bits indexed).2 (mask_bits indexed).1 (n ++ v ++ rest) ltac:(lia) (mask_flags indexed))
    as (b & bs & Hint & Hb & Hk & Hd).
  destruct (mask_bits indexed) as [mask bits] eqn:Em. cbn [fst snd] in *. rewrite Hint, Hn, Hv. cbn [mbind result_bind].
  exists ((b :: bs) ++ n ++ v). split; [done|]. split; [by rewrite !are_bytes_app|]. split; [done|].
  rewrite <- !app_assoc. cbn [app decode_field]. pose proof (field_kind indexed b) as Hf. rewrite Em in Hf. cbn [fst snd] in Hf. rewrite (Hf Hk).
  cbn [mbind option_bind]. rewrite Hd. cbn [mbind option_bind Z.eqb]. rewrite Hnd. cbn [mbind option_bind]. by rewrite Hvd.
Qed.

(** A block of encoded fields *)
Inductive block_of : list field -> bytes -> Prop :=
| block_nil : block_of [] []
| block_cons f fs l rest : l <> [] -> are_bytes l -> (forall t, decode_field (l ++ t) = Some (f, t)) ->
    block_of fs rest -> block_of (f :: fs) (l ++ rest).

Lemma block_app fs gs a b : block_of fs a -> block_of gs b -> block_of (fs ++ gs) (a ++ b).
Proof.
  induction 1 as [|f fs l rest Hl Hb Hd _ IH]; intros H; [done|]. rewrite <- app_assoc. cbn [app]. constructor; auto.
Qed.
Lemma block_decodes fs l : block_of fs l -> are_bytes l /\ forall fuel, (length fs <= fuel)%nat -> decode_block fuel l = Some fs.
Proof.
  induction 1 as [|f fs l rest Hl Hb Hd _ [Hr IH]].
  - split; [constructor|]. by intros [].
  - split; [by apply are_bytes_app|]. intros [|fuel] Hf; [cbn in Hf; lia|].
    destruct l as [|b l]; [done|]. cbn [app decode_block]. specialize (Hd rest). cbn [app] in Hd. rewrite Hd. cbn [mbind option_bind].
    cbn [length] in Hf. by rewrite IH by lia.
Qed.
Lemma block_length fs l : block_of fs l -> (length fs <= length l)%nat.
Proof. induction 1 as [|f fs l rest Hl _ _ _ IH]; [done|]. rewrite length_app. destruct l; [done|]. cbn. lia. Qed.

(** One field of either form as a block *)
Lemma field_block (m : result bytes) f :
  (forall rest, exists l, m = Ret l /\ are_bytes l /\ l <> [] /\ decode_field (l ++ rest) = Some (f, rest)) ->
  exists l, m = Ret l /\ block_of [f] l.
Proof.
  intros H. destruct (H []) as (l & Hm & Hb & Hl & _). exists l. split; [done|]. rewrite <- (app_nil_r l).
  constructor; [done|done| |constructor]. intros t. destruct (H t) as (l' & Hm' & _ & _ & Hd). congruence.
Qed.

Definition request_fields (path authority : string) (indexing : bool) : list field :=
  [(false, encode ":method", encode "GET"); (false, encode ":scheme", encode "https"); (false, encode ":path", encode path);
   (indexing, encode ":authority", encode authority)]
  ++ ((fun '(n, v) => (indexing, encode n, encode v)) <$> BROWSER_HEADERS).

(** C35: the server can read every request. For any path and authority the
    client's HPACK encoder raises nothing and yields bytes that the decoder of
    RFC 7541 turns back into exactly the request: the four pseudo-headers under
    their static names, the path and authority unchanged, and the browser's
    headers in order, with exactly the fields after the path entering the
    dynamic table when indexing is on. *)
Theorem request_decodes path authority indexing : exists block,
  encode_request path authority indexing = Ret block /\ forallb is_byte block = true
  /\ decode_block (length block) block = Some (request_fields path authority indexing).
Proof.
  assert (forall i n v x, static_name i = Some n -> exists l, hpack_field i v x = Ret l /\ block_of [(x, encode n, encode v)] l) as Hst
    by (intros i n v x Hn; apply field_block; intros rest; by apply hpack_field_decodes).
  unfold encode_request. destruct (Hst 2 ":method" "GET" false eq_refl) as (m & -> & Hm).
  destruct (Hst 6 ":scheme" "https" false eq_refl) as (s & -> & Hs). destruct (Hst 4 ":path" path false eq_refl) as (p & -> & Hp).
  destruct (Hst 1 ":authority" authority indexing eq_refl) as (a & -> & Ha). cbn [mbind result_bind].
  set (first := [(false, encode ":method", encode "GET")] ++ [(false, encode ":scheme", encode "https")]
                ++ [(false, encode ":path", encode path)] ++ [(indexing, encode ":authority", encode authority)]).
  assert (block_of first (m ++ s ++ p ++ a)) as H0 by (by repeat apply block_app).
  destruct (for_result_ind (fun pre block => block_of (first ++ ((fun '(n, v) => (indexing, encode n, encode v)) <$> pre)) block)
    (fun block '(name, value) => f ← hpack_new_field name value indexing; Ret (block ++ f)) BROWSER_HEADERS (m ++ s ++ p ++ a))
    as (block & -> & Hblock).
  - cbn [fmap list_fmap]. by rewrite app_nil_r.
  - intros pre [n v] post block _ Hpre.
    destruct (field_block (hpack_new_field n v indexing) (indexing, encode n, encode v)) as (l & -> & Hl).
    { intros rest. apply hpack_new_field_decodes. }
    eexists. split; [reflexivity|]. rewrite fmap_app, app_assoc. by apply block_app.
  - exists block. split; [done|]. destruct (block_decodes _ _ Hblock) as [Hb Hd]. split; [by apply are_bytes_bool|].
    apply Hd. by apply block_length.
Qed.

(** ** Frames *)

Definition frame_ok (f : Frame) : Prop :=
  0 <= f_type f < 256 /\ 0 <= f_flags f < 256 /\ 0 <= f_sid f < 2 ^ 31 /\ Z.of_nat (length (f_payload f)) < 2 ^ 24.
Definition frame_bytes (f : Frame) : bytes :=
  be 3 (Z.of_nat (length (f_payload f))) ++ [f_type f; f_flags f] ++ be 4 (f_sid f) ++ f_payload f.

Lemma frame_encodes f : frame_ok f -> frame (f_type f) (f_flags f) (f_sid f) (f_payload f) = Ret (frame_bytes f).
Proof.
  intros (Ht & Hf & Hs & Hl). unfold frame. rewrite !pack_ok by (cbn; lia). cbn [mbind result_bind].
  rewrite to_bytes_ok by (repeat constructor; lia). reflexivity.
Qed.

(** The client's parser reads what its frame writer writes. *)
Lemma parse_frame_bytes f rest : frame_ok f -> parse_frame (frame_bytes f ++ rest) = Some (f, rest).
Proof.
  destruct f as [t fl sid p]. intros (Ht & Hf & Hs & Hl). cbn [f_type f_flags f_sid f_payload] in *. set (n := length p) in *.
  assert (frame_bytes (mkFrame t fl sid p) ++ rest = be 3 (Z.of_nat n) ++ t :: fl :: be 4 sid ++ p ++ rest) as E
    by (unfold frame_bytes; cbn [f_type f_flags f_sid f_payload]; rewrite <- !app_assoc; done).
  rewrite E. unfold parse_frame. rewrite !length_app. cbn [length]. rewrite !length_app, !length_be. fold n.
  replace (3 + S (S (4 + (n + length rest))) <? 9)%nat with false by (symmetry; apply Nat.ltb_ge; lia).
  rewrite (take_app_length' (be 3 _)) by (by rewrite length_be).
  rewrite from_be_be. change (256 ^ Z.of_nat 3) with (2 ^ 24). rewrite (Z.mod_small (Z.of_nat n)) by lia.
  assert ((Z.of_nat (3 + S (S (4 + (n + length rest)))) <? 9 + Z.of_nat n) = false) as -> by (apply Z.ltb_ge; lia).
  rewrite Nat2Z.id. do 2 f_equal.
  - f_equal.
    + change (drop 5 (be 3 (Z.of_nat n) ++ t :: fl :: be 4 sid ++ p ++ rest)) with (be 4 sid ++ p ++ rest).
      rewrite take_app_length' by (by rewrite length_be). rewrite from_be_be. change (256 ^ Z.of_nat 4) with (2 ^ 32).
      rewrite (Z.mod_small sid) by lia. change 2147483647 with (2 ^ 31 - 1). rewrite Z_land_ones_mod by lia. apply Z.mod_small. lia.
    + change (drop 9 (be 3 (Z.of_nat n) ++ t :: fl :: be 4 sid ++ p ++ rest)) with (p ++ rest). by rewrite take_app_length'.
  - rewrite <- drop_drop. change (drop 9 (be 3 (Z.of_nat n) ++ t :: fl :: be 4 sid ++ p ++ rest)) with (p ++ rest). by rewrite drop_app_length'.
Qed.

(** More bytes behind a whole frame do not change it. *)
Lemma parse_frame_app b f rest more : parse_frame b = Some (f, rest) -> parse_frame (b ++ more) = Some (f, rest ++ more).
Proof.
  unfold parse_frame. rewrite length_app. destruct (Nat.ltb_spec (length b) 9) as [|Hb]; [done|].
  destruct (Nat.ltb_spec (length b + length more) 9) as [|_]; [lia|]. rewrite take_app_le by lia.
  set (len := from_be (take 3 b)). destruct (Z.ltb_spec (Z.of_nat (length b)) (9 + len)) as [|Hl]; [done|].
  destruct (Z.ltb_spec (Z.of_nat (length b + length more)) (9 + len)) as [|_]; [lia|]. intros [= <- <-].
  rewrite !lookup_total_app_l by lia. rewrite !drop_app_le by lia. rewrite !take_app_le by (rewrite length_drop; lia). done.
Qed.
Lemma parse_frame_shorter b f rest : parse_frame b = Some (f, rest) -> (length rest + 9 <= length b)%nat.
Proof.
  unfold parse_frame. destruct (Nat.ltb_spec (length b) 9) as [|Hb]; [done|]. case_match; [done|]. intros [= _ <-].
  rewrite length_drop. lia.
Qed.

(** ** Reassembly *)

Section reassembly.
Context {W : Type} `{HS : Socket W}.
Abbreviation method A := (run (Connection * W) A).

(** The same outcome with more bytes left in the buffer. *)
Definition behind {A} (more : bytes) (r : result A * (Connection * W)) : result A * (Connection * W) :=
  (r.1, (with_buf (buf r.2.1 ++ more) r.2.1, r.2.2)).
Definition rebuf (b : bytes) (s : Connection * W) : Connection * W := (with_buf b s.1, s.2).

Lemma with_buf_buf c : with_buf (buf c) c = c.
Proof. by destruct c. Qed.

(** A method that neither reads nor writes the buffer. *)
Definition bufless {A} (m : method A) : Prop :=
  forall b s, m (rebuf b s) = ((m s).1, rebuf b (m s).2) /\ buf (m s).2.1 = buf s.1.

Lemma bufless_ret {A} (x : A) : bufless (mret x).
Proof. by intros b [c w]. Qed.
Lemma bufless_bind {A B} (m : method A) (f : A -> method B) : bufless m -> (forall x, bufless (f x)) -> bufless (m ≫= f).
Proof.
  intros Hm Hf b s. unfold mbind, run_bind. destruct (Hm b s) as [-> E]. destruct (m s) as [[x|e] s1]; cbn [fst snd] in *; [|done].
  destruct (Hf x b s1) as [-> E1]. split; [done|congruence].
Qed.
Lemma bufless_set f : (forall b c, f (with_buf b c) = with_buf b (f c)) -> (forall c, buf (f c) = buf c) -> bufless (set_conn f).
Proof. intros H1 H2 b [c w]. unfold set_conn, rebuf. cbn [fst snd]. by rewrite H1, H2. Qed.
Lemma bufless_get {A} (f : Connection -> A) : (forall b c, f (with_buf b c) = f c) -> bufless (get_conn f).
Proof. intros H b [c w]. unfold get_conn, rebuf. cbn [fst snd]. by rewrite H. Qed.
Lemma bufless_socket {A} (f : W -> A * W) : bufless (on_socket f).
Proof. intros b [c w]. unfold on_socket, rebuf. cbn [fst snd]. by destruct (f w). Qed.
Lemma bufless_lift {A} (r : result A) : bufless (lift r).
Proof. by intros b [c w]. Qed.
Lemma bufless_send data : bufless (send data).
Proof.
  unfold send. apply bufless_bind; [by apply bufless_get|]. intros c. destruct (_ || _); [apply bufless_ret|].
  apply bufless_bind; [apply bufless_socket|]. intros []; [apply bufless_ret|]. by apply bufless_set.
Qed.
Create HintDb bufless.
#[local] Hint Resolve bufless_ret bufless_bind bufless_get bufless_socket bufless_lift bufless_send : bufless.
#[local] Hint Extern 1 (bufless (set_conn _)) => (by apply bufless_set) : bufless.

Lemma handle_frame_bufless ack f : bufless (handle_frame ack f).
Proof. unfold handle_frame, end_stream. repeat case_match; eauto 8 with bufless. Qed.

Lemma drain_loop_fuel ack fuel : forall fuel' (s : Connection * W), (length (buf s.1) <= fuel)%nat -> (length (buf s.1) <= fuel')%nat ->
  drain_loop fuel ack s = drain_loop fuel' ack s.
Proof.
  induction fuel as [|fuel IH]; intros fuel' [c w] H H'; cbn [fst] in *.
  - destruct fuel' as [|fuel']; [done|]. cbn [drain_loop]. unfold mbind, run_bind, get_conn. cbn [fst].
    destruct (buf c); [done|cbn in H; lia].
  - destruct fuel' as [|fuel'].
    + cbn [drain_loop]. unfold mbind, run_bind, get_conn. cbn [fst]. destruct (buf c); [done|cbn in H'; lia].
    + cbn [drain_loop]. unfold mbind, run_bind, get_conn, set_conn. cbn [fst].
      destruct (parse_frame (buf c)) as [[f rest]|] eqn:E; [|done]. apply parse_frame_shorter in E.
      destruct (handle_frame_bufless ack f rest (c, w)) as [H1 H2]. unfold rebuf in H1. cbn [fst snd] in H1. rewrite H1.
      destruct (handle_frame ack f (c, w)) as [[[]|e] [c1 w1]]; cbn [fst snd]; try done. apply IH; cbn; lia.
Qed.

Lemma drain_loop_app ack more fuel : forall fuel' (s : Connection * W),
  (length (buf s.1) <= fuel)%nat -> (length (buf s.1) + length more <= fuel')%nat ->
  drain_loop fuel' ack (rebuf (buf s.1 ++ more) s)
  = match drain_loop fuel ack s with
    | (Ret true, s1) => drain_loop (length (buf s1.1 ++ more)) ack (rebuf (buf s1.1 ++ more) s1)
    | r => behind more r
    end.
Proof.
  induction fuel as [|fuel IH]; intros fuel' [c w] H H'; cbn [fst] in *.
  - destruct (buf c) eqn:E; [|cbn in H; lia]. cbn [drain_loop mret run_ret fst]. rewrite E. apply drain_loop_fuel; cbn; cbn in H'; lia.
  - cbn [drain_loop]. unfold get_conn.
    destruct (parse_frame (buf c)) as [[f rest]|] eqn:E.
    + destruct fuel' as [|fuel']; [apply parse_frame_shorter in E; lia|]. cbn [drain_loop].
      unfold mbind, run_bind, get_conn, set_conn, rebuf. cbn [fst snd buf with_buf]. rewrite (parse_frame_app _ _ _ more E).
      pose proof E as E0. apply parse_frame_shorter in E.
      assert (forall b, handle_frame ack f (with_buf b (with_buf (buf c ++ more) c), w)
              = ((handle_frame ack f (c, w)).1, rebuf b (handle_frame ack f (c, w)).2)) as Hb
        by (intros b; exact (proj1 (handle_frame_bufless ack f b (c, w)))).
      rewrite Hb. pose proof (proj1 (handle_frame_bufless ack f rest (c, w))) as Hr. unfold rebuf at 1 in Hr. cbn [fst snd] in Hr. rewrite E0. cbn [fst snd]. rewrite Hr.
      destruct (handle_frame ack f (c, w)) as [[[]|e] [c1 w1]]; cbn [fst snd].
      * specialize (IH fuel' (with_buf rest c1, w1)). cbn in IH. unfold rebuf in *. cbn in *. apply IH; lia.
      * done.
      * done.
    + unfold mbind, run_bind. cbn [fst]. rewrite E. cbn [mret run_ret fst].
      apply drain_loop_fuel; cbn [rebuf fst buf with_buf]; rewrite ?length_app; lia.
Qed.

(** Feeding two pieces is feeding them joined, as long as the first does not
    end the connection. *)
Lemma feed_app ack a b (s : Connection * W) :
  feed ack (a ++ b) s = match feed ack a s with (Ret true, s1) => feed ack b s1 | r => behind b r end.
Proof.
  destruct s as [c w]. unfold feed, drain, mbind, run_bind, get_conn, set_conn. cbn [fst buf with_buf].
  pose proof (drain_loop_app ack b (length (buf c ++ a)) (length (buf c ++ a ++ b)) (with_buf (buf c ++ a) c, w)) as H.
  cbn [fst buf with_buf rebuf] in H. rewrite <- app_assoc in H.
  assert (rebuf (buf c ++ a ++ b) (with_buf (buf c ++ a) c, w) = (with_buf (buf c ++ a ++ b) c, w)) as E by done. rewrite E in H.
  rewrite H by (rewrite ?length_app; lia). destruct (drain_loop (length (buf c ++ a)) ack (with_buf (buf c ++ a) c, w)) as [[[]|] [c1 w1]]; reflexivity.
Qed.

(** Pieces as they arrive, until one ends the connection. *)
Fixpoint feed_all (ack : bool) (chunks : list bytes) : method bool :=
  match chunks with
  | [] => mret true
  | chunk :: chunks => go ← feed ack chunk; if (go : bool) then feed_all ack chunks else mret false
  end.
(** The frames themselves, in order. *)
Fixpoint handle_all (ack : bool) (fs : list Frame) : method bool :=
  match fs with
  | [] => mret true
  | f :: fs => go ← handle_frame ack f; if (go : bool) then handle_all ack fs else mret false
  end.

Lemma handle_all_bufless ack fs : bufless (handle_all ack fs).
Proof.
  induction fs as [|f fs IH]; cbn [handle_all]; [apply bufless_ret|].
  apply bufless_bind; [apply handle_frame_bufless|]. intros []; [exact IH|apply bufless_ret].
Qed.

(** Any cut into pieces gives what the whole gives, up to the bytes that are
    left behind when the connection ends. *)
Lemma feed_all_concat ack chunks : forall (s : Connection * W) r c1 w1, chunks <> [] ->
  feed ack (concat chunks) s = (r, (c1, w1)) -> exists b, feed_all ack chunks s = (r, (with_buf b c1, w1)) /\ (r = Ret true -> b = buf c1).
Proof.
  induction chunks as [|a chunks IH]; intros s r c1 w1 Hne; [done|]. cbn [concat feed_all]. unfold mbind, run_bind.
  destruct chunks as [|b chunks].
  - cbn [concat feed_all]. rewrite app_nil_r. intros H. exists (buf c1). rewrite H, with_buf_buf. by destruct r as [[]|].
  - rewrite feed_app. destruct (feed ack a s) as [[[]|e] [c2 w2]].
    + by apply IH.
    + intros [= <- <- <-]. exists (buf c2). split; [|done]. cbn. by destruct c2.
    + intros [= <- <- <-]. exists (buf c2). split; [|done]. cbn. by destruct c2.
Qed.

Lemma window_update_ok sid n : 0 <= sid < 2 ^ 31 -> 0 <= n < 2 ^ 24 ->
  window_update sid n = Ret (frame_bytes (mkFrame FRAME_WINDOW_UPDATE 0 sid (be 4 n))).
Proof.
  intros Hs Hn. unfold window_update. rewrite pack_ok by (cbn; lia). cbn [mbind result_bind].
  apply (frame_encodes (mkFrame FRAME_WINDOW_UPDATE 0 sid (be 4 n))). unfold frame_ok. cbn [f_type f_flags f_sid f_payload].
  rewrite length_be. change FRAME_WINDOW_UPDATE with 8. lia.
Qed.

Lemma end_stream_ret f (s : Connection * W) : exists s', end_stream f s = (Ret (), s').
Proof. unfold end_stream. destruct (_ && _); [rewrite set_conn_ret|]; by eexists. Qed.

(** Handling a frame raises nothing, and stops at a GOAWAY only. *)
Lemma handle_frame_ret ack f (s : Connection * W) : frame_ok f -> exists s',
  handle_frame ack f s = (Ret (negb (f_type f =? FRAME_GOAWAY)), s').
Proof.
  intros (Ht & Hf & Hs & Hl). unfold handle_frame.
  assert (forall s : Connection * W, exists s', (end_stream f;; mret true) s = (Ret true, s')) as Hend.
  { intros s0. unfold mbind, run_bind. destruct (end_stream_ret f s0) as [s' ->]. by eexists. }
  destruct (Z.eqb_spec (f_type f) FRAME_DATA) as [->|_].
  { change (FRAME_DATA =? FRAME_GOAWAY) with false. unfold mbind at 1, run_bind at 1. rewrite set_conn_ret.
    unfold mbind at 1, run_bind at 1. destruct (_ && ack); [|apply Hend].
    rewrite !window_update_ok by lia. unfold mbind at 1, run_bind at 1, lift. unfold mbind at 1, run_bind at 1.
    match goal with |- context [send ?d ?st] => destruct (send_ret d st) as [s' ->] end. apply Hend. }
  destruct (Z.eqb_spec (f_type f) FRAME_HEADERS) as [->|_].
  { change (FRAME_HEADERS =? FRAME_GOAWAY) with false. unfold mbind at 1, run_bind at 1. rewrite set_conn_ret. apply Hend. }
  destruct (_ && _) eqn:E.
  { apply andb_true_iff in E as [->%Z.eqb_eq _]. change (FRAME_SETTINGS =? FRAME_GOAWAY) with false.
    unfold mbind at 1, run_bind at 1. rewrite set_conn_ret. apply Hend. }
  destruct (f_type f =? FRAME_GOAWAY); [|apply Hend]. unfold mbind, run_bind. rewrite set_conn_ret. by eexists.
Qed.

Lemma handle_all_ret ack fs : forall (s : Connection * W), Forall frame_ok fs -> exists go s',
  handle_all ack fs s = (Ret go, s') /\ (go = false <-> Exists (fun f => f_type f = FRAME_GOAWAY) fs).
Proof.
  induction fs as [|f fs IH]; intros s Hok.
  - exists true, s. split; [done|]. by rewrite List.Exists_nil.
  - inversion Hok as [|? ? Hf Hfs]; subst. cbn [handle_all]. unfold mbind, run_bind.
    destruct (handle_frame_ret ack f s Hf) as [s1 ->]. destruct (Z.eqb_spec (f_type f) FRAME_GOAWAY) as [E|E]; cbn [negb].
    + exists false, s1. split; [done|]. split; [intros _; by left|done].
    + destruct (IH s1 Hfs) as (go & s2 & -> & Hgo). exists go, s2. split; [done|]. rewrite Hgo, List.Exists_cons. tauto.
Qed.

(** The loop over the encoding of frames handles those frames. *)
Lemma drain_frames ack partial fs : forall fuel (s : Connection * W) go c1 w1, Forall frame_ok fs -> parse_frame partial = None ->
  buf s.1 = concat (frame_bytes <$> fs) ++ partial -> (length (buf s.1) <= fuel)%nat -> handle_all ack fs s = (Ret go, (c1, w1)) ->
  exists b, drain_loop fuel ack s = (Ret go, (with_buf b c1, w1)) /\ (go = true -> b = partial).
Proof.
  induction fs as [|f fs IH]; intros fuel [c w] go c1 w1 Hok Hp Hb Hf; cbn [fst] in *.
  - intros [= <- <- <-]. cbn in Hb. exists partial. split; [|done].
    destruct fuel as [|fuel]; cbn [drain_loop]; [rewrite <- Hb, with_buf_buf; done|].
    unfold mbind, run_bind, get_conn. cbn [fst]. rewrite Hb, Hp, <- Hb, with_buf_buf. done.
  - inversion Hok as [|? ? Hof Hfs]; subst. cbn [fmap list_fmap concat] in Hb. rewrite <- app_assoc in Hb.
    destruct fuel as [|fuel]; [rewrite Hb in Hf; cbn in Hf; lia|]. cbn [handle_all drain_loop]. unfold mbind, run_bind, get_conn. cbn [fst].
    rewrite Hb, parse_frame_bytes by done. rewrite set_conn_ret. cbn [fst snd].
    set (rest := concat (frame_bytes <$> fs) ++ partial) in *.
    destruct (handle_frame_bufless ack f rest (c, w)) as [H1 H2]. unfold rebuf in H1. cbn [fst snd] in H1, H2. rewrite H1.
    destruct (handle_frame ack f (c, w)) as [[[]|e] [c2 w2]]; cbn [fst snd] in *; [|intros [= <- <- <-]; by exists rest|done].
    intros Hall. 
    assert (length rest <= fuel)%nat as Hl by (rewrite Hb in Hf; rewrite length_app in Hf; unfold frame_bytes in Hf; rewrite !length_app in Hf; cbn [length] in Hf; lia).
    destruct (handle_all_bufless ack fs rest (c2, w2)) as [H3 _]. rewrite Hall in H3. cbn [fst snd] in H3.
    destruct (IH fuel (with_buf rest c2, w2) go (with_buf rest c1) w1 Hfs Hp eq_refl Hl H3) as (b & Hd & Hbp).
    exists b. split; [|done]. exact Hd.
Qed.

(** C36: what a connection makes of its input depends only on the bytes. Take
    any frames (types and flags of a byte, stream ids of 31 bits, payloads
    below 2^24 bytes), encode them, let an incomplete frame follow, and cut
    the whole anywhere into pieces: the pieces lead a connection with an empty
    buffer to exactly the state that handling the frames one by one leads to,
    with the same bytes sent on the way; it stops if and only if one of the
    frames is a GOAWAY; and when it does not, the incomplete frame is what
    waits in the buffer. *)
Theorem reassembly ack chunks fs partial c w :
  Forall frame_ok fs -> parse_frame partial = None -> buf c = [] -> concat chunks = concat (frame_bytes <$> fs) ++ partial ->
  exists go c' w' b, handle_all ack fs (c, w) = (Ret go, (c', w')) /\ feed_all ack chunks (c, w) = (Ret go, (with_buf b c', w'))
    /\ (go = false <-> Exists (fun f => f_type f = FRAME_GOAWAY) fs) /\ (go = true -> b = partial).
Proof.
  intros Hok Hp Hb Hc. destruct (handle_all_ret ack fs (c, w) Hok) as (go & [c1 w1] & Hall & Hgo). exists go, c1, w1.
  destruct chunks as [|a chunks].
  - destruct fs as [|f fs]; [|done]. cbn in Hc. subst partial. injection Hall as <- <- <-. exists []. split; [done|].
    split; [|done]. rewrite <- Hb, with_buf_buf. done.
  - destruct (handle_all_bufless ack fs (concat (a :: chunks)) (c, w)) as [H1 _]. rewrite Hall in H1. cbn [fst snd] in H1.
    destruct (drain_frames ack partial fs (length (concat (a :: chunks))) (rebuf (concat (a :: chunks)) (c, w)) go
                (with_buf (concat (a :: chunks)) c1) w1 Hok Hp) as (b & Hd & Hbp); [exact Hc|done|exact H1|].
    destruct (feed_all_concat ack (a :: chunks) (c, w) (Ret go) (with_buf b c1) w1) as (b' & Hf & Hb'); [done| |].
    + unfold feed, drain, mbind, run_bind, get_conn. cbn [fst]. rewrite set_conn_ret. cbn [fst snd buf with_buf]. rewrite Hb. exact Hd.
    + exists b'. split; [done|]. split; [exact Hf|]. split; [done|]. intros ->. rewrite (Hb' eq_refl). by apply Hbp.
Qed.
End reassembly.

(** ** Any bytes at all *)

Lemma from_be_bound l : are_bytes l -> 0 <= from_be l < 256 ^ Z.of_nat (length l).
Proof.
  induction l as [|b l IH] using rev_ind; [done|]. intros [Hl Hb]%are_bytes_app. rewrite from_be_app.
  specialize (IH Hl). inversion Hb; subst. change (from_be [b]) with (0 + b). rewrite length_app.
  cbn [length]. change (256 ^ Z.of_nat 1) with 256. rewrite Nat.add_1_r, Nat2Z.inj_succ, Z.pow_succ_r by lia. lia.
Qed.

Lemma parse_frame_ok b f rest : are_bytes b -> parse_frame b = Some (f, rest) -> frame_ok f /\ are_bytes rest.
Proof.
  intros Hb. unfold parse_frame. destruct (Nat.ltb_spec (length b) 9) as [|Hl]; [done|].
  pose proof (from_be_bound (take 3 b) ltac:(by apply Forall_take)) as Hn. rewrite length_take in Hn.
  replace (Nat.min 3 (length b)) with 3%nat in Hn by lia. change (256 ^ Z.of_nat 3) with (2 ^ 24) in Hn.
  case_match; [done|]. intros [= <- <-]. split; [|by apply Forall_drop]. unfold frame_ok. cbn [f_type f_flags f_sid f_payload].
  assert (forall i, (i < length b)%nat -> 0 <= b !!! i < 256) as Hat by (intros i Hi; by apply (Forall_total (fun x => 0 <= x < 256))).
  split; [apply Hat; lia|]. split; [apply Hat; lia|]. split.
  - change 2147483647 with (2 ^ 31 - 1). rewrite Z_land_ones_mod by lia. apply Z.mod_pos_bound. lia.
  - rewrite length_take. lia.
Qed.

Create HintDb sending.
Section total.
Context {W : Type} `{HS : Socket W}.

(** The worlds that sending alone leads to. *)
Inductive only_sends (w : W) : W -> Prop :=
| sends_none : only_sends w w
| sends_more b w' : only_sends w w' -> only_sends w (sock_send b w').2.
Lemma only_sends_trans w1 w2 w3 : only_sends w1 w2 -> only_sends w2 w3 -> only_sends w1 w3.
Proof. intros H. induction 1 as [|b w' _ IH]; [done|]. by constructor. Qed.

Definition sending {A} (m : run (Connection * W) A) : Prop := forall s, only_sends s.2 (m s).2.2.
Lemma sending_ret {A} (x : A) : sending (mret x).
Proof. intros s. constructor. Qed.
Lemma sending_lift {A} (r : result A) : sending (lift r).
Proof. intros s. constructor. Qed.
Lemma sending_get {A} (f : Connection -> A) : sending (get_conn f).
Proof. intros s. constructor. Qed.
Lemma sending_set f : sending (set_conn f).
Proof. intros s. rewrite set_conn_ret. constructor. Qed.
Lemma sending_socket b : sending (on_socket (sock_send b)).
Proof. intros [c w]. unfold on_socket. cbn. pose proof (sends_more w b w (sends_none w)). by destruct (sock_send b w). Qed.
Lemma sending_bind {A B} (m : run (Connection * W) A) (f : A -> run (Connection * W) B) :
  sending m -> (forall x, sending (f x)) -> sending (m ≫= f).
Proof.
  intros Hm Hf s. unfold mbind, run_bind. specialize (Hm s). destruct (m s) as [[x|e] s1]; [|done].
  eapply only_sends_trans; [exact Hm|apply Hf].
Qed.
#[local] Hint Resolve sending_ret sending_lift sending_get sending_set sending_socket sending_bind : sending.

Lemma sending_handle ack f : sending (handle_frame ack f).
Proof.
  assert (forall d, sending (send d)) as Hs.
  { intros d. unfold send. apply sending_bind; [auto with sending|]. intros x. destruct (_ || x); [auto with sending|].
    apply sending_bind; [auto with sending|]. intros []; auto with sending. }
  unfold handle_frame, end_stream. repeat case_match; eauto 8 with sending.
Qed.

Lemma sending_feed ack chunk : sending (feed ack chunk).
Proof.
  unfold feed, drain. apply sending_bind; [auto with sending|]. intros b. apply sending_bind; [auto with sending|]. intros _.
  apply sending_bind; [auto with sending|]. intros b'. generalize (length b') as fuel. induction fuel as [|fuel IH]; cbn [drain_loop]; [auto with sending|].
  apply sending_bind; [auto with sending|]. intros t. destruct (parse_frame t) as [[f rest]|]; [|auto with sending].
  apply sending_bind; [auto with sending|]. intros _. apply sending_bind; [apply sending_handle|]. intros []; auto with sending.
Qed.

Lemma drain_total ack fuel : forall (s : Connection * W), are_bytes (buf s.1) -> exists go s',
  drain_loop fuel ack s = (Ret go, s') /\ are_bytes (buf s'.1) /\ only_sends s.2 s'.2.
Proof.
  induction fuel as [|fuel IH]; intros [c w] Hb; cbn [fst snd] in *.
  - exists true, (c, w). split; [done|]. split; [done|constructor].
  - cbn [drain_loop]. unfold mbind at 1, run_bind at 1, get_conn. cbn [fst].
    destruct (parse_frame (buf c)) as [[f rest]|] eqn:E; [|exists true, (c, w); split; [done|]; split; [done|constructor]].
    apply parse_frame_ok in E as [Hok Hr]; [|done]. unfold mbind at 1, run_bind at 1. rewrite set_conn_ret. cbn [fst snd].
    unfold mbind at 1, run_bind at 1. destruct (handle_frame_ret ack f (with_buf rest c, w) Hok) as [s1 E].
    pose proof (sending_handle ack f (with_buf rest c, w)) as Hsend. rewrite E in *. cbn [fst snd] in Hsend.
    pose proof (proj2 (handle_frame_bufless ack f rest (with_buf rest c, w))) as Hbuf. rewrite E in Hbuf. cbn [fst snd buf with_buf] in Hbuf.
    destruct (negb _); [|exists false, s1; rewrite Hbuf; done].
    destruct (IH s1) as (go & s2 & -> & H2 & H3); [by rewrite Hbuf|]. exists go, s2. split; [done|]. split; [done|].
    by eapply only_sends_trans.
Qed.

(** Whatever arrives, the client raises nothing. *)
Lemma feed_total ack chunk (s : Connection * W) : are_bytes (buf s.1) -> are_bytes chunk -> exists go s',
  feed ack chunk s = (Ret go, s') /\ are_bytes (buf s'.1) /\ only_sends s.2 s'.2.
Proof.
  intros Hb Hc. destruct s as [c w]. unfold feed, drain, mbind, run_bind, get_conn. cbn [fst]. rewrite set_conn_ret.
  apply (drain_total ack _ (with_buf (buf c ++ chunk) c, w)). cbn. by apply are_bytes_app.
Qed.
End total.

(** ** Flow control *)

(** The frames of a text, by the client's own parser. *)
Fixpoint frames_of (fuel : nat) (b : bytes) : list Frame :=
  match fuel with
  | O => []
  | S fuel => match parse_frame b with Some (f, rest) => f :: frames_of fuel rest | None => [] end
  end.
Definition sum (l : list Z) : Z := foldr Z.add 0 l.
(** The credit a list of sent texts gives to a stream (0: the connection). *)
Definition increment (sid : Z) (f : Frame) : Z :=
  if (f_type f =? FRAME_WINDOW_UPDATE) && (f_sid f =? sid) then from_be (f_payload f) else 0.
Definition credit (sid : Z) (log : list bytes) : Z := sum ((fun b => sum (increment sid <$> frames_of (length b) b)) <$> log).
(** The payload of the DATA frames of a stream, and of all *)
Definition data_of (select : Z -> bool) (f : Frame) : Z :=
  if (f_type f =? FRAME_DATA) && select (f_sid f) then Z.of_nat (length (f_payload f)) else 0.
Definition received_on (sid : Z) (fs : list Frame) : Z := sum (data_of (Z.eqb sid) <$> fs).
Definition received_all (fs : list Frame) : Z := sum (data_of (fun _ => true) <$> fs).

(** A socket that takes everything, and what it was given. *)
Class SocketLog (W : Type) `{Socket W} := {
  sent : W -> list bytes;
  send_accepted b w : (sock_send b w).1 = true;
  sent_send b w : sent (sock_send b w).2 = sent w ++ [b]
}.

Lemma sum_app l1 l2 : sum (l1 ++ l2) = sum l1 + sum l2.
Proof. induction l1 as [|x l IH]; [done|]. change (x + sum (l ++ l2) = x + sum l + sum l2). lia. Qed.
Lemma frames_of_two f1 f2 : frame_ok f1 -> frame_ok f2 ->
  frames_of (length (frame_bytes f1 ++ frame_bytes f2)) (frame_bytes f1 ++ frame_bytes f2) = [f1; f2].
Proof.
  intros H1 H2. assert (exists n, length (frame_bytes f1 ++ frame_bytes f2) = S (S n)) as [n ->] by (eexists; cbn; reflexivity).
  cbn [frames_of]. rewrite parse_frame_bytes by done. rewrite <- (app_nil_r (frame_bytes f2)), parse_frame_bytes by done.
  by destruct n.
Qed.

Lemma increment_update sid s n : 0 <= n < 2 ^ 24 ->
  increment sid (mkFrame FRAME_WINDOW_UPDATE 0 s (be 4 n)) = if s =? sid then n else 0.
Proof.
  intros Hn. unfold increment. cbn [f_type f_sid f_payload]. change (FRAME_WINDOW_UPDATE =? FRAME_WINDOW_UPDATE) with true.
  cbn [andb]. destruct (s =? sid); [|done]. rewrite from_be_be. change (256 ^ Z.of_nat 4) with (2 ^ 32). apply Z.mod_small. lia.
Qed.

Section credit.
Context {W : Type} `{HS : Socket W} `{HL : !SocketLog W}.

(** What handling a frame leaves of the bodies, and adds to the log. *)
Record credited (fs : list Frame) (s s' : Connection * W) : Prop := {
  cr_body sid : default 0 (dict_get (body s'.1) sid) = default 0 (dict_get (body s.1) sid) + received_on sid fs;
  cr_stream sid : sid <> 0 -> credit sid (sent s'.2) = credit sid (sent s.2) + received_on sid fs;
  cr_connection : credit 0 (sent s'.2) = credit 0 (sent s.2) + received_all fs;
  cr_open : closed s'.1 = closed s.1
}.

Lemma credited_nil s : credited [] s s.
Proof. split; intros; rewrite ?Z.add_0_r; done. Qed.
Lemma credited_trans fs gs s1 s2 s3 : credited fs s1 s2 -> credited gs s2 s3 -> credited (fs ++ gs) s1 s3.
Proof.
  intros [A1 A2 A3 A4] [B1 B2 B3 B4]. split.
  - intros sid. rewrite B1, A1. unfold received_on. rewrite fmap_app, sum_app. lia.
  - intros sid H. rewrite B2, A2 by done. unfold received_on. rewrite fmap_app, sum_app. lia.
  - rewrite B3, A3. unfold received_all. rewrite fmap_app, sum_app. lia.
  - congruence.
Qed.
(** Changes that concern neither bodies nor sockets *)
Lemma credited_other f s s' : f_type f <> FRAME_DATA -> body s'.1 = body s.1 -> closed s'.1 = closed s.1 -> s'.2 = s.2 -> credited [f] s s'.
Proof.
  intros Hf Hb Hc Hw. assert (forall p, data_of p f = 0) as H0 by (intros p; unfold data_of; by destruct (Z.eqb_spec (f_type f) FRAME_DATA)).
  split; unfold received_on, received_all; cbn [fmap list_fmap sum foldr]; rewrite ?H0, ?Hb, ?Hw, ?Hc; intros; rewrite ?H0; lia || done.
Qed.

Lemma data_frame_credited f s s' : frame_ok f -> f_type f = FRAME_DATA -> f_sid f <> 0 -> closed s.1 = false ->
  handle_frame true f s = (Ret true, s') -> credited [f] s s'.
Proof.
  intros (_ & _ & Hs & Hl) Ht Hsid Hc. unfold handle_frame. rewrite Ht. change (FRAME_DATA =? FRAME_DATA) with true. cbv iota.
  set (n := Z.of_nat (length (f_payload f))) in *. unfold mbind at 1, run_bind at 1. rewrite set_conn_ret.
  assert (received_all [f] = n) as Hall by (unfold received_all, data_of; cbn; rewrite Ht; cbn; fold n; lia).
  assert (forall sid, received_on sid [f] = if sid =? f_sid f then n else 0) as Hon
    by (intros sid; unfold received_on, data_of; cbn; rewrite Ht; cbn; fold n; destruct (sid =? f_sid f); lia).
  assert (forall sid, default 0 (dict_get (body (add_body (f_sid f) n s.1)) sid) = default 0 (dict_get (body s.1) sid) + received_on sid [f]) as Hbody.
  { intros sid. rewrite Hon. cbn [add_body body]. rewrite dict_get_set. destruct (decide (sid = f_sid f)) as [->|Hne].
    - rewrite Z.eqb_refl. cbn. lia.
    - apply Z.eqb_neq in Hne. rewrite Hne. lia. }
  assert (forall s1, body s1.1 = body (add_body (f_sid f) n s.1) -> closed s1.1 = closed s.1 ->
    sent s1.2 = sent s.2 ++ (if n =? 0 then [] else [frame_bytes (mkFrame FRAME_WINDOW_UPDATE 0 0 (be 4 n))
                                                    ++ frame_bytes (mkFrame FRAME_WINDOW_UPDATE 0 (f_sid f) (be 4 n))]) ->
    forall s2, (end_stream f;; mret true) s1 = (Ret true, s2) -> credited [f] s s2) as Hfin.
  { intros s1 Hb1 Hc1 Hw1 s2. unfold mbind, run_bind. destruct (end_stream f s1) as [[]] eqn:E; [|done]. intros [= <-].
    assert (body p.1 = body s1.1 /\ closed p.1 = closed s1.1 /\ p.2 = s1.2) as (Hb2 & Hc2 & Hw2).
    { unfold end_stream in E. destruct (_ && _); [rewrite set_conn_ret in E|]; by injection E as _ <-. }
    assert (forall sid, credit sid (sent p.2) = credit sid (sent s.2) + (if 0 =? sid then n else 0) + (if f_sid f =? sid then n else 0)) as Hcr.
    { intros sid. rewrite Hw2, Hw1. unfold credit. rewrite fmap_app, sum_app. destruct (Z.eqb_spec n 0) as [E0|E0]; cbn [fmap list_fmap sum foldr].
      - rewrite E0. destruct (0 =? sid), (f_sid f =? sid); lia.
      - rewrite frames_of_two by (unfold frame_ok; cbn [f_type f_flags f_sid f_payload]; change FRAME_WINDOW_UPDATE with 8; rewrite length_be; lia).
        cbn [fmap list_fmap sum foldr]. rewrite !increment_update by lia. lia. }
    split.
    - intros sid. rewrite Hb2, Hb1. apply Hbody.
    - intros sid H0. rewrite Hcr, Hon, (Z.eqb_sym sid). destruct (Z.eqb_spec 0 sid); [done|]. lia.
    - rewrite Hcr, Hall. destruct (Z.eqb_spec (f_sid f) 0); [done|]. change (0 =? 0) with true. cbv iota. lia.
    - congruence. }
  unfold mbind at 1, run_bind at 1. destruct (Z.eqb_spec n 0) as [E0|E0]; cbn [negb andb].
  - apply Hfin; [done|done|]. rewrite app_nil_r. done.
  - rewrite !window_update_ok by lia. unfold mbind at 1, run_bind at 1, lift. unfold mbind at 1, run_bind at 1.
    unfold send, mbind at 1, run_bind at 1, get_conn. cbn [fst add_body closed]. rewrite Hc.
    set (out := frame_bytes _ ++ _). rewrite bool_decide_eq_false_2 by done. cbn [orb].
    unfold mbind at 1, run_bind at 1, on_socket. pose proof (send_accepted out s.2) as Ha. pose proof (sent_send out s.2) as Hsent.
    destruct (sock_send out s.2) as [ok w1]. cbn [fst snd] in Ha, Hsent. subst ok. cbn [mret run_ret]. by apply Hfin.
Qed.

Lemma frame_credited f s s' : frame_ok f -> f_type f <> FRAME_GOAWAY -> (f_type f = FRAME_DATA -> f_sid f <> 0) -> closed s.1 = false ->
  handle_frame true f s = (Ret true, s') -> credited [f] s s'.
Proof.
  intros Hok Hg Hd Hc. destruct (Z.eqb_spec (f_type f) FRAME_DATA) as [E|E]; [by apply data_frame_credited; auto|].
  assert (forall s1 s2, body s1.1 = body s.1 -> closed s1.1 = closed s.1 -> s1.2 = s.2 ->
    (end_stream f;; mret true) s1 = (Ret true, s2) -> credited [f] s s2) as Hfin.
  { intros s1 s2 H1 H2 H3. unfold mbind, run_bind, end_stream.
    destruct (_ && _); [rewrite set_conn_ret|]; intros [= <-]; by apply credited_other. }
  unfold handle_frame. destruct (Z.eqb_spec (f_type f) FRAME_DATA); [done|].
  destruct (f_type f =? FRAME_HEADERS); [unfold mbind at 1, run_bind at 1; rewrite set_conn_ret; by apply Hfin|].
  destruct (_ && _); [unfold mbind at 1, run_bind at 1; rewrite set_conn_ret; by apply Hfin|].
  destruct (Z.eqb_spec (f_type f) FRAME_GOAWAY); [done|]. by apply Hfin.
Qed.

(** C37: the client gives back exactly the credit it uses. After any frames
    without a GOAWAY and without DATA on stream 0, received on an open
    connection whose sends succeed: for every stream the WINDOW_UPDATE frames
    sent add up to the payload bytes received on that stream, those of stream
    0 to the payload bytes of all streams, and the byte count of every stream
    has grown by its payload. *)
Theorem credit_exact fs c w : Forall frame_ok fs -> Forall (fun f => f_type f <> FRAME_GOAWAY) fs ->
  Forall (fun f => f_type f = FRAME_DATA -> f_sid f <> 0) fs -> closed c = false ->
  exists c' w', handle_all true fs (c, w) = (Ret true, (c', w'))
  /\ (forall sid, sid <> 0 -> credit sid (sent w') = credit sid (sent w) + received_on sid fs)
  /\ credit 0 (sent w') = credit 0 (sent w) + received_all fs
  /\ (forall sid, default 0 (dict_get (body c') sid) = default 0 (dict_get (body c) sid) + received_on sid fs).
Proof.
  intros Hok Hg Hd Hc. assert (exists s', handle_all true fs (c, w) = (Ret true, s') /\ credited fs (c, w) s') as ([c' w'] & H & []).
  { assert (closed (c, w).1 = false) as Hcl by done. clear Hc. revert Hcl. generalize (c, w) as s. clear c w.
    induction fs as [|f fs IH]; intros s Hc; [by exists s; split; [done|apply credited_nil]|].
    inversion Hok; inversion Hg; inversion Hd; subst. cbn [handle_all]. unfold mbind, run_bind.
    destruct (handle_frame_ret true f s) as [s1 E]; [done|]. replace (f_type f =? FRAME_GOAWAY) with false in E by (symmetry; by apply Z.eqb_neq).
    cbn [negb] in E. rewrite E. assert (credited [f] s s1) as Hcr by (by apply frame_credited).
    destruct (IH ltac:(done) ltac:(done) ltac:(done) s1) as (s2 & -> & Hcr2); [by rewrite (cr_open _ _ _ Hcr)|].
    exists s2. split; [done|]. by apply (credited_trans [f] fs s s1 s2). }
  by exists c', w'.
Qed.
End credit.

(** ** Witnesses *)

(** A socket that takes everything and never answers. *)
#[local] Instance silent : Socket (list bytes) := {
  sock_connect _ w := (true, w);
  sock_send b w := (true, w ++ [b]);
  sock_recv _ w := (TimedOut, w);
  sock_close w := w;
  sock_time _ := fzero
}.
#[local] Instance silent_log : SocketLog (list bytes) := { sent w := w; send_accepted _ _ := eq_refl; sent_send _ _ := eq_refl }.

Definition fresh : Connection := mkConn "localhost:8443" true [] 3 [(1, "/")] [(1, 0)] ∅ ∅ None false false.
Definition answer : list Frame :=
  [mkFrame FRAME_SETTINGS FLAG_ACK 0 []; mkFrame FRAME_HEADERS FLAG_END_HEADERS 1 [136]; mkFrame FRAME_DATA 0 1 [104; 105];
   mkFrame FRAME_DATA FLAG_END_STREAM 1 [33]].
Definition farewell : list Frame := answer ++ [mkFrame FRAME_GOAWAY 0 0 [0; 0; 0; 1; 0; 0; 0; 0]; mkFrame FRAME_DATA 0 1 [1]].

Lemma answer_ok : Forall frame_ok farewell.
Proof. repeat constructor; vm_compute; done. Qed.
Lemma answer_ok' : Forall frame_ok answer.
Proof. repeat constructor; vm_compute; done. Qed.

(** The whole, one byte at a time *)
Definition bytewise (b : bytes) : list bytes := (fun x => [x]) <$> b.

Lemma reassembly_witness :
  let chunks := bytewise (concat (frame_bytes <$> farewell) ++ []) in
  length chunks = 67%nat
  /\ exists go c' w' b, handle_all true farewell (fresh, []) = (Ret go, (c', w')) /\ feed_all true chunks (fresh, []) = (Ret go, (with_buf b c', w'))
    /\ (go = false <-> Exists (fun f => f_type f = FRAME_GOAWAY) farewell) /\ (go = true -> b = []).
Proof.
  split; [reflexivity|]. apply (reassembly true _ farewell [] fresh []); [apply answer_ok|reflexivity|reflexivity|vm_compute; reflexivity].
Defined.

Lemma credit_exact_witness :
  received_all answer = 3
  /\ exists c' w', handle_all true answer (fresh, []) = (Ret true, (c', w'))
  /\ (forall sid, sid <> 0 -> credit sid (sent w') = credit sid (sent ([] : list bytes)) + received_on sid answer)
  /\ credit 0 (sent w') = credit 0 (sent ([] : list bytes)) + received_all answer
  /\ (forall sid, default 0 (dict_get (body c') sid) = default 0 (dict_get (body fresh) sid) + received_on sid answer).
Proof.
  split; [reflexivity|]. apply (credit_exact answer fresh []); [apply answer_ok'| | |reflexivity]; repeat constructor; vm_compute; done.
Defined.
