(* ===== verification/Workload.v ===== *)
(** * The workload profiler (scripts/profile_workload.py)

    The client that stops when its streams are done, the workloads built on
    it, the rounds around a server process, the summaries and the fitted cost
    model.  The server process, its CPU time and the clocks are an interface
    over the socket's.  What is printed is left out, but for the report of a
    summary. *)

From Stdlib Require Import Ascii SpecFloat.
From S2P Require Import Prelude PyInt PyStr PyFloat Json Reports Bench NoiseFloor H2Client H2Frames.

Definition PORT : Z := 8080.
Definition LARGE_ASSET : string := "/assets/index-Q2Xld2VX.js".
Definition SMALL_ASSET : string := "/logo.png".
Definition FLIGHT : Z := 8.
Definition DOCUMENT : string := "/".
Definition SUBRESOURCES : list string :=
  ["/favicon.svg"; "/logo.png"; "/manifest.json"; "/assets/index-Q2Xld2VX.js"; "/assets/index-pzx_VsSR.css"].

(** ** The client *)

Section client.
Context {W : Type} `{HS : Socket W}.
Abbreviation method A := (run (Connection * W) A).

(** [pending - self.complete] *)
Definition outstanding (ids : list Z) (c : Connection) : list Z :=
  List.filter (fun i => negb (bool_decide (i ∈ complete c))) ids.

Fixpoint pump_until_loop (fuel : nat) (deadline : float) (ids : list Z) : method unit :=
  match fuel with
  | O => raise OutOfFuel
  | S fuel =>
      missing ← get_conn (outstanding ids);
      c ← get_conn closed;
      if bool_decide (missing = []) || (c : bool) then mret () else
      t ← time_now;
      let remaining := fsub deadline t in
      if fleb remaining fzero then mret () else
      r ← on_socket (sock_recv remaining);
      match r with
      | TimedOut | SslError | ConnectionReset => mret ()
      | Chunk [] => set_conn set_closed
      | Chunk b => go ← feed true b;
                   if (go : bool) then pump_until_loop fuel deadline ids else mret ()
      end
  end.
Definition SECONDS : float := round_int 20.
Definition pump_until (fuel : nat) (ids : list Z) : method unit :=
  t ← time_now; pump_until_loop fuel (fadd t SECONDS) ids.

Definition require_done (ids : list Z) : method unit := fun s =>
  if bool_decide (outstanding ids s.1 = []) && bool_decide (goaway s.1 = None) then (Ret (), s)
  else (Raise (SystemExit "workload failed: incomplete streams"), s).

(** A flight: requested, waited for, and checked. *)
Definition fetch (fuel : nat) (ps : list string) : method unit :=
  ids ← get ps; pump_until fuel ids;; require_done ids.

Definition body_bytes (c : Connection) : Z := foldr Z.add 0 (snd <$> body c).

(** [c = Connection(...)], what is done with it, and [c.close()]. *)
Definition on_connection {A} (window : Z) (m : method A) : run W (A * Z) := fun w =>
  match connect PORT 65535 window true w with
  | (Raise e, w) => (Raise e, w)
  | (Ret c, w) => match m (c, w) with
                  | (Ret x, (c, w)) => (Ret (x, body_bytes c), sock_close w)
                  | (Raise e, (_, w)) => (Raise e, w)
                  end
  end.

(** ** The workloads: connections, requests and response bytes *)

(** [for _ in range(n)] with the bytes added up. *)
Fixpoint repeat_bytes (n : nat) (m : run W Z) (total : Z) : run W Z :=
  match n with O => mret total | S n => b ← m; repeat_bytes n m (total + b) end.

Definition workload_handshake (fuel : nat) (connections : Z) : run W (Z * Z * Z) :=
  b ← repeat_bytes (Z.to_nat connections)
        (r ← on_connection (Z.shiftl 1 20) (fetch fuel [SMALL_ASSET]); mret (r : unit * Z).2) 0;
  mret (connections, connections, b).

(** The loop of [workload_stream]; each turn requests something, so
    [requests] turns are enough. *)
Fixpoint stream_loop (turns fuel : nat) (requests done : Z) (path : string) : method Z :=
  match turns with
  | O => mret done
  | S turns =>
      if done <? requests then
        let batch := Z.min FLIGHT (requests - done) in
        fetch fuel (replicate (Z.to_nat batch) path);;
        stream_loop turns fuel requests (done + batch) path
      else mret done
  end.
Definition workload_stream (fuel : nat) (requests : Z) (path : string) : run W (Z * Z * Z) :=
  r ← on_connection (Z.shiftl 1 24) (stream_loop (Z.to_nat requests) fuel requests 0 path);
  mret (1, (r : Z * Z).1, r.2).

Definition workload_pageload (fuel : nat) (pages : Z) : run W (Z * Z * Z) :=
  b ← repeat_bytes (Z.to_nat pages)
        (r ← on_connection (Z.shiftl 1 24) (fetch fuel [DOCUMENT];; fetch fuel SUBRESOURCES); mret (r : unit * Z).2) 0;
  mret (pages, pages * (1 + Z.of_nat (length SUBRESOURCES)), b).

Definition workload_noise : run W (Z * Z * Z) := mret (0, 0, 0).
End client.

(** ** A round *)

(** The server process: starting and stopping it, one probe of its port,
    [time.sleep(0.02)], the CPU time of the children that ended
    ([ru_utime], [ru_stime]) and [time.perf_counter()]. *)
Class Host (W : Type) := {
  host_socket :: Socket W;
  launch : W -> W;
  terminate : W -> W;
  probe : W -> bool * W;
  nap : W -> W;
  rusage : W -> float * float;
  perf_counter : W -> float
}.

Record Round : Type := mkRound {
  wall_s : float; cpu_s : float; user_s : float; sys_s : float; r_connections : Z; r_requests : Z; r_bytes : Z
}.

Section rounds.
Context {W : Type} `{HH : Host W}.

(** [_wait_for_listener] *)
Definition NOT_LISTENING : exn := SystemExit "server never listened on :8080".
Fixpoint wait_for_listener (fuel : nat) (deadline : float) : run W unit := fun w =>
  match fuel with
  | O => (Raise OutOfFuel, w)
  | S fuel =>
      if fltb (sock_time w) deadline then
        let '(ok, w) := probe w in
        if ok then (Ret (), w) else wait_for_listener fuel deadline (nap w)
      else (Raise NOT_LISTENING, w)
  end.

(** [Server.__enter__]: the CPU time of the children before *)
Definition server_enter (fuel : nat) : run W (float * float) := fun w =>
  let before := rusage w in
  let w := launch w in
  match wait_for_listener fuel (fadd (sock_time w) (round_int 5)) w with
  | (Raise e, w) => (Raise e, w)
  | (Ret _, w) => (Ret before, w)
  end.
(** [Server.__exit__]: the user and system time of the server *)
Definition server_exit (before : float * float) (w : W) : (float * float) * W :=
  let w := terminate w in
  let after := rusage w in
  ((fsub after.1 before.1, fsub after.2 before.2), w).
(** [Server.cpu] *)
Definition server_cpu (times : float * float) : float := fadd times.1 times.2.

(** [with Server(binary) as server]: [__exit__] runs whatever the workload
    raises, but not when [__enter__] itself raises. *)
Definition run_round (fuel : nat) (workload : run W (Z * Z * Z)) : run W Round := fun w =>
  match server_enter fuel w with
  | (Raise e, w) => (Raise e, w)
  | (Ret before, w) =>
      let t0 := perf_counter w in
      let '(r, w) := workload w in
      let wall := fsub (perf_counter w) t0 in
      let '(times, w) := server_exit before w in
      ((fun '(c, q, b) => mkRound wall (server_cpu times) times.1 times.2 c q b) <$> r, w)
  end.
End rounds.

(** ** The summary *)

Record Summary : Type := mkSummary {
  s_scenario : string; s_size : Z; s_rounds : nat; cpu_median : float; cpu_min : float; cpu_max : float; cpu_spread : float;
  user_median : float; sys_median : float; wall_median : float; s_connections : Z; s_requests : Z; s_bytes : Z
}.

Definition summarise (name : string) (rounds : list Round) (size : Z) : result Summary :=
  let cpu := cpu_s <$> rounds in
  med ← median cpu;
  match max_of cpu, min_of cpu, rounds with
  | Some hi, Some lo, first :: _ =>
      spread ← (if feqb med fzero then Ret fzero else x ← fdiv (fsub hi lo) med; Ret (fmul x HUNDRED));
      user ← median (user_s <$> rounds);
      sys ← median (sys_s <$> rounds);
      wall ← median (wall_s <$> rounds);
      Ret (mkSummary name size (length rounds) med lo hi spread user sys wall (r_connections first) (r_requests first) (r_bytes first))
  | _, _, _ => Raise (ValueError "max() arg is an empty sequence")
  end.

(** *** What [report] prints *)

(** ["%9.2f"] *)
Definition fixed (width digits : nat) (x : float) : string := rjust width (fmt_fixed false digits x).
Definition ms (x : float) : float := fmul x (round_int 1000).
(** The CPU time per unit, when there are units *)
Definition per_unit (head : string) (n : Z) (s : Summary) (width digits : nat) (scale : Z) (tail : string) : result (list string) :=
  if n =? 0 then Ret [] else
  d ← float_of_int n;
  q ← fdiv (cpu_median s) d;
  Ret [head +:+ fixed width digits (fmul q (round_int scale)) +:+ tail].
Definition report_lines (s : Summary) : result (list string) :=
  connections ← per_unit "  per connection " (s_connections s) s 9 1 1000000 " us";
  requests ← per_unit "  per request    " (s_requests s) s 9 1 1000000 " us";
  bytes ← per_unit "  per byte       " (s_bytes s) s 9 2 1000000000 (" ns (" +:+ str_z (s_bytes s) +:+ " bytes)");
  Ret ([""; "── " +:+ s_scenario s +:+ " (size " +:+ str_z (s_size s) +:+ ", " +:+ str_nat (s_rounds s) +:+ " rounds) ──";
        "  server CPU   median " +:+ fixed 9 2 (ms (cpu_median s)) +:+ " ms   min " +:+ fixed 0 2 (ms (cpu_min s))
          +:+ "  max " +:+ fixed 0 2 (ms (cpu_max s)) +:+ "  spread " +:+ fixed 0 1 (cpu_spread s) +:+ "%";
        "    user " +:+ fixed 8 2 (ms (user_median s)) +:+ " ms   sys " +:+ fixed 8 2 (ms (sys_median s)) +:+ " ms";
        "  wall (client-bound) " +:+ fixed 9 2 (ms (wall_median s)) +:+ " ms"] ++ connections ++ requests ++ bytes).

Example report_demo : report_lines (mkSummary "handshake" 50 5 (of_decimal 125 2) (of_decimal 12 1) (of_decimal 13 1) (round_int 8)
    (round_int 1) (of_decimal 25 2) (round_int 2) 50 50 0)
  = Ret [""; "── handshake (size 50, 5 rounds) ──"; "  server CPU   median   1250.00 ms   min 1200.00  max 1300.00  spread 8.0%";
         "    user  1000.00 ms   sys   250.00 ms"; "  wall (client-bound)   2000.00 ms"; "  per connection   25000.0 us";
         "  per request      25000.0 us"].
Proof. vm_compute. reflexivity. Qed.

(** ** The cost model *)

(** [sum] of floats: added from the left in some interpreters, with a
    compensation in others; neither turns non-negative terms, one of them
    positive, into a sum that is not positive. *)
Class FloatSum := {
  fsum : list float -> float;
  fsum_positive l : Forall (fun x => fleb fzero x = true) l -> Exists (fun x => positive_float x = true) l ->
    positive_float (fsum l) = true
}.

(** [x ** 2] *)
Definition square (x : float) : result float :=
  let y := fmul x x in
  match x, y with S754_finite _ _ _, S754_infinity _ => Raise OverflowError | _, _ => Ret y end.

(** [f(x)] for all points, in a list. *)
Definition collect {A} (l : list A) (f : A -> result float) : result (list float) :=
  for_result l [] (fun acc x => y ← f x; Ret (acc ++ [y])).

Definition Fit : Type := float * float * float.

Section cost_model.
Context `{FS : FloatSum}.

(** [fit(points)]; [None] for three times [None]. *)
Definition fit (points : list (Z * float)) : result (option Fit) :=
  let n := Z.of_nat (length points) in
  if n <? 2 then Ret None else
  mx ← fdiv (round_int (foldr Z.add 0 points.*1)) (round_int n);
  my ← fdiv (fsum points.*2) (round_int n);
  let dx (p : Z * float) := fsub (round_int p.1) mx in
  let dy (p : Z * float) := fsub p.2 my in
  sq ← collect points (fun p => square (dx p));
  let denom := fsum sq in
  if feqb denom fzero then Ret None else
  slope ← fdiv (fsum ((fun p => fmul (dx p) (dy p)) <$> points)) denom;
  let intercept := fsub my (fmul slope mx) in
  tot ← collect points (fun p => square (dy p));
  let ss_tot := fsum tot in
  res ← collect points (fun p => square (fsub p.2 (fadd (fmul slope (round_int p.1)) intercept)));
  let resid := fsum res in
  r2 ← (if feqb ss_tot fzero then Ret (round_int 1) else q ← fdiv resid ss_tot; Ret (fsub (round_int 1) q));
  Ret (Some (slope, intercept, r2)).
End cost_model.

(** ** The profile *)

Record Marginal : Type := mkMarginal { m_scenario : string; marginal_us : float; fixed_ms : float; m_r2 : float; m_sizes : list Z }.

Section profile.
Context {W : Type} `{HH : Host W} `{FS : FloatSum}.

Definition SCENARIOS (fuel : nat) : list (string * ((Z -> run W (Z * Z * Z)) * list Z)) :=
  [("noise", (fun _ => workload_noise, [0]));
   ("handshake", (workload_handshake fuel, [50; 100; 200]));
   ("transfer", (fun n => workload_stream fuel n LARGE_ASSET, [50; 100; 200]));
   ("request", (fun n => workload_stream fuel n SMALL_ASSET, [500; 1000; 2000]));
   ("pageload", (workload_pageload fuel, [50; 100; 200]))].

Fixpoint run_rounds (n fuel : nat) (workload : run W (Z * Z * Z)) : run W (list Round) :=
  match n with
  | O => mret []
  | S n => r ← run_round fuel workload; rs ← run_rounds n fuel workload; mret (r :: rs)
  end.

(** The sizes of a scenario: a discarded round, the rounds and their summary
    for each. *)
Fixpoint profile_sizes (fuel rounds : nat) (name : string) (workload : Z -> run W (Z * Z * Z)) (sizes : list Z) : run W (list Summary) :=
  match sizes with
  | [] => mret []
  | size :: sizes =>
      _warm_up ← run_round fuel (workload size);
      rs ← run_rounds rounds fuel (workload size);
      s ← lift (summarise name rs size);
      rest ← profile_sizes fuel rounds name workload sizes;
      mret (s :: rest)
  end.

(** The fitted line of the results; three [None]s cannot be multiplied. *)
Definition marginal (name : string) (points : list (Z * float)) : result (list (Summary + Marginal)) :=
  if (1 <? length points)%nat then
    f ← fit points;
    match f with
    | Some (slope, intercept, r2) =>
        Ret [inr (mkMarginal name (fmul slope (round_int 1000000)) (fmul intercept (round_int 1000)) r2 points.*1)]
    | None => Raise TypeError
    end
  else Ret [].

Definition profile_scenario (fuel rounds : nat) (size : option Z) (name : string) : run W (list (Summary + Marginal)) :=
  match dict_get (SCENARIOS fuel) name with
  | None => raise KeyError
  | Some (workload, default_sizes) =>
      let sizes := match size with Some n => [n] | None => default_sizes end in
      ss ← profile_sizes fuel rounds name workload sizes;
      m ← lift (marginal name ((fun s => (s_size s, cpu_median s)) <$> ss));
      mret ((inl <$> ss) ++ m)
  end.

Fixpoint profile_all (fuel rounds : nat) (size : option Z) (names : list string) : run W (list (Summary + Marginal)) :=
  match names with
  | [] => mret []
  | name :: names => r ← profile_scenario fuel rounds size name;
                     rs ← profile_all fuel rounds size names; mret (r ++ rs)
  end.

(** [main] *)
Definition profile_main (fuel : nat) (binary_exists : bool) (names : list string) (rounds : Z) (size : option Z)
  : run W (list (Summary + Marginal)) :=
  if negb binary_exists then raise (SystemExit "no binary: run make first") else
  let names := match names with [] => (SCENARIOS fuel).*1 | _ => names end in
  profile_all fuel (Z.to_nat rounds) size names.
End profile.

(** ** The load generator of scripts/profile_samples.py *)

Definition UNITS : list (string * Z) := [("handshake", 20); ("pageload", 10); ("transfer", 400); ("request", 4000)].

Section load.
Context {W : Type} `{HH : Host W}.

(** The loop of [_worker]: it ends with its time, a failed workload, or an
    [OSError]. *)
Fixpoint worker_loop (turns : nat) (stop_at : float) (workload : run W (Z * Z * Z)) : run W unit := fun w =>
  match turns with
  | O => (Raise OutOfFuel, w)
  | S turns =>
      if fltb (sock_time w) stop_at then
        match workload w with
        | (Ret _, w) => worker_loop turns stop_at workload w
        | (Raise (SystemExit _), w) | (Raise OSError, w) => (Ret (), w)
        | (Raise e, w) => (Raise e, w)
        end
      else (Ret (), w)
  end.
Definition worker (turns fuel : nat) (scenario : string) (stop_at : float) : run W unit :=
  match dict_get (SCENARIOS fuel) scenario, dict_get UNITS scenario with
  | Some (workload, _), Some unit_ => worker_loop turns stop_at (workload unit_)
  | _, _ => raise KeyError
  end.
End load.

(** ** What waiting leaves alone *)

(** Streams and numbering stay, completed streams stay completed. *)
Record grows (c c' : Connection) : Prop := {
  gr_paths : paths c' = paths c;
  gr_next : next_id c' = next_id c;
  gr_complete : complete c ⊆ complete c'
}.
#[global] Instance grows_preorder : PreOrder grows.
Proof.
  split; [by split|]. intros c1 c2 c3 [A1 A2 A3] [B1 B2 B3]. split; [congruence..|]. by etrans.
Qed.

Create HintDb keeps.
Section keeps.
Context {W : Type} `{HS : Socket W}.
Abbreviation method A := (run (Connection * W) A).

Definition keeps {A} (m : method A) : Prop := forall s, grows s.1 (m s).2.1.

Lemma keeps_ret {A} (x : A) : keeps (mret x).
Proof. by intros s. Qed.
Lemma keeps_raise {A} e : keeps (raise e : method A).
Proof. by intros s. Qed.
Lemma keeps_lift {A} (r : result A) : keeps (lift r).
Proof. by intros s. Qed.
Lemma keeps_bind {A B} (m : method A) (f : A -> method B) : keeps m -> (forall x, keeps (f x)) -> keeps (m ≫= f).
Proof.
  intros Hm Hf s. unfold mbind, run_bind. specialize (Hm s). destruct (m s) as [[x|e] s1]; [|done].
  etrans; [exact Hm|apply Hf].
Qed.
Lemma keeps_get {A} (f : Connection -> A) : keeps (get_conn f).
Proof. by intros s. Qed.
Lemma keeps_time : keeps time_now.
Proof. by intros s. Qed.
Lemma keeps_socket {A} (f : W -> A * W) : keeps (on_socket f).
Proof. intros [c w]. unfold on_socket. by destruct (f w). Qed.
Lemma keeps_set f : (forall c, grows c (f c)) -> keeps (set_conn f).
Proof. intros Hf [c w]. apply Hf. Qed.
#[local] Hint Resolve keeps_ret keeps_raise keeps_lift keeps_bind keeps_get keeps_time keeps_socket : keeps.
#[local] Hint Extern 1 (keeps (set_conn _)) => (apply keeps_set; intros c; split; cbn; set_solver) : keeps.

Lemma keeps_send data : keeps (send data).
Proof. unfold send. apply keeps_bind; [auto with keeps|]. intros x. destruct (_ || x); [auto with keeps|]. apply keeps_bind; [auto with keeps|]. intros []; auto with keeps. Qed.
#[local] Hint Resolve keeps_send : keeps.
Lemma keeps_handle ack f : keeps (handle_frame ack f).
Proof. unfold handle_frame, end_stream. repeat case_match; eauto 8 with keeps. Qed.
#[local] Hint Resolve keeps_handle : keeps.
Lemma keeps_drain_loop fuel ack : keeps (drain_loop fuel ack).
Proof.
  induction fuel as [|fuel IH]; cbn [drain_loop]; [auto with keeps|]. apply keeps_bind; [auto with keeps|]. intros b.
  destruct (parse_frame b) as [[f rest]|]; [|auto with keeps]. apply keeps_bind; [auto with keeps|]. intros _.
  apply keeps_bind; [auto with keeps|]. intros []; auto with keeps.
Qed.
Lemma keeps_feed ack chunk : keeps (feed ack chunk).
Proof.
  unfold feed, drain. apply keeps_bind; [auto with keeps|]. intros b. apply keeps_bind; [auto with keeps|]. intros _.
  apply keeps_bind; [auto with keeps|]. intros b'. apply keeps_drain_loop.
Qed.
#[local] Hint Resolve keeps_feed : keeps.
Lemma keeps_pump_until fuel ids : keeps (pump_until fuel ids).
Proof.
  unfold pump_until. apply keeps_bind; [auto with keeps|]. intros t. generalize (fadd t SECONDS) as d. intros d.
  induction fuel as [|fuel IH]; cbn [pump_until_loop]; [auto with keeps|]. apply keeps_bind; [auto with keeps|]. intros missing.
  apply keeps_bind; [auto with keeps|]. intros cl. destruct (_ || cl); [auto with keeps|]. apply keeps_bind; [auto with keeps|]. intros t'.
  destruct (fleb _ fzero); [auto with keeps|]. apply keeps_bind; [auto with keeps|].
  intros [[|b bs]| | |]; auto with keeps. apply keeps_bind; [auto with keeps|]. intros []; auto with keeps.
Qed.
End keeps.

(** ** What a stream workload asked for, and got *)

Definition odd_ids (first : Z) (n : nat) : list Z := (fun i => first + 2 * Z.of_nat i) <$> seq 0 n.

Lemma odd_ids_S a n : odd_ids a (S n) = a :: odd_ids (a + 2) n.
Proof.
  unfold odd_ids. change (seq 0 (S n)) with (0%nat :: seq 1 n). cbn [fmap list_fmap]. f_equal; [lia|].
  rewrite <- fmap_S_seq, <- list_fmap_compose. apply list_fmap_ext. intros i x _. cbn. lia.
Qed.
Lemma odd_ids_app a n m : odd_ids a (n + m) = odd_ids a n ++ odd_ids (a + 2 * Z.of_nat n) m.
Proof.
  revert a. induction n as [|n IH]; intros a; [cbn [Nat.add]; change (odd_ids a 0) with (@nil Z); cbn [app]; f_equal; lia|].
  cbn [Nat.add]. rewrite !odd_ids_S, IH. cbn [app]. do 2 f_equal. f_equal. lia.
Qed.

(** All streams so far are for [path], numbered in order, and done. *)
Record settled (path : string) (n : nat) (c : Connection) : Prop := {
  st_paths : paths c = (fun id => (id, path)) <$> odd_ids 1 n;
  st_next : next_id c = 1 + 2 * Z.of_nat n;
  st_complete : Forall (fun id => id ∈ complete c) (odd_ids 1 n);
  st_goaway : goaway c = None
}.

Section stream.
Context {W : Type} `{HS : Socket W}.

Lemma request_state p (c : Connection) (w : W) : (request p (c, w)).2 = (add_stream p c, w)
  /\ forall x, (request p (c, w)).1 = Ret x -> x.1 = next_id c.
Proof.
  unfold request, mbind, run_bind, get_conn, lift. cbn [fst]. rewrite set_conn_ret. cbn [fst snd].
  destruct (encode_request p _ _); [|done]. destruct (frame _ _ _ _); [|done]. split; [done|]. by intros x [= <-].
Qed.

(** The streams opened so far, numbered in order, and their paths *)
Record opened (ps : list string) (c : Connection) : Prop := {
  op_paths : paths c = zip (odd_ids 1 (length ps)) ps;
  op_next : next_id c = 1 + 2 * Z.of_nat (length ps)
}.
Lemma zip_snoc (ids : list Z) (ps : list string) id p : length ids = length ps -> zip (ids ++ [id]) (ps ++ [p]) = zip ids ps ++ [(id, p)].
Proof. revert ps. induction ids as [|i ids IH]; intros [|q ps] [=]; [done|]. cbn [app zip_with]. by rewrite IH. Qed.
Lemma odd_ids_length a n : length (odd_ids a n) = n.
Proof. unfold odd_ids. by rewrite length_fmap, length_seq. Qed.
Lemma zip_replicate (ids : list Z) (p : string) : zip ids (replicate (length ids) p) = (fun id => (id, p)) <$> ids.
Proof. induction ids as [|i ids IH]; [done|]. cbn [length replicate zip_with fmap list_fmap]. by rewrite IH. Qed.
Lemma zip_keys (ids : list Z) (ps : list string) : length ids = length ps -> dict_keys (zip ids ps) = ids.
Proof. intros H. unfold dict_keys. rewrite fst_zip; [done|lia]. Qed.

Lemma add_stream_opened p ps c : opened ps c -> opened (ps ++ [p]) (add_stream p c).
Proof.
  intros [Hp Hn]. split; cbn [add_stream paths next_id].
  - rewrite length_app, odd_ids_app. cbn [length]. rewrite odd_ids_S. change (odd_ids _ 0) with (@nil Z).
    rewrite zip_snoc by (by rewrite odd_ids_length). rewrite Hp, dict_set_fresh.
    + by rewrite Hn.
    + rewrite zip_keys by apply odd_ids_length. intros (i & E & Hi%elem_of_seq)%list_elem_of_fmap. lia.
  - rewrite length_app. cbn [length]. lia.
Qed.

Lemma requests_opened qs : forall ps (c : Connection) (w : W) ids out c' w', opened ps c ->
  requests qs (c, w) = (Ret (ids, out), (c', w')) ->
  ids = odd_ids (1 + 2 * Z.of_nat (length ps)) (length qs) /\ w' = w /\ opened (ps ++ qs) c' /\ c' = for_each qs c (fun c q => add_stream q c).
Proof.
  induction qs as [|q qs IH]; intros ps c w ids out c' w' Ho; cbn [requests].
  - intros [= <- _ <- <-]. by rewrite app_nil_r.
  - unfold mbind, run_bind. destruct (request_state q c w) as [Hs Hid]. destruct (request q (c, w)) as [[[id f]|e] s1]; [|done].
    cbn [fst snd] in *. subst s1. specialize (Hid _ eq_refl). cbn in Hid. subst id.
    destruct (requests qs (add_stream q c, w)) as [[[ids' out']|e] [c2 w2]] eqn:E; [|done]. intros [= <- _ <- <-].
    apply (IH (ps ++ [q])) in E; [|by apply add_stream_opened]. destruct E as (-> & -> & H1 & H2).
    rewrite (op_next _ _ Ho). cbn [length]. rewrite odd_ids_S, length_app, <- app_assoc in *. cbn [length app] in *.
    split; [f_equal; f_equal; lia|]. done.
Qed.
Lemma add_streams_state qs : forall c, let c' := for_each qs c (fun c q => add_stream q c) in
  complete c' = complete c /\ goaway c' = goaway c /\ buf c' = buf c /\ closed c' = closed c /\ settings_acked c' = settings_acked c.
Proof. induction qs as [|q qs IH]; intros c; [done|]. exact (IH (add_stream q c)). Qed.

Lemma requests_state n path : forall (c : Connection) (w : W) ids out c' w' k,
  paths c = (fun id => (id, path)) <$> odd_ids 1 k -> next_id c = 1 + 2 * Z.of_nat k ->
  requests (replicate n path) (c, w) = (Ret (ids, out), (c', w')) ->
  ids = odd_ids (1 + 2 * Z.of_nat k) n /\ w' = w
  /\ paths c' = (fun id => (id, path)) <$> odd_ids 1 (k + n) /\ next_id c' = 1 + 2 * Z.of_nat (k + n)
  /\ complete c' = complete c /\ goaway c' = goaway c.
Proof.
  intros c w ids out c' w' k Hp Hn H. apply (requests_opened _ (replicate k path)) in H as (-> & -> & [H1 H2] & ->).
  - rewrite <- replicate_add, !length_replicate in *. destruct (add_streams_state (replicate n path) c) as (-> & -> & _).
    rewrite H1, H2. split; [done|]. split; [done|]. split; [|done].
    by rewrite <- (zip_replicate (odd_ids 1 (k + n)) path), odd_ids_length.
  - split; rewrite ?length_replicate; [|done]. by rewrite Hp, <- zip_replicate, odd_ids_length.
Qed.

Lemma outstanding_nil ids c : outstanding ids c = [] -> Forall (fun id => id ∈ complete c) ids.
Proof.
  unfold outstanding. intros H. apply list.Forall_forall. intros id Hid. destruct (decide (id ∈ complete c)) as [|Hn]; [done|]. exfalso.
  assert (In id (List.filter (fun i => negb (bool_decide (i ∈ complete c))) ids)) as Hin; [|by rewrite H in Hin].
  apply filter_In. split; [by apply list_elem_of_In|]. by rewrite bool_decide_eq_false_2.
Qed.

(** A flight that returns leaves all its streams done. *)
Lemma fetch_settled fuel path n k c w c' w' : settled path k c -> fetch fuel (replicate n path) (c, w) = (Ret (), (c', w')) ->
  settled path (k + n) c'.
Proof.
  intros [Hp Hn Hc Hg]. unfold fetch, get, mbind, run_bind.
  destruct (requests (replicate n path) (c, w)) as [[[ids out]|e] [c1 w1]] eqn:Er; [|done].
  destruct (requests_state n path c w ids out c1 w1 k Hp Hn Er) as (-> & -> & H1 & H2 & H3 & H4). cbn [fst snd].
  pose proof (keeps_send out (c1, w)) as K1. destruct (send_ret out (c1, w)) as [s2 E2]. rewrite E2 in *. cbn [fst snd] in K1. cbn [mret run_ret].
  set (ids := odd_ids _ n). pose proof (keeps_pump_until fuel ids s2) as K2.
  destruct (pump_until fuel ids s2) as [[[]|e] s3]; [|done]. cbn [fst snd] in K2. unfold require_done.
  destruct (_ && _) eqn:E; [|done]. intros [= ->]. apply andb_true_iff in E as [Ed%bool_decide_eq_true Eg%bool_decide_eq_true].
  assert (grows c1 c') as [G1 G2 G3] by (by etrans). split.
  - by rewrite G1.
  - by rewrite G2.
  - rewrite odd_ids_app. apply list.Forall_app. split; [|by apply outstanding_nil].
    eapply list.Forall_impl; [exact Hc|]. cbn. intros id Hid. apply G3. by rewrite H3.
  - done.
Qed.

(** The flights of a stream workload: each of at most [FLIGHT] requests, sent
    when every stream before it is done. *)
Inductive flights (fuel : nat) (path : string) : Connection * W -> list nat -> Connection * W -> Prop :=
| flights_none s : flights fuel path s [] s
| flights_more n s k s1 ks s2 : settled path n s.1 -> (1 <= k)%nat -> Z.of_nat k <= FLIGHT ->
    fetch fuel (replicate k path) s = (Ret (), s1) -> flights fuel path s1 ks s2 -> flights fuel path s (k :: ks) s2.

Lemma stream_loop_flights fuel path requests turns : forall n c w q c' w', settled path n c -> Z.of_nat n <= Z.max 0 requests ->
  requests - Z.of_nat n <= Z.of_nat turns ->
  stream_loop turns fuel requests (Z.of_nat n) path (c, w) = (Ret q, (c', w')) ->
  q = Z.max 0 requests /\ settled path (Z.to_nat q) c' /\ exists ks, flights fuel path (c, w) ks (c', w').
Proof.
  induction turns as [|turns IH]; intros n c w q c' w' Hs Hn Ht; cbn [stream_loop].
  - intros [= <- <- <-]. split; [lia|]. rewrite Nat2Z.id. split; [done|]. exists []. constructor.
  - destruct (Z.ltb_spec (Z.of_nat n) requests) as [Hlt|Hge].
    + set (batch := Z.min FLIGHT (requests - Z.of_nat n)). assert (1 <= batch <= FLIGHT) as Hb by (subst batch; unfold FLIGHT; lia).
      unfold mbind, run_bind. destruct (fetch fuel (replicate (Z.to_nat batch) path) (c, w)) as [[[]|e] [c1 w1]] eqn:Ef; [|done].
      pose proof (fetch_settled _ _ _ _ _ _ _ _ Hs Ef) as Hs1. intros H.
      replace (Z.of_nat n + batch) with (Z.of_nat (n + Z.to_nat batch)) in H by lia.
      apply IH in H; [|exact Hs1|subst batch; lia|lia]. destruct H as (Hq & Hs2 & ks & Hk). split; [done|]. split; [done|].
      exists (Z.to_nat batch :: ks). econstructor; [exact Hs|lia|lia|exact Ef|exact Hk].
    + intros [= <- <- <-]. split; [lia|]. rewrite Nat2Z.id. split; [done|]. exists []. constructor.
Qed.

End stream.

(** ** Waiting ends *)

(** A socket with a clock: it shows finite doubles, never goes back, and moves
    on while data arrives; what arrives are bytes. *)
Class TimedSocket (W : Type) `{Socket W} : Prop := {
  time_double w : finite (sock_time w) = true /\ -1074 <= fexp_of (sock_time w);
  send_later b w : fleb (sock_time w) (sock_time (sock_send b w).2) = true;
  chunk_later t w x b : (sock_recv t w).1 = Chunk (x :: b) -> fltb (sock_time w) (sock_time (sock_recv t w).2) = true;
  chunk_bytes t w b : (sock_recv t w).1 = Chunk b -> forallb (fun x => (0 <=? x) && (x <? 256)) b = true
}.

Section waiting.
Context {W : Type} `{HS : Socket W} `{HT : !TimedSocket W}.

Definition moment (e : Z) (w : W) : Z := rank e (sock_time w).
Lemma moment_le e w w' : e <= -1074 -> fleb (sock_time w) (sock_time w') = true -> moment e w <= moment e w'.
Proof. intros He. destruct (time_double w), (time_double w'). apply rank_le; (done || lia). Qed.
Lemma sends_later e w w' : e <= -1074 -> only_sends w w' -> moment e w <= moment e w'.
Proof.
  intros He. induction 1 as [|b w' _ IH]; [lia|]. pose proof (moment_le e _ _ He (send_later b w')). lia.
Qed.

Lemma pump_until_loop_ends e d ids : e <= -1074 -> finite d = true -> e <= fexp_of d -> forall fuel (s : Connection * W),
  are_bytes (buf s.1) -> (Z.to_nat (rank e d - moment e s.2) < fuel)%nat -> exists s',
  pump_until_loop fuel d ids s = (Ret (), s') /\ are_bytes (buf s'.1).
Proof.
  intros He Hd Hed. induction fuel as [|fuel IH]; intros [c w] Hb Hf; [lia|]. cbn [fst snd] in *. cbn [pump_until_loop].
  unfold mbind at 1, run_bind at 1, get_conn. unfold mbind at 1, run_bind at 1. cbn [fst].
  destruct (_ || closed c); [by exists (c, w)|]. unfold mbind at 1, run_bind at 1, time_now. cbn [snd].
  destruct (fleb (fsub d (sock_time w)) fzero) eqn:Er; [by exists (c, w)|]. unfold mbind at 1, run_bind at 1, on_socket.
  pose proof (chunk_later (fsub d (sock_time w)) w) as Hlater. pose proof (chunk_bytes (fsub d (sock_time w)) w) as Hbytes.
  destruct (sock_recv (fsub d (sock_time w)) w) as [[[|x b]| | |] w1]; cbn [fst snd] in *; try by exists (c, w1).
  { rewrite set_conn_ret. eexists. split; [reflexivity|done]. }
  unfold mbind at 1, run_bind at 1. destruct (feed_total true (x :: b) (c, w1) Hb) as (go & s1 & -> & Hb1 & Hs1).
  { apply are_bytes_bool. by apply Hbytes. }
  destruct go; [|by exists s1]. apply IH; [done|]. apply (sends_later e) in Hs1; [|done]. cbn [snd] in Hs1.
  specialize (Hlater x b eq_refl). destruct (time_double w) as [W1 W2], (time_double w1) as [W3 W4].
  apply (rank_lt e) in Hlater; [|done || lia..]. fold (moment e w) (moment e w1) in Hlater.
  assert (moment e w < rank e d); [|lia]. apply (rank_lt e); [done|done|lia|done|].
  by apply fsub_positive, not_below_zero, Er; apply fsub_number.
Qed.

Lemma pump_until_loop_more d ids fuel : forall fuel' (s s' : Connection * W), (fuel <= fuel')%nat ->
  pump_until_loop fuel d ids s = (Ret (), s') -> pump_until_loop fuel' d ids s = (Ret (), s').
Proof.
  induction fuel as [|fuel IH]; intros [|fuel'] s s' Hle; try done; [lia|]. cbn [pump_until_loop]. unfold mbind, run_bind, get_conn, time_now.
  destruct (_ || closed _); [done|]. destruct (fleb _ fzero); [done|]. destruct (on_socket _ s) as [[[[|x b]| | |]|e] s1]; try done.
  destruct (feed true (x :: b) s1) as [[[]|e] s2]; try done. apply IH. lia.
Qed.

(** Enough fuel, from some point on *)
Definition eventually (P : nat -> Prop) : Prop := exists n, forall fuel, (n <= fuel)%nat -> P fuel.
Lemma eventually_and P Q : eventually P -> (eventually Q) -> eventually (fun n => P n /\ Q n).
Proof. intros [n Hn] [m Hm]. exists (Nat.max n m). intros fuel H. split; [apply Hn|apply Hm]; lia. Qed.

Context (Hdl : forall w, finite (fadd (sock_time w) SECONDS) = true).

Lemma pump_until_ends ids (s : Connection * W) : are_bytes (buf s.1) -> exists s', are_bytes (buf s'.1)
  /\ eventually (fun fuel => pump_until fuel ids s = (Ret (), s')).
Proof.
  intros Hb. unfold pump_until, mbind, run_bind, time_now. set (d := fadd _ _). set (e := Z.min (-1074) (fexp_of d)).
  destruct (pump_until_loop_ends e d ids ltac:(lia) (Hdl s.2) ltac:(lia) (S (Z.to_nat (rank e d - moment e s.2))) s Hb ltac:(lia))
    as (s' & E & Hb'). exists s'. split; [done|]. eexists. intros fuel Hf. by eapply pump_until_loop_more.
Qed.

Lemma requests_buf ps (s : Connection * W) : buf (requests ps s).2.1 = buf s.1 /\ (requests ps s).1 <> Raise OutOfFuel.
Proof.
  revert s. induction ps as [|p ps IH]; intros [c w]; [done|]. cbn [requests]. unfold mbind, run_bind.
  destruct (request_state p c w) as [Hs _]. assert ((request p (c, w)).1 <> Raise OutOfFuel) as Hr.
  { unfold request, mbind, run_bind, get_conn, lift. cbn [fst]. rewrite set_conn_ret. cbn [fst snd].
    destruct (request_decodes p (authority c) (indexing c)) as (block & -> & _). unfold frame, pack, to_bytes.
    set (b1 := _ && _). set (b2 := forallb _ _). set (b3 := _ && _). destruct b1, b2, b3; discriminate. }
  destruct (request p (c, w)) as [[x|e] s1]; cbn [fst snd] in *; subst s1; [|split; [done|congruence]].
  destruct (IH (add_stream p c, w)) as [H1 H2]. destruct (requests ps (add_stream p c, w)) as [[y|e] s2]; cbn [fst snd] in *; [done|].
  split; [done|]. congruence.
Qed.

(** The outcome of a flight does not depend on the fuel, once there is enough. *)
Lemma fetch_ends ps (s : Connection * W) : are_bytes (buf s.1) -> exists r s', are_bytes (buf s'.1) /\ r <> Raise OutOfFuel
  /\ eventually (fun fuel => fetch fuel ps s = (r, s')).
Proof.
  intros Hb. unfold fetch, get, mbind, run_bind. destruct (requests_buf ps s) as [H1 H2].
  destruct (requests ps s) as [[[ids out]|e] s1]; cbn [fst snd] in *.
  - pose proof (proj2 (bufless_send out [] s1)) as Hs. destruct (send_ret out s1) as [s2 E]. rewrite E in *. cbn [fst snd] in Hs. cbn [mret run_ret].
    destruct (pump_until_ends ids s2) as (s3 & Hb3 & n & Hn); [congruence|].
    exists (require_done ids s3).1, s3. split; [done|]. split; [unfold require_done; by destruct (_ && _)|].
    exists n. intros fuel Hf. rewrite (Hn fuel Hf). unfold require_done. by destruct (_ && _).
  - exists (Raise e), s1. split; [congruence|]. split; [congruence|]. by exists 0%nat.
Qed.

Lemma stream_loop_ends requests path turns : forall done (s : Connection * W), are_bytes (buf s.1) -> exists r s', r <> Raise OutOfFuel
  /\ eventually (fun fuel => stream_loop turns fuel requests done path s = (r, s')).
Proof.
  induction turns as [|turns IH]; intros dn s Hb; cbn [stream_loop]; [by exists (Ret dn), s; split; [done|exists 0%nat]|].
  destruct (dn <? requests); [|by exists (Ret dn), s; split; [done|exists 0%nat]]. set (ps := replicate _ path).
  destruct (fetch_ends ps s Hb) as ([[]|e] & s1 & Hb1 & Hr & Hf).
  - destruct (IH (dn + Z.min FLIGHT (requests - dn)) s1 Hb1) as (r & s2 & Hr2 & Hl). exists r, s2. split; [done|].
    destruct (eventually_and _ _ Hf Hl) as [n Hn]. exists n. intros fuel Hle. unfold mbind, run_bind. by destruct (Hn fuel Hle) as [-> ->].
  - exists (Raise e), s1. split; [congruence|]. destruct Hf as [n Hn]. exists n. intros fuel Hle. unfold mbind, run_bind. by rewrite (Hn fuel Hle).
Qed.
End waiting.


(** ** The server of a round *)

(** The number of server processes that run. *)
Class HostLaws (W : Type) `{Host W} := {
  running : W -> Z;
  running_launch w : running (launch w) = running w + 1;
  running_terminate w : running (terminate w) = running w - 1;
  running_probe w : running (probe w).2 = running w;
  running_nap w : running (nap w) = running w
}.

Section server.
Context {W : Type} `{HH : Host W} `{HL : !HostLaws W}.

Lemma running_wait d fuel : forall w, running (wait_for_listener fuel d w).2 = running w.
Proof.
  induction fuel as [|fuel IH]; intros w; [done|]. cbn [wait_for_listener]. destruct (fltb _ d); [|done].
  pose proof (running_probe w) as Hp. destruct (probe w) as [[] w1]; cbn [fst snd] in Hp; [done|]. by rewrite IH, running_nap.
Qed.

(** A round stops the server it started, whether the workload returns or
    raises; a round whose server never listened leaves it running. *)
Lemma round_servers fuel workload w : (forall w, running (workload w).2 = running w) ->
  running (run_round fuel workload w).2 = running w +
    match (wait_for_listener fuel (fadd (sock_time (launch w)) (round_int 5)) (launch w)).1 with Ret _ => 0 | Raise _ => 1 end.
Proof.
  intros Hw. unfold run_round, server_enter, server_exit. pose proof (running_wait (fadd (sock_time (launch w)) (round_int 5)) fuel (launch w)) as H.
  rewrite running_launch in H. destruct (wait_for_listener _ _ _) as [[[]|e] w1]; cbn [fst snd] in *; [|done].
  pose proof (Hw w1) as H2. destruct (workload w1) as [r w2]. cbn [snd] in H2 |- *. rewrite running_terminate. lia.
Qed.
End server.

(** ** The line of a default profile is always fitted *)

Section line.
Context `{FS : FloatSum}.

Lemma positive_nonzero x : positive_float x = true -> feqb x fzero = false.
Proof. by destruct x as [[]|[]| |[] m e]. Qed.

Lemma collect_three {A} (f : A -> result float) p1 p2 p3 x1 x2 x3 : f p1 = Ret x1 -> f p2 = Ret x2 -> f p3 = Ret x3 ->
  collect [p1; p2; p3] f = Ret [x1; x2; x3].
Proof. intros H1 H2 H3. unfold collect. cbn [for_result]. rewrite H1. cbn. rewrite H2. cbn. by rewrite H3. Qed.

Lemma fit_three a b c s1 s2 s3 y1 y2 y3 mx :
  fdiv (round_int (a + (b + (c + 0)))) (round_int 3) = Ret mx ->
  square (fsub (round_int a) mx) = Ret s1 -> square (fsub (round_int b) mx) = Ret s2 -> square (fsub (round_int c) mx) = Ret s3 ->
  Forall (fun x => fleb fzero x = true) [s1; s2; s3] -> positive_float s1 = true ->
  fit [(a, y1); (b, y2); (c, y3)] <> Ret None.
Proof.
  intros Hm H1 H2 H3 Hf Hp. unfold fit. cbn [length fmap list_fmap fst snd foldr]. change (Z.of_nat 3) with 3. change (3 <? 2) with false. cbv iota.
  rewrite Hm. assert (exists my, fdiv (fsum [y1; y2; y3]) (round_int 3) = Ret my) as [my ->] by (by eexists). cbn [mbind result_bind].
  rewrite (collect_three (fun p : Z * float => square (fsub (round_int p.1) mx)) (a, y1) (b, y2) (c, y3) s1 s2 s3 H1 H2 H3). cbn [mbind result_bind].
  assert (positive_float (fsum [s1; s2; s3]) = true) as Hd by (apply fsum_positive; [done|by left]).
  assert (forall z, fdiv z (fsum [s1; s2; s3]) = Ret (SFdiv fprec femax z (fsum [s1; s2; s3]))) as Hdiv
    by (intros z; unfold fdiv; by rewrite positive_nonzero).
  rewrite (positive_nonzero _ Hd), Hdiv. cbn [mbind result_bind].
  do 2 (match goal with |- (?m ≫= _) <> _ => destruct m as [?|] end; cbn [mbind result_bind]; [|congruence]).
  match goal with |- context [feqb (fsum ?t) fzero] => destruct (feqb (fsum t) fzero) eqn:E end; [cbn; congruence|].
  unfold fdiv. rewrite E. cbn. congruence.
Qed.

(** The sizes of the scenarios that have three *)
Lemma default_sizes_fit y1 y2 y3 : fit [(50, y1); (100, y2); (200, y3)] <> Ret None /\ fit [(500, y1); (1000, y2); (2000, y3)] <> Ret None.
Proof. split; (eapply fit_three; [vm_compute; reflexivity..| |vm_compute; reflexivity]; repeat constructor). Qed.
End line.

(** ** Witnesses *)

(** A server on a wire that answers every flight it has seen with a HEADERS
    frame that ends the stream, in two pieces; a clock that ticks twelve
    times. *)
Record wire : Type := mkWire { to_answer : list Z; in_flight : bytes; ticks : nat }.
Definition wire_time (n : nat) : float := round_int (Z.of_nat (Nat.min n 12)).
Definition replies (ids : list Z) : bytes :=
  ids ≫= fun id => frame_bytes (mkFrame FRAME_HEADERS (FLAG_END_HEADERS + FLAG_END_STREAM) id [136]).
Definition requested (b : bytes) : list Z :=
  omap (fun f => if f_type f =? FRAME_HEADERS then Some (f_sid f) else None) (frames_of (length b) b).
#[local] Instance toy_socket : Socket wire := {
  sock_connect _ w := (true, w);
  sock_send b w := (true, mkWire (to_answer w) (in_flight w ++ replies (requested b)) (ticks w));
  sock_recv _ w := if (ticks w <? 12)%nat then
                     match in_flight w with
                     | [] => (TimedOut, w)
                     | b => (Chunk (take 15 (map (fun x => x mod 256) b)), mkWire (to_answer w) (drop 15 b) (S (ticks w)))
                     end
                   else (TimedOut, w);
  sock_close w := w;
  sock_time w := wire_time (ticks w)
}.
Lemma wire_time_ok n : finite (wire_time n) = true /\ -1074 <= fexp_of (wire_time n) /\ fleb (wire_time n) (wire_time n) = true
  /\ finite (fadd (wire_time n) SECONDS) = true /\ ((n < 12)%nat -> fltb (wire_time n) (wire_time (S n)) = true).
Proof.
  assert (forall k, (0 <= k < 0 + 13)%nat -> finite (wire_time k) && (-1074 <=? fexp_of (wire_time k))
    && fleb (wire_time k) (wire_time k) && finite (fadd (wire_time k) SECONDS)
    && implb (k <? 12)%nat (fltb (wire_time k) (wire_time (S k))) = true) as Hb.
  { intros k Hk. assert (In k (seq 0 13)) as Hin by (apply in_seq; lia). clear Hk. revert k Hin. apply forallb_forall. vm_compute. reflexivity. }
  assert (forall k, (k < 13)%nat -> finite (wire_time k) = true /\ -1074 <= fexp_of (wire_time k) /\ fleb (wire_time k) (wire_time k) = true
    /\ finite (fadd (wire_time k) SECONDS) = true /\ ((k < 12)%nat -> fltb (wire_time k) (wire_time (S k)) = true)) as H.
  { intros k Hk. specialize (Hb k ltac:(lia)). rewrite !andb_true_iff, Z.leb_le in Hb. destruct Hb as ((((H1 & H2) & H3) & H4) & H5).
    do 4 (split; [done|]). intros Hlt%Nat.ltb_lt. by rewrite Hlt in H5. }
  destruct (decide (n < 13)%nat); [apply H; lia|]. assert (wire_time n = wire_time 12) as -> by (unfold wire_time; do 2 f_equal; lia).
  destruct (H 12%nat ltac:(lia)) as (H1 & H2 & H3 & H4 & _). do 4 (split; [done|]). lia.
Qed.
#[local] Instance toy_timed : TimedSocket wire.
Proof.
  split.
  - intros w. destruct (wire_time_ok (ticks w)) as (H1 & H2 & _). done.
  - intros b w. apply (wire_time_ok (ticks w)).
  - intros t w x b. cbn [sock_recv toy_socket sock_time]. destruct (Nat.ltb_spec (ticks w) 12) as [Hn|]; [|done].
    destruct (in_flight w); [done|]. intros _. by apply (wire_time_ok (ticks w)).
  - intros t w b. cbn [sock_recv toy_socket]. destruct (ticks w <? 12)%nat; [|done]. destruct (in_flight w) as [|y l]; [done|].
    intros [= <-]. apply are_bytes_bool.
    apply (Forall_take (fun b => 0 <= b < 256) 15 (map (fun x => x mod 256) (y :: l))). apply list.Forall_forall. intros z.
    rewrite list_elem_of_In. intros (y' & <- & _)%in_map_iff. by apply Z.mod_pos_bound.
Qed.

Definition toy_start : wire := mkWire [] [] 0.
Definition toy_end : result (Z * Z * Z) * wire := Eval vm_compute in workload_stream 20 9 SMALL_ASSET toy_start.


