(* ===== verification/Scenarios.v ===== *)
(** * The scenarios of the browser simulator (tests/h2_browser_sim.py)

    The seven scenarios, on the connection of [H2Client], and the command line
    that runs them; what is printed is left out.  The proofs relate what a
    scenario returns to the bytes the server sent: [traffic] is what passes
    over the socket, [heeded] the frames in those bytes up to a GOAWAY, and
    [verdict] the number of failures a scenario has to find in them. *)

From Stdlib Require Import Ascii SpecFloat.
From S2P Require Import Prelude PyInt PyStr PyFloat Bench H2Client H2Frames Workload.

(** ** Arguments *)

Record Args : Type := mkArgs {
  a_port : Z; a_wait : float; a_conn_window : Z; a_reloads : Z; a_streams : Z; a_no_indexing : bool;
  document : string; subresources : list string
}.

(** [--paths] replaces the page, the first path being the document. *)
Definition with_paths (ps : list string) (a : Args) : Args :=
  match ps with
  | [] => a
  | p :: ps => mkArgs (a_port a) (a_wait a) (a_conn_window a) (a_reloads a) (a_streams a) (a_no_indexing a) p ps
  end.
Definition page (a : Args) : list string := document a :: subresources a.
Definition defaults : Args := mkArgs 8443 (round_int 4) 10485760 6 40 false DOCUMENT SUBRESOURCES.

(** ** Scenarios *)

Definition LARGE_WINDOW : Z := 2097152.
Definition DEFAULT_WINDOW : Z := 65535.

Section scenarios.
Context {W : Type} `{HS : Socket W}.
Abbreviation method A := (run (Connection * W) A).

(** [c = Connection(...)] and what follows; an exception leaves it open. *)
Definition on_page (initial_window : Z) (a : Args) (m : method Z) : run W Z := fun w =>
  match connect (a_port a) initial_window (a_conn_window a) (negb (a_no_indexing a)) w with
  | (Raise e, w) => (Raise e, w)
  | (Ret c, w) => let '(r, (_, w)) := m (c, w) in (r, w)
  end.
Definition close : method unit := on_socket (fun w => (tt, sock_close w)).
Definition failures_of (ids : list Z) : method Z := get_conn (fun c => Z.of_nat (report ids c)).
(** [c.report()]: of all streams *)
Definition report_all : method Z := get_conn (fun c => Z.of_nat (report (dict_keys (paths c)) c)).

Definition scenario_page_load (fuel : nat) (a : Args) : run W Z := on_page 65535 a (
  get [document a];;
  pump fuel (a_wait a) true;;
  get (subresources a);;
  pump fuel (a_wait a) true;;
  failures ← report_all;
  close;; mret failures).

Definition scenario_burst (fuel : nat) (a : Args) : run W Z := on_page 65535 a (
  get ([document a] ++ subresources a);;
  pump fuel (a_wait a) true;;
  failures ← report_all;
  close;; mret failures).

Definition scenario_no_credit (fuel : nat) (a : Args) : run W Z := on_page 65535 a (
  get ([document a] ++ subresources a);;
  pump fuel (a_wait a) false;;
  report_all;;
  close;; mret 0).

(** The pages of [reload], until the connection dies *)
Fixpoint reload_loop (pages fuel : nat) (a : Args) (failures : Z) : method Z :=
  match pages with
  | O => mret failures
  | S pages =>
      ids ← get ([document a] ++ subresources a);
      pump fuel (a_wait a) true;;
      bad ← failures_of ids;
      c ← get_conn closed;
      if (c : bool) then mret (failures + bad) else reload_loop pages fuel a (failures + bad)
  end.
Definition scenario_reload (fuel : nat) (a : Args) : run W Z := on_page 65535 a (
  failures ← reload_loop (Z.to_nat (a_reloads a)) fuel a 0;
  close;; mret failures).

(** The variables of [late_wu]; [previous] is unbound before the loop. *)
Record Late : Type := mkLate { previous : option (option Z); recent : option Z; first : option Z }.
Definition py_or (x : option Z) (y : Z) : Z := match x with Some v => if v =? 0 then y else v | None => y end.
Definition first_of (ids : list Z) : result Z := match ids with id :: _ => Ret id | [] => Raise IndexError end.
Fixpoint late_loop (streams fuel : nat) (l : Late) : method Late :=
  match streams with
  | O => mret l
  | S streams =>
      ids ← get ["/logo.png"];
      id ← lift (first_of ids);
      let l := mkLate (Some (recent l)) (Some id) (Some (py_or (first l) id)) in
      pump fuel (of_decimal 4 1) true;;
      c ← get_conn closed;
      if (c : bool) then mret l else late_loop streams fuel l
  end.
(** [[t for t in (previous, recent, first) if t]] *)
Definition targets (l : Late) : result (list Z) :=
  match previous l with
  | None => Raise UnboundLocalError
  | Some p => Ret (omap (fun t => match t with Some v => if v =? 0 then None else Some v | None => None end) [p; recent l; first l])
  end.
Fixpoint send_updates (ts : list Z) : method unit :=
  match ts with
  | [] => mret ()
  | t :: ts => f ← lift (window_update t 65535); send f;; send_updates ts
  end.
Definition scenario_late_wu (fuel : nat) (a : Args) : run W Z := on_page 65535 a (
  l ← late_loop (Z.to_nat (a_streams a)) fuel (mkLate None None None);
  c ← get_conn closed;
  if (c : bool) then mret 1 else
  ts ← lift (targets l);
  send_updates ts;;
  pump fuel (of_decimal 15 1) true;;
  g ← get_conn goaway;
  c ← get_conn closed;
  mret (if bool_decide (g <> None) || (c : bool) then 1 else 0)).

(** [[p for p in SUBRESOURCES if "index-Q2Xld2VX" in p] or [SUBRESOURCES[-1]]] *)
Definition large_assets (ps : list string) : result (list string) :=
  match List.filter (contains "index-Q2Xld2VX") ps with
  | [] => match list.last ps with Some p => Ret [p] | None => Raise IndexError end
  | l => Ret l
  end.
Definition scenario_settings_resize (fuel : nat) (a : Args) : run W Z := on_page 65535 a (
  ps ← lift (large_assets (subresources a));
  ids ← get ps;
  pump fuel (of_decimal 15 1) false;;
  s ← lift (settings_frame [(4, 1048576)]);
  send s;;
  u ← lift (window_update 0 1048576);
  send u;;
  pump fuel (a_wait a) false;;
  failures ← failures_of ids;
  close;; mret failures).

(** What the peer may send on a stream *)
Definition allowed (acked : bool) : Z := if acked then LARGE_WINDOW else DEFAULT_WINDOW.
Definition over_window (limit : Z) (ids : list Z) (received : Z -> Z) : Z :=
  Z.of_nat (length (List.filter (fun sid => limit <? received sid) ids)).
Definition scenario_strict_window (fuel : nat) (a : Args) : run W Z := on_page 2097152 a (
  ids ← get ([document a] ++ subresources a);
  pump fuel (a_wait a) false;;
  limit ← get_conn (fun c => allowed (settings_acked c));
  failures ← failures_of ids;
  over ← get_conn (fun c => over_window limit ids (fun sid => default 0 (dict_get (body c) sid)));
  close;; mret (failures + over)).

Definition SCENARIOS : list (string * (nat -> Args -> run W Z)) :=
  [("page-load", scenario_page_load);
   ("strict-window", scenario_strict_window);
   ("settings-resize", scenario_settings_resize);
   ("burst", scenario_burst);
   ("no-credit", scenario_no_credit);
   ("reload", scenario_reload);
   ("late-wu", scenario_late_wu)].

(** [main]: the loop over the scenarios, which an [OSError] ends with status
    2 ([None]), and the exit status. *)
Fixpoint run_scenarios (fuel : nat) (a : Args) (names : list string) (failures : Z) : run W (option Z) :=
  match names with
  | [] => mret (Some failures)
  | name :: names => fun w =>
      match dict_get SCENARIOS name with
      | None => (Raise KeyError, w)
      | Some scenario =>
          match scenario fuel a w with
          | (Ret n, w) => run_scenarios fuel a names (failures + n) w
          | (Raise OSError, w) => (Ret None, w)
          | (Raise e, w) => (Raise e, w)
          end
      end
  end.
Definition h2_main (fuel : nat) (scenario : string) (paths : list string) (a : Args) : run W Z :=
  let names := if scenario =s? "all" then dict_keys SCENARIOS else [scenario] in
  failures ← run_scenarios fuel (with_paths paths a) names 0;
  mret (match failures with None => 2 | Some n => if n =? 0 then 0 else 1 end).
End scenarios.

(** ** What the server said *)

Definition goodbye (f : Frame) : bool := f_type f =? FRAME_GOAWAY.
Fixpoint before_goaway (fs : list Frame) : list Frame :=
  match fs with [] => [] | f :: fs => if goodbye f then [] else f :: before_goaway fs end.
Fixpoint leftover (fuel : nat) (b : bytes) : bytes :=
  match fuel with
  | O => b
  | S fuel => match parse_frame b with Some (_, rest) => leftover fuel rest | None => b end
  end.
(** The whole frames of a text, what follows them, and the frames up to a
    GOAWAY. *)
Definition whole (b : bytes) : list Frame := frames_of (length b) b.
Definition rest_of (b : bytes) : bytes := leftover (length b) b.
Definition heeded (b : bytes) : list Frame := before_goaway (whole b).

Definition ends (f : Frame) : bool :=
  negb (Z.land (f_flags f) FLAG_END_STREAM =? 0) && ((f_type f =? FRAME_DATA) || (f_type f =? FRAME_HEADERS)).
Definition ended (sid : Z) (fs : list Frame) : bool := existsb (fun f => ends f && (f_sid f =? sid)) fs.
Definition acks (f : Frame) : bool := (f_type f =? FRAME_SETTINGS) && negb (Z.land (f_flags f) FLAG_ACK =? 0).
(** How many of the streams were not ended *)
Definition missing (ids : list Z) (fs : list Frame) : Z := Z.of_nat (length (List.filter (fun sid => negb (ended sid fs)) ids)).

Lemma frames_of_fuel fuel : forall b, (length b <= fuel)%nat -> frames_of fuel b = whole b /\ leftover fuel b = rest_of b.
Proof.
  assert (forall fuel fuel' b, (length b <= fuel)%nat -> (length b <= fuel')%nat ->
    frames_of fuel b = frames_of fuel' b /\ leftover fuel b = leftover fuel' b) as H.
  { clear fuel. induction fuel as [|fuel IH]; intros [|fuel'] b Hb Hb'; cbn [frames_of leftover]; [done|..].
    - destruct b; [done|cbn in Hb; lia].
    - destruct b; [done|cbn in Hb'; lia].
    - destruct (parse_frame b) as [[f rest]|] eqn:E; [|done]. apply parse_frame_shorter in E.
      destruct (IH fuel' rest) as [-> ->]; [lia..|done]. }
  intros b Hb. by apply H.
Qed.
Lemma frames_unfold b : whole b = match parse_frame b with Some (f, rest) => f :: whole rest | None => [] end
  /\ rest_of b = match parse_frame b with Some (_, rest) => rest_of rest | None => b end.
Proof.
  unfold whole at 1, rest_of at 1. destruct (length b) eqn:El; cbn [frames_of leftover].
  - by destruct b.
  - destruct (parse_frame b) as [[f rest]|] eqn:E; [|done]. apply parse_frame_shorter in E.
    by destruct (frames_of_fuel n rest ltac:(lia)) as [-> ->].
Qed.

(** Reading on from what was left over *)
Lemma frames_app a b : whole (a ++ b) = whole a ++ whole (rest_of a ++ b) /\ rest_of (a ++ b) = rest_of (rest_of a ++ b).
Proof.
  remember (length a) as n eqn:Hn. revert a Hn. induction n as [n IH] using lt_wf_ind. intros a ->.
  destruct (frames_unfold a) as [-> ->]. destruct (parse_frame a) as [[f rest]|] eqn:E; [|done].
  destruct (frames_unfold (a ++ b)) as [-> ->]. rewrite (parse_frame_app _ _ _ b E). apply parse_frame_shorter in E.
  destruct (IH (length rest) ltac:(lia) rest eq_refl) as [-> ->]. done.
Qed.

Lemma before_goaway_all fs : existsb goodbye fs = false -> before_goaway fs = fs.
Proof. induction fs as [|f fs IH]; [done|]. cbn [existsb before_goaway]. intros [-> H]%orb_false_iff. by rewrite IH. Qed.
Lemma before_goaway_app fs gs : existsb goodbye fs = false -> before_goaway (fs ++ gs) = fs ++ before_goaway gs.
Proof. induction fs as [|f fs IH]; [done|]. cbn [existsb before_goaway app]. intros [-> H]%orb_false_iff. by rewrite IH. Qed.

(** What a connection has of the frames it handled *)
Record hears (c : Connection) (fs : list Frame) (c' : Connection) : Prop := {
  hr_complete sid : sid ∈ complete c' <-> sid ∈ complete c \/ ended sid fs = true;
  hr_acked : settings_acked c' = settings_acked c || existsb acks fs;
  hr_body sid : default 0 (dict_get (body c') sid) = default 0 (dict_get (body c) sid) + received_on sid fs
}.
Lemma hears_nil c c' : complete c' = complete c -> settings_acked c' = settings_acked c -> body c' = body c -> hears c [] c'.
Proof.
  intros E1 E2 E3. split; rewrite ?E1, ?E2, ?E3; cbn [ended existsb].
  - intros sid. split; [by left|]. by intros [|].
  - by rewrite orb_false_r.
  - intros sid. change (received_on sid []) with 0. lia.
Qed.
Lemma hears_trans c1 fs c2 gs c3 : hears c1 fs c2 -> hears c2 gs c3 -> hears c1 (fs ++ gs) c3.
Proof.
  intros [A1 A2 A3] [B1 B2 B3]. split.
  - intros sid. unfold ended. rewrite B1, A1, existsb_app, orb_true_iff. unfold ended. tauto.
  - by rewrite B2, A2, existsb_app, orb_assoc.
  - intros sid. rewrite B3, A3. unfold received_on. rewrite fmap_app, sum_app. lia.
Qed.

Section hearing.
Context {W : Type} `{HS : Socket W}.
Abbreviation method A := (run (Connection * W) A).

Lemma send_cases d (s : Connection * W) : exists s', send d s = (Ret (), s') /\ (s'.1 = s.1 \/ s'.1 = set_closed s.1).
Proof.
  unfold send, mbind, run_bind, get_conn, on_socket. destruct (_ || _); [by exists s; split; [|left]|]. destruct s as [c w]. cbn [fst].
  destruct (sock_send d w) as [[] w']; [by exists (c, w'); split; [|left]|]. rewrite set_conn_ret. eexists. split; [done|by right].
Qed.

(** The outcome of one frame *)
Definition handled (f : Frame) (c : Connection) (go : bool) (c' : Connection) : Prop :=
  go = negb (goodbye f) /\ buf c' = buf c /\ hears c (if go then [f] else []) c'
  /\ (if go then goaway c' = goaway c else closed c' = true /\ goaway c' <> None).

Lemma finish_handled f c go (s1 s' : Connection * W) : goodbye f = false ->
  complete s1.1 = complete c -> settings_acked s1.1 = settings_acked c || acks f ->
  (forall sid, default 0 (dict_get (body s1.1) sid) = default 0 (dict_get (body c) sid) + received_on sid [f]) ->
  goaway s1.1 = goaway c -> buf s1.1 = buf c -> (end_stream f;; mret true) s1 = (Ret go, s') -> handled f c go s'.1.
Proof.
  intros Hf Hc Ha Hb Hg Hbuf. unfold mbind, run_bind, end_stream. fold (ends f). unfold handled. rewrite Hf.
  assert (forall c', complete c' = (if ends f then {[f_sid f]} ∪ complete s1.1 else complete s1.1) -> settings_acked c' = settings_acked s1.1 ->
    body c' = body s1.1 -> hears c [f] c') as H.
  { intros c' E1 E2 E3. split; rewrite ?E1, ?E2, ?E3; [|by cbn [existsb]; rewrite orb_false_r|done].
    intros sid. cbn [ended existsb]. rewrite Hc, orb_false_r, andb_true_iff, Z.eqb_eq. destruct (ends f).
    - rewrite elem_of_union, elem_of_singleton. split; [intros [->|]; [by right|by left]|intros [|[_ ->]]; [by right|by left]].
    - split; [by left|by intros [|[]]]. }
  destruct (ends f) eqn:Ef; [rewrite set_conn_ret|]; intros [= <- <-]; (split; [done|]; split; [done|]; split; [by apply H|done]).
Qed.

Lemma received_other sid f : f_type f <> FRAME_DATA -> received_on sid [f] = 0.
Proof. intros H. unfold received_on, data_of. cbn. by destruct (Z.eqb_spec (f_type f) FRAME_DATA). Qed.
Lemma received_data sid f : f_type f = FRAME_DATA -> received_on sid [f] = if sid =? f_sid f then Z.of_nat (length (f_payload f)) else 0.
Proof. intros H. unfold received_on, data_of. cbn. rewrite H. cbn. destruct (sid =? f_sid f); lia. Qed.

Lemma handle_frame_handled ack f (s : Connection * W) go s' : handle_frame ack f s = (Ret go, s') -> handled f s.1 go s'.1.
Proof.
  unfold handle_frame. assert (acks f = true -> f_type f = FRAME_SETTINGS) as Hacks by (unfold acks; by intros [H%Z.eqb_eq _]%andb_true_iff).
  destruct (Z.eqb_spec (f_type f) FRAME_DATA) as [E|E].
  { assert (goodbye f = false /\ acks f = false) as [Hg Ha] by (unfold goodbye, acks; rewrite E; done). set (n := Z.of_nat _).
    assert (forall sid, default 0 (dict_get (body (add_body (f_sid f) n s.1)) sid) = default 0 (dict_get (body s.1) sid) + received_on sid [f]) as Hb.
    { intros sid. cbn [add_body body]. rewrite dict_get_set, received_data by done. destruct (decide (sid = f_sid f)) as [->|Hne].
      - rewrite Z.eqb_refl. done.
      - apply Z.eqb_neq in Hne. rewrite Hne. lia. }
    unfold mbind at 1, run_bind at 1. rewrite set_conn_ret. unfold mbind at 1, run_bind at 1. destruct (_ && ack).
    - unfold mbind at 1, run_bind at 1, lift at 1. destruct (window_update 0 n) as [a|]; [|done]. unfold mbind at 1, run_bind at 1, lift at 1.
      destruct (window_update (f_sid f) n) as [b|]; [|done].
      destruct (send_cases (a ++ b) (add_body (f_sid f) n s.1, s.2)) as (s1 & -> & Hs). apply finish_handled; (done || destruct Hs as [-> | ->]; cbn; rewrite ?Ha, ?orb_false_r; auto).
    - apply finish_handled; cbn [fst add_body add_headers set_acked complete settings_acked goaway buf body]; rewrite ?Ha, ?orb_false_r; auto. }
  destruct (Z.eqb_spec (f_type f) FRAME_HEADERS) as [Eh|Eh].
  { assert (goodbye f = false /\ acks f = false) as [Hg Ha] by (unfold goodbye, acks; rewrite Eh; done).
    unfold mbind at 1, run_bind at 1. rewrite set_conn_ret.
    apply finish_handled; cbn [fst add_body add_headers set_acked complete settings_acked goaway buf body]; rewrite ?Ha, ?orb_false_r; auto. intros sid. rewrite received_other by done. lia. }
  fold (acks f). destruct (acks f) eqn:Ea.
  { specialize (Hacks eq_refl). assert (goodbye f = false) as Hg by (unfold goodbye; by rewrite Hacks).
    unfold mbind at 1, run_bind at 1. rewrite set_conn_ret.
    apply finish_handled; cbn [fst add_body add_headers set_acked complete settings_acked goaway buf body]; rewrite ?Ea, ?orb_true_r; auto. intros sid. rewrite received_other by done. lia. }
  fold (goodbye f). destruct (goodbye f) eqn:Eg.
  { unfold mbind at 1, run_bind at 1. rewrite set_conn_ret. intros [= <- <-]. unfold handled. rewrite Eg.
    do 2 (split; [done|]). split; [by apply hears_nil|done]. }
  apply finish_handled; rewrite ?Ea, ?orb_false_r; auto. intros sid. rewrite received_other by done. lia.
Qed.

(** The outcome of a buffer *)
Lemma drain_handled ack fuel : forall (s : Connection * W) go s', drain_loop fuel ack s = (Ret go, s') ->
  let fs := frames_of fuel (buf s.1) in
  go = negb (existsb goodbye fs) /\ hears s.1 (before_goaway fs) s'.1
  /\ (if go then buf s'.1 = leftover fuel (buf s.1) /\ goaway s'.1 = goaway s.1 else closed s'.1 = true /\ goaway s'.1 <> None).
Proof.
  induction fuel as [|fuel IH]; intros s go s'; cbn [drain_loop frames_of leftover].
  { intros [= <- <-]. split; [done|]. split; [by apply hears_nil|done]. }
  unfold mbind at 1, run_bind at 1, get_conn. destruct (parse_frame (buf s.1)) as [[f rest]|].
  2:{ intros [= <- <-]. split; [done|]. split; [by apply hears_nil|done]. }
  unfold mbind at 1, run_bind at 1. rewrite set_conn_ret. unfold mbind at 1, run_bind at 1.
  destruct (handle_frame ack f (with_buf rest s.1, s.2)) as [[go1|e] s1] eqn:E; [|done].
  apply handle_frame_handled in E as (-> & Hbuf & Hh & Hg). cbn [fst buf with_buf] in *. cbn [existsb before_goaway].
  assert (forall fs c', hears (with_buf rest s.1) fs c' -> hears s.1 fs c') as Hw by (intros ? ? []; by split).
  destruct (goodbye f); cbn [negb orb] in *.
  - intros [= <- <-]. auto.
  - intros H. apply IH in H. rewrite Hbuf in H. destruct H as (-> & Hh2 & Hr). split; [done|]. split.
    + apply (hears_trans s.1 [f] s1.1); [by apply Hw|done].
    + destruct (negb _); [|done]. destruct Hr as [-> ->]. done.
Qed.

(** ** Sessions *)

Definition arrived (r : received) : bytes := match r with Chunk b => b | _ => [] end.
(** What arrives while a client uses the socket *)
Inductive traffic (w : W) : bytes -> W -> Prop :=
| traffic_none : traffic w [] w
| traffic_send b log w' : traffic w log w' -> traffic w log (sock_send b w').2
| traffic_recv t log w' : traffic w log w' -> traffic w (log ++ arrived (sock_recv t w').1) (sock_recv t w').2.

(** A connection knows what the bytes so far say, and has what they leave
    over, while it is open. *)
Record heard (log : bytes) (c : Connection) : Prop := {
  he_complete sid : sid ∈ complete c <-> ended sid (heeded log) = true;
  he_acked : settings_acked c = existsb acks (heeded log);
  he_goaway : goaway c = None <-> existsb goodbye (whole log) = false;
  he_open : closed c = false -> existsb goodbye (whole log) = false /\ buf c = rest_of log
}.
(** ... and how much came on each stream. *)
Definition counted (log : bytes) (c : Connection) : Prop :=
  forall sid, default 0 (dict_get (body c) sid) = received_on sid (heeded log).

Lemma feed_heard ack chunk log (s : Connection * W) go s' : heard log s.1 -> closed s.1 = false -> feed ack chunk s = (Ret go, s') ->
  heard (log ++ chunk) s'.1 /\ (counted log s.1 -> counted (log ++ chunk) s'.1).
Proof.
  intros [H1 H2 H3 H4] Hc. destruct (H4 Hc) as [Hg Hbuf]. unfold feed, drain, mbind at 1, run_bind at 1, get_conn.
  unfold mbind at 1, run_bind at 1. rewrite set_conn_ret. unfold mbind at 1, run_bind at 1. cbn [fst buf with_buf].
  intros H. apply drain_handled in H. cbn [fst buf with_buf] in H. fold (whole (buf s.1 ++ chunk)) (rest_of (buf s.1 ++ chunk)) in H.
  rewrite Hbuf in H. destruct (frames_app log chunk) as [Ew Er]. set (new := whole (rest_of log ++ chunk)) in *.
  assert (heeded (log ++ chunk) = heeded log ++ before_goaway new) as Eh
    by (unfold heeded; rewrite Ew, before_goaway_app by done; by rewrite (before_goaway_all (whole log))).
  destruct H as (-> & [B1 B2 B3] & Hr). cbn in B1, B2, B3. split; [split|].
  - intros sid. rewrite B1, H1, Eh. unfold ended. by rewrite existsb_app, orb_true_iff.
  - by rewrite B2, H2, Eh, existsb_app.
  - rewrite Ew, existsb_app, Hg. cbn [orb]. destruct (existsb goodbye new); cbn [negb] in Hr; [naive_solver|].
    destruct Hr as [_ ->]. cbn [goaway with_buf]. rewrite H3, Hg. done.
  - intros Hc'. rewrite Ew, existsb_app, Hg, Er. cbn [orb]. destruct (existsb goodbye new); cbn [negb] in Hr; [|tauto]. destruct Hr. congruence.
  - intros Hb sid. rewrite B3, Hb, Eh. unfold received_on. by rewrite fmap_app, sum_app.
Qed.
End hearing.

Section sessions.
Context {W : Type} `{HS : Socket W}.
Abbreviation method A := (run (Connection * W) A).

(** A session since the world [w0]: the bytes that arrived, the paths that
    were requested, and where it is now. *)
Record session (w0 : W) (log : bytes) (ps : list string) (s : Connection * W) : Prop := {
  se_traffic : traffic w0 log s.2;
  se_heard : heard log s.1;
  se_opened : opened ps s.1
}.

Lemma heard_same log c c' : complete c' = complete c -> settings_acked c' = settings_acked c -> goaway c' = goaway c ->
  buf c' = buf c -> (closed c' = false -> closed c = false) -> heard log c -> heard log c'.
Proof. intros E1 E2 E3 E4 E5 [H1 H2 H3 H4]. split; rewrite ?E1, ?E2, ?E3, ?E4; auto. Qed.
Lemma opened_same ps c c' : paths c' = paths c -> next_id c' = next_id c -> opened ps c -> opened ps c'.
Proof. intros E1 E2 [H1 H2]. split; congruence. Qed.

Lemma session_connect port iw cw ix (w w1 : W) c : connect port iw cw ix w = (Ret c, w1) -> session w1 [] [] (c, w1) /\ counted [] c.
Proof.
  unfold connect. destruct (sock_connect port w) as [ok w0]. destruct (negb ok); [done|].
  destruct (settings_frame _); [|done]. destruct (if _ : bool then _ else _); [|done]. destruct (sock_send _ _) as [ok' ?].
  destruct ok'; [|done]. intros [= <- <-]. split; [split|done].
  - constructor.
  - split; [intros sid; split; [set_solver|done]|done|done|done].
  - done.
Qed.

Lemma session_send d w0 log ps (s : Connection * W) : session w0 log ps s -> exists s', send d s = (Ret (), s') /\ session w0 log ps s'
  /\ complete s'.1 = complete s.1 /\ body s'.1 = body s.1.
Proof.
  intros [Ht Hh Ho]. destruct (send_cases d s) as (s' & E & Hs). exists s'. split; [done|].
  assert (traffic w0 log s'.2) as Ht'.
  { revert E. unfold send, mbind, run_bind, get_conn, on_socket. destruct (_ || _); [by intros [= <-]|]. destruct s as [c w]. cbn [fst snd] in *.
    pose proof (traffic_send w0 d log w Ht) as Hsend. destruct (sock_send d w) as [[] w']; [by intros [= <-]|]. rewrite set_conn_ret. by intros [= <-]. }
  destruct Hs as [E' | E']; (split; [split; [done|..]|by rewrite E']); rewrite E'; try done.
  - by apply (heard_same log s.1).
  - by apply (opened_same ps s.1).
Qed.

Lemma session_get qs w0 log ps (s s' : Connection * W) ids : session w0 log ps s -> get qs s = (Ret ids, s') ->
  ids = odd_ids (1 + 2 * Z.of_nat (length ps)) (length qs) /\ session w0 log (ps ++ qs) s' /\ complete s'.1 = complete s.1
  /\ (counted [] s.1 -> counted [] s'.1).
Proof.
  intros [Ht Hh Ho]. unfold get, mbind, run_bind. destruct s as [c w]. cbn [fst snd] in *.
  destruct (requests qs (c, w)) as [[[ids' out]|e] [c1 w1]] eqn:E; [|done].
  apply (requests_opened _ ps) in E as (-> & -> & Ho1 & ->); [|done]. set (c1 := for_each _ _ _) in *.
  destruct (add_streams_state qs c) as (E1 & E2 & E3 & E4 & E5). fold c1 in E1, E2, E3, E4, E5.
  cbn [fst snd]. destruct (session_send out w0 log (ps ++ qs) (c1, w)) as (s1 & -> & Hs & Hc & Hb).
  { split; [done| |done]. eapply heard_same; [..|exact Hh]; [done..|]. cbn [fst]. by rewrite E4. }
  intros [= <- <-]. cbn [fst snd] in *. split; [done|]. split; [done|]. split; [congruence|].
  intros Hz sid. rewrite Hb. subst c1. clear -Hz. revert sid. apply (for_each_inv (fun c' => counted [] c')); [done|].
  intros c' q _ Hc' sid. specialize (Hc' sid). cbn [add_stream body]. rewrite dict_get_set. by case_decide.
Qed.

(** Waiting reads on, in whatever pieces. *)
Lemma session_pump_loop ack d fuel : forall w0 log ps (s s' : Connection * W), session w0 log ps s -> pump_loop fuel d ack s = (Ret (), s') ->
  exists log', session w0 log' ps s' /\ complete s.1 ⊆ complete s'.1 /\ (counted log s.1 -> counted log' s'.1).
Proof.
  induction fuel as [|fuel IH]; intros w0 log ps [c w] s' Hse; cbn [pump_loop]; [done|]. pose proof Hse as [Ht Hh Ho]. cbn [fst snd] in *.
  unfold mbind at 1, run_bind at 1, time_now at 1. unfold mbind at 1, run_bind at 1, get_conn at 1. cbn [fst snd].
  destruct (_ || closed c) eqn:Ec; [intros [= <-]; by exists log|]. apply orb_false_iff in Ec as [_ Ec].
  unfold mbind at 1, run_bind at 1, time_now at 1. unfold mbind at 1, run_bind at 1, on_socket. cbn [snd].
  set (t := fmax _ _). pose proof (traffic_recv w0 t log w Ht) as Hr. destruct (sock_recv t w) as [r w1]. cbn [fst snd] in Hr.
  assert (forall c', arrived r = [] -> complete c' = complete c -> settings_acked c' = settings_acked c -> goaway c' = goaway c ->
    buf c' = buf c -> body c' = body c -> paths c' = paths c -> next_id c' = next_id c -> (closed c' = false -> closed c = false) ->
    exists log', session w0 log' ps (c', w1) /\ complete c ⊆ complete c' /\ (counted log c -> counted log' c')) as Hquiet.
  { intros c' Er E1 E2 E3 E4 E5 E6 E7 E8. rewrite Er, app_nil_r in Hr. exists log. split; [split; [done|..]|].
    - by apply (heard_same log c).
    - by apply (opened_same ps c).
    - rewrite E1. split; [done|]. unfold counted. by rewrite E5. }
  destruct r as [[|x b]| | |]; try (rewrite set_conn_ret); try (intros [= <-]; by apply Hquiet).
  unfold mbind at 1, run_bind at 1. destruct (feed ack (x :: b) (c, w1)) as [[go|e] s1] eqn:Ef; [|done].
  assert (session w0 (log ++ x :: b) ps s1 /\ complete c ⊆ complete s1.1 /\ (counted log c -> counted (log ++ x :: b) s1.1)) as (Hs1 & Hc1 & Hb1).
  { pose proof (keeps_feed ack (x :: b) (c, w1)) as Hk. destruct (feed_heard ack (x :: b) log (c, w1) go s1) as [Hh1 Hb1]; [done..|].
    pose proof (sending_feed ack (x :: b) (c, w1)) as Hs. rewrite Ef in Hk, Hs. destruct Hk as [K1 K2 K3]. cbn [fst snd] in *. split; [split; [|done|]|].
    - clear -Hr Hs. cbn [arrived] in Hr. induction Hs as [|d w' _ IH]; [done|by constructor].
    - by apply (opened_same ps c).
    - done. }
  destruct go; [|intros [= <-]; by eexists]. intros H. destruct (IH _ _ _ _ _ Hs1 H) as (log' & H1 & H2 & H3).
  exists log'. split; [done|]. split; [by etrans|]. auto.
Qed.
Lemma session_pump ack seconds fuel w0 log ps (s s' : Connection * W) : session w0 log ps s -> pump fuel seconds ack s = (Ret (), s') ->
  exists log', session w0 log' ps s' /\ complete s.1 ⊆ complete s'.1 /\ (counted log s.1 -> counted log' s'.1).
Proof. apply session_pump_loop. Qed.

Lemma session_report w0 log ps (s : Connection * W) ids : session w0 log ps s -> Z.of_nat (report ids s.1) = missing ids (heeded log).
Proof.
  intros [_ [H _ _ _] _]. unfold report, missing. do 2 f_equal. apply List.filter_ext. intros sid. f_equal. specialize (H sid).
  destruct (ended sid (heeded log)); [apply bool_decide_eq_true_2|apply bool_decide_eq_false_2]; naive_solver.
Qed.
Lemma session_keys w0 log ps (s : Connection * W) : session w0 log ps s -> dict_keys (paths s.1) = odd_ids 1 (length ps).
Proof. intros [_ _ [-> _]]. apply zip_keys, odd_ids_length. Qed.
End sessions.

(** ** What raises an [OSError] *)

Create HintDb calm.
Section calm.
Context {W : Type} `{HS : Socket W}.
Abbreviation method A := (run (Connection * W) A).

(** Only opening the connection raises an [OSError]. *)
Definition calm {A} (m : method A) : Prop := forall s, (m s).1 <> Raise OSError.
Lemma calm_ret {A} (x : A) : calm (mret x).
Proof. by intros s. Qed.
Lemma calm_get {A} (f : Connection -> A) : calm (get_conn f).
Proof. by intros s. Qed.
Lemma calm_set f : calm (set_conn f).
Proof. intros s. by rewrite set_conn_ret. Qed.
Lemma calm_socket {A} (f : W -> A * W) : calm (on_socket f).
Proof. intros [c w]. unfold on_socket. by destruct (f w). Qed.
Lemma calm_time : calm time_now.
Proof. by intros s. Qed.
Lemma calm_send d : calm (send d).
Proof. intros s. by destruct (send_ret d s) as [s' ->]. Qed.
Lemma calm_fuel {A} : calm (raise OutOfFuel : method A).
Proof. by intros s. Qed.
Lemma calm_lift {A} (r : result A) : r <> Raise OSError -> calm (lift r).
Proof. by intros H s. Qed.
Lemma calm_bind {A B} (m : method A) (f : A -> method B) : calm m -> (forall x, calm (f x)) -> calm (m ≫= f).
Proof.
  intros Hm Hf s. unfold mbind, run_bind. specialize (Hm s). destruct (m s) as [[x|e] s1]; [apply Hf|]. cbn in *. congruence.
Qed.

Lemma frame_calm t fl sid p : frame t fl sid p <> Raise OSError.
Proof. unfold frame, pack, to_bytes. repeat case_match; done. Qed.
Lemma window_update_calm sid n : window_update sid n <> Raise OSError.
Proof. unfold window_update, pack. destruct (_ && _); [apply frame_calm|done]. Qed.
#[local] Hint Resolve calm_ret calm_get calm_set calm_socket calm_time calm_send calm_fuel calm_lift calm_bind
  frame_calm window_update_calm : calm.

Lemma calm_get_paths ps : calm (get ps).
Proof.
  unfold get. apply calm_bind; [|auto with calm]. induction ps as [|p ps IH]; cbn [requests]; [auto with calm|].
  apply calm_bind; [|auto with calm]. unfold request. do 3 (apply calm_bind; [auto with calm|]; intros ?).
  apply calm_bind; [auto with calm|]. intros _. apply calm_bind; [|auto with calm]. apply calm_lift.
  match goal with |- encode_request p ?a ?i <> _ => destruct (request_decodes p a i) as (b & -> & _) end. done.
Qed.
Lemma calm_handle ack f : calm (handle_frame ack f).
Proof. unfold handle_frame, end_stream. repeat case_match; eauto 10 with calm. Qed.
Lemma calm_feed ack chunk : calm (feed ack chunk).
Proof.
  unfold feed, drain. do 3 (apply calm_bind; [auto with calm|]; intros ?). generalize (length x1) as fuel.
  induction fuel as [|fuel IH]; cbn [drain_loop]; [auto with calm|]. apply calm_bind; [auto with calm|]. intros b.
  destruct (parse_frame b) as [[f rest]|]; [|auto with calm]. apply calm_bind; [auto with calm|]. intros _.
  apply calm_bind; [apply calm_handle|]. intros []; auto with calm.
Qed.
#[local] Hint Resolve calm_get_paths calm_feed : calm.
Lemma calm_pump fuel t ack : calm (pump fuel t ack).
Proof.
  unfold pump. apply calm_bind; [auto with calm|]. intros t0. generalize (fadd t0 t) as d. intros d.
  induction fuel as [|fuel IH]; cbn [pump_loop]; [auto with calm|]. do 2 (apply calm_bind; [auto with calm|]; intros ?).
  destruct (_ || _); [auto with calm|]. do 2 (apply calm_bind; [auto with calm|]; intros ?). destruct x2 as [[|]| | |]; auto with calm.
  apply calm_bind; [auto with calm|]. intros []; auto with calm.
Qed.
Lemma large_assets_calm ps : large_assets ps <> Raise OSError.
Proof. unfold large_assets. repeat case_match; done. Qed.
Lemma calm_close : calm close.
Proof. apply calm_socket. Qed.
Lemma calm_report ids : calm (failures_of ids) /\ calm report_all.
Proof. split; apply calm_get. Qed.
Lemma raised_window_calm : settings_frame [(4, 1048576)] <> Raise OSError.
Proof. done. Qed.
End calm.
#[export] Hint Resolve calm_ret calm_get calm_set calm_socket calm_time calm_send calm_fuel calm_lift calm_bind
  frame_calm window_update_calm calm_get_paths calm_feed calm_pump large_assets_calm raised_window_calm calm_close : calm.
#[export] Hint Extern 1 (calm (failures_of _)) => apply calm_report : calm.
#[export] Hint Extern 1 (calm report_all) => apply calm_report : calm.

(** ** What a scenario has to find *)

Section verdicts.
Context {W : Type} `{HS : Socket W}.
Abbreviation method A := (run (Connection * W) A).

(** The streams on which paths are requested, and how many of those the
    server did not serve to the end. *)
Definition ids_of (ps : list string) : list Z := odd_ids 1 (length ps).
Definition unserved (ps : list string) (fs : list Frame) : Z := missing (ids_of ps) fs.
(** ... or overran: more than 2 MiB, or 65535 bytes when the SETTINGS were
    never acknowledged *)
Definition overrun (ps : list string) (fs : list Frame) : Z :=
  let limit := if existsb acks fs then 2 ^ 21 else 2 ^ 16 - 1 in
  Z.of_nat (length (List.filter (fun sid => limit <? received_on sid fs) (ids_of ps))).

(** What a scenario promises: the window it opens with, what it asks for, and
    the failures it counts in the frames the server sent. *)
Record Contract : Type := mkContract { window : Z; asks : Args -> list string; counts : list string -> list Frame -> Z }.
Definition large_of (a : Args) : list string := match large_assets (subresources a) with Ret ps => ps | Raise _ => [] end.
Definition CONTRACTS : list (string * Contract) :=
  [("page-load", mkContract DEFAULT_WINDOW page unserved);
   ("burst", mkContract DEFAULT_WINDOW page unserved);
   ("no-credit", mkContract DEFAULT_WINDOW page (fun _ _ => 0));
   ("settings-resize", mkContract DEFAULT_WINDOW large_of unserved);
   ("strict-window", mkContract LARGE_WINDOW page (fun ps fs => unserved ps fs + overrun ps fs))].

Lemma step_inv {A B} (m : method A) (f : A -> method B) s y s' : (m ≫= f) s = (Ret y, s') ->
  exists x s1, m s = (Ret x, s1) /\ f x s1 = (Ret y, s').
Proof. unfold mbind, run_bind. destruct (m s) as [[x|e] s1]; [|done]. by eexists _, _. Qed.

(** A body that asks for the paths, returns what the contract says of what
    arrived, and closes the connection *)
Definition finds (m : method Z) (ps : list string) (spec : list string -> list Frame -> Z) : Prop := forall w0 c n s',
  session w0 [] [] (c, w0) -> counted [] c -> m (c, w0) = (Ret n, s') ->
  exists log w2, session w0 log ps (s'.1, w2) /\ s'.2 = sock_close w2 /\ n = spec ps (heeded log).

(** A scenario that keeps its contract *)
Definition implements (sc : nat -> Args -> run W Z) (k : Contract) : Prop := forall fuel a, exists m,
  sc fuel a = on_page (window k) a m /\ calm m /\ finds m (asks k a) (counts k).

Lemma close_finds {A} (f : Connection -> A) (g : A -> Z) w0 log ps (s : Connection * W) n s' : session w0 log ps s ->
  (failures ← get_conn f; close;; mret (g failures)) s = (Ret n, s') ->
  n = g (f s.1) /\ exists w2, session w0 log ps (s'.1, w2) /\ s'.2 = sock_close w2.
Proof. destruct s as [c w]. intros Hs [= <- <-]. by split; [|exists w]. Qed.
Lemma close_reported w0 log ps (s : Connection * W) n s' : session w0 log ps s ->
  (failures ← report_all; close;; mret failures) s = (Ret n, s') ->
  exists log w2, session w0 log ps (s'.1, w2) /\ s'.2 = sock_close w2 /\ n = unserved ps (heeded log).
Proof.
  intros Hs H. destruct (close_finds _ id _ _ _ _ _ _ Hs H) as [-> (w2 & Hs2 & Hc)]. exists log, w2. split; [done|]. split; [done|].
  cbn [id]. rewrite (session_report w0 log ps) by done. by rewrite (session_keys w0 log ps).
Qed.

Ltac calm_body := repeat (apply calm_bind; [solve [auto with calm]|intros ?]); solve [auto with calm].
(** One step of a scenario's body *)
Ltac next H x s E := apply step_inv in H as (x & s & E & H).
Ltac fetched E Hs Hs' Hcnt := apply (session_get _ _ _ _ _ _ _ Hs) in E as (-> & Hs' & _ & Hcnt).

Lemma page_load_implements : implements scenario_page_load (mkContract DEFAULT_WINDOW page unserved).
Proof.
  intros fuel a. eexists. split; [reflexivity|]. split; [calm_body|]. cbn [asks counts].
  intros w0 c n s' Hs _ H. next H ids s1 E1. fetched E1 Hs Hs' Hcnt. next H u s2 E2. destruct u.
  destruct (session_pump _ _ _ _ _ _ _ _ Hs' E2) as (log & Hs2 & _). next H ids s3 E3. fetched E3 Hs2 Hs3 Hcnt3. next H u s4 E4. destruct u.
  destruct (session_pump _ _ _ _ _ _ _ _ Hs3 E4) as (log' & Hs4 & _). exact (close_reported _ _ _ _ _ _ Hs4 H).
Qed.
Lemma burst_implements : implements scenario_burst (mkContract DEFAULT_WINDOW page unserved).
Proof.
  intros fuel a. eexists. split; [reflexivity|]. split; [calm_body|]. cbn [asks counts].
  intros w0 c n s' Hs _ H. next H ids s1 E1. fetched E1 Hs Hs' Hcnt. next H u s2 E2. destruct u.
  destruct (session_pump _ _ _ _ _ _ _ _ Hs' E2) as (log & Hs2 & _). exact (close_reported _ _ _ _ _ _ Hs2 H).
Qed.
Lemma no_credit_implements : implements scenario_no_credit (mkContract DEFAULT_WINDOW page (fun _ _ => 0)).
Proof.
  intros fuel a. eexists. split; [reflexivity|]. split; [calm_body|]. cbn [asks counts].
  intros w0 c n s' Hs _ H. next H ids s1 E1. fetched E1 Hs Hs' Hcnt. next H u s2 E2. destruct u.
  destruct (session_pump _ _ _ _ _ _ _ _ Hs' E2) as (log & Hs2 & _). destruct (close_finds _ (fun _ => 0) _ _ _ _ _ _ Hs2 H) as [-> (w2 & Hw & Hc)].
  by exists log, w2.
Qed.
Lemma settings_resize_implements : implements scenario_settings_resize (mkContract DEFAULT_WINDOW large_of unserved).
Proof.
  intros fuel a. eexists. split; [reflexivity|]. split; [calm_body|]. cbn [asks counts].
  intros w0 c n s' Hs _ H. next H ps s1 E1. unfold lift in E1. injection E1 as Eps <-. next H ids s2 E2. fetched E2 Hs Hs' Hcnt.
  next H v s3 E3. destruct v. destruct (session_pump _ _ _ _ _ _ _ _ Hs' E3) as (log & Hs3 & _).
  next H f s4 E4. injection E4 as _ <-. next H v5 s5 E5. destruct (session_send f _ _ _ _ Hs3) as (s5' & E5' & Hs5 & _).
  rewrite E5' in E5. injection E5 as _ <-. next H f' s6 E6. injection E6 as _ <-. next H v7 s7 E7.
  destruct (session_send f' _ _ _ _ Hs5) as (s7' & E7' & Hs7 & _). rewrite E7' in E7. injection E7 as _ <-. next H v8 s8 E8. destruct v8.
  destruct (session_pump _ _ _ _ _ _ _ _ Hs7 E8) as (log' & Hs8 & _). destruct (close_finds _ id _ _ _ _ _ _ Hs8 H) as [-> (w2 & Hw & Hc)].
  unfold large_of. rewrite Eps. exists log', w2. split; [done|]. split; [done|]. by apply (session_report w0 log' ([] ++ ps)).
Qed.
Lemma strict_window_implements : implements scenario_strict_window (mkContract LARGE_WINDOW page (fun ps fs => unserved ps fs + overrun ps fs)).
Proof.
  intros fuel a. eexists. split; [reflexivity|]. split; [calm_body|]. cbn [asks counts].
  intros w0 c n s' Hs Hb H. next H ids s1 E1. fetched E1 Hs Hs' Hcnt. next H u s2 E2. destruct u.
  destruct (session_pump _ _ _ _ _ _ _ _ Hs' E2) as (log & Hs2 & _ & Hb2). next H limit s3 E3. injection E3 as <- <-.
  next H failures s3 E3. injection E3 as <- <-. destruct (close_finds _ (fun over => _ + over) _ _ _ _ _ _ Hs2 H) as [-> (w2 & Hw & Hc)].
  exists log, w2. split; [done|]. split; [done|]. f_equal.
  - by apply (session_report w0 log ([] ++ page a)).
  - rewrite (he_acked _ _ (se_heard _ _ _ _ Hs2)). unfold overrun, over_window. do 2 f_equal. apply List.filter_ext. intros sid.
    by rewrite (Hb2 (Hcnt Hb)).
Qed.
End verdicts.

(** ** The exit status *)

Section exit_status.
Context {W : Type} `{HS : Socket W}.
Abbreviation method A := (run (Connection * W) A).

(** The opening of a scenario's connection *)
Definition opening (iw : Z) (a : Args) (w : W) : result Connection * W :=
  connect (a_port a) iw (a_conn_window a) (negb (a_no_indexing a)) w.

Lemma on_page_outcome iw a (m : method Z) ps spec w : finds m ps spec -> calm m ->
  match on_page iw a m w with
  | (Ret n, w') => exists c w1 log c' w2, opening iw a w = (Ret c, w1) /\ session w1 log ps (c', w2) /\ w' = sock_close w2
                   /\ n = spec ps (heeded log)
  | (Raise OSError, w') => opening iw a w = (Raise OSError, w')
  | _ => True
  end.
Proof.
  intros Hf Hm. unfold on_page. fold (opening iw a w). destruct (opening iw a w) as [[c|e] w1] eqn:Ec; [|by destruct e].
  destruct (session_connect _ _ _ _ _ _ _ Ec) as [Hs Hb]. destruct (m (c, w1)) as [[n|e] [c' w']] eqn:E.
  - destruct (Hf w1 c n (c', w') Hs Hb E) as (log & w2 & Hs2 & Hc & Hn). by exists c, w1, log, c', w2.
  - pose proof (Hm (c, w1)) as Hcalm. rewrite E in Hcalm. by destruct e.
Qed.

Lemma contract_scenario name k : (name, k) ∈ CONTRACTS -> name <> "all" /\ exists sc, dict_get SCENARIOS name = Some sc /\ implements sc k.
Proof.
  intros H. repeat (apply elem_of_cons in H as [[= -> ->]|H]); [..|by apply elem_of_nil in H]; (split; [done|]); eexists; (split; [reflexivity|]).
  - apply page_load_implements.
  - apply burst_implements.
  - apply no_credit_implements.
  - apply settings_resize_implements.
  - apply strict_window_implements.
Qed.

Lemma h2_main_single name sc fuel paths a (w : W) : name <> "all" -> dict_get SCENARIOS name = Some sc ->
  h2_main fuel name paths a w = match sc fuel (with_paths paths a) w with
                                | (Ret n, w') => (Ret (if n =? 0 then 0 else 1), w')
                                | (Raise OSError, w') => (Ret 2, w')
                                | (Raise e, w') => (Raise e, w')
                                end.
Proof.
  intros Hn Hsc. unfold h2_main. destruct (String.eqb_spec name "all") as [|_]; [done|]. unfold mbind at 1, run_bind at 1.
  cbn [run_scenarios]. rewrite Hsc. destruct (sc fuel _ w) as [[n|e] w1]; [done|]. by destruct e.
Qed.

End exit_status.

(** ** Every scenario ends *)

Section ends.
Context {W : Type} `{HS : Socket W} `{HT : !TimedSocket W}.
Abbreviation method A := (run (Connection * W) A).

(** The clock plus a waiting time is a finite double. *)
Definition fits (t : float) : Prop := forall w : W, finite (fadd (sock_time w) t) = true.

Lemma pump_loop_ends e d ack : e <= -1074 -> finite d = true -> e <= fexp_of d -> forall fuel (s : Connection * W),
  are_bytes (buf s.1) -> (Z.to_nat (rank e d - moment e s.2) < fuel)%nat -> exists s',
  pump_loop fuel d ack s = (Ret (), s') /\ are_bytes (buf s'.1).
Proof.
  intros He Hd Hed. induction fuel as [|fuel IH]; intros [c w] Hb Hf; [lia|]. cbn [fst snd] in *. cbn [pump_loop].
  unfold mbind at 1, run_bind at 1, time_now at 1. unfold mbind at 1, run_bind at 1, get_conn. cbn [fst snd].
  destruct (negb (fltb (sock_time w) d) || closed c) eqn:Er; [by exists (c, w)|]. apply orb_false_iff in Er as [Er%negb_false_iff _].
  unfold mbind at 1, run_bind at 1, time_now. unfold mbind at 1, run_bind at 1, on_socket. cbn [snd]. set (t := fmax _ _).
  pose proof (chunk_later t w) as Hlater. pose proof (chunk_bytes t w) as Hbytes.
  destruct (sock_recv t w) as [[[|x b]| | |] w1]; cbn [fst snd] in *; rewrite ?set_conn_ret; try (eexists; split; [reflexivity|done]).
  unfold mbind at 1, run_bind at 1. destruct (feed_total ack (x :: b) (c, w1) Hb) as (go & s1 & -> & Hb1 & Hs1).
  { apply are_bytes_bool. by apply Hbytes. }
  destruct go; [|by exists s1]. apply IH; [done|]. apply (sends_later e) in Hs1; [|done]. cbn [snd] in Hs1.
  specialize (Hlater x b eq_refl). destruct (time_double w) as [W1 W2], (time_double w1) as [W3 W4].
  apply (rank_lt e) in Hlater; [|done || lia..]. fold (moment e w) (moment e w1) in Hlater.
  apply (rank_lt e) in Er; [|done || lia..]. fold (moment e w) in Er. lia.
Qed.
Lemma pump_loop_more d ack fuel : forall fuel' (s s' : Connection * W), (fuel <= fuel')%nat ->
  pump_loop fuel d ack s = (Ret (), s') -> pump_loop fuel' d ack s = (Ret (), s').
Proof.
  induction fuel as [|fuel IH]; intros [|fuel'] s s' Hle; try done; [lia|]. cbn [pump_loop]. unfold mbind, run_bind, get_conn, time_now.
  destruct (_ || closed _); [done|]. destruct (on_socket _ s) as [[[[|x b]| | |]|e] s1]; try done.
  destruct (feed ack (x :: b) s1) as [[[]|e] s2]; try done. apply IH. lia.
Qed.

(** A method with an outcome that does not depend on the fuel, once there is
    enough *)
Definition settles {A} (m : nat -> method A) : Prop := forall s, are_bytes (buf s.1) ->
  exists r s', are_bytes (buf s'.1) /\ r <> Raise OutOfFuel /\ eventually (fun fuel => m fuel s = (r, s')).

Lemma settles_plain {A} (m : method A) : (forall s, buf (m s).2.1 = buf s.1 /\ (m s).1 <> Raise OutOfFuel) -> settles (fun _ => m).
Proof.
  intros H s Hb. destruct (H s) as [H1 H2]. destruct (m s) as [r s']. exists r, s'. cbn [fst snd] in *.
  split; [congruence|]. split; [done|]. by exists 0%nat.
Qed.
Lemma settles_bind {A B} (m : nat -> method A) (f : nat -> A -> method B) : settles m -> (forall x, settles (fun n => f n x)) ->
  settles (fun n => m n ≫= f n).
Proof.
  intros Hm Hf s Hb. destruct (Hm s Hb) as ([x|e] & s1 & Hb1 & Hr & He1).
  - destruct (Hf x s1 Hb1) as (r & s2 & Hb2 & Hr2 & He2). exists r, s2. split; [done|]. split; [done|].
    destruct (eventually_and _ _ He1 He2) as [n Hn]. exists n. intros fuel Hle. unfold mbind, run_bind. by destruct (Hn fuel Hle) as [-> ->].
  - exists (Raise e), s1. split; [done|]. split; [congruence|]. destruct He1 as [n Hn]. exists n. intros fuel Hle. unfold mbind, run_bind. by rewrite Hn.
Qed.
Lemma settles_pump t ack : fits t -> settles (fun n => pump n t ack).
Proof.
  intros Ht [c w] Hb. unfold pump, mbind, run_bind, time_now. set (d := fadd _ _). set (e := Z.min (-1074) (fexp_of d)).
  destruct (pump_loop_ends e d ack ltac:(lia) (Ht w) ltac:(lia) (S (Z.to_nat (rank e d - moment e w))) (c, w) Hb ltac:(cbn; lia))
    as (s' & E & Hb'). exists (Ret ()), s'. split; [done|]. split; [done|]. eexists. intros fuel Hf. by eapply pump_loop_more.
Qed.
Lemma settles_get ps : settles (fun _ => get ps).
Proof.
  apply settles_plain. intros s. unfold get, mbind, run_bind. destruct (requests_buf ps s) as [H1 H2].
  destruct (requests ps s) as [[[ids out]|e] s1]; cbn [fst snd] in *; [|split; [done|congruence]].
  pose proof (proj2 (bufless_send out [] s1)) as Hs. destruct (send_ret out s1) as [s2 E]. rewrite E in *. cbn in *. split; [congruence|done].
Qed.
Lemma settles_conn {A} (f : Connection -> A) : settles (fun _ => get_conn f).
Proof. by apply settles_plain. Qed.
Lemma settles_ret {A} (x : A) : settles (fun _ => mret x).
Proof. by apply settles_plain. Qed.
Lemma settles_lift {A} (r : result A) : r <> Raise OutOfFuel -> settles (fun _ => lift r).
Proof. intros H. by apply settles_plain. Qed.
Lemma settles_send d : settles (fun _ => send d).
Proof. apply settles_plain. intros s. pose proof (proj2 (bufless_send d [] s)) as Hs. destruct (send_ret d s) as [s' E]. by rewrite E in *. Qed.
Lemma settles_close : settles (fun _ => close).
Proof. by apply settles_plain; intros [c w]. Qed.
Lemma frame_fuel t fl sid p : frame t fl sid p <> Raise OutOfFuel.
Proof. unfold frame, pack, to_bytes. repeat case_match; done. Qed.
Lemma window_update_fuel sid n : window_update sid n <> Raise OutOfFuel.
Proof. unfold window_update, pack. destruct (_ && _); [apply frame_fuel|done]. Qed.
Lemma large_assets_fuel ps : large_assets ps <> Raise OutOfFuel.
Proof. unfold large_assets. repeat case_match; done. Qed.
End ends.

Ltac settle_step := first [apply settles_get | apply settles_send | apply settles_close | apply settles_conn | apply settles_ret
  | apply settles_lift; first [done | apply window_update_fuel | apply large_assets_fuel] | apply settles_pump; assumption].
Ltac settle := repeat (apply settles_bind; [solve [settle_step]|intros ?]); try solve [settle_step].

Section scenarios_end.
Context {W : Type} `{HS : Socket W} `{HT : !TimedSocket W}.
Abbreviation method A := (run (Connection * W) A).
Context (a : Args) (Hwait : fits (W := W) (a_wait a)) (Hlate : fits (W := W) (of_decimal 4 1)) (Hrest : fits (W := W) (of_decimal 15 1)).

Lemma reload_settles pages : forall failures, settles (W := W) (fun n => reload_loop pages n a failures).
Proof using All.
  induction pages as [|pages IH]; intros failures; cbn [reload_loop]; [settle|]. settle. destruct (x2 : bool); [settle|apply IH].
Qed.
Lemma late_settles streams : forall l, settles (W := W) (fun n => late_loop streams n l).
Proof using All.
  induction streams as [|streams IH]; intros l; cbn [late_loop]; [settle|].
  apply settles_bind; [settle|]. intros ids. apply settles_bind; [apply settles_lift; by destruct ids|]. intros id. cbv zeta. settle.
  destruct (x0 : bool); [settle|apply IH].
Qed.
Lemma updates_settle ts : settles (W := W) (fun _ => send_updates ts).
Proof using HT. induction ts as [|t ts IH]; cbn [send_updates]; [settle|]. settle. apply IH. Qed.

Lemma opening_empty iw (w w1 : W) c : opening iw a w = (Ret c, w1) -> buf c = [].
Proof using HT. unfold opening, connect. repeat case_match; try done; by intros [= <- _]. Qed.
Lemma opening_fuel iw (w : W) : (opening iw a w).1 <> Raise OutOfFuel.
Proof using HT.
  unfold opening, connect. destruct (sock_connect _ w) as [ok w0]. destruct (negb ok); [done|].
  assert (settings_frame [(3, 100); (4, iw)] <> Raise OutOfFuel) as H1.
  { unfold settings_frame, pack. cbn [for_result]. repeat case_match; try done; apply frame_fuel. }
  assert ((if a_conn_window a =? 0 then Ret [] else window_update 0 (a_conn_window a)) <> Raise OutOfFuel) as H2
    by (destruct (_ =? 0); [done|apply window_update_fuel]).
  destruct (settings_frame _) as [s|e], (if _ : bool then _ else _) as [u|e']; cbn; try congruence.
  by destruct (sock_send _ w0) as [[] w1].
Qed.
Lemma on_page_settles iw (m : nat -> method Z) w : settles m -> exists r w', r <> Raise OutOfFuel
  /\ eventually (fun fuel => on_page iw a (m fuel) w = (r, w')).
Proof using HT.
  intros Hm. unfold on_page. fold (opening iw a w). destruct (opening iw a w) as [[c|e] w1] eqn:Ec.
  - destruct (Hm (c, w1)) as (r & [c' w2] & _ & Hr & n & Hn); [cbn [fst]; rewrite (opening_empty _ _ _ _ Ec); constructor|].
    exists r, w2. split; [done|]. exists n. intros fuel Hf. by rewrite Hn.
  - exists (Raise e), w1. split; [|by exists 0%nat]. pose proof (opening_fuel iw w) as H. rewrite Ec in H. cbn in H. congruence.
Qed.

Lemma scenario_ends name sc w : dict_get SCENARIOS name = Some sc -> exists r w', r <> Raise OutOfFuel
  /\ eventually (fun fuel => sc fuel a w = (r, w')).
Proof using All.
  intros H. cbn [SCENARIOS dict_get] in H. repeat case_decide; try done; injection H as <-; apply on_page_settles.
  - settle.
  - settle.
  - settle.
  - settle.
  - settle.
  - apply settles_bind; [apply reload_settles|]. intros failures. settle.
  - apply settles_bind; [apply late_settles|]. intros l. apply settles_bind; [settle|]. intros c. destruct (c : bool); [settle|].
    apply settles_bind; [apply settles_lift; unfold targets; by destruct (previous l)|]. intros ts.
    apply settles_bind; [apply updates_settle|]. intros _. settle.
Qed.
End scenarios_end.

(** The simulator comes to an end, whatever the server does. On a socket whose
    clock shows finite doubles, never goes back and moves on whenever data
    arrives, every scenario, and all in turn, have an outcome that every
    large enough fuel gives. *)
Theorem simulator_ends {W} `{HS : Socket W} `{HT : !TimedSocket W} scenario paths a (w : W) :
  scenario ∈ "all" :: dict_keys (SCENARIOS (W := W)) ->
  fits (W := W) (a_wait a) -> fits (W := W) (of_decimal 4 1) -> fits (W := W) (of_decimal 15 1) ->
  exists r w', r <> Raise OutOfFuel /\ eventually (fun fuel => h2_main fuel scenario paths a w = (r, w')).
Proof.
  intros Hs Hwait H1 H2. set (b := with_paths paths a). assert (a_wait b = a_wait a) as Hb by (subst b; by destruct paths).
  assert (forall names failures w, Forall (fun name => name ∈ dict_keys (SCENARIOS (W := W))) names -> exists r w', r <> Raise OutOfFuel
    /\ eventually (fun fuel => run_scenarios fuel b names failures w = (r, w'))) as H.
  { induction names as [|name names IH]; intros failures w0 Hn; [by exists (Ret (Some failures)), w0; split; [|exists 0%nat]|].
    apply list.Forall_cons in Hn as [[sc Hsc]%dict_get_keys Hn]. cbn [run_scenarios]. rewrite Hsc.
    destruct (scenario_ends b ltac:(by rewrite Hb) H1 H2 name sc w0 Hsc) as ([n|e] & w1 & Hr & He).
    - destruct (IH (failures + n) w1 Hn) as (r & w2 & Hr2 & He2). exists r, w2. split; [done|].
      destruct (eventually_and _ _ He He2) as [m Hm]. exists m. intros fuel Hle. by destruct (Hm fuel Hle) as [-> ->].
    - destruct He as [m Hm]. exists (match e with OSError => Ret None | _ => Raise e end), w1. split; [by destruct e|].
      exists m. intros fuel Hle. rewrite (Hm fuel Hle). by destruct e. }
  unfold h2_main. fold b. set (names := if scenario =s? "all" then _ else _).
  destruct (H names 0 w) as (r & w1 & Hr & m & Hm).
  { subst names. destruct (String.eqb_spec scenario "all") as [->|Hne]; [by apply list.Forall_forall|].
    apply elem_of_cons in Hs as [|Hs]; [done|]. by constructor. }
  exists ((fun f => match f with None => 2 | Some n => if n =? 0 then 0 else 1 end) <$> r), w1.
  split; [destruct r; cbn; congruence|]. exists m. intros fuel Hle. unfold mbind, run_bind. rewrite (Hm fuel Hle). by destruct r.
Qed.

(** ** Reloads and late updates *)

Section reloads.
Context {W : Type} `{HS : Socket W}.
Abbreviation method A := (run (Connection * W) A).

Lemma on_page_inv iw a (m : method Z) w n w' : on_page iw a m w = (Ret n, w') ->
  exists c w1 c', opening iw a w = (Ret c, w1) /\ session w1 [] [] (c, w1) /\ m (c, w1) = (Ret n, (c', w')).
Proof.
  unfold on_page. fold (opening iw a w). destruct (opening iw a w) as [[c|e] w1] eqn:Ec; [|done].
  destruct (session_connect _ _ _ _ _ _ _ Ec) as [Hs _]. destruct (m (c, w1)) as [r [c' w2]] eqn:E. intros [= -> ->]. by exists c, w1, c'.
Qed.

Lemma ids_of_app ps qs : ids_of (ps ++ qs) = ids_of ps ++ odd_ids (1 + 2 * Z.of_nat (length ps)) (length qs).
Proof. unfold ids_of. by rewrite length_app, odd_ids_app. Qed.

(** The streams whose failure a page would count are complete when it counts
    none. *)
Lemma report_zero ids c : report ids c = O -> Forall (fun sid => sid ∈ complete c) ids.
Proof. unfold report. intros H%nil_length_inv. by apply outstanding_nil. Qed.

Lemma reload_pages pages fuel a : forall failures w0 log ps (s : Connection * W) n s', session w0 log ps s -> 0 <= failures ->
  reload_loop pages fuel a failures s = (Ret n, s') -> failures <= n /\ exists p log', (p <= pages)%nat
  /\ (p = pages \/ closed s'.1 = true) /\ session w0 log' (ps ++ concat (replicate p (page a))) s'
  /\ (n = 0 -> Forall (fun sid => sid ∈ complete s.1) (ids_of ps) ->
      Forall (fun sid => sid ∈ complete s'.1) (ids_of (ps ++ concat (replicate p (page a))))).
Proof.
  induction pages as [|pages IH]; intros failures w0 log ps s n s' Hs Hf; cbn [reload_loop].
  - intros [= -> <-]. split; [done|]. exists O, log. cbn [replicate concat]. rewrite app_nil_r. auto.
  - intros H. apply step_inv in H as (ids & s1 & E1 & H). apply (session_get _ _ _ _ _ _ _ Hs) in E1 as (-> & Hs1 & Hc1 & _).
    apply step_inv in H as ([] & s2 & E2 & H). destruct (session_pump _ _ _ _ _ _ _ _ Hs1 E2) as (log2 & Hs2 & Hc2 & _).
    apply step_inv in H as (bad & s3 & E3 & H). injection E3 as <- <-. apply step_inv in H as (c & s3 & E3 & H). injection E3 as <- <-.
    set (ids := odd_ids _ _) in *. set (bad := Z.of_nat (report ids s2.1)) in *.
    assert (bad = 0 -> Forall (fun sid => sid ∈ complete s.1) (ids_of ps) -> Forall (fun sid => sid ∈ complete s2.1) (ids_of (ps ++ page a))) as Hpage.
    { intros H0 Hps. rewrite ids_of_app. apply list.Forall_app. split; [|apply (report_zero ids); subst bad; lia].
      eapply list.Forall_impl; [exact Hps|]. cbn. intros sid Hsid. apply Hc2. by rewrite Hc1. }
    destruct (closed s2.1) eqn:Ec.
    + injection H as <- <-. split; [subst bad; lia|]. exists 1%nat, log2. cbn [replicate concat]. rewrite app_nil_r.
      split; [lia|]. split; [by right|]. split; [done|]. intros Hn. apply Hpage. subst bad. lia.
    + assert (0 <= failures + bad) as Hfb by (subst bad; lia). destruct (IH _ _ _ _ _ _ _ Hs2 Hfb H) as (Hle & p & log' & H1 & H2 & H3 & H4).
      split; [subst bad; lia|]. exists (S p), log'. cbn [replicate concat]. rewrite app_assoc.
      split; [lia|]. split; [destruct H2 as [->|]; [by left|by right]|]. split; [done|]. intros Hn Hps. apply H4; [done|]. apply Hpage; [subst bad; lia|done].
Qed.

(** [reload] returns 0 only when every page it loaded was served to the end;
    those are all pages, unless the connection closed. *)
Lemma reload_served fuel a (w : W) n w' : scenario_reload fuel a w = (Ret n, w') ->
  exists c w1 log c' w2 p, let ps := concat (replicate p (page a)) in
    opening DEFAULT_WINDOW a w = (Ret c, w1) /\ session w1 log ps (c', w2) /\ w' = sock_close w2
    /\ (p = Z.to_nat (a_reloads a) \/ (p < Z.to_nat (a_reloads a))%nat /\ closed c' = true)
    /\ 0 <= n /\ (n = 0 -> unserved ps (heeded log) = 0).
Proof.
  intros (c & w1 & c0 & Ec & Hs & H)%on_page_inv. apply step_inv in H as (f & [c' w2] & E & [= <- <- <-]).
  destruct (reload_pages _ _ _ _ _ _ _ _ _ _ Hs (Z.le_refl 0) E) as (Hf & p & log & Hp & Hcl & Hs2 & Hdone). cbn [fst snd app] in *.
  exists c, w1, log, c', w2, p. split; [done|]. split; [done|]. split; [done|]. split; [destruct (decide (p = Z.to_nat (a_reloads a))); [by left|right; split; [lia|by destruct Hcl]]|]. split; [done|].
  intros H0. unfold unserved. rewrite <- (session_report w1 log _ (c', w2)) by done. specialize (Hdone H0 ltac:(constructor)).
  apply (inj_eq _ 0%nat). unfold report. clear -Hdone. cbn [fst]. induction Hdone as [|sid ids Hsid _ IH]; [done|]. cbn [List.filter].
  by rewrite bool_decide_eq_true_2.
Qed.

Lemma late_streams streams fuel : forall l w0 log ps (s : Connection * W) l' s', session w0 log ps s ->
  late_loop streams fuel l s = (Ret l', s') -> exists p log', session w0 log' (ps ++ replicate p "/logo.png") s'
  /\ (p = streams \/ closed s'.1 = true).
Proof.
  induction streams as [|streams IH]; intros l w0 log ps s l' s' Hs; cbn [late_loop].
  - intros [= -> <-]. exists O, log. cbn [replicate]. rewrite app_nil_r. auto.
  - intros H. apply step_inv in H as (ids & s1 & E1 & H). apply (session_get _ _ _ _ _ _ _ Hs) in E1 as (-> & Hs1 & _ & _).
    apply step_inv in H as (id & s2 & E2 & H). injection E2 as _ <-. apply step_inv in H as ([] & s2 & E2 & H).
    destruct (session_pump _ _ _ _ _ _ _ _ Hs1 E2) as (log2 & Hs2 & _). apply step_inv in H as (c & s3 & E3 & H). injection E3 as <- <-.
    destruct (closed s2.1) eqn:Ec.
    + injection H as _ <-. exists 1%nat, log2. auto.
    + destruct (IH _ _ _ _ _ _ _ Hs2 H) as (p & log' & H1 & H2). exists (S p), log'. rewrite <- app_assoc in H1.
      split; [done|]. destruct H2 as [->|]; [by left|by right].
Qed.
Lemma updates_session ts : forall w0 log ps (s : Connection * W) s', session w0 log ps s -> send_updates ts s = (Ret (), s') -> session w0 log ps s'.
Proof.
  induction ts as [|t ts IH]; intros w0 log ps s s' Hs; cbn [send_updates]; [by intros [= <-]|]. intros H.
  apply step_inv in H as (f & s1 & E1 & H). injection E1 as _ <-. apply step_inv in H as (u & s1 & E1 & H).
  destruct (session_send f _ _ _ _ Hs) as (s1' & E1' & Hs1 & _). rewrite E1' in E1. injection E1 as _ <-. by apply (IH _ _ _ _ _ Hs1).
Qed.

(** [late_wu] returns 0 only when it opened all its streams, and in all that
    the server sent, before and after the late updates, was no GOAWAY; it
    leaves the connection open. *)
Lemma late_wu_healthy fuel a (w : W) w' : scenario_late_wu fuel a w = (Ret 0, w') ->
  exists c w1 log c', opening DEFAULT_WINDOW a w = (Ret c, w1)
    /\ session w1 log (replicate (Z.to_nat (a_streams a)) "/logo.png") (c', w') /\ closed c' = false /\ existsb goodbye (whole log) = false.
Proof.
  intros (c & w1 & c' & Ec & Hs & H)%on_page_inv.
  apply step_inv in H as (l & s1 & E1 & H). destruct (late_streams _ _ _ _ _ _ _ _ _ Hs E1) as (p & log & Hs1 & Hp).
  apply step_inv in H as (cl & s2 & E2 & H). injection E2 as <- <-. destruct (closed s1.1) eqn:Hcl; [done|].
  destruct Hp as [->|]; [|congruence]. apply step_inv in H as (ts & s2 & E2 & H). injection E2 as _ <-.
  apply step_inv in H as ([] & s2 & E2 & H). pose proof (updates_session _ _ _ _ _ _ Hs1 E2) as Hs2.
  apply step_inv in H as ([] & s3 & E3 & H). destruct (session_pump _ _ _ _ _ _ _ _ Hs2 E3) as (log' & Hs3 & _).
  injection H as H ->. exists c, w1, log', c'. split; [done|]. split; [done|]. cbn [fst] in *.
  destruct (_ || _) eqn:Eo in H; [done|]. apply orb_false_iff in Eo as [_ Eo]. split; [done|].
  apply (he_open _ _ (se_heard _ _ _ _ Hs3)). done.
Qed.

(** Two arguments the scenarios do not survive *)
Lemma late_wu_no_streams fuel a (w w1 : W) c : a_streams a <= 0 -> opening DEFAULT_WINDOW a w = (Ret c, w1) ->
  scenario_late_wu fuel a w = (Raise UnboundLocalError, w1).
Proof.
  intros Hn Ho. unfold scenario_late_wu, on_page. fold (opening 65535 a w). change 65535 with DEFAULT_WINDOW. rewrite Ho.
  replace (Z.to_nat (a_streams a)) with O by lia. cbn [late_loop]. unfold mbind, run_bind, mret, run_ret, get_conn. cbn [fst].
  assert (closed c = false) as ->; [|done].
  unfold opening, connect in Ho. repeat case_match; try done; by injection Ho as <- _.
Qed.
Lemma settings_resize_one_path fuel p a (w w1 : W) c : opening DEFAULT_WINDOW (with_paths [p] a) w = (Ret c, w1) ->
  scenario_settings_resize fuel (with_paths [p] a) w = (Raise IndexError, w1).
Proof. intros Ho. unfold scenario_settings_resize, on_page. fold (opening 65535 (with_paths [p] a) w). change 65535 with DEFAULT_WINDOW. by rewrite Ho. Qed.
End reloads.

(** ** Witnesses *)

(** The server on a wire of [Workload] answers every request. *)
Definition burst_run : result Z * wire := Eval vm_compute in h2_main (HS := toy_socket) 20 "burst" [] defaults toy_start.

(** A server that serves one page and hangs up: [reload] exits with 0 all the
    same, with one page of six loaded. *)
#[local] Instance one_page_socket : Socket (list Z * bytes) := {
  sock_connect _ w := (true, w);
  sock_send b w := (true, (w.1 ++ requested b, w.2 ++ replies (requested b)));
  sock_recv _ w := (Chunk w.2, (w.1, []));
  sock_close w := w;
  sock_time _ := fzero
}.
Example reload_hides_a_dead_connection :
  h2_main 20 "reload" [] defaults ([], []) = (Ret 0, ([1; 3; 5; 7; 9; 11], [])).
Proof. vm_compute. reflexivity. Qed.
