(* ===== verification/ServerTests.v ===== *)
(** * The tests of the running server (tests/trace_check.py, tests/multicore_checks.py)

    The comparison of a system-call trace with the allowlist, and the HTTP/1
    client of the concurrent checks: one request, several down a kept-alive
    connection, several in one write, and a request trickled in pieces.  Bytes
    are strings of 8-bit characters; a TCP socket is an interface.  Threads,
    the HTTP/2 halves (the client of [H2Client] again) and the randomised
    mixture are left out. *)

From Stdlib Require Import Ascii.
From S2P Require Import Prelude PyInt PyStr Json JsonText AsmParse Abi Bench SyscallAudit NoiseFloor.

(** ** A traced set of system calls *)

Definition ALIASES : list (string * string) := [("clone3", "clone"); ("vfork", "fork"); ("rt_sigreturn", "sigreturn")].

(** The names of the trace: the loop over the lines of [seen] *)
Definition seen_names (text : string) : list string :=
  for_each (file_lines text) [] (fun seen line =>
    let s := strip line in if s =s? "" then seen else seen ++ [default s (dict_get ALIASES s)]).

(** What [main] prints of the texts of the two files; the loop that reads the
    allowlist is the audit's. *)
Definition trace_names (allowlist seen : string) : list string :=
  let allowed := parse_allowlist allowlist in
  sorted_str (set_of (List.filter (fun n => negb (bool_decide (n ∈ allowed))) (seen_names seen))).
Definition trace_check (allowlist seen : string) : string := join " " (trace_names allowlist seen).

(** ** The client's socket *)

(** [socket.create_connection] and [sendall] ([false] for an error),
    [recv(65536)] ([None] for an error or a timeout), [close] and
    [time.sleep]. *)
Class Tcp (W : Type) := {
  tcp_connect : Z -> W -> bool * W;
  tcp_sendall : string -> W -> bool * W;
  tcp_recv : W -> option string * W;
  tcp_close : W -> W;
  tcp_sleep : W -> W
}.

Definition CRLF : string := String "013" nl.
Definition CRLF2 : string := CRLF +:+ CRLF.
Definition HOST : string := "127.0.0.1".

(** [int(b)]; the white space of bytes is narrower than that of a text. *)
Definition is_byte_space (c : ascii) : bool := in_range 9 13 c || in_range 32 32 c.
Definition int_decimal (s : string) : result Z :=
  let t := strip_by is_byte_space s in
  match match t with
        | String c r => if Ascii.eqb c "-" then Z.opp <$> int_digits 10 r 0 false
                        else if Ascii.eqb c "+" then int_digits 10 r 0 false else int_digits 10 t 0 false
        | "" => None
        end with
  | Some n => Ret n
  | None => Raise (ValueError ("invalid literal for int() with base 10: b" +:+ repr s))
  end.

(** [b[i:j]] and [b[i:]], where a negative index counts from the end *)
Definition index_of (s : string) (i : Z) : nat := Z.to_nat (if i <? 0 then i + Z.of_nat (String.length s) else i).
Definition slice_z (s : string) (i j : Z) : string := slice (index_of s i) (index_of s j) s.
Definition from_z (s : string) (i : Z) : string := drop_str (index_of s i) s.

Definition request_bytes (path method : string) (close : bool) (extra : list string) : string :=
  let head := [method +:+ " " +:+ path +:+ " HTTP/1.1"; "Host: " +:+ HOST] ++ extra
              ++ (if close then ["Connection: close"] else []) in
  join CRLF head +:+ CRLF2.

(** The loop over the header lines *)
Definition content_length (lines : list string) : result Z :=
  for_result lines 0 (fun clen line =>
    if startswith "content-length:" (lower line) then int_decimal (after ":" line) else Ret clen).
(** [headers.split(b" ")[1]] as an integer *)
Definition status_of (headers : string) : result Z :=
  match split_char " " headers with _ :: s :: _ => int_decimal s | _ => Raise IndexError end.

Section http1.
Context {W : Type} `{HT : Tcp W}.

Definition http1_connect (port : Z) : run W unit := fun w =>
  let '(ok, w) := tcp_connect port w in (if ok then Ret () else Raise OSError, w).
Definition sendall (data : string) : run W unit := fun w =>
  let '(ok, w) := tcp_sendall data w in (if ok then Ret () else Raise OSError, w).
Definition recv : run W string := fun w =>
  let '(r, w) := tcp_recv w in (match r with Some chunk => Ret chunk | None => Raise OSError end, w).
Definition sleep : run W unit := fun w => (Ret (), tcp_sleep w).
(** [s = http1_connect(port)], then [try: ... finally: s.close()] *)
Definition with_socket {A} (port : Z) (m : run W A) : run W A := fun w =>
  match http1_connect port w with
  | (Raise e, w) => (Raise e, w)
  | (Ret _, w) => let '(r, w) := m w in (r, tcp_close w)
  end.

(** The two loops of [read_response]: receive until the buffer is enough. *)
Fixpoint read_until (fuel : nat) (enough : string -> bool) (msg : string) (buf : string) : run W string :=
  if enough buf then mret buf
  else match fuel with
       | O => raise OutOfFuel
       | S fuel => chunk ← recv;
                   if chunk =s? "" then raise (RuntimeError msg) else read_until fuel enough msg (buf +:+ chunk)
       end.

Definition NO_HEADERS : string := "connection closed before headers completed".
Definition NO_BODY : string := "connection closed before body completed".
Definition holds (n : Z) (buf : string) : bool := n <=? Z.of_nat (String.length buf).

Definition read_response (fuel : nat) (head : bool) (buf : string) : run W (Z * string * string) :=
  buf ← read_until fuel (contains CRLF2) NO_HEADERS buf;
  let head_end := (default 0 (find CRLF2 buf) + 4)%nat in
  let headers := take_str head_end buf in
  status ← lift (status_of headers);
  clen ← lift (content_length (drop 1 (split_str CRLF headers)));
  let clen := if head then 0 else clen in
  let stop := Z.of_nat head_end + clen in
  buf ← read_until fuel (holds stop) NO_BODY buf;
  mret (status, slice_z buf (Z.of_nat head_end) stop, from_z buf stop).

Definition http1_fetch (fuel : nat) (port : Z) (path method : string) (extra : list string) : run W (Z * string) :=
  with_socket port (
    sendall (request_bytes path method true extra);;
    r ← read_response fuel (method =s? "HEAD") "";
    mret (r : Z * string * string).1).

(** The loop of [http1_keepalive] from the [i]-th of [n] paths *)
Fixpoint keepalive_loop (fuel : nat) (n i : nat) (paths : list string) (leftover : string)
  (out : list (string * Z * string)) : run W (list (string * Z * string)) :=
  match paths with
  | [] => mret out
  | path :: paths =>
      sendall (request_bytes path "GET" (S i =? n)%nat []);;
      r ← read_response fuel false leftover;
      let '(status, body, leftover) := r : Z * string * string in
      keepalive_loop fuel n (S i) paths leftover (out ++ [(path, status, body)])
  end.
Definition http1_keepalive (fuel : nat) (port : Z) (paths : list string) : run W (list (string * Z * string)) :=
  with_socket port (keepalive_loop fuel (length paths) 0 paths "" []).

(** [b"".join(...)] of the requests *)
Definition pipeline (paths : list string) : string :=
  join "" (imap (fun i p => request_bytes p "GET" (S i =? length paths)%nat []) paths).
Fixpoint pipelined_loop (fuel : nat) (paths : list string) (leftover : string)
  (out : list (string * Z * string)) : run W (list (string * Z * string)) :=
  match paths with
  | [] => mret out
  | path :: paths =>
      r ← read_response fuel false leftover;
      let '(status, body, leftover) := r : Z * string * string in
      pipelined_loop fuel paths leftover (out ++ [(path, status, body)])
  end.
Definition http1_pipelined (fuel : nat) (port : Z) (paths : list string) : run W (list (string * Z * string)) :=
  with_socket port (sendall (pipeline paths);; pipelined_loop fuel paths "" []).

(** [raw[i:i + size]] for [i] in [range(0, len(raw), size)] *)
Fixpoint pieces (fuel size : nat) (raw : string) : list string :=
  match fuel, raw with
  | S fuel, String _ _ => take_str size raw :: pieces fuel size (drop_str size raw)
  | _, _ => []
  end.
Definition CHUNKS : nat := 3.
Definition split_pieces (path : string) : list string :=
  let raw := request_bytes path "GET" true [] in
  pieces (String.length raw) (Nat.max 1 (String.length raw / CHUNKS)) raw.
Fixpoint trickle (l : list string) : run W unit :=
  match l with [] => mret () | piece :: l => sendall piece;; sleep;; trickle l end.
Definition http1_split (fuel : nat) (port : Z) (path : string) : run W (Z * string) :=
  with_socket port (
    trickle (split_pieces path);;
    r ← read_response fuel false "";
    mret (r : Z * string * string).1).

(** ** The reference and the comparison *)

Definition PATHS : list string := ["/"; "/index.html"; "/favicon.svg"; "/manifest.json"; "/assets/index-pzx_VsSR.css"].
Definition BIG_PATH : string := "/assets/index-Q2Xld2VX.js".
Fixpoint reference_loop (fuel : nat) (port : Z) (paths : list string) (ref : list (string * string)) : run W (list (string * string)) :=
  match paths with
  | [] => mret ref
  | path :: paths =>
      r ← http1_fetch fuel port path "GET" [];
      let '(status, body) := r : Z * string in
      if negb (status =? 200) || (body =s? "") then
        raise (RuntimeError ("reference fetch of " +:+ path +:+ " gave " +:+ str_z status +:+ ", "
                             +:+ str_nat (String.length body) +:+ " bytes"))
      else reference_loop fuel port paths (dict_set ref path body)
  end.
Definition reference (fuel : nat) (port : Z) : run W (list (string * string)) := reference_loop fuel port (PATHS ++ [BIG_PATH]) [].
End http1.

(** [Failures.add]: the first twenty messages are kept. *)
Definition fails_add (items : list string) (msg : string) : list string :=
  if (length items <? 20)%nat then items ++ [msg] else items.

Definition check_body (items : list string) (kind path : string) (status : option Z) (body : string)
  (ref : list (string * string)) : result (list string) :=
  let compare :=
    match dict_get ref path with
    | None => Raise KeyError
    | Some want =>
        if body =s? want then Ret items
        else if (String.length body =? String.length want)%nat
        then Ret (fails_add items (kind +:+ ": " +:+ path +:+ " -> same length, different bytes (cross-connection leakage?)"))
        else Ret (fails_add items (kind +:+ ": " +:+ path +:+ " -> " +:+ str_nat (String.length body) +:+ " bytes, want "
                                   +:+ str_nat (String.length want)))
    end in
  match status with
  | Some s => if s =? 200 then compare else Ret (fails_add items (kind +:+ ": " +:+ path +:+ " -> HTTP " +:+ str_z s))
  | None => compare
  end.

(** The loop that checks what a connection answered. *)
Definition check_all (items : list string) (kind : string) (answers : list (string * Z * string))
  (ref : list (string * string)) : result (list string) :=
  for_result answers items (fun items '(p, status, body) => check_body items kind p (Some status) body ref).

(** ** The trace *)

Lemma elem_of_seen text n : n ∈ seen_names text <-> exists line, line ∈ file_lines text /\ strip line <> ""
  /\ n = default (strip line) (dict_get ALIASES (strip line)).
Proof.
  unfold seen_names. apply (for_each_ind (fun pre seen => n ∈ seen <-> exists line, line ∈ pre /\ strip line <> ""
    /\ n = default (strip line) (dict_get ALIASES (strip line)))); [set_solver|].
  intros pre line post seen _ IH. cbn zeta. destruct (strip line =s? "") eqn:E.
  - apply seqb_true in E. rewrite IH. set_solver.
  - apply seqb_false in E. rewrite elem_of_app, IH, list_elem_of_singleton. set_solver.
Qed.

Lemma set_of_nodup l : NoDup (set_of l).
Proof.
  unfold set_of. apply for_each_inv; [apply NoDup_nil_2|]. intros acc x _ H. unfold set_add. case_bool_decide as Hx; [done|].
  apply list.NoDup_app. split; [done|]. split; [set_solver|apply NoDup_singleton].
Qed.

(** What is printed is each traced name that the allowlist lacks, under the
    allowlist's name for it, once and in order; a clean trace prints nothing. *)
Theorem trace_names_exact allowlist seen :
  (forall n, n ∈ trace_names allowlist seen <-> n ∉ parse_allowlist allowlist /\ exists line, line ∈ file_lines seen
     /\ strip line <> "" /\ n = default (strip line) (dict_get ALIASES (strip line)))
  /\ NoDup (trace_names allowlist seen)
  /\ (trace_check allowlist seen = "" <-> trace_names allowlist seen = []).
Proof.
  assert (forall n, n ∈ trace_names allowlist seen <-> n ∉ parse_allowlist allowlist /\ n ∈ seen_names seen) as H.
  { intros n. unfold trace_names. rewrite elem_of_sorted_str, elem_of_set_of, list_elem_of_In, List.filter_In, <- list_elem_of_In.
    rewrite negb_true_iff, bool_decide_eq_false. tauto. }
  split; [intros n; by rewrite H, elem_of_seen|]. split.
  - unfold trace_names, sorted_str. rewrite sort_by_perm. apply set_of_nodup.
  - unfold trace_check. split; [|by intros ->]. destruct (trace_names allowlist seen) as [|n l]; [done|].
    assert (n <> "") as Hn.
    { destruct (proj1 (H n) ltac:(left)) as (_ & (line & _ & Hl & ->)%elem_of_seen).
      unfold ALIASES. cbn [dict_get]. repeat case_bool_decide; try done. by repeat case_decide. }
    destruct n as [|c n]; [done|]. destruct l; [done|]. rewrite join_cons. done.
Qed.

(** ** Texts between separators *)

Lemma string_app_inv a b c d : a +:+ b = c +:+ d -> (String.length c <= String.length a)%nat -> exists e, a = c +:+ e /\ d = e +:+ b.
Proof.
  revert a. induction c as [|x c IH]; intros a E H; [by exists a|]. destruct a as [|y a]; [cbn in H; lia|].
  rewrite !string_app_cons in E. injection E as -> E. cbn [String.length] in H. destruct (IH a E ltac:(lia)) as (e & -> & ->).
  by exists e.
Qed.
Lemma startswith_short p s t : (String.length p <= String.length s)%nat -> startswith p (s +:+ t) = startswith p s.
Proof.
  revert s. induction p as [|c p IH]; intros s H; [by destruct s, t|]. destruct s as [|d s]; [cbn in H; lia|].
  cbn in H. rewrite string_app_cons. unfold startswith. cbn [String.prefix]. destruct (ascii_dec c d); [|done]. apply IH. lia.
Qed.
Lemma startswith_length p s : startswith p s = true -> (String.length p <= String.length s)%nat.
Proof. intros [t ->]%startswith_spec. rewrite string_length_app. lia. Qed.

Lemma find_inside p s i : find p s = Some i -> (i + String.length p <= String.length s)%nat.
Proof.
  revert i. induction s as [|c s IH]; intros i; cbn [find].
  - destruct (startswith p "") eqn:E; [|done]. intros [= <-]. by apply startswith_length in E.
  - destruct (startswith p (String c s)) eqn:E; [intros [= <-]; by apply startswith_length in E|].
    intros (j & Hj & ->)%fmap_Some. apply IH in Hj. cbn. lia.
Qed.
(** What is found stays the first however the text goes on. *)
Lemma find_app p s t i : find p s = Some i -> find p (s +:+ t) = Some i.
Proof.
  revert i. induction s as [|c s IH]; intros i.
  - cbn [find]. destruct (startswith p "") eqn:E; [|done]. intros [= <-]. apply (startswith_app _ _ t) in E.
    change ("" +:+ t) with t in *. destruct t; cbn [find]; by rewrite E.
  - intros H. pose proof (find_inside _ _ _ H) as Hi. rewrite string_app_cons. cbn [find] in *.
    rewrite <- string_app_cons, startswith_short by (cbn [String.length] in *; lia).
    destruct (startswith p (String c s)); [done|]. apply fmap_Some in H as (j & Hj & ->). by rewrite (IH j Hj).
Qed.
Lemma contains_find p s : contains p s = true <-> is_Some (find p s).
Proof.
  induction s as [|c s IH]; cbn [contains find].
  - destruct (startswith p ""); cbn; split; first [done|by intros [? ?]|by eexists].
  - destruct (startswith p (String c s)); cbn [orb]; [split; [by eexists|done]|]. by rewrite IH, fmap_is_Some.
Qed.

(** A text without the first character of the separator is skipped. *)
Definition free (d : ascii) (s : string) : bool := sforall (fun c => negb (Ascii.eqb c d)) s.
Lemma find_skip d p l t : free d l = true -> find (String d p) (l +:+ t) = Nat.add (String.length l) <$> find (String d p) t.
Proof.
  intros H. induction l as [|c l IH]; [cbn; change ("" +:+ t) with t; by destruct (find (String d p) t)|]. unfold free in *. cbn [sforall] in H.
  apply andb_true_iff in H as [Hc%negb_true_iff H]. rewrite string_app_cons. cbn [find]. rewrite (IH H).
  assert (startswith (String d p) (String c (l +:+ t)) = false) as ->.
  { unfold startswith. cbn [String.prefix]. destruct (ascii_dec d c) as [->|]; [by rewrite Ascii.eqb_refl in Hc|done]. }
  by destruct (find (String d p) t).
Qed.
Lemma startswith_cons d p c s : startswith (String d p) (String c s) = Ascii.eqb d c && startswith p s.
Proof.
  unfold startswith. cbn [String.prefix]. destruct (ascii_dec d c) as [->|H]; [by rewrite Ascii.eqb_refl|].
  apply Ascii.eqb_neq in H. by rewrite H.
Qed.
Lemma find_here p t : find p (p +:+ t) = Some O.
Proof.
  assert (startswith p (p +:+ t) = true) as E by (apply startswith_spec; eauto). by destruct (p +:+ t); cbn [find]; rewrite E.
Qed.
Lemma partition_free d p l t : free d l = true -> partition (String d p) (l +:+ String d p +:+ t) = (l, Some t).
Proof.
  intros H. unfold partition. rewrite find_skip, find_here by done. cbn [fmap option_fmap option_map].
  rewrite Nat.add_0_r, take_str_app, <- string_app_assoc, <- string_length_app, drop_str_app. done.
Qed.

(** ** A response

    Header lines in front of and behind its [Content-Length], and a body. *)
Record Response : Type := mkResponse {
  r_status : Z; r_reason : string; r_before : list string; r_name : string; r_after : list string; r_body : string
}.
Definition CR : ascii := "013".
Definition plain_header (l : string) : bool := negb (l =s? "") && free CR l && negb (startswith "content-length:" (lower l)).
Definition response_ok (r : Response) : bool :=
  (0 <=? r_status r) && free CR (r_reason r) && forallb plain_header (r_before r ++ r_after r) && (lower (r_name r) =s? "content-length").

Definition length_line (r : Response) : string := r_name r +:+ ": " +:+ str_z (Z.of_nat (String.length (r_body r))).
Definition status_line (r : Response) : string := "HTTP/1.1 " +:+ str_z (r_status r) +:+ " " +:+ r_reason r.
Definition header_lines (r : Response) : list string := r_before r ++ length_line r :: r_after r.
Definition crlf_lines (ls : list string) : string := foldr (fun l t => l +:+ CRLF +:+ t) "" ls.
Definition head_text (r : Response) : string := crlf_lines (status_line r :: header_lines r) +:+ CRLF.
Definition response_text (r : Response) : string := head_text r +:+ r_body r.
Definition texts (rs : list Response) : string := foldr (fun r t => response_text r +:+ t) "" rs.

Lemma str_z_digits n : 0 <= n -> exists c t, str_z n = String c t /\ sforall is_digit (String c t) = true /\ digits (String c t) = n.
Proof.
  intros H. destruct n as [|p|p]; [by exists "0"%char, ""| |lia].
  destruct (pretty_N_go_digits (N.pos p) ltac:(lia) "") as (c & t & E & _ & Hf & Hv). exists c, t.
  rewrite string_app_nil_r in E. split; [exact E|]. split; [done|]. unfold digits. by rewrite Hv, Z.mul_0_l.
Qed.
Lemma digit_hex c : is_digit c = true -> hex_val c = Some (digit_val c) /\ (digit_val c <? 10) = true
  /\ forall d, is_digit d = false -> Ascii.eqb c d = false.
Proof.
  intros H. assert (forall d, is_digit d = false -> Ascii.eqb c d = false) as Hd.
  { intros d Hd. apply Ascii.eqb_neq. intros ->. by rewrite H in Hd. }
  split; [|split; [|exact Hd]]; clear Hd; revert H; by destruct c as [[] [] [] [] [] [] [] []].
Qed.
Lemma int_digits_all s : sforall is_digit s = true -> forall acc prev, prev || negb (s =s? "") = true ->
  int_digits 10 s acc prev = Some (digits_aux s acc).
Proof.
  induction s as [|c s IH]; cbn [sforall int_digits digits_aux]; intros H acc prev Hp.
  - by destruct prev.
  - apply andb_true_iff in H as [Hc H]. destruct (digit_hex c Hc) as (Hv & Hlt & Hd). rewrite (Hd "_"%char eq_refl), Hv, Hlt. by apply IH.
Qed.
Lemma int_decimal_str n : 0 <= n -> forall pad, pad = "" \/ pad = " " -> int_decimal (pad +:+ str_z n) = Ret n.
Proof.
  intros H pad Hpad. destruct (str_z_digits n H) as (c & t & -> & Hd & Hn). unfold int_decimal.
  assert (sforall (fun c => negb (is_byte_space c)) (String c t) = true) as Hs.
  { revert Hd. apply sforall_impl. intros a. by destruct a as [[] [] [] [] [] [] [] []]. }
  assert (strip_by is_byte_space (pad +:+ String c t) = String c t) as ->.
  { pose proof Hs as Hc. cbn [sforall] in Hc. apply andb_true_iff in Hc as [Hc%negb_true_iff _]. unfold strip_by.
    assert (lstrip_by is_byte_space (pad +:+ String c t) = String c t) as ->
      by (destruct Hpad as [-> | ->]; change (lstrip_by is_byte_space (String c t) = String c t); by apply lstrip_by_id).
    by apply rstrip_none. }
  pose proof Hd as Hc. cbn [sforall] in Hc. apply andb_true_iff in Hc as [Hc _]. destruct (digit_hex c Hc) as (_ & _ & Hne).
  rewrite (Hne "-"%char eq_refl), (Hne "+"%char eq_refl), int_digits_all by done. by rewrite <- Hn.
Qed.

Lemma free_digits d s : is_digit d = false -> sforall is_digit s = true -> free d s = true.
Proof. intros Hd. apply sforall_impl. intros c Hc. destruct (digit_hex c Hc) as (_ & _ & Hne). by rewrite (Hne d Hd). Qed.
Lemma free_str_z d n : is_digit d = false -> 0 <= n -> free d (str_z n) = true.
Proof. intros Hd Hn. destruct (str_z_digits n Hn) as (c & t & -> & Hs & _). by apply free_digits. Qed.
Lemma lower_app a b : lower (a +:+ b) = lower a +:+ lower b.
Proof. induction a as [|c a IH]; [done|]. rewrite !string_app_cons. unfold lower in *. cbn [smap]. by rewrite IH, string_app_cons. Qed.
Lemma lower_free d s : lower_char d = d -> free d (lower s) = true -> free d s = true.
Proof.
  intros Hd. unfold free, lower. induction s as [|c s IH]; [done|]. cbn [smap sforall]. intros [Hc H]%andb_true_iff.
  rewrite (IH H), andb_true_r. apply negb_true_iff, Ascii.eqb_neq. intros ->. by rewrite Hd, Ascii.eqb_refl in Hc.
Qed.

(** ** What the client parses of a head *)

Lemma find_step p c s : find p (String c s) = if startswith p (String c s) then Some O else S <$> find p s.
Proof. done. Qed.
(** The end of a line in front of another one is not the end of the head. *)
Lemma find_past_crlf c x : Ascii.eqb c CR = false -> find CRLF2 (CRLF +:+ String c x) = Nat.add 2 <$> find CRLF2 (String c x).
Proof.
  intros Hc%Ascii.eqb_neq. change (CRLF +:+ String c x) with (String CR (String NL (String c x))).
  rewrite (find_step _ CR), (find_step _ NL).
  assert (startswith CRLF2 (String CR (String NL (String c x))) = false) as ->.
  { change (startswith (String CR nl) (String c x) = false). rewrite startswith_cons.
    by assert (Ascii.eqb CR c = false) as -> by (apply Ascii.eqb_neq; congruence). }
  change (startswith CRLF2 (String NL (String c x))) with false. cbn iota. by destruct (find CRLF2 (String c x)).
Qed.

Definition line_ok (l : string) : bool := negb (l =s? "") && free CR l.
Lemma crlf_lines_find ls rest : ls <> [] -> forallb line_ok ls = true -> exists n,
  find CRLF2 (crlf_lines ls +:+ CRLF +:+ rest) = Some n /\ (n + 4 = String.length (crlf_lines ls +:+ CRLF))%nat.
Proof.
  intros Hne H. induction ls as [|l ls IH]; [done|]. cbn [forallb] in H. apply andb_true_iff in H as [Hl H].
  apply andb_true_iff in Hl as [_ Hl]. cbn [crlf_lines foldr]. fold (crlf_lines ls). rewrite !string_app_assoc.
  change CRLF2 with (String CR (nl +:+ CRLF)) at 1. rewrite find_skip by done. change (String CR (nl +:+ CRLF)) with CRLF2.
  destruct ls as [|l2 ls].
  - cbn [crlf_lines foldr]. change ("" +:+ CRLF) with CRLF. change ("" +:+ CRLF +:+ rest) with (CRLF +:+ rest).
    rewrite <- (string_app_assoc CRLF CRLF). change (CRLF +:+ CRLF) with CRLF2.
    rewrite find_here, !string_length_app. exists (String.length l). split; [cbn; by rewrite Nat.add_0_r|].
    change (String.length CRLF2) with 4%nat. lia.
  - destruct (IH ltac:(done) H) as (n & Hn & Hlen). clear IH. cbn [forallb] in H. apply andb_true_iff in H as [H2 _].
    destruct l2 as [|c l2]; [done|]. cbn in H2. apply andb_true_iff in H2 as [H2%negb_true_iff _].
    cbn [crlf_lines foldr] in *. fold (crlf_lines ls) in *. rewrite !string_app_assoc in *. rewrite !string_app_cons in *.
    rewrite find_past_crlf by done. rewrite Hn. cbn [fmap option_fmap option_map]. exists (String.length l + (2 + n))%nat.
    split; [done|]. rewrite (string_length_app l), (string_length_app CRLF). rewrite <- Hlen. cbn. lia.
Qed.

Lemma split_crlf ls : forallb line_ok ls = true -> forall fuel, (length ls + 2 <= fuel)%nat ->
  split_str_fuel fuel CRLF (crlf_lines ls +:+ CRLF) = ls ++ [""; ""].
Proof.
  induction ls as [|l ls IH]; intros H fuel Hf.
  - destruct fuel as [|[|fuel]]; [cbn in Hf; lia..|]. done.
  - destruct fuel as [|fuel]; [cbn in Hf; lia|]. cbn [forallb] in H. apply andb_true_iff in H as [Hl H].
    apply andb_true_iff in Hl as [_ Hl]. cbn [crlf_lines foldr]. fold (crlf_lines ls). rewrite !string_app_assoc. cbn [split_str_fuel].
    change CRLF with (String CR nl) at 1 2. rewrite partition_free by done. cbn [app]. f_equal. apply IH; [done|]. cbn in Hf. lia.
Qed.
Lemma crlf_lines_length ls : (2 * length ls <= String.length (crlf_lines ls))%nat.
Proof. induction ls as [|l ls IH]; [cbn; lia|]. cbn [crlf_lines foldr]. fold (crlf_lines ls). rewrite !string_length_app. cbn. lia. Qed.

Lemma response_parts r : response_ok r = true -> 0 <= r_status r /\ free CR (r_reason r) = true
  /\ forallb plain_header (r_before r) = true /\ forallb plain_header (r_after r) = true /\ lower (r_name r) = "content-length".
Proof.
  unfold response_ok. rewrite forallb_app, !andb_true_iff, Z.leb_le, seqb_true. tauto.
Qed.
Lemma free_app d a b : free d (a +:+ b) = free d a && free d b.
Proof. apply sforall_app. Qed.
Lemma name_free r d : response_ok r = true -> lower_char d = d -> free d "content-length" = true -> free d (r_name r) = true.
Proof. intros H%response_parts Hd Hf. apply lower_free; [done|]. destruct H as (_ & _ & _ & _ & ->). done. Qed.

Lemma lines_ok r : response_ok r = true -> forallb line_ok (status_line r :: header_lines r) = true.
Proof.
  intros H. pose proof (response_parts r H) as (Hs & Hr & Hb & Ha & Hn).
  assert (forall l, forallb plain_header l = true -> forallb line_ok l = true) as Hp.
  { induction l as [|x l IH]; [done|]. cbn [forallb]. unfold plain_header at 1, line_ok at 1. rewrite !andb_true_iff. tauto. }
  cbn [forallb]. unfold header_lines. rewrite forallb_app. cbn [forallb]. rewrite !Hp by done. rewrite andb_true_r.
  cbn [andb]. apply andb_true_iff. split; apply andb_true_iff; split.
  - done.
  - unfold status_line. rewrite !free_app, Hr, free_str_z by done. done.
  - apply negb_true_iff, seqb_false. unfold length_line. by destruct (r_name r).
  - unfold length_line. rewrite !free_app, name_free, free_str_z by (done || lia). done.
Qed.

Lemma status_of_head r : response_ok r = true -> status_of (head_text r) = Ret (r_status r).
Proof.
  intros H%response_parts. destruct H as (Hs & _). unfold status_of, head_text, status_line. cbn [crlf_lines foldr].
  rewrite !string_app_assoc. change ("HTTP/1.1 " +:+ ?x) with ("HTTP/1.1" +:+ String " " x).
  rewrite split_line by done. change (" " +:+ ?x) with (String " " x).
  rewrite split_line by (by apply (free_str_z " ")). exact (int_decimal_str _ Hs "" (or_introl eq_refl)).
Qed.

Lemma plain_lines ls n : forallb plain_header ls = true -> for_result ls n (fun clen line =>
  if startswith "content-length:" (lower line) then int_decimal (after ":" line) else Ret clen) = Ret n.
Proof.
  induction ls as [|l ls IH]; [done|]. cbn [forallb for_result]. unfold plain_header at 1. rewrite !andb_true_iff.
  intros ((_ & ->%negb_true_iff) & H). by apply IH.
Qed.
Lemma content_length_head r : response_ok r = true ->
  content_length (drop 1 (split_str CRLF (head_text r))) = Ret (Z.of_nat (String.length (r_body r))).
Proof.
  intros H. pose proof (lines_ok r H) as Hl. pose proof (response_parts r H) as (_ & _ & Hb & Ha & Hn).
  unfold split_str, head_text. rewrite split_crlf; [|done|].
  2: { pose proof (crlf_lines_length (status_line r :: header_lines r)) as Hc. rewrite string_length_app. cbn in Hc |- *. lia. }
  change (drop 1 ((status_line r :: header_lines r) ++ [""; ""])) with (header_lines r ++ [""; ""]).
  unfold header_lines, content_length. rewrite <- app_assoc, for_result_app, (plain_lines _ _ Hb).
  cbn [mbind result_bind app for_result].
  assert (startswith "content-length:" (lower (length_line r)) = true) as ->.
  { unfold length_line. rewrite !lower_app, Hn. apply startswith_spec. by eexists (" " +:+ lower _). }
  assert (after ":" (length_line r) = " " +:+ str_z (Z.of_nat (String.length (r_body r)))) as ->.
  { unfold after, length_line. change (": " +:+ ?x) with (String ":" "" +:+ " " +:+ x).
    rewrite partition_free by (by apply name_free). done. }
  rewrite int_decimal_str by (lia || by right). cbn [mbind result_bind]. rewrite for_result_app, (plain_lines _ _ Ha). done.
Qed.

Lemma find_head r rest : response_ok r = true -> exists n,
  find CRLF2 (head_text r +:+ rest) = Some n /\ (n + 4 = String.length (head_text r))%nat.
Proof. intros H. unfold head_text. rewrite string_app_assoc. apply crlf_lines_find; [done|by apply lines_ok]. Qed.

(** Whatever part of a response has the end of a head in it has the whole head. *)
Lemma head_complete r rest buf data : response_ok r = true -> buf +:+ data = head_text r +:+ rest ->
  contains CRLF2 buf = true -> exists more, buf = head_text r +:+ more /\ rest = more +:+ data
  /\ (default 0 (find CRLF2 buf) + 4 = String.length (head_text r))%nat.
Proof.
  intros H E [n Hn]%contains_find. destruct (find_head r rest H) as (m & Hm & Hlen).
  pose proof (find_app _ _ data _ Hn) as Hb. rewrite E, Hm in Hb. injection Hb as ->.
  pose proof (find_inside _ _ _ Hn) as Hi. change (String.length CRLF2) with 4%nat in Hi.
  destruct (string_app_inv _ _ _ _ E ltac:(lia)) as (more & -> & ->). exists more. rewrite Hn. done.
Qed.

(** ** What a socket delivers *)

Section delivery.
Context {W : Type} `{HT : Tcp W}.

(** From the first world to the second the socket yields exactly the text, in
    whatever pieces. *)
Inductive delivers : string -> W -> W -> Prop :=
| delivers_none w : delivers "" w w
| delivers_chunk chunk t w w1 w2 : chunk <> "" -> tcp_recv w = (Some chunk, w1) -> delivers t w1 w2 -> delivers (chunk +:+ t) w w2.

Lemma delivers_inv data w w2 : delivers data w w2 -> (data = "" /\ w2 = w)
  \/ exists chunk t w1, chunk <> "" /\ data = chunk +:+ t /\ tcp_recv w = (Some chunk, w1) /\ delivers t w1 w2.
Proof. intros [|chunk t ? w1 ? Hc Hr Hd]; [by left|right; eauto 10]. Qed.
Lemma delivers_nothing w w2 : delivers "" w w2 -> w2 = w.
Proof. intros [[_ ?]|(chunk & t & ? & Hc & E & _)]%delivers_inv; [done|]. by destruct chunk. Qed.
Lemma chunk_length chunk t : chunk <> "" -> (String.length t < String.length (chunk +:+ t))%nat.
Proof. rewrite string_length_app. destruct chunk; [done|]. cbn. lia. Qed.

(** Reading stops at a point where the buffer is enough, with nothing lost. *)
Lemma read_until_delivered enough msg fuel : forall buf data w w2, delivers data w w2 -> (String.length data <= fuel)%nat ->
  enough (buf +:+ data) = true -> exists buf' data' w', read_until fuel enough msg buf w = (Ret buf', w')
  /\ enough buf' = true /\ buf' +:+ data' = buf +:+ data /\ delivers data' w' w2 /\ (String.length data' <= String.length data)%nat.
Proof.
  induction fuel as [|fuel IH]; intros buf data w w2 Hd Hf He; cbn [read_until].
  - destruct data; [|cbn in Hf; lia]. rewrite string_app_nil_r in *. rewrite He. exists buf, "", w. rewrite string_app_nil_r. done.
  - destruct (enough buf) eqn:Eb; [by exists buf, data, w|].
    destruct (delivers_inv _ _ _ Hd) as [[-> ->]|(chunk & t & w1 & Hc & -> & Hr & Ht)]; [by rewrite string_app_nil_r, Eb in He|].
    unfold mbind, run_bind, recv. rewrite Hr. rewrite (proj2 (seqb_false chunk "") Hc). pose proof (chunk_length chunk t Hc) as Hl.
    rewrite <- string_app_assoc in He. destruct (IH (buf +:+ chunk) t w1 w2 Ht ltac:(lia) He) as (buf' & data' & w' & E & He' & Ha & Hd' & Hl').
    exists buf', data', w'. rewrite Ha, string_app_assoc. split; [exact E|]. split; [done|]. split; [done|]. split; [done|]. lia.
Qed.
(** A connection that closes before the buffer is enough is an error. *)
Lemma read_until_closed enough msg fuel : forall buf data w w2 w3, delivers data w w2 -> tcp_recv w2 = (Some "", w3) ->
  (String.length data < fuel)%nat -> (forall a b, a +:+ b = buf +:+ data -> enough a = false) ->
  read_until fuel enough msg buf w = (Raise (RuntimeError msg), w3).
Proof.
  induction fuel as [|fuel IH]; intros buf data w w2 w3 Hd Hend Hf He; [lia|]. cbn [read_until]. rewrite (He buf data eq_refl).
  unfold mbind, run_bind, recv. destruct (delivers_inv _ _ _ Hd) as [[-> ->]|(chunk & t & w1 & Hc & -> & Hr & Ht)].
  - by rewrite Hend.
  - rewrite Hr, (proj2 (seqb_false chunk "") Hc). pose proof (chunk_length chunk t Hc) as Hl. apply (IH _ t _ w2); [done|done|lia|].
    intros a b E. apply (He a b). by rewrite E, string_app_assoc.
Qed.
End delivery.

(** ** The client against what is delivered *)

Lemma index_of_nat s n : index_of s (Z.of_nat n) = n.
Proof. unfold index_of. destruct (Z.of_nat n <? 0) eqn:E; [apply Z.ltb_lt in E; lia|]. apply Nat2Z.id. Qed.
Lemma drop_length_app a b n : String.length a = n -> drop_str n (a +:+ b) = b.
Proof. intros <-. apply drop_str_app. Qed.
Lemma take_length_app a b n : String.length a = n -> take_str n (a +:+ b) = a.
Proof. intros <-. apply take_str_app. Qed.

Section client.
Context {W : Type} `{HT : Tcp W}.

(** The part of a response's body that comes behind the head: none for [HEAD]. *)
Definition payload (head : bool) (r : Response) : string := if head then "" else r_body r.

(** One response is read off as it was written, whatever was left over and
    however the rest arrives; what is left over and what still arrives is what
    follows it. *)
Lemma read_response_exact fuel head r rest buf data (w w2 : W) : response_ok r = true -> delivers data w w2 ->
  (String.length data <= fuel)%nat -> buf +:+ data = head_text r +:+ payload head r +:+ rest -> exists buf' data' w',
  read_response fuel head buf w = (Ret (r_status r, payload head r, buf'), w')
  /\ buf' +:+ data' = rest /\ delivers data' w' w2 /\ (String.length data' <= String.length data)%nat.
Proof.
  intros H Hd Hf E. set (rest' := payload head r +:+ rest) in E.
  assert (contains CRLF2 (buf +:+ data) = true) as Hc.
  { rewrite E. apply contains_find. destruct (find_head r rest' H) as (n & Hn & _). by exists n. }
  destruct (read_until_delivered (contains CRLF2) NO_HEADERS fuel buf data w w2 Hd Hf Hc) as (b1 & d1 & w1 & E1 & Hc1 & Ha1 & Hd1 & Hl1).
  rewrite E in Ha1. destruct (head_complete r rest' b1 d1 H Ha1 Hc1) as (more & -> & Erest & Hend).
  unfold read_response. unfold mbind at 1, run_bind at 1. rewrite E1, Hend, take_str_app. cbn zeta.
  rewrite (status_of_head r H), (content_length_head r H). unfold mbind at 1 2, run_bind at 1 2, lift.
  set (n := if head then 0 else Z.of_nat (String.length (r_body r))).
  assert (n = Z.of_nat (String.length (payload head r))) as -> by (by destruct head).
  rewrite <- Nat2Z.inj_add. set (stop := (String.length (head_text r) + String.length (payload head r))%nat).
  assert (holds (Z.of_nat stop) ((head_text r +:+ more) +:+ d1) = true) as Hs.
  { rewrite Ha1. unfold holds, stop, rest'. rewrite !string_length_app. apply Z.leb_le. lia. }
  destruct (read_until_delivered (holds (Z.of_nat stop)) NO_BODY fuel _ d1 w1 w2 Hd1 ltac:(lia) Hs) as (b2 & d2 & w2' & E2 & Hs2 & Ha2 & Hd2 & Hl2).
  rewrite Ha1 in Ha2. unfold rest' in Ha2. rewrite <- string_app_assoc in Ha2. apply Z.leb_le in Hs2.
  assert (String.length (head_text r +:+ payload head r) = stop) as Hstop by apply string_length_app.
  destruct (string_app_inv _ _ _ _ Ha2 ltac:(lia)) as (left & -> & ->).
  exists left, d2, w2'. split; [|split; [done|split; [done|lia]]].
  unfold mbind, run_bind. rewrite E2. unfold mret, run_ret. do 3 f_equal.
  - f_equal. unfold slice_z, slice. rewrite !index_of_nat, string_app_assoc, drop_str_app. apply take_length_app. lia.
  - unfold from_z. rewrite index_of_nat. by apply drop_length_app.
Qed.

(** A response that is cut short anywhere is an error, never an answer. *)
Theorem truncation_detected fuel r missing data (w w2 w3 : W) : response_ok r = true ->
  response_text r = data +:+ missing -> missing <> "" -> delivers data w w2 -> tcp_recv w2 = (Some "", w3) ->
  (String.length data < fuel)%nat -> exists msg, (msg = NO_HEADERS \/ msg = NO_BODY)
  /\ read_response fuel false "" w = (Raise (RuntimeError msg), w3).
Proof.
  intros H E Hm Hd Hend Hf. unfold response_text in E. destruct (find_head r (r_body r) H) as (n & Hn & Hlen).
  destruct (contains CRLF2 data) eqn:Hc.
  - exists NO_BODY. split; [by right|].
    destruct (read_until_delivered (contains CRLF2) NO_HEADERS fuel "" data w w2 Hd ltac:(lia) Hc) as (b1 & d1 & w1 & E1 & Hc1 & Ha1 & Hd1 & Hl1).
    change ("" +:+ data) with data in Ha1. assert (b1 +:+ (d1 +:+ missing) = head_text r +:+ r_body r) as Eb
      by (rewrite <- string_app_assoc, Ha1; done).
    destruct (head_complete r _ b1 _ H Eb Hc1) as (more & -> & Erest & Hend1).
    unfold read_response. unfold mbind at 1, run_bind at 1. rewrite E1, Hend1, take_str_app. cbn zeta.
    rewrite (status_of_head r H), (content_length_head r H). unfold mbind at 1 2, run_bind at 1 2, lift.
    unfold mbind, run_bind. rewrite (read_until_closed _ NO_BODY fuel _ d1 w1 w2 w3); [done|done|done|lia|].
    intros a b Eab. apply Z.leb_gt. assert (String.length (a +:+ b) = String.length ((head_text r +:+ more) +:+ d1)) as El by (by rewrite Eab).
    rewrite !string_length_app in El. rewrite Erest, !string_length_app.
    assert (0 < String.length missing)%nat by (destruct missing; [done|cbn; lia]). lia.
  - exists NO_HEADERS. split; [by left|]. unfold read_response, mbind, run_bind.
    rewrite (read_until_closed _ NO_HEADERS fuel "" data w w2 w3); [done|done|done|lia|].
    intros a b Eab. change ("" +:+ data) with data in Eab. destruct (contains CRLF2 a) eqn:Ea; [|done].
    apply contains_find in Ea as [i Hi]. apply (find_app _ _ b) in Hi. rewrite Eab in Hi.
    assert (contains CRLF2 data = true) by (apply contains_find; eauto). congruence.
Qed.

Definition answers (paths : list string) (rs : list Response) : list (string * Z * string) :=
  zip_with (fun path r => (path, r_status r, r_body r)) paths rs.

Lemma pipelined_loop_exact fuel paths : forall rs buf data out (w w2 : W), Forall (fun r => response_ok r = true) rs ->
  length rs = length paths -> delivers data w w2 -> (String.length data <= fuel)%nat -> buf +:+ data = texts rs ->
  pipelined_loop fuel paths buf out w = (Ret (out ++ answers paths rs), w2).
Proof.
  induction paths as [|path paths IH]; intros [|r rs] buf data out w w2 H Hlen Hd Hf E; try done.
  - cbn [pipelined_loop]. unfold answers. cbn [zip_with]. rewrite app_nil_r.
    destruct buf; [|done]. cbn in E. change ("" +:+ data) with data in E. subst data. by rewrite (delivers_nothing _ _ Hd).
  - apply list.Forall_cons in H as [Hr H]. cbn [texts foldr] in E. fold (texts rs) in E. unfold response_text in E. rewrite string_app_assoc in E.
    destruct (read_response_exact fuel false r (texts rs) buf data w w2 Hr Hd Hf E) as (b' & d' & w' & E1 & Eb & Hd' & Hl).
    cbn [pipelined_loop]. unfold mbind at 1, run_bind at 1. rewrite E1. cbn in Hlen.
    rewrite (IH rs b' d' _ w' w2 H ltac:(lia) Hd' ltac:(lia) Eb). unfold answers. cbn [zip_with]. by rewrite <- app_assoc.
Qed.

(** Requests sent in one write are answered in order, and each answer is the
    response's own status and body, however the socket cuts the responses into
    pieces; the connection is closed. *)
Theorem pipelined_in_order fuel port paths rs (w w1 w2 w3 : W) : Forall (fun r => response_ok r = true) rs ->
  length rs = length paths -> tcp_connect port w = (true, w1) -> tcp_sendall (pipeline paths) w1 = (true, w2) ->
  delivers (texts rs) w2 w3 -> (String.length (texts rs) <= fuel)%nat ->
  http1_pipelined fuel port paths w = (Ret (answers paths rs), tcp_close w3).
Proof.
  intros H Hlen Hc Hs Hd Hf. unfold http1_pipelined, with_socket, http1_connect. rewrite Hc.
  unfold mbind, run_bind, sendall. rewrite Hs. by rewrite (pipelined_loop_exact fuel paths rs "" (texts rs) [] w2 w3).
Qed.

(** A server that answers each request when it has it. *)
Inductive converses : list (string * Response) -> W -> W -> Prop :=
| converses_done w : converses [] w w
| converses_turn request r l w w1 w2 w3 : tcp_sendall request w = (true, w1) -> delivers (response_text r) w1 w2 ->
    converses l w2 w3 -> converses ((request, r) :: l) w w3.

Definition keepalive_requests (n i : nat) (paths : list string) : list string :=
  imap (fun j p => request_bytes p "GET" (S (i + j) =? n)%nat []) paths.

Lemma keepalive_loop_exact fuel n paths : forall i rs out (w w2 : W), Forall (fun r => response_ok r = true) rs ->
  length rs = length paths -> converses (zip (keepalive_requests n i paths) rs) w w2 ->
  Forall (fun r => (String.length (response_text r) <= fuel)%nat) rs ->
  keepalive_loop fuel n i paths "" out w = (Ret (out ++ answers paths rs), w2).
Proof.
  induction paths as [|path paths IH]; intros i [|r rs] out w w2 H Hlen Hd Hf; try done.
  - inversion Hd; subst. cbn [keepalive_loop]. unfold answers. cbn [zip_with]. by rewrite app_nil_r.
  - apply list.Forall_cons in H as [Hr H]. apply list.Forall_cons in Hf as [Hfr Hf].
    unfold keepalive_requests in Hd. rewrite imap_cons in Hd. cbn [zip_with] in Hd. inversion Hd as [|req r' l w' w1 w3 w4 Hs Hdel Hc]; subst.
    rewrite Nat.add_0_r in Hs. assert (tcp_sendall (request_bytes path "GET" (S i =? n)%nat []) w = (true, w1)) as Hs' by exact Hs.
    destruct (read_response_exact fuel false r "" "" (response_text r) w1 w3 Hr Hdel Hfr) as (b' & d' & w' & E1 & Eb & Hd' & Hl).
    { unfold response_text. by rewrite string_app_nil_r. }
    destruct b'; [|done]. change ("" +:+ d') with d' in Eb. subst d'. apply delivers_nothing in Hd' as ->.
    cbn [keepalive_loop]. unfold mbind, run_bind, sendall. rewrite Hs', E1. cbn in Hlen.
    rewrite (IH (S i) rs _ w' w2 H ltac:(lia)); [|unfold keepalive_requests; erewrite imap_ext; [exact Hc|]|done].
    + unfold answers. cbn [zip_with]. by rewrite <- app_assoc.
    + intros j p _. cbn. by rewrite Nat.add_succ_r.
Qed.

(** Requests down one connection, one at a time: the same answers. *)
Theorem keepalive_in_order fuel port paths rs (w w1 w2 : W) : Forall (fun r => response_ok r = true) rs ->
  length rs = length paths -> tcp_connect port w = (true, w1) ->
  converses (zip (keepalive_requests (length paths) 0 paths) rs) w1 w2 ->
  Forall (fun r => (String.length (response_text r) <= fuel)%nat) rs ->
  http1_keepalive fuel port paths w = (Ret (answers paths rs), tcp_close w2).
Proof.
  intros H Hlen Hc Hd Hf. unfold http1_keepalive, with_socket, http1_connect. rewrite Hc.
  by rewrite (keepalive_loop_exact fuel _ paths 0 rs [] w1 w2).
Qed.

(** A fetch: the status, and the body unless only the head was asked for. *)
Theorem fetch_exact fuel port path method extra r (w w1 w2 w3 : W) : response_ok r = true ->
  tcp_connect port w = (true, w1) -> tcp_sendall (request_bytes path method true extra) w1 = (true, w2) ->
  let text := head_text r +:+ payload (method =s? "HEAD") r in delivers text w2 w3 -> (String.length text <= fuel)%nat ->
  http1_fetch fuel port path method extra w = (Ret (r_status r, payload (method =s? "HEAD") r), tcp_close w3).
Proof.
  intros H Hc Hs text Hd Hf. unfold http1_fetch, with_socket, http1_connect. rewrite Hc. unfold mbind, run_bind, sendall. rewrite Hs.
  destruct (read_response_exact fuel (method =s? "HEAD") r "" "" text w2 w3 H Hd Hf) as (b & d & w' & -> & Eb & Hd' & _).
  { unfold text. by rewrite string_app_nil_r. }
  destruct b; [|done]. change ("" +:+ d) with d in Eb. subst d. by rewrite (delivers_nothing _ _ Hd').
Qed.
End client.

(** ** Requests in pieces, and the comparison *)

(** The pieces of a trickled request are the request. *)
Lemma pieces_join size : (0 < size)%nat -> forall fuel raw, (String.length raw <= fuel)%nat -> join "" (pieces fuel size raw) = raw.
Proof.
  intros Hs. induction fuel as [|fuel IH]; intros raw Hf; [by destruct raw; [|cbn in Hf; lia]|].
  destruct raw as [|c raw]; [done|]. destruct size as [|size]; [lia|]. cbn [pieces].
  assert (String.length (drop_str (S size) (String c raw)) <= fuel)%nat as Hl.
  { cbn [drop_str]. assert (forall n s, (String.length (drop_str n s) <= String.length s)%nat) as Hd.
    { induction n as [|n IHn]; intros [|x s]; cbn; try lia. specialize (IHn s). lia. }
    specialize (Hd size raw). cbn in Hf. lia. }
  assert (forall x l, join "" (x :: l) = x +:+ join "" l) as Hj.
  { intros x [|y l]; [cbn; by rewrite string_app_nil_r|]. by rewrite join_cons. }
  rewrite Hj, (IH _ Hl). apply take_drop_str.
Qed.
Theorem split_pieces_join path : join "" (split_pieces path) = request_bytes path "GET" true [].
Proof. apply pieces_join; lia. Qed.

(** A list of answers is silent exactly when each of them is a 200 with the
    reference's body for its path; while there is room, anything else leaves a
    message. *)
Lemma fails_add_grows items msg : (length items < 20)%nat -> fails_add items msg = items ++ [msg].
Proof. intros H. unfold fails_add. by rewrite (proj2 (Nat.ltb_lt _ _) H). Qed.
Lemma check_body_cases items kind path s body ref items' : check_body items kind path (Some s) body ref = Ret items' ->
  (items' = items /\ s = 200 /\ dict_get ref path = Some body)
  \/ ((s <> 200 \/ exists want, dict_get ref path = Some want /\ want <> body) /\ exists msg, items' = fails_add items msg).
Proof.
  unfold check_body. destruct (s =? 200) eqn:Es; [apply Z.eqb_eq in Es as ->|apply Z.eqb_neq in Es].
  2: { intros [= <-]. right. split; [by left|by eexists]. }
  destruct (dict_get ref path) as [want|]; [|done]. destruct (body =s? want) eqn:Eb.
  - apply seqb_true in Eb as ->. intros [= <-]. by left.
  - apply seqb_false in Eb. intros H. right. split; [right; exists want; split; [done|congruence]|].
    destruct (String.length body =? String.length want)%nat; injection H as <-; by eexists.
Qed.
Lemma check_body_same items kind path body ref : dict_get ref path = Some body -> check_body items kind path (Some 200) body ref = Ret items.
Proof. intros H. unfold check_body. change (200 =? 200) with true. cbn iota. by rewrite H, seqb_refl. Qed.
Lemma fails_add_length items msg : (length items <= length (fails_add items msg))%nat.
Proof. unfold fails_add. destruct (_ <? _)%nat; rewrite ?length_app; cbn; lia. Qed.
Lemma check_all_grows kind ref l : forall items items', check_all items kind l ref = Ret items' -> (length items <= length items')%nat.
Proof.
  unfold check_all. induction l as [|[[p s] b] l IH]; cbn [for_result]; intros items items' H; [by injection H as <-|].
  apply bind_Ret_inv in H as (m & Hm & H). apply IH in H. apply check_body_cases in Hm as [(-> & _)|(_ & msg & ->)]; [done|].
  pose proof (fails_add_length items msg). lia.
Qed.
Theorem check_all_silent kind ref l items : (length items < 20)%nat ->
  check_all items kind l ref = Ret items <-> Forall (fun '(p, s, b) => s = 200 /\ dict_get ref p = Some b) l.
Proof.
  intros Hroom. induction l as [|[[p s] b] l IH]; [done|]. unfold check_all in *. cbn [for_result]. split.
  - intros (m & Hm & H)%bind_Ret_inv. pose proof (check_all_grows kind ref l m items H) as Hg.
    destruct (check_body_cases _ _ _ _ _ _ _ Hm) as [(-> & Hs & Hb)|(_ & msg & ->)].
    + apply list.Forall_cons. split; [done|]. by apply IH.
    + rewrite fails_add_grows, length_app in Hg by done. cbn in Hg. lia.
  - intros [(-> & Hb) H]%list.Forall_cons. rewrite (check_body_same _ _ _ _ _ Hb). by apply IH.
Qed.

(** ** A server of the concurrent checks, in small *)

(** What is still to arrive, in pieces, and whether the connection is open. *)
#[local] Instance toy_tcp : Tcp (list string * bool) := {
  tcp_connect _ w := (true, (w.1, true));
  tcp_sendall _ w := (true, w);
  tcp_recv w := match w.1 with [] => (Some "", w) | c :: l => (Some c, (l, w.2)) end;
  tcp_close w := (w.1, false);
  tcp_sleep w := w
}.
Fixpoint bytewise (s : string) : list string := match s with "" => [] | String c s => String c "" :: bytewise s end.
Lemma bytewise_delivers s b : delivers s (bytewise s, b) ([], b).
Proof. induction s as [|c s IH]; [constructor|]. apply (delivers_chunk (String c "") s _ (bytewise s, b)); [done|done|exact IH]. Qed.

Definition page : Response := mkResponse 200 "OK" ["Server: sarm"] "Content-Length" ["Connection: keep-alive"] "<html>".
Definition missing_page : Response := mkResponse 404 "Not Found" [] "content-length" [] "".

Example pipelined_bytewise :
  http1_pipelined 400 8080 ["/"; "/none"] (bytewise (texts [page; missing_page]), false) = (Ret [("/", 200, "<html>"); ("/none", 404, "")], ([], false)).
Proof.
  set (t := texts [page; missing_page]).
  apply (pipelined_in_order (HT := toy_tcp) 400 8080 ["/"; "/none"] [page; missing_page] (bytewise t, false) (bytewise t, true) (bytewise t, true) ([], true));
    [by repeat constructor|done|done|done| |].
  - apply bytewise_delivers.
  - vm_compute. lia.
Qed.
Example truncated_body : exists msg, read_response 400 false "" (bytewise (take_str 80 (response_text page)), true) = (Raise (RuntimeError msg), ([], true)).
Proof.
  destruct (truncation_detected 400 page (drop_str 80 (response_text page)) (take_str 80 (response_text page))
    (bytewise (take_str 80 (response_text page)), true) ([], true) ([], true)) as (msg & _ & H); [done|by rewrite take_drop_str|done| |done|vm_compute; lia|].
  - apply bytewise_delivers.
  - eauto.
Qed.
Example head_has_no_body : (http1_fetch 400 8080 "/" "HEAD" [] (bytewise (head_text page), false)).1 = Ret (200, "").
Proof. reflexivity. Qed.
