(* ===== verification/Commands.v ===== *)
(** * Command lines of the checkers (scripts/abi.py, asmparse.py, syscall_audit.py)

    What the ABI checker, the parser's self-test and the syscall audit print
    and the status they exit with, on top of [Abi], [AsmParse] and
    [SyscallAudit].  The parsed arguments, the tree of sources, and whether
    the binary exists and how it disassembles are arguments. *)

From Stdlib Require Import Ascii.
From S2P Require Import Prelude PyInt PyStr Regex AsmParse Abi RegPressure Json JsonText Reports SyscallAudit.

(** ** abi.py *)

(** [ABIWarning.render] *)
Definition render (w : ABIWarning) : string :=
  let where_ := match w_line w with
                | Some (S n) => " (line " +:+ str_nat (S n) +:+ ")"
                | _ => ""
                end in
  "  [" +:+ upper (severity w) +:+ "] " +:+ message w +:+ where_.

(** [_find_region]; [resolved] is the path of [--source] as the index has it. *)
Definition find_region (files : tree) (linux : bool) (resolved fn : string) : SourceIndex * option Region :=
  let index := index_source files linux in
  let named := default [] (dict_get (all_by_name index) fn) in
  (index, match filter (fun r => path r = resolved) named with
          | region :: _ => Some region
          | [] => head named
          end).

Definition yes_no (b : bool) : string := if b then "yes" else "no".

(** The part [--flags] adds. *)
Definition flag_lines (index : SourceIndex) (region : Region) : list string :=
  let '(instructions, labels) := parse_instructions (expand_macros (analysis_body index region 3) (macros index) 4) in
  let succ := build_cfg instructions labels in
  let carry := carry_abi (doc region) in
  let flags := analyse_flags instructions succ carry in
  ["";
   "NZCV: carry-flag return ABI  : " +:+ yes_no carry;
   "NZCV: live at ret            : " +:+ yes_no (live_at_ret flags);
   "NZCV: writers / readers      : " +:+ count_of defines_flags instructions +:+ " / " +:+ count_of uses_flags instructions;
   "back edges (loops)           : " +:+ str_nat (length (back_edges succ))]%string
  ++ (if fa_carry_abi flags then
        let reaching := sorted_str ((fun d => norm_text (instructions !!! d))
                                    <$> base.elements (default ∅ (dict_get (reaching flags) (-1)))) in
        ["NZCV at ret set by           : " +:+ or_else (join ", " reaching) "nothing"]
      else []).

(** [main]: the lines printed and the exit status. *)
Definition abi_main (files : tree) (linux : bool) (source resolved fn : string) (flags : bool) : result (list string * Z) :=
  let '(index, region) := find_region files linux resolved fn in
  match region with
  | None => Raise (SystemExit ("function " +:+ fn +:+ " not found in " +:+ source))
  | Some region =>
      warnings ← check_region (load_macros files linux) index region;
      let errors := filter (fun w => severity w = "error") warnings in
      Ret ((render <$> warnings) ++ (if flags then flag_lines index region else [])
           ++ [nl +:+ str_nat (length warnings) +:+ " warning(s), " +:+ str_nat (length errors) +:+ " error(s)"],
           if bool_decide (errors = []) then 0 else 1)
  end.

(** ** asmparse.py --self-test *)

Definition MUST_HAVE : list string :=
  ["h2_stream_find"; "h2_process_request"; "p256_reduce"; "memcpy"; "aes_gcm_encrypt"]%string.
Definition MUST_NOT_HAVE : list string := ["h2_streams"; "h2_stream_ids"]%string.

(** The symbols the macros of the tree declare. *)
Definition declared_symbols (files : tree) : nat :=
  sum_of (fun f : string * string => count_if (fun raw => bool_decide (is_Some (symbol_macro (strip_comment raw)))) (splitlines f.2))
         (filter (fun f : string * string => base_name f.1 ∉ SKIP_FILES) files).

Definition exported (index : SourceIndex) : list string :=
  sorted_str (filter (fun n => startswith "." n = false) (dict_keys (all_by_name index))).

Definition self_test_failures (index : SourceIndex) (declared : nat) : list string :=
  (if (length (exported index) <? declared / 2)%nat
   then ["only " +:+ str_nat (length (exported index)) +:+ " exported regions for " +:+ str_nat declared
         +:+ " FUNC/OBJECT declarations -- region discovery is not seeing the tree"]
   else [])
  ++ ((fun n => n +:+ " missing from the index") <$> filter (fun n => n ∉ dict_keys (all_by_name index)) MUST_HAVE)
  ++ ((fun n => n +:+ " is data but was indexed as a region") <$> filter (fun n => n ∈ dict_keys (all_by_name index)) MUST_NOT_HAVE).

(** [self_test] on the host platform [linux] *)
Definition self_test (files : tree) (linux : bool) : list string * Z :=
  let index := index_source files linux in
  let declared := declared_symbols files in
  match self_test_failures index declared with
  | [] => (["OK: " +:+ str_nat (length (exported index)) +:+ " exported regions from " +:+ str_nat declared
            +:+ " FUNC/OBJECT declarations"], 0)
  | failures => ((fun line => "FAIL: " +:+ line) <$> failures, 1)
  end.

(** ** syscall_audit.py *)

Definition colour (code s : string) : string := String "027" ("[0;" +:+ code +:+ "m") +:+ s +:+ String "027" "[0m".
Definition GRN : string -> string := colour "32".
Definition RED : string -> string := colour "31".
Definition YEL : string -> string := colour "33".

(** [bin_used]: the names the binary calls, with the addresses. *)
Definition binary_uses (names : list (Z * string)) (sites : list site) : list (string * list string) :=
  for_each sites [] (fun d '(num, _, addr) =>
    match num with None => d | Some num => append_to d (site_name names num) addr end).

(** [{k: v for k, v in sorted(d.items())}] *)
Definition sorted_dict (d : list (string * list string)) : list (string * list string) :=
  (fun k => (k, default [] (dict_get d k))) <$> sorted_str (dict_keys d).
Definition json_uses (d : list (string * list string)) : json :=
  JObj ((fun kv => (kv.1, JList (JStr <$> kv.2))) <$> sorted_dict d).
Definition json_strs (l : list string) : json := JList (JStr <$> l).

(** What [main] has gathered when it reports. *)
Record audit_run : Type := mkAudit {
  au_platform : platform;
  au_allowed : list string;
  au_sites : list (string * string * nat);
  au_binary : option (list (string * list string));    (* [None] with [--skip-binary] *)
  au_failures : list string
}.
Definition au_source (r : audit_run) : list (string * list string) := source_uses (au_sites r).
Definition platform_name (p : platform) : string := match p with Linux => "linux" | Macos => "macos" end.
Definition unused (r : audit_run) : list string :=
  sorted_str (filter (fun n => n ∉ dict_keys (au_source r)) (au_allowed r)).

(** The gathering half of [main]; [disassembly] is what [disassemble] returns
    or raises. *)
Definition gather (p : platform) (defs_path defs allowlist : string) (files : list (string * string))
  (disassembly : option (result string)) : result audit_run :=
  t ← parse_defs defs_path defs;
  let allowed := parse_allowlist allowlist in
  let sites := scan_source files defs_path in
  let from_source := source_failures allowed (source_uses sites) in
  match disassembly with
  | None => Ret (mkAudit p allowed sites None from_source)
  | Some d =>
      text ← d;
      bsites ← scan_binary text (NUM_REG p);
      Ret (mkAudit p allowed sites (Some (binary_uses (names_of t p) bsites))
             (from_source ++ binary_failures allowed (names_of t p) (NUM_REG p) (source_uses sites) bsites))
  end.

(** [report], printed by [--json] *)
Definition report (r : audit_run) : json :=
  JObj ([("platform", JStr (platform_name (au_platform r)));
         ("allowlist", json_strs (sorted_str (au_allowed r)));
         ("source", json_uses (au_source r));
         ("allowlist_unused", json_strs (unused r))]
        ++ (match au_binary r with Some used => [("binary", json_uses used)] | None => [] end)
        ++ [("failures", json_strs (au_failures r)); ("ok", JBool (bool_decide (au_failures r = [])))]).

Definition mark (allowed : list string) (n : string) : string :=
  if bool_decide (n ∈ allowed) then GRN "✓" else RED "✗".
Definition use_line (r : audit_run) (what : string) (used : list (string * list string)) (n : string) : string :=
  "    " +:+ mark (au_allowed r) n +:+ " " +:+ ljust 16 n +:+ " " +:+ str_nat (length (default [] (dict_get used n))) +:+ what.

Definition details (r : audit_run) (binary_path : string) : list string :=
  ["";
   "── syscall audit (" +:+ platform_name (au_platform r) +:+ ", number register " +:+ NUM_REG (au_platform r) +:+ ") ──";
   "";
   "  source — " +:+ str_nat (length (au_sites r)) +:+ " SCWINUM sites, " +:+ str_nat (length (au_source r)) +:+ " distinct syscalls"]
  ++ (use_line r " site(s)" (au_source r) <$> sorted_str (dict_keys (au_source r)))
  ++ (match au_binary r with
      | None => []
      | Some used =>
          [""; "  binary — " +:+ binary_path] ++ (use_line r " svc site(s)" used <$> sorted_str (dict_keys used))
          ++ [""; "  forbidden set (open/openat/execve/unlink/…): "
                  +:+ (if forallb (fun n => negb (bool_decide (n ∈ FORBIDDEN))) (dict_keys used) then GRN "absent" else RED "PRESENT")]
      end)
  ++ (match unused r with
      | [] => []
      | l => [""; "  " +:+ YEL "allowlisted but never called" +:+ ": " +:+ join ", " l]
      end)
  ++ [""].

(** The reporting half of [main]: the lines and the exit status. *)
Definition audit_output (r : audit_run) (json_out quiet : bool) (binary_path : string) : list string * Z :=
  let status := if bool_decide (au_failures r = []) then 0 else 1 in
  if json_out then ([dumps 0 (report r)], status) else
  let lines := (if quiet then [] else details r binary_path) ++ ((fun f => "  " +:+ RED "✗" +:+ " " +:+ f) <$> au_failures r) in
  match au_failures r with
  | _ :: _ => (lines ++ [""; RED ("syscall audit failed (" +:+ str_nat (length (au_failures r)) +:+ " finding(s))")], status)
  | [] =>
      (lines ++ [if quiet
                 then "  " +:+ GRN "✓" +:+ " syscall audit: "
                      +:+ str_nat (length (match au_binary r with Some (u :: used) => u :: used | _ => au_source r end))
                      +:+ " syscalls, all allowlisted, no filesystem access"
                 else GRN "syscall audit passed"], status)
  end.

(** [main].  A binary that does not exist is reported on the other stream. *)
Definition audit_main (p : platform) (defs_path defs allowlist : string) (files : list (string * string))
  (skip json_out quiet : bool) (binary_path : string) (exists_ : bool) (disassembly : result string) : result (list string * Z) :=
  if negb skip && negb exists_ then
    _ ← parse_defs defs_path defs;
    Ret (["syscall_audit: " +:+ binary_path +:+ " not found — run 'make' first"], 2)
  else
    r ← gather p defs_path defs allowlist files (if skip then None else Some disassembly);
    Ret (audit_output r json_out quiet binary_path).

(** ** Lemmas: the region asked for *)

Lemma append_all_get {X} (f : X -> string) l (d : list (string * list X)) n :
  default [] (dict_get (for_each l d (fun d r => append_to d (f r) r)) n)
  = default [] (dict_get d n) ++ filter (fun r => f r = n) l.
Proof.
  revert d. induction l as [|r l IH]; intros d; [by rewrite app_nil_r|].
  change (for_each (r :: l) d (fun d r => append_to d (f r) r)) with (for_each l (append_to d (f r) r) (fun d r => append_to d (f r) r)).
  rewrite IH, append_to_get. destruct (decide (n = f r)) as [->|Hne].
  - rewrite filter_cons_True by done. cbn [default id]. by rewrite <- app_assoc.
  - by rewrite filter_cons_False by congruence.
Qed.

Lemma named_regions files linux n :
  default [] (dict_get (all_by_name (index_source files linux)) n) = filter (fun r => name r = n) (regions (index_source files linux)).
Proof.
  unfold index_source. cbv zeta. destruct (for_each _ ([], [], []) _) as [[cs ca] tc]. cbn [all_by_name regions].
  exact (append_all_get name _ [] n).
Qed.

(** The region [main] checks has the name asked for, and is the one of the
    source file if that has one; there is none only when no file has it. *)
Theorem find_region_spec files linux resolved fn : let index := index_source files linux in
  match (find_region files linux resolved fn).2 with
  | Some r => r ∈ regions index /\ name r = fn
      /\ (path r = resolved \/ forall r', r' ∈ regions index -> name r' = fn -> path r' <> resolved)
  | None => forall r, r ∈ regions index -> name r <> fn
  end.
Proof.
  cbv zeta. unfold find_region. cbn [snd]. rewrite named_regions. set (named := filter (fun r => name r = fn) _).
  assert (forall r, r ∈ named <-> name r = fn /\ r ∈ regions (index_source files linux)) as Hn by (intros r; unfold named; by rewrite list_elem_of_filter).
  destruct (filter (fun r => path r = resolved) named) as [|r l] eqn:E.
  - assert (forall r, r ∈ named -> path r <> resolved) as Hp.
    { intros r Hr Hpath. apply (not_elem_of_nil r). rewrite <- E. by rewrite list_elem_of_filter. }
    destruct named as [|r l] eqn:En; cbn [head].
    + intros r Hr Hname. apply (not_elem_of_nil r). by apply Hn.
    + destruct (proj1 (Hn r) ltac:(left)) as [Hname Hr]. split_and!; [done|done|]. right. intros r' Hr' Hn'. by apply Hp, Hn.
  - assert (r ∈ filter (fun r => path r = resolved) named) as [Hp [Hname Hr]%Hn]%list_elem_of_filter by (rewrite E; left).
    split_and!; [done|done|by left].
Qed.

Lemma no_errors ws : bool_decide (filter (fun w => severity w = "error"%string) ws = []) = negb (has_errors ws).
Proof.
  unfold has_errors. induction ws as [|w ws IH]; [done|]. cbn [existsb]. destruct (severity w =s? "error") eqn:E; [apply seqb_true in E|apply seqb_false in E].
  - by rewrite filter_cons_True by done.
  - by rewrite filter_cons_False by done.
Qed.

(** The status is that of the warnings found, each of which is printed. *)
Theorem abi_main_status files linux source resolved fn flags lines st :
  abi_main files linux source resolved fn flags = Ret (lines, st) ->
  exists region ws rest, (find_region files linux resolved fn).2 = Some region
    /\ check_region (load_macros files linux) (index_source files linux) region = Ret ws
    /\ lines = (render <$> ws) ++ rest /\ st = if has_errors ws then 1 else 0.
Proof.
  unfold abi_main. destruct (find_region files linux resolved fn) as [index region] eqn:E.
  assert (index = index_source files linux) as -> by (by injection E).
  destruct region as [region|]; [|done]. cbn [snd].
  destruct (check_region _ _ region) as [ws|e] eqn:Ew; [|done]. rewrite bind_Ret. cbv zeta. rewrite no_errors.
  intros [= <- <-]. exists region, ws. eexists.
  split; [done|]. split; [exact Ew|]. split; [reflexivity|]. by destruct (has_errors ws).
Qed.

(** ** Lemmas: the self-test *)

Lemma append_all_keys {X} (f : X -> string) l (d : list (string * list X)) n :
  n ∈ dict_keys (for_each l d (fun d r => append_to d (f r) r)) <-> n ∈ dict_keys d \/ n ∈ f <$> l.
Proof.
  revert d. induction l as [|r l IH]; intros d.
  - change (n ∈ dict_keys d <-> n ∈ dict_keys d \/ n ∈ []). rewrite elem_of_nil. tauto.
  - change (for_each (r :: l) d (fun d r => append_to d (f r) r)) with (for_each l (append_to d (f r) r) (fun d r => append_to d (f r) r)).
    rewrite IH. unfold append_to. rewrite dict_set_keys, fmap_cons, elem_of_cons. tauto.
Qed.

Lemma indexed files linux n : n ∈ dict_keys (all_by_name (index_source files linux)) <->
  exists r, r ∈ regions (index_source files linux) /\ name r = n.
Proof.
  assert (dict_keys (all_by_name (index_source files linux)) = dict_keys (for_each (regions (index_source files linux)) [] (fun d r => append_to d (name r) r))) as ->.
  { unfold index_source. cbv zeta. by destruct (for_each _ ([], [], []) _) as [[cs ca] tc]. }
  rewrite append_all_keys, list_elem_of_fmap. split; [intros [H|(r & -> & H)]; [by apply not_elem_of_nil in H|by exists r]|].
  intros (r & H & <-). right. by exists r.
Qed.

Lemma told_nil {A} (P : A -> Prop) `{HP : forall x, Decision (P x)} (f : A -> string) l :
  f <$> filter P l = [] <-> forall x, x ∈ l -> ~ P x.
Proof. rewrite <- filter_none. split; [apply fmap_nil_inv|by intros ->]. Qed.

(** The self-test succeeds exactly when the index has regions for half the
    declared symbols, and the functions it names but not the data. *)
Theorem self_test_passes files linux : let index := index_source files linux in
  (self_test files linux).2 = 0 <->
  (declared_symbols files / 2 <= length (exported index))%nat
  /\ (forall n, n ∈ MUST_HAVE -> exists r, r ∈ regions index /\ name r = n)
  /\ (forall n r, n ∈ MUST_NOT_HAVE -> r ∈ regions index -> name r <> n).
Proof.
  cbv zeta. unfold self_test. set (index := index_source files linux).
  assert (self_test_failures index (declared_symbols files) = [] <->
    (declared_symbols files / 2 <= length (exported index))%nat
    /\ (forall n, n ∈ MUST_HAVE -> n ∈ dict_keys (all_by_name index))
    /\ (forall n, n ∈ MUST_NOT_HAVE -> n ∉ dict_keys (all_by_name index))) as H.
  { unfold self_test_failures. rewrite !app_nil, !told_nil.
    assert (forall n, ~ (n ∉ dict_keys (all_by_name index)) <-> n ∈ dict_keys (all_by_name index)) as Hd
      by (intros n; split; [apply dec_stable|auto]).
    setoid_rewrite Hd. destruct (Nat.ltb_spec (length (exported index)) (declared_symbols files / 2)) as [Hl|Hl].
    - split; [by intros [? _]|intros [? _]; lia].
    - tauto. }
  assert ((forall n, n ∈ MUST_HAVE -> exists r, r ∈ regions index /\ name r = n) <->
    (forall n, n ∈ MUST_HAVE -> n ∈ dict_keys (all_by_name index))) as ->.
  { split; intros Hn n Hm; by apply indexed, Hn. }
  assert ((forall n r, n ∈ MUST_NOT_HAVE -> r ∈ regions index -> name r <> n) <->
    (forall n, n ∈ MUST_NOT_HAVE -> n ∉ dict_keys (all_by_name index))) as ->.
  { split; intros Hn n.
    - intros Hm (r & Hr & E)%indexed. by apply (Hn n r).
    - intros r Hm Hr E. apply (Hn n Hm), indexed. by exists r. }
  rewrite <- H. by destruct (self_test_failures index (declared_symbols files)).
Qed.

(** ** The audit *)

Lemma gather_audit p defs_path defs allowlist files disassembly r :
  gather p defs_path defs allowlist files disassembly = Ret r ->
  exists binary, match disassembly, binary with
                 | None, None => True
                 | Some d, Some text => d = Ret text
                 | _, _ => False
                 end /\ audit p defs_path defs allowlist files binary = Ret (au_failures r).
Proof.
  unfold gather, audit. destruct (parse_defs defs_path defs) as [t|]; [|done]. rewrite !bind_Ret. cbv zeta.
  destruct disassembly as [[text|e]|]; [|done|].
  - rewrite bind_Ret. destruct (scan_binary text (NUM_REG p)) as [bs|e] eqn:Eb; [|done]. rewrite bind_Ret.
    intros [= <-]. exists (Some text). split; [done|]. by rewrite bind_Ret, Eb, bind_Ret.
  - intros [= <-]. exists None. by rewrite bind_Ret.
Qed.

(** A run of the command that gets as far as reporting exits with 0 exactly
    when the audit found nothing; its JSON says so, with every failure, and
    as text each failure is a line. *)
Theorem audit_main_status p defs_path defs allowlist files skip json_out quiet binary_path exists_ disassembly lines st :
  skip || exists_ = true ->
  audit_main p defs_path defs allowlist files skip json_out quiet binary_path exists_ disassembly = Ret (lines, st) ->
  exists binary found, (if skip then binary = None else exists text, binary = Some text /\ disassembly = Ret text)
    /\ audit p defs_path defs allowlist files binary = Ret found
    /\ st = (if bool_decide (found = []) then 0 else 1)
    /\ if json_out
       then exists d, lines = [dumps 0 (JObj d)] /\ dict_get d "ok" = Some (JBool (bool_decide (found = [])))
                      /\ dict_get d "failures" = Some (json_strs found)
       else forall f, f ∈ found -> ("  " +:+ RED "✗" +:+ " " +:+ f) ∈ lines.
Proof.
  intros He. unfold audit_main. replace (negb skip && negb exists_) with false by (by destruct skip, exists_).
  destruct (gather _ _ _ _ _ _) as [r|] eqn:E; [|done]. rewrite bind_Ret. intros [= Hout].
  apply gather_audit in E as (binary & Hb & Ha). exists binary, (au_failures r).
  split; [destruct skip, binary as [text|]; try done; by exists text|]. split; [exact Ha|].
  unfold audit_output in Hout. destruct json_out.
  - apply pair_equal_spec in Hout as [<- <-]. split; [done|]. eexists. split; [reflexivity|]. by destruct (au_binary r).
  - cbv zeta in Hout. destruct (au_failures r) as [|f fs]; apply pair_equal_spec in Hout as [<- <-]; (split; [done|]).
    + by intros f Hf%elem_of_nil.
    + intros g Hg. apply elem_of_app. left. apply elem_of_app. right. by apply (list_elem_of_fmap_2 (fun f => "  " +:+ RED "✗" +:+ " " +:+ f)).
Qed.
