(* ===== verification/Derive.v ===== *)
(** * The command lines of the derivations (scripts/*_derivation.py)

    What each script prints for a command, and the status it exits with, on
    top of the models of its parts.  The random generator is an interface; the
    command and its number, already converted, are arguments.  Left out: what
    [prove], [check] and [interop] of the comb report on the way. *)

From Stdlib Require Import Ascii SpecFloat.
From S2P Require Import Prelude PyInt Words Reduce PrimeField Comb FeMul ScalarInv PyStr Emitted GcmCtr PyFloat Vectors Interop Reports.

(** [random.Random(seed)], [randrange] and [getrandbits] *)
Class Random (G : Type) := { seeded : Z -> G; randrange : Z -> Z -> G -> Z * G; getrandbits : Z -> G -> Z * G }.
Class RandomLaws (G : Type) `{Random G} : Prop := {
  randrange_in lo hi g : lo < hi -> lo <= (randrange lo hi g).1 < hi;
  getrandbits_in k g : 0 <= k -> 0 <= (getrandbits k g).1 < 2 ^ k
}.

(** [hex(v)] of a number that is not negative, and [str] of a pair of
    numbers, a list of pairs and a dict *)
Definition py_hex (v : Z) : string := "0x" +:+ hex_pad 0 v.
Definition pair_repr (p : nat * Z) : string := "(" +:+ str_nat p.1 +:+ ", " +:+ str_z p.2 +:+ ")".
Definition pairs_repr (l : list (nat * Z)) : string := "[" +:+ join ", " (pair_repr <$> l) +:+ "]".
Definition dict_repr (d : list (nat * Z)) : string :=
  "{" +:+ join ", " ((fun '(k, v) => str_nat k +:+ ": " +:+ str_z v) <$> d) +:+ "}".

(** The text of printed lines; a run that ends with status 0 *)
Definition text_of (lines : list string) : string := String.concat "" ((fun l => l +:+ nl) <$> lines).
Definition printed (lines : list string) : result (Z * string) := Ret (0, text_of lines).
Definition written (text : string) : result (Z * string) := Ret (0, text).

Section commands.
(** [doc]: the usage text, the script's own documentation *)
Context {G : Type} `{HR : Random G} (doc : string).

Fixpoint draw {A} (n : nat) (f : G -> A * G) (g : G) : list A * G :=
  match n with O => ([], g) | S n => let '(x, g) := f g in let '(l, g) := draw n f g in (x :: l, g) end.
Definition pair_of {A B} (f : G -> A * G) (h : G -> B * G) (g : G) : (A * B) * G :=
  let '(x, g) := f g in let '(y, g) := h g in ((x, y), g).

(** ** p256_reduce_derivation.py *)

Definition derive_lines : list string :=
  ["word i -> {output word j: coeff}  (each checked exactly mod p)"]
  ++ ((fun i => "  " +:+ str_nat i +:+ ": " +:+ dict_repr (TABLE i)) <$> range 8 16)
  ++ [""; "per-output-word contributions:"]
  ++ ((fun j => "  word" +:+ str_nat j +:+ ": " +:+ pairs_repr (WORD_CONTRIBS !!! j)) <$> range 0 8).

Definition reduce_check_step (s : nat * list string) (x : Z) : result (nat * list string) :=
  let '(fails, out) := s in
  got ← reduce_full (reduce_T x);
  let want := x mod P in
  Ret (if got =? want then s
       else (S fails, out ++ ["MISMATCH x=" +:+ py_hex x +:+ " got=" +:+ py_hex got +:+ " want=" +:+ py_hex want])).
Definition cmd_check (n : Z) : result (list string) :=
  let rnd := (draw (Z.to_nat n) (getrandbits 512) (seeded 0xC0FFEE)).1 in
  '(fails, out) ← for_result (edge_cases ++ rnd) (0%nat, []) reduce_check_step;
  Ret (out ++ [str_z n +:+ " random + " +:+ str_nat (length edge_cases) +:+ " edge cases: " +:+ str_nat fails +:+ " failures"]).

Definition reduce_main (cmd : option string) (arg : option Z) : result (Z * string) :=
  let cmd := default "derive" cmd in
  if cmd =s? "derive" then _ ← cmd_derive; printed derive_lines
  else if cmd =s? "bound" then
    '(lo, hi) ← cmd_bound;
    printed ["carry_final exact range: [" +:+ str_z lo +:+ ", " +:+ str_z hi +:+ "]"; "(matches the bound documented in sqr_mul.S)"]
  else if cmd =s? "check" then out ← cmd_check (default 200000 arg); printed out
  else if cmd =s? "gen-test" then written (reduce_test (draw 250 (getrandbits 512) (seeded 0x9E3779B9)).1)
  else Ret (2, text_of [doc]).

(** ** p256_fe_mul_derivation.py *)

(** [count or n] *)
Definition or_default (count n : Z) : Z := if count =? 0 then n else count.

Definition fe_row_line (i : nat) : string :=
  let partial := (Z.shiftl 1 256 - 1) * (Z.shiftl 1 (64 * (Z.of_nat i + 1)) - 1) in
  "  row " +:+ str_nat i +:+ ": max partial 2^" +:+ ljust 7 (fmt_fixed false 3 (round_int (Z.log2 partial + 1)))
  +:+ " < 2^" +:+ ljust 3 (str_z (64 * (Z.of_nat i + 5))) +:+ " capacity  OK".
Definition EXTREME_NAMES : list string :=
  ["all-ones x all-ones"; "all-ones x 1"; "1 x all-ones"; "p-1 x p-1"; "0 x all-ones"; "2^255 x 2^255"; "top limb only"; "low limb only"].
Definition fe_prove_lines : list string :=
  ["── the row bound ──"] ++ (fe_row_line <$> range 0 4)
  ++ ["  so no row carries out of t[i+4]; there is no propagation loop"; "";
      "── umulh headroom (row 0's `adc t4, t4, xzr`) ──"; "  max umulh(x, y) = 2^64-2 = 0x" +:+ hex_pad 16 (Z.shiftr (MASK * MASK) 64) +:+ ", so +1 cannot overflow  OK"; "";
      "── replay the instruction sequence at the extremes ──"]
  ++ ((fun name => "  " +:+ ljust 22 name +:+ " product exact, no assert tripped") <$> EXTREME_NAMES)
  ++ [""; "  every bound the assembly leaves un-instructioned held."].

Definition fe_pairs (count : Z) : list (Z * Z) :=
  let edges := length edge_values in
  (draw (Z.to_nat (count - Z.of_nat (edges * edges))) (pair_of (randrange 0 (Z.shiftl 1 256)) (randrange 0 (Z.shiftl 1 256))) (seeded 20260818)).1.
Definition fe_check (count : Z) : result (list string) :=
  let rnd := fe_pairs (or_default count 20000) in
  let edges := length edge_values in
  _ ← FeMul.check rnd;
  Ret [str_nat (edges * edges + length rnd) +:+ " products match Python's arbitrary-precision a*b, and their reductions match (a*b) % p";
       "  (" +:+ str_nat (edges * edges) +:+ " of them are edge-case pairs, not random)"].
Definition ORDER : Z := 0xFFFFFFFF00000000FFFFFFFFFFFFFFFFBCE6FAADA7179E84F3B9CAC2FC632551.
Definition fe_main (openssl_public : Z -> Z * Z) (cmd : option string) (arg : option Z) : result (Z * string) :=
  let cmd := default "prove" cmd in
  let arg := default 0 arg in
  if cmd =s? "prove" then _ ← FeMul.prove; printed fe_prove_lines
  else if cmd =s? "check" then out ← fe_check arg; printed out
  else if cmd =s? "interop" then
    out ← fe_interop openssl_public (draw (Z.to_nat (or_default arg 40)) (randrange 1 ORDER) (seeded 7)).1; printed out
  else if cmd =s? "gen-test" then
    written (fe_mul_test (draw 30 (pair_of (randrange 0 (Z.shiftl 1 256)) (randrange 0 (Z.shiftl 1 256))) (seeded 31337)).1)
  else Raise (SystemExit doc).

(** ** p256_scalar_inv_derivation.py *)

Definition inv_edges : list Z :=
  [0; 1; 2; ScalarInv.N - 1; ScalarInv.N - 2; RR; MASK; R - 1; Z.shiftl 1 255; ScalarInv.N - Z.shiftl 1 32].
(** The operand pairs of step 3 of [prove] and the scalars of step 4, drawn
    from one generator *)
Definition prove_cases (g : G) : list (Z * Z) * G :=
  let n := ScalarInv.N in
  let edges := a ← inv_edges; b ← inv_edges; [(a mod n, b mod n)] in
  let '(rnd, g) := draw 4000 (pair_of (randrange 0 n) (randrange 0 n)) g in
  let near g := let '(x, g) := randrange 0 (Z.shiftl 1 32) g in (n - 1 - x, g) in
  let '(high, g) := draw 1000 (pair_of near near) g in
  (edges ++ rnd ++ high, g).
Definition prove_scalars (g : G) : list Z :=
  let n := ScalarInv.N in
  [1; 2; 3; n - 1; n - 2; n / 2; R - 1; n; n + 1] ++ (draw 200 (randrange 1 n) g).1.

(** The body of the loop of step 4 *)
Definition prove_inv (a : Z) : result unit :=
  let n := ScalarInv.N in
  let want := py_pow_mod (a mod n) (n - 2) n in
  got ← scalar_inv_hw a;
  _ ← py_assert (got =? want) "inverse";
  if a mod n =? 0 then Ret () else py_assert ((got * a) mod n =? 1) "product".

(** [bin(E).count("1")], and the share of modular products the chain saves *)
Fixpoint ones (p : positive) : Z := match p with xH => 1 | xO p => ones p | xI p => 1 + ones p end.
Definition popcount (v : Z) : Z := match v with Zpos p => ones p | _ => 0 end.
Definition fewer (naive cost : Z) : result string :=
  q ← fdiv (fmul (round_int 100) (round_int (naive - cost))) (round_int naive); Ret (fmt_fixed false 1 q).

Definition inv_prove : result (list string) :=
  let n := ScalarInv.N in
  prog ← build_chain;
  let '(sq, ml) := chain_cost prog in
  let naive := 256 + popcount E in
  pct ← fewer naive (Z.of_nat (sq + ml));
  _ ← prove_chain prog;
  let '(cases, g) := prove_cases (seeded 20260818) in
  '(nsub, maxext) ← prove_products cases;
  let tests := prove_scalars g in
  _ ← for_result tests () (fun _ a => prove_inv a);
  Ret ["n      = " +:+ py_hex n; "n-2    = " +:+ py_hex E; "R^2%n  = " +:+ py_hex RR; "n0inv  = " +:+ py_hex N0INV; "";
       "chain: " +:+ str_nat (length prog) +:+ " instructions, " +:+ str_nat sq +:+ " squarings + " +:+ str_nat ml
         +:+ " multiplies = " +:+ str_nat (sq + ml) +:+ " modular multiplications";
       "       (square-and-multiply over the bits of n-2 is 256 + " +:+ str_z (popcount E) +:+ " = " +:+ str_z naive
         +:+ ", so " +:+ pct +:+ "% fewer)"; "";
       "[1] chain exponent == n-2 exactly (integer-exponent replay)";
       "[2] every read is of an already-written slot; each ones<k> slot holds 2^k - 1";
       "[3] Montgomery model held on " +:+ str_nat (length cases) +:+ " products (" +:+ str_nat nsub
         +:+ " needed the conditional subtract, max 5th word = " +:+ str_z maxext +:+ ")";
       "[4] hardware-faithful inversion == pow(a, n-2, n) on " +:+ str_nat (length tests)
         +:+ " inputs, including a >= n and a == n"; ""; "all proofs passed"].

Definition check_scalars (count : Z) : list Z :=
  let n := ScalarInv.N in
  [0; 1; 2; n - 1; n - 2; n; n + 1; R - 1; RR] ++ (draw (Z.to_nat count) (randrange 1 n) (seeded 4242)).1.
Definition inv_check (count : Z) : result (list string) :=
  let vals := check_scalars (or_default count 2000) in
  _ ← ScalarInv.check vals;
  Ret [str_nat (length vals) +:+ " inversions match pow(a mod n, n-2, n)"].

(** [signatures n]: what OpenSSL signs for the [n] messages of [interop] *)
Definition inv_main (signatures : nat -> list signature) (cmd : option string) (arg : option Z) : result (Z * string) :=
  let cmd := default "check" cmd in
  let n := ScalarInv.N in
  if cmd =s? "prove" then out ← inv_prove; printed out
  else if cmd =s? "check" then out ← inv_check (default 0 arg); printed out
  else if cmd =s? "interop" then out ← inv_interop (signatures (Z.to_nat (or_default (default 0 arg) 200))); printed out
  else if cmd =s? "gen-chain" then text ← gen_chain; printed [text]
  else if cmd =s? "gen-test-mont" then
    text ← mont_test (draw 30 (pair_of (randrange 0 n) (randrange 0 n)) (seeded 1234)).1; printed [text]
  else if cmd =s? "gen-test-inv" then text ← inv_test (draw 24 (randrange 1 n) (seeded 777)).1; printed [text]
  else Ret (2, text_of [doc]).

(** ** p256_comb_derivation.py *)

(** The module's own generator, in state [g], draws for [prove] and [check]. *)
Definition short_scalars (g : G) : list Z * G :=
  for_each [1; 4; 5; 8; 63; 64; 65; 128] ([], g) (fun '(l, g) b => let '(l', g) := draw 4 (getrandbits b) g in (l ++ l', g)).
Definition status (ok : bool) : Z := if ok then 0 else 1.
Definition comb_main (openssl_public : Z -> Z * Z) (fuel : nat) (g : G) (cmd : option string) (arg : option Z) : result (Z * string) :=
  let cmd := default "check" cmd in
  let n := Comb.N in
  if cmd =s? "prove" then ok ← Comb.prove (draw 200 (getrandbits 256) g).1; Ret (status ok, "")
  else if cmd =s? "check" then
    let '(rnd, g) := draw (Z.to_nat (default 2000 arg)) (getrandbits 256) g in
    ok ← Comb.check (rnd ++ (short_scalars g).1); Ret (status ok, "")
  else if cmd =s? "interop" then
    '(ok, out) ← comb_interop openssl_public (draw (Z.to_nat (default 500 arg)) (randrange 1 n) g).1; Ret (status ok, text_of out)
  else if cmd =s? "gen-table" then text ← gen_table; written text
  else if cmd =s? "gen-test-madd" then text ← madd_test randrange fuel (seeded 20260818); written text
  else if cmd =s? "gen-test-mulb" then
    let '(ks, g) := draw 12 (randrange 1 n) (seeded 20260819) in
    let '(short, _) := for_each [4; 8; 64; 200] ([], g) (fun '(l, g) b => let '(k, g) := getrandbits b g in (l ++ [k], g)) in
    text ← mulb_test (ks ++ short); written text
  else Ret (2, text_of [doc]).
End commands.

(** ** gcm_ctr_sweep_derivation.py *)

Section gcm.
Context (ek : list Z -> list Z -> list Z) (openssl_seal : list Z -> list Z -> list Z -> list Z -> list Z * list Z).

(** [main]; [counters] and [messages] are the random cases of its checks.
    What it prints on the error stream, and about a mismatch, is left out. *)
Definition gcm_main (self_test_only : bool) (counters : list (list Z * nat * Z)) (messages : list (list Z * list Z * list Z * list Z))
  : result (Z * string) :=
  cfails ← check_counter_model counters;
  let sfails := GcmCtr.self_test ek openssl_seal messages in
  if negb (cfails =? 0)%nat || negb (sfails =? 0)%nat then Ret (1, "")
  else if self_test_only then Ret (0, "")
  else text ← sweep_test ek openssl_seal; printed [text].
End gcm.

(** ** The checks of the scripts cannot fail *)

Section checks.
Context {G : Type} `{HR : Random G} `{HL : !RandomLaws G} (doc : string).

Lemma draw_forall {A} (P : A -> Prop) n (f : G -> A * G) : (forall g, P (f g).1) -> forall g, Forall P (draw n f g).1.
Proof.
  intros Hf. induction n as [|n IH]; intros g; [constructor|]. cbn [draw]. pose proof (Hf g) as Hx. destruct (f g) as [x g1].
  pose proof (IH g1) as Hl. destruct (draw n f g1) as [l g2]. by constructor.
Qed.
Lemma pair_forall {A B} (P : A -> Prop) (Q : B -> Prop) (f : G -> A * G) (h : G -> B * G) :
  (forall g, P (f g).1) -> (forall g, Q (h g).1) -> forall g, P (pair_of f h g).1.1 /\ Q (pair_of f h g).1.2.
Proof. intros Hf Hh g. unfold pair_of. pose proof (Hf g). destruct (f g) as [x g1]. pose proof (Hh g1). by destruct (h g1). Qed.

(** ... of the reduction: no mismatch, whatever is drawn. *)
Lemma edge_cases_bound : Forall (fun x => 0 <= x < 2 ^ 512) edge_cases.
Proof.
  assert (forallb (fun x => (0 <=? x) && (x <? 2 ^ 512)) edge_cases = true) as H by (vm_compute; reflexivity).
  apply list.Forall_forall. intros x Hx. rewrite forallb_forall in H. apply list_elem_of_In in Hx. specialize (H x Hx). lia.
Qed.
Lemma reduce_checks l : Forall (fun x => 0 <= x < 2 ^ 512) l -> for_result l (0%nat, []) reduce_check_step = Ret (0%nat, []).
Proof.
  induction 1 as [|x l Hx _ IH]; [done|]. cbn [for_result]. assert (reduce_check_step (0%nat, []) x = Ret (0%nat, [])) as ->; [|exact IH].
  assert (length (reduce_T x) = 8%nat /\ Forall word (reduce_T x)) as [Hl Hw] by (split; [done|apply limbs_word]).
  unfold reduce_check_step. rewrite reduce_full_correct by done. rewrite bind_Ret. cbv zeta. by rewrite reduce_T_value, Z.eqb_refl.
Qed.
Lemma cmd_check_clean n : cmd_check n = Ret [str_z n +:+ " random + " +:+ str_nat (length edge_cases) +:+ " edge cases: 0 failures"].
Proof.
  unfold cmd_check. rewrite reduce_checks; [done|]. apply list.Forall_app. split; [apply edge_cases_bound|].
  apply draw_forall. intros g. by apply getrandbits_in.
Qed.

(** ... of the inversion *)
Lemma prove_inv_ok a : prove_inv a = Ret ().
Proof.
  unfold prove_inv. pose proof (fermat_inverse a) as Hf. cbv zeta in Hf. pose proof N_range. rewrite scalar_inv_exact, bind_Ret.
  rewrite py_pow_mod_spec by lia. rewrite Z.eqb_refl. destruct (decide (a mod ScalarInv.N = 0)) as [->|Hn]; [done|].
  apply Z.eqb_neq in Hn. by rewrite Hn, Hf.
Qed.
Lemma prove_cases_below g : Forall (fun ab => 0 <= ab.1 < ScalarInv.N /\ 0 <= ab.2 < ScalarInv.N) (prove_cases g).1.
Proof.
  unfold prove_cases. cbv zeta. pose proof N_range as HN. set (n := ScalarInv.N) in *.
  assert (2 ^ 32 < n) as Hn by (subst n; vm_compute; reflexivity). clearbody n.
  pose proof (draw_forall (fun ab => 0 <= ab.1 < n /\ 0 <= ab.2 < n) 4000 (pair_of (randrange 0 n) (randrange 0 n))) as H1.
  destruct (draw 4000 _ g) as [rnd g1] eqn:E1.
  match goal with |- context [draw 1000 ?f g1] => pose proof (draw_forall (fun ab => 0 <= ab.1 < n /\ 0 <= ab.2 < n) 1000 f) as H2; destruct (draw 1000 f g1) as [high g2] eqn:E2 end.
  cbn [fst]. rewrite !list.Forall_app. split; [|split].
  - apply list.Forall_forall. intros [a b] H. apply list_elem_of_bind in H as (x & H & _). apply list_elem_of_bind in H as (y & H & _).
    apply list_elem_of_singleton in H as [= -> ->]. cbn [fst snd]. split; apply Z.mod_pos_bound; lia.
  - specialize (H1 (pair_forall (fun x => 0 <= x < n) (fun x => 0 <= x < n) _ _ (fun g => randrange_in 0 n g ltac:(lia)) (fun g => randrange_in 0 n g ltac:(lia))) g). by rewrite E1 in H1.
  - assert (forall g, 0 <= (let '(x, g) := randrange 0 (Z.shiftl 1 32) g in (n - 1 - x, g)).1 < n) as Hnear.
    { intros g0. pose proof (randrange_in 0 (Z.shiftl 1 32) g0 ltac:(done)) as Hx. destruct (randrange _ _ g0). cbn [fst] in *.
      change (Z.shiftl 1 32) with (2 ^ 32) in Hx. lia. }
    specialize (H2 (pair_forall (fun x => 0 <= x < n) (fun x => 0 <= x < n) _ _ Hnear Hnear) g1). by rewrite E2 in H2.
Qed.
Lemma fe_check_ok count : exists out, fe_check count = Ret out.
Proof. unfold fe_check. generalize (fe_pairs (or_default count 20000)) as rnd. intros rnd. destruct (check_never_fails rnd) as [-> _]. by eexists. Qed.
Lemma inv_check_ok count : exists out, inv_check count = Ret out.
Proof.
  unfold inv_check. generalize (check_scalars (or_default count 2000)) as vals. intros vals.
  destruct (inv_checks_never_fail vals [] (list.Forall_nil_2 _)) as [-> _]. by eexists.
Qed.
Lemma inv_prove_ok : exists out, inv_prove = Ret out.
Proof.
  unfold inv_prove. cbv zeta. pose proof (prove_cases_below (seeded 20260818)) as Hc. destruct (prove_cases _) as [cases g]. cbn [fst] in Hc.
  destruct (inv_checks_never_fail [] cases Hc) as (_ & H2 & nsub & maxext & H3 & _).
  destruct build_chain as [prog|]; [|done]. rewrite bind_Ret in H2. rewrite bind_Ret. destruct (chain_cost prog) as [sq ml].
  assert (forall cost, exists pct, fewer (256 + popcount E) cost = Ret pct) as Hf by (intros cost; eexists; unfold fewer, fdiv; reflexivity).
  destruct (Hf (Z.of_nat (sq + ml))) as [pct ->]. rewrite bind_Ret, H2, bind_Ret, H3, bind_Ret.
  assert (forall l, for_result l () (fun _ a => prove_inv a) = Ret ()) as ->; [|by eexists].
  induction l as [|a l IH]; [done|]. cbn [for_result]. by rewrite prove_inv_ok.
Qed.

(** The scripts accept their own models. Whatever the random generator draws
    in its range, [derive], [bound], [check] and [gen-test] of the reduction,
    [prove], [check] and [gen-test] of the field product, and all commands of
    the inversion but the comparison with OpenSSL exit with 0: no assertion
    of them fails; and [check] of the reduction prints no mismatch. *)
Theorem derivations_accept openssl_public signatures cmd arg :
  (cmd ∈ ["derive"; "bound"; "check"; "gen-test"] -> exists out, reduce_main doc (Some cmd) arg = Ret (0, out))
  /\ (forall n, cmd_check n = Ret [str_z n +:+ " random + " +:+ str_nat (length edge_cases) +:+ " edge cases: 0 failures"])
  /\ (cmd ∈ ["prove"; "check"; "gen-test"] -> exists out, fe_main doc openssl_public (Some cmd) arg = Ret (0, out))
  /\ (cmd ∈ ["prove"; "check"; "gen-chain"; "gen-test-mont"; "gen-test-inv"] ->
      exists out, inv_main doc signatures (Some cmd) arg = Ret (0, out)).
Proof.
  assert (forall l (P : string -> Prop), Forall P l -> cmd ∈ l -> P cmd) as Hall by (intros l P H; by apply list.Forall_forall).
  split; [|split; [apply cmd_check_clean|split]]; intros Hc; pattern cmd; refine (Hall _ _ _ Hc); clear Hc Hall; repeat (apply list.Forall_cons; split); try apply list.Forall_nil_2; cbv beta.
  - eexists. unfold reduce_main. cbn [default String.eqb]. assert (cmd_derive = Ret ()) as -> by (vm_compute; reflexivity). reflexivity.
  - eexists. unfold reduce_main. assert (cmd_bound = Ret (-4, 4)) as -> by (vm_compute; reflexivity). reflexivity.
  - eexists. unfold reduce_main. rewrite cmd_check_clean. reflexivity.
  - eexists. reflexivity.
  - eexists. unfold fe_main. replace FeMul.prove with (Ret ()) by (symmetry; exact FeMul.prove_ok). reflexivity.
  - destruct (fe_check_ok (default 0 arg)) as [out E]. eexists. unfold fe_main. rewrite E. reflexivity.
  - eexists. reflexivity.
  - destruct inv_prove_ok as [out E]. eexists. unfold inv_main. rewrite E. reflexivity.
  - destruct (inv_check_ok (default 0 arg)) as [out E]. eexists. unfold inv_main. rewrite E. reflexivity.
  - pose proof emitted_image as H. destruct gen_chain as [text|] eqn:E; [|done]. exists (text_of [text]). unfold inv_main. by rewrite E.
  - destruct (mont_test_passes (draw 30 (pair_of (randrange 0 ScalarInv.N) (randrange 0 ScalarInv.N)) (seeded 1234)).1) as (text & E & _).
    { pose proof N_range. apply draw_forall. apply (pair_forall scalar_below scalar_below); intros g; apply randrange_in; lia. }
    exists (text_of [text]). unfold inv_main. by rewrite E.
  - destruct (inv_test_passes (draw 24 (randrange 1 ScalarInv.N) (seeded 777)).1) as (text & E & _).
    { apply draw_forall. intros g. pose proof N_range. pose proof (randrange_in 1 ScalarInv.N g ltac:(lia)) as Hr. unfold u256. lia. }
    exists (text_of [text]). unfold inv_main. by rewrite E.
Qed.
End checks.
